(** * avro_streamer: an incremental Avro OCF transcoder

    A shallow embedding of [avro_streamer/avro_streamer.py] (classes
    [GenericStreamingAvroParser] and [GenericStrippingAvroParser]) and the
    properties of it that the specification states.

    Python values are modelled as follows.
    - A Python 2 [str] used as a byte buffer is a [list byte].
    - A Python integer is a [Z]; bit operations are the [Z] ones, which agree
      with Python's on arbitrary-precision two's complement integers.
    - A slice [s[i:j]] is [py_slice], with Python's treatment of negative and
      out-of-range indices.
    - An exception is a value of [exn]; a method that can raise returns a
      [res], and a method of the parser object is a function from the object's
      fields to a result together with the (possibly updated) fields, so that
      the mutations done before a [raise] stay visible afterwards. *)

From Stdlib Require Import ZArith String Ascii List Bool Lia.
From Stdlib Require Import Strings.Byte.
Import ListNotations.

Local Open Scope string_scope.
Local Open Scope list_scope.
Local Open Scope Z_scope.
#[local] Set Warnings "-register-all".


(** ** Bytes and Python sequence operations *)

Definition bytes := list byte.

Definition ord (c : byte) : Z := Z.of_N (Byte.to_N c).

(** A byte-string literal. *)
Definition bstr (s : string) : bytes := list_byte_of_string s.

Definition len {A} (s : list A) : Z := Z.of_nat (List.length s).

(** Python's normalisation of a slice bound against a sequence of [n]
    elements: a negative bound counts from the end, and the result is clamped
    to [0..n]. *)
Definition py_index (n i : Z) : Z :=
  if i <? 0 then Z.max (i + n) 0 else Z.min i n.

(** [s[i:j]] *)
Definition py_slice {A} (s : list A) (i j : Z) : list A :=
  let lo := py_index (len s) i in
  let hi := py_index (len s) j in
  firstn (Z.to_nat (hi - lo)) (skipn (Z.to_nat lo) s).

(** [s[i:]] *)
Definition py_slice_from {A} (s : list A) (i : Z) : list A :=
  skipn (Z.to_nat (py_index (len s) i)) s.

(** [s[:j]] *)
Definition py_slice_to {A} (s : list A) (j : Z) : list A :=
  firstn (Z.to_nat (py_index (len s) j)) s.

Definition bytes_eqb (x y : bytes) : bool :=
  if list_eq_dec Byte.byte_eq_dec x y then true else false.

(** ** JSON values, as [json.loads] returns them *)

Inductive json : Type :=
| JNull
| JBool (v : bool)
| JInt (n : Z)
| JFloat (literal : string)
| JStr (s : string)
| JArr (items : list json)
| JObj (members : list (string * json)).

(** ** Exceptions *)

Inductive failure : Type :=
| InvalidHeaderMagic
| SyncMarkerMismatch
| UnsupportedDataType (t : json)
| UnsupportedCodec (codec : option bytes)
| UnknownCodec (codec : option bytes).

Inductive pyerror : Type :=
| IndexError | KeyError | TypeError | ValueError | OverflowError
| StructError | RuntimeError | LibraryError.

Inductive exn : Type :=
| AvroInsufficientDataException
| AvroParsingFailureException (message : failure)
| StopIteration
| PyError (e : pyerror)
| OutOfFuel.

Inductive res (A : Type) : Type :=
| Ok (a : A)
| Raise (e : exn).

Arguments Ok {A} a.
Arguments Raise {A} e.

Definition rbind {A B} (r : res A) (k : A -> res B) : res B :=
  match r with
  | Ok a => k a
  | Raise e => Raise e
  end.

Declare Scope res_scope.
Delimit Scope res_scope with res.
Notation "x <- r ;; k" := (rbind r (fun x => k))
  (at level 61, r at next level, right associativity) : res_scope.
Notation "' p <- r ;; k" := (rbind r (fun p => k))
  (at level 61, p pattern, r at next level, right associativity) : res_scope.

(** ** Primitive codec *)

(** [pack('B', v)]: one unsigned byte; [struct.error] out of range. *)
Definition pack_B (v : Z) : res byte :=
  if (0 <=? v) && (v <=? 255) then
    match Byte.of_N (Z.to_N v) with
    | Some c => Ok c
    | None => Raise (PyError StructError)
    end
  else Raise (PyError StructError).

(** The [while] loop of [_encode_long]. The loop runs as long as a bit above
    the low seven is set, which for a negative argument is for ever; [fuel]
    bounds the iterations, and [encode_long_total] shows that the fuel
    [_encode_long] passes is never exhausted. *)
Fixpoint encode_loop (fuel : nat) (toenc : Z) (encoded : bytes) : res bytes :=
  if Z.land toenc (Z.lnot 0x7F) =? 0 then
    (c <- pack_B toenc ;; Ok (encoded ++ [c]))%res
  else
    match fuel with
    | O => Raise OutOfFuel
    | S fuel' =>
        (c <- pack_B (Z.lor (Z.land toenc 0x7f) 0x80) ;;
         encode_loop fuel' (Z.shiftr toenc 7) (encoded ++ [c]))%res
    end.

Definition zigzag (toenc : Z) : Z :=
  Z.lxor (Z.shiftl toenc 1) (Z.shiftr toenc 63).

Definition _encode_long (toenc : Z) : res bytes :=
  let toenc := zigzag toenc in
  encode_loop (Z.to_nat (Z.log2 toenc)) toenc [].

Definition unzigzag (n : Z) : Z :=
  Z.lxor (Z.shiftr n 1) (- Z.land n 1).

(** The [while] loop of [_read_long]; [rest] is [buffered[ind:]], and [c] is
    the byte read last (named [b] in the source). *)
Fixpoint read_long_loop (rest : bytes) (blen c ind n shift : Z)
  : res (Z * Z) :=
  if Z.land c 0x80 =? 0 then Ok (unzigzag n, ind)
  else if blen <=? ind then Raise AvroInsufficientDataException
  else
    match rest with
    | [] => Raise (PyError IndexError)
    | x :: rest' =>
        let c := ord x in
        read_long_loop rest' blen c (ind + 1)
          (Z.lor n (Z.shiftl (Z.land c 0x7F) shift)) (shift + 7)
    end.

Definition _read_long (buffered : bytes) (blen : Z) : res (Z * Z) :=
  if blen =? 0 then Raise AvroInsufficientDataException
  else
    match buffered with
    | [] => Raise (PyError IndexError)
    | x :: rest =>
        let c := ord x in
        read_long_loop rest blen c 1 (Z.land c 0x7F) 7
    end.

Definition _read_bytes (buffered : bytes) (blen : Z) : res (bytes * Z) :=
  ('(slen, bused) <- _read_long buffered blen ;;
   if blen <? slen + bused then Raise AvroInsufficientDataException
   else
     let readstr := py_slice buffered bused (bused + slen) in
     Ok (readstr, slen + bused))%res.


(** ** Python operations on JSON values

    Only the operations the parser performs on the schema are modelled; each
    raises what Python raises when the value has the wrong type. *)

Definition hashable (x : json) : bool :=
  match x with
  | JArr _ | JObj _ => false
  | _ => true
  end.

(** Equality of two hashable values used as dictionary keys. (Python also
    identifies [1], [1.0] and [True] as keys; no lookup of the parser uses a
    key that is not a string, so this is left out.) *)
Definition key_eqb (x y : json) : bool :=
  match x, y with
  | JNull, JNull => true
  | JBool u, JBool v => Bool.eqb u v
  | JInt m, JInt n => m =? n
  | JFloat u, JFloat v => String.eqb u v
  | JStr u, JStr v => String.eqb u v
  | _, _ => false
  end.

(** A Python [dict], in insertion order. *)
Definition pydict := list (json * json).

Fixpoint dict_get (d : pydict) (k : json) : option json :=
  match d with
  | [] => None
  | (k', v) :: d' => if key_eqb k' k then Some v else dict_get d' k
  end.

Fixpoint dict_set (d : pydict) (k v : json) : pydict :=
  match d with
  | [] => [(k, v)]
  | (k', v') :: d' =>
      if key_eqb k' k then (k', v) :: d' else (k', v') :: dict_set d' k v
  end.

Fixpoint members_get (ms : list (string * json)) (k : string) : option json :=
  match ms with
  | [] => None
  | (k', v) :: ms' => if String.eqb k' k then Some v else members_get ms' k
  end.

Fixpoint members_set (ms : list (string * json)) (k : string) (v : json)
  : list (string * json) :=
  match ms with
  | [] => [(k, v)]
  | (k', v') :: ms' =>
      if String.eqb k' k then (k', v) :: ms' else (k', v') :: members_set ms' k v
  end.

Definition chars (s : string) : list json :=
  map (fun c => JStr (String c EmptyString)) (list_ascii_of_string s).

(** [iter(x)] *)
Definition py_iter (x : json) : res (list json) :=
  match x with
  | JArr items => Ok items
  | JObj ms => Ok (map (fun kv => JStr (fst kv)) ms)
  | JStr s => Ok (chars s)
  | _ => Raise (PyError TypeError)
  end.

(** One element of the sequence given to [dict(...)]: it must be iterable,
    have two items, and the first must be hashable. *)
Definition dict_item (x : json) : res (json * json) :=
  (items <- py_iter x ;;
   match items with
   | [k; v] => if hashable k then Ok (k, v) else Raise (PyError TypeError)
   | _ => Raise (PyError ValueError)
   end)%res.

Fixpoint dict_of_items (items : list json) (d : pydict) : res pydict :=
  match items with
  | [] => Ok d
  | x :: items' =>
      ('(k, v) <- dict_item x ;; dict_of_items items' (dict_set d k v))%res
  end.

(** [dict(x)]: a shallow copy of a dictionary, or a dictionary built from a
    sequence of pairs. *)
Definition py_dict (x : json) : res pydict :=
  match x with
  | JObj ms => Ok (map (fun kv => (JStr (fst kv), snd kv)) ms)
  | JArr items => dict_of_items items []
  | JStr s => dict_of_items (chars s) []
  | _ => Raise (PyError TypeError)
  end.

Definition is_substring (s1 s2 : string) : bool :=
  match String.index 0 s1 s2 with
  | Some _ => true
  | None => false
  end.

Definition json_is_str (x : json) (s : string) : bool :=
  match x with
  | JStr s' => String.eqb s' s
  | _ => false
  end.

(** [k in x] for a string [k] *)
Definition py_contains (x : json) (k : string) : res bool :=
  match x with
  | JObj ms => Ok (match members_get ms k with Some _ => true | None => false end)
  | JArr items => Ok (existsb (fun y => json_is_str y k) items)
  | JStr s => Ok (is_substring k s)
  | _ => Raise (PyError TypeError)
  end.

(** [x[k]] for a string [k] *)
Definition py_getitem (x : json) (k : string) : res json :=
  match x with
  | JObj ms =>
      match members_get ms k with
      | Some v => Ok v
      | None => Raise (PyError KeyError)
      end
  | _ => Raise (PyError TypeError)
  end.

(** [x[k] = v] for a string [k] *)
Definition py_setitem (x : json) (k : string) (v : json) : res json :=
  match x with
  | JObj ms => Ok (JObj (members_set ms k v))
  | _ => Raise (PyError TypeError)
  end.

(** [d[k]] for a dictionary [d] *)
Definition dict_getitem (d : pydict) (k : string) : res json :=
  match dict_get d (JStr k) with
  | Some v => Ok v
  | None => Raise (PyError KeyError)
  end.

(** [x in s] for a set [s] of strings: [x] is hashed first. *)
Definition in_set (x : json) (s : list string) : res bool :=
  if hashable x then
    Ok (match x with
        | JStr n => existsb (String.eqb n) s
        | _ => false
        end)
  else Raise (PyError TypeError).

(** ** The libraries and the platform

    [snappy], [json] and [binascii] are not part of the repository, and
    [struct.pack("I", _)], [xrange] and the depth of recursion depend on the
    interpreter; the parser is parameterised by them. *)

Record Libs : Type := {
  snappy_decompress : bytes -> res bytes;
  snappy_compress : bytes -> bytes;
  binascii_crc32 : bytes -> Z;
  json_loads : bytes -> res json;
  json_dumps : json -> bytes;
  (** byte order of [struct.pack("I", _)] (native) *)
  little_endian : bool;
  (** [sys.maxint], the largest argument [xrange] accepts *)
  sys_maxint : Z;
  (** how many times [next] can call itself before the interpreter raises
      [RuntimeError: maximum recursion depth exceeded] *)
  recursion_limit : nat
}.

(** ** Values of record fields *)

Inductive value : Type :=
| VLong (n : Z)
| VBytes (s : bytes).

(** ** The overridable methods

    [_parse_schema_fields] and [_reencode_field] are overridden by subclasses;
    a [Transform] holds one implementation of each. *)

Record Transform : Type := {
  _parse_schema_fields : json -> res json;
  _reencode_field : value -> json -> json -> res bytes
}.

(** ** The parser object *)

Definition AVRO_HEADER_MAGIC : Z := 1.
Definition AVRO_HEADER_FILE_METADATA : Z := 2.
Definition AVRO_SYNC_MARKER : Z := 3.
Definition AVRO_START_DATABLOCK : Z := 4.

(** The attributes of a [GenericStreamingAvroParser], except [source] (which
    the driver threads separately). [saved] is created by
    [_parse_file_metadata]; it is never read before that. *)
Record parser : Type := mkParser {
  buffered : bytes;
  blen : Z;
  bused : Z;
  schema : pydict;
  codec : option bytes;
  state : Z;
  syncmarker : option bytes;
  saved : bytes
}.

Definition set_buffered (v : bytes) (p : parser) : parser :=
  mkParser v (blen p) (bused p) (schema p) (codec p) (state p) (syncmarker p) (saved p).
Definition set_blen (v : Z) (p : parser) : parser :=
  mkParser (buffered p) v (bused p) (schema p) (codec p) (state p) (syncmarker p) (saved p).
Definition set_bused (v : Z) (p : parser) : parser :=
  mkParser (buffered p) (blen p) v (schema p) (codec p) (state p) (syncmarker p) (saved p).
Definition set_schema (v : pydict) (p : parser) : parser :=
  mkParser (buffered p) (blen p) (bused p) v (codec p) (state p) (syncmarker p) (saved p).
Definition set_codec (v : option bytes) (p : parser) : parser :=
  mkParser (buffered p) (blen p) (bused p) (schema p) v (state p) (syncmarker p) (saved p).
Definition set_state (v : Z) (p : parser) : parser :=
  mkParser (buffered p) (blen p) (bused p) (schema p) (codec p) v (syncmarker p) (saved p).
Definition set_syncmarker (v : option bytes) (p : parser) : parser :=
  mkParser (buffered p) (blen p) (bused p) (schema p) (codec p) (state p) v (saved p).
Definition set_saved (v : bytes) (p : parser) : parser :=
  mkParser (buffered p) (blen p) (bused p) (schema p) (codec p) (state p) (syncmarker p) v.

(** [__init__(source, initbody)] *)
Definition init (initbody : bytes) : parser :=
  mkParser ([] ++ initbody) (0 + len initbody) 0 [] None AVRO_HEADER_MAGIC None [].

(** A method: it reads and updates the attributes, and returns or raises. *)
Definition M (A : Type) : Type := parser -> res A * parser.

Definition ret {A} (a : A) : M A := fun p => (Ok a, p).
Definition raise {A} (e : exn) : M A := fun p => (Raise e, p).
Definition lift {A} (r : res A) : M A := fun p => (r, p).
Definition get {A} (f : parser -> A) : M A := fun p => (Ok (f p), p).
Definition modify (f : parser -> parser) : M unit := fun p => (Ok tt, f p).

Definition mbind {A B} (m : M A) (k : A -> M B) : M B :=
  fun p =>
    match m p with
    | (Ok a, p') => k a p'
    | (Raise e, p') => (Raise e, p')
    end.

Declare Scope meth_scope.
Delimit Scope meth_scope with meth.
Notation "x <- m ;; k" := (mbind m (fun x => k))
  (at level 61, m at next level, right associativity) : meth_scope.
Notation "' p <- m ;; k" := (mbind m (fun p => k))
  (at level 61, p pattern, m at next level, right associativity) : meth_scope.
Notation "m ;; k" := (mbind m (fun _ => k))
  (at level 61, right associativity) : meth_scope.

(** [self.saved += v] and [self.bused += v] *)
Definition saved_add (v : bytes) : M unit :=
  modify (fun p => set_saved (saved p ++ v) p).
Definition bused_add (v : Z) : M unit :=
  modify (fun p => set_bused (bused p + v) p).

(** [for _ in xrange(n): body] for [n] already converted to a count *)
Fixpoint repeat_m (n : nat) (body : M unit) : M unit :=
  match n with
  | O => ret tt
  | S n' => (body ;; repeat_m n' body)%meth
  end.

(** ** GenericStreamingAvroParser *)

(** [pack("I", v)]: four bytes in the native order; [struct.error] unless
    [0 <= v < 2^32]. *)
Definition pack_I (L : Libs) (v : Z) : res bytes :=
  if (0 <=? v) && (v <? 2 ^ 32) then
    (b0 <- pack_B (Z.land v 0xff) ;;
     b1 <- pack_B (Z.land (Z.shiftr v 8) 0xff) ;;
     b2 <- pack_B (Z.land (Z.shiftr v 16) 0xff) ;;
     b3 <- pack_B (Z.land (Z.shiftr v 24) 0xff) ;;
     Ok (if little_endian L then [b0; b1; b2; b3] else [b3; b2; b1; b0]))%res
  else Raise (PyError StructError).

(** The base class's [_parse_schema_fields] and [_reencode_field]. *)
Definition generic_parse_schema_fields (fields : json) : res json := Ok fields.

Definition generic_reencode_field (val : value) (ftype fname : json)
  : res bytes :=
  let encoded := [] in
  if json_is_str ftype "long" || json_is_str ftype "int" then
    match val with
    | VLong n => (e <- _encode_long n ;; Ok (encoded ++ e))%res
    | VBytes _ => Raise (PyError TypeError)
    end
  else
    match val with
    | VBytes s => (e <- _encode_long (len s) ;; Ok ((encoded ++ e) ++ s))%res
    | VLong _ => Raise (PyError TypeError)
    end.

Definition GenericStreamingAvroParser : Transform :=
  {| _parse_schema_fields := generic_parse_schema_fields;
     _reencode_field := generic_reencode_field |}.

(** ** GenericStrippingAvroParser *)

Definition stripping_reencode_field (tostrip : list string)
  (val : value) (ftype fname : json) : res bytes :=
  (strip <- in_set fname tostrip ;;
   if strip then Ok [] else generic_reencode_field val ftype fname)%res.

Fixpoint strip_fields (tostrip : list string) (fields newfields : list json)
  : res (list json) :=
  match fields with
  | [] => Ok newfields
  | f :: fields' =>
      (name <- py_getitem f "name" ;;
       strip <- in_set name tostrip ;;
       if strip then strip_fields tostrip fields' newfields
       else strip_fields tostrip fields' (newfields ++ [f]))%res
  end.

Definition stripping_parse_schema_fields (tostrip : list string) (fields : json)
  : res json :=
  (fs <- py_iter fields ;;
   newfields <- strip_fields tostrip fs [] ;;
   Ok (JArr newfields))%res.

Definition GenericStrippingAvroParser (tostrip : list string) : Transform :=
  {| _parse_schema_fields := stripping_parse_schema_fields tostrip;
     _reencode_field := stripping_reencode_field tostrip |}.

(** ** The methods of the parser

    [L] is the libraries and platform, [T] the class of the object (its two
    overridable methods), and [fuel] a bound on the number of iterations of
    the [while] loop of [_parse_file_metadata], which the source does not
    bound. *)

Section Parser.

Variable L : Libs.
Variable T : Transform.
Variable fuel : nat.

(** [f(self.buffered[self.bused:], self.blen - self.bused)] *)
Definition read_at {A} (f : bytes -> Z -> res A) : M A :=
  fun p => (f (py_slice_from (buffered p) (bused p)) (blen p - bused p), p).

(** [self.saved += self.buffered[self.bused:self.bused + used]] *)
Definition save_used (used : Z) : M unit :=
  modify (fun p =>
    set_saved (saved p ++ py_slice (buffered p) (bused p) (bused p + used)) p).

Definition _read_avro_codec : M unit :=
  ('(codec, used) <- read_at _read_bytes ;;
   modify (set_codec (Some codec)) ;;
   save_used used ;;
   bused_add used)%meth.

Definition _read_avro_schema : M unit :=
  ('(fullschema, used) <- read_at _read_bytes ;;
   bused_add used ;;
   jsonschema <- lift (json_loads L fullschema) ;;
   d <- lift (py_dict jsonschema) ;;
   modify (set_schema d) ;;
   has_fields <- lift (py_contains jsonschema "fields") ;;
   jsonschema <-
     (if has_fields : bool then
        lift (fields <- py_getitem jsonschema "fields" ;;
              newfields <- _parse_schema_fields T fields ;;
              py_setitem jsonschema "fields" newfields)%res
      else ret jsonschema) ;;
   let newschema := json_dumps L jsonschema in
   e <- lift (_encode_long (len newschema)) ;;
   saved_add e ;;
   saved_add newschema)%meth.

Definition header_magic : bytes := ["O"; "b"; "j"; "001"]%byte.

Definition _parse_header_magic : M bytes :=
  (modify (set_bused 0) ;;
   fun p =>
     if blen p - bused p <? 4 then (Raise AvroInsufficientDataException, p)
     else if negb (bytes_eqb (py_slice (buffered p) (bused p) (4 + bused p))
                             header_magic)
     then (Raise (AvroParsingFailureException InvalidHeaderMagic), p)
     else
       let p := set_state AVRO_HEADER_FILE_METADATA p in
       let res := py_slice (buffered p) (bused p) (bused p + 4) in
       let p := set_buffered (py_slice_from (buffered p) (bused p + 4)) p in
       let p := set_blen (blen p - (bused p + 4)) p in
       (Ok res, p))%meth.

(** The body of the [for] loop of [_parse_file_metadata]. *)
Definition metadata_entry : M unit :=
  ('(key, used) <- read_at _read_bytes ;;
   save_used used ;;
   bused_add used ;;
   if bytes_eqb key (bstr "avro.codec") then _read_avro_codec
   else if bytes_eqb key (bstr "avro.schema") then _read_avro_schema
   else
     ('(throwaway, used) <- read_at _read_bytes ;;
      save_used used ;;
      bused_add used))%meth.

(** [xrange(n)]: the number of iterations, or [OverflowError]. *)
Definition xrange (n : Z) : res nat :=
  if (n <? - sys_maxint L - 1) || (sys_maxint L <? n)
  then Raise (PyError OverflowError)
  else Ok (Z.to_nat n).

(** The [while block_count != 0] loop of [_parse_file_metadata]. *)
Fixpoint metadata_loop (fuel : nat) (block_count : Z) : M unit :=
  if block_count =? 0 then ret tt
  else
    match fuel with
    | O => raise OutOfFuel
    | S fuel' =>
        (n <- lift (xrange block_count) ;;
         repeat_m n metadata_entry ;;
         '(block_count, used) <- read_at _read_long ;;
         save_used used ;;
         bused_add used ;;
         metadata_loop fuel' block_count)%meth
    end.

Definition _parse_file_metadata : M bytes :=
  (modify (set_saved []) ;;
   modify (set_bused 0) ;;
   '(block_count, used) <- (fun p => (_read_long (buffered p) (blen p), p)) ;;
   modify (fun p => set_saved (saved p ++ py_slice_to (buffered p) used) p) ;;
   bused_add used ;;
   metadata_loop fuel block_count ;;
   modify (fun p => set_buffered (py_slice_from (buffered p) (bused p)) p) ;;
   modify (fun p => set_blen (blen p - bused p) p) ;;
   modify (set_state AVRO_SYNC_MARKER) ;;
   get saved)%meth.

Definition _parse_sync_marker : M bytes :=
  fun p =>
    if blen p <? 16 then (Raise AvroInsufficientDataException, p)
    else
      let finish m p :=
        let p := set_buffered (py_slice_from (buffered p) 16) p in
        let p := set_blen (blen p - 16) p in
        let p := set_state AVRO_START_DATABLOCK p in
        (Ok m, p) in
      match syncmarker p with
      | None =>
          let m := py_slice_to (buffered p) 16 in
          finish m (set_syncmarker (Some m) p)
      | Some m =>
          if negb (bytes_eqb (py_slice_to (buffered p) 16) m)
          then (Raise (AvroParsingFailureException SyncMarkerMismatch), p)
          else finish m p
      end.

(** The body of the [for field in self.schema['fields']] loop of
    [_parse_single_record], over the fields that remain. *)
Fixpoint record_fields (fields : list json) (source : bytes) (rem : Z)
  (encoded : bytes) (skip : Z) : res (bytes * Z) :=
  match fields with
  | [] => Ok (encoded, skip)
  | field :: fields' =>
      (ty <- py_getitem field "type" ;;
       t <- py_getitem ty "type" ;;
       '(val, skip) <-
         (if json_is_str t "long" || json_is_str t "int" then
            '(val, used) <- _read_long (py_slice_from source skip) (rem - skip) ;;
            Ok (VLong val, skip + used)
          else if json_is_str t "string" then
            '(val, used) <- _read_bytes (py_slice_from source skip) (rem - skip) ;;
            Ok (VBytes val, skip + used)
          else
            Raise (AvroParsingFailureException (UnsupportedDataType t))) ;;
       name <- py_getitem field "name" ;;
       e <- _reencode_field T val t name ;;
       record_fields fields' source rem (encoded ++ e) skip)%res
  end.

Definition _parse_single_record (schema : pydict) (source : bytes)
  : res (bytes * Z) :=
  let encoded := [] in
  let skip := 0 in
  let rem := len source in
  (fields <- dict_getitem schema "fields" ;;
   fields <- py_iter fields ;;
   record_fields fields source rem encoded skip)%res.

(** The [while obj_count > 0] loop of [_parse_data_block], for the
    [obj_count] records that remain. *)
Fixpoint records_loop (schema : pydict) (obj_count : nat) (inflated : bytes)
  (infused : Z) (reencoded : bytes) : res bytes :=
  match obj_count with
  | O => Ok reencoded
  | S obj_count' =>
      ('(rec, skip) <- _parse_single_record schema (py_slice_from inflated infused) ;;
       records_loop schema obj_count' inflated (infused + skip) (reencoded ++ rec))%res
  end.

Definition codec_is (p : parser) (name : string) : bool :=
  match codec p with
  | Some c => bytes_eqb c (bstr name)
  | None => false
  end.

(** [_parse_data_block] up to the call of [_parse_sync_marker]: it leaves the
    block's output, except the marker, in [saved]. *)
Definition data_block_body : M unit :=
  (modify (set_saved []) ;;
   modify (set_bused 0) ;;
   let reencoded := [] in
   '(obj_count, used) <- (fun p => (_read_long (buffered p) (blen p), p)) ;;
   modify (fun p => set_saved (saved p ++ py_slice_to (buffered p) used) p) ;;
   bused_add used ;;
   '(block_size, used) <- read_at _read_long ;;
   bused_add used ;;
   short <- get (fun p => blen p <? bused p + block_size + 16) ;;
   (if short : bool then raise AvroInsufficientDataException else ret tt) ;;
   inflated <-
     (fun p =>
        if codec_is p "snappy" then
          match snappy_decompress L
                  (py_slice (buffered p) (bused p) (bused p + block_size - 4)) with
          | Ok inflated => (Ok inflated, set_bused (bused p + block_size) p)
          | Raise e => (Raise e, p)
          end
        else if codec_is p "deflate" then
          (Raise (AvroParsingFailureException (UnsupportedCodec (codec p))), p)
        else
          (Raise (AvroParsingFailureException (UnknownCodec (codec p))), p)) ;;
   let infused := 0 in
   reencoded <-
     (fun p => (records_loop (schema p) (Z.to_nat obj_count) inflated infused
                             reencoded, p)) ;;
   '(compressed, complen) <-
     (fun p =>
        if codec_is p "snappy" then
          let compressed := snappy_compress L reencoded in
          (Ok (compressed, len compressed + 4), p)
        else if codec_is p "deflate" then (Ok ([], 0), p)
        else (Ok ([], 0), p)) ;;
   e <- lift (_encode_long complen) ;;
   saved_add e ;;
   saved_add compressed ;;
   let csum := Z.land (binascii_crc32 L reencoded) 0xffffffff in
   e <- lift (pack_I L csum) ;;
   saved_add e ;;
   modify (fun p => set_buffered (py_slice_from (buffered p) (bused p)) p) ;;
   modify (fun p => set_blen (blen p - bused p) p))%meth.

Definition _parse_data_block : M bytes :=
  (data_block_body ;;
   before <- get saved ;;
   marker <- _parse_sync_marker ;;
   modify (set_saved (before ++ marker)) ;;
   get saved)%meth.

(** In a state that is none of the four, the source raises
    [AvroParsingFailureException] with two arguments, the message and the
    state; the constructor of the class takes one, so what is raised is
    [TypeError]. *)
Definition _parse_next_item : M bytes :=
  fun p =>
    if state p =? AVRO_HEADER_MAGIC then _parse_header_magic p
    else if state p =? AVRO_HEADER_FILE_METADATA then _parse_file_metadata p
    else if state p =? AVRO_SYNC_MARKER then _parse_sync_marker p
    else if state p =? AVRO_START_DATABLOCK then _parse_data_block p
    else (Raise (PyError TypeError), p).

(** ** The driver

    [source] is the chunks that the upstream iterator has not delivered yet.
    [next] calls itself after each refill; [depth] is the number of nested
    calls the interpreter still allows. *)

Definition source := list bytes.

Fixpoint next (depth : nat) (p : parser) (src : source)
  : res bytes * parser * source :=
  match _parse_next_item p with
  | (Ok item, p') => (Ok item, p', src)
  | (Raise AvroInsufficientDataException, p') =>
      match src with
      | [] => (Raise StopIteration, p', src)
      | x :: src' =>
          let p' := set_buffered (buffered p' ++ x) p' in
          let p' := set_blen (blen p' + len x) p' in
          match depth with
          | O => (Raise (PyError RuntimeError), p', src')
          | S depth' => next depth' p' src'
          end
      end
  | (Raise e, p') => (Raise e, p', src)
  end.

(** What a consumer that iterates over the parser sees: the chunks yielded,
    and the exception that ended the iteration ([StopIteration] for a normal
    end). [steps] bounds the number of calls of [next]. *)
Fixpoint run (steps : nat) (p : parser) (src : source) : list bytes * exn :=
  match steps with
  | O => ([], OutOfFuel)
  | S steps' =>
      match next (recursion_limit L) p src with
      | (Ok item, p', src') =>
          let (items, e) := run steps' p' src' in (item :: items, e)
      | (Raise e, _, _) => ([], e)
      end
  end.

(** The whole transcoder: the concatenation of what is yielded for an initial
    body and a source, and how the iteration ended. *)
Definition transcode (steps : nat) (initbody : bytes) (src : source)
  : bytes * exn :=
  let (items, e) := run steps (init initbody) src in (concat items, e).

End Parser.

(** ** The encoding the specification names

    Modelled from the specification's words, to be compared with
    [_encode_long]: the zig-zag map sends a signed value to an unsigned one
    (0, -1, 1, -2, ... to 0, 1, 2, 3, ...), which is then written in base 128,
    least significant group first, every byte but the last carrying the
    continuation bit, with no superfluous group. *)

Definition byte_of_Z (v : Z) : byte :=
  match Byte.of_N (Z.to_N (v mod 256)) with
  | Some c => c
  | None => "000"%byte
  end.

Definition zigzag_spec (v : Z) : Z :=
  if v <? 0 then - 2 * v - 1 else 2 * v.

Fixpoint base128 (groups : nat) (n : Z) : bytes :=
  match groups with
  | O => []
  | S groups' =>
      if n <? 128 then [byte_of_Z n]
      else byte_of_Z (n mod 128 + 128) :: base128 groups' (n / 128)
  end.

(** Ten groups hold 70 bits, enough for every 64-bit value. *)
Definition varint (v : Z) : bytes := base128 10 (zigzag_spec v).

Definition int64 (v : Z) : Prop := - 2 ^ 63 <= v < 2 ^ 63.

(** The continuation bit of a byte. *)
Definition continues (c : byte) : bool := negb (Z.land (ord c) 0x80 =? 0).

(** ** The container format the specification describes

    Modelled from the specification (section 6, wire format): a header magic,
    a metadata map written as groups of [count] key/value pairs and closed by
    a zero count, a 16-byte sync marker, and data blocks, each a record count,
    the byte length of what follows (compressed records and a 4-byte
    checksum), the compressed records, the checksum, and the sync marker
    again. Numbers are written with [varint], keys and values are
    length-prefixed. *)

(** A length-prefixed byte string. *)
Definition lp (s : bytes) : bytes := varint (len s) ++ s.

Definition entry_wire (kv : bytes * bytes) : bytes := lp (fst kv) ++ lp (snd kv).

Definition group_wire (g : list (bytes * bytes)) : bytes :=
  varint (len g) ++ concat (map entry_wire g).

Definition metadata_wire (groups : list (list (bytes * bytes))) : bytes :=
  concat (map group_wire groups) ++ varint 0.

Definition value_wire (v : value) : bytes :=
  match v with
  | VLong n => varint n
  | VBytes s => lp s
  end.

Definition record_wire (r : list value) : bytes := concat (map value_wire r).

Definition records_wire (rs : list (list value)) : bytes :=
  concat (map record_wire rs).

Record ocf_block : Type := {
  block_records : list (list value);
  block_payload : bytes;
  block_checksum : bytes
}.

Definition block_wire (bl : ocf_block) : bytes :=
  varint (len (block_records bl)) ++
  varint (len (block_payload bl) + 4) ++
  block_payload bl ++ block_checksum bl.

Record ocf_file : Type := {
  file_meta : list (list (bytes * bytes));
  file_marker : bytes;
  file_blocks : list ocf_block
}.

Definition ocf_wire (f : ocf_file) : bytes :=
  header_magic ++ metadata_wire (file_meta f) ++ file_marker f ++
  concat (map (fun bl => block_wire bl ++ file_marker f) (file_blocks f)).

(** The value of a metadata key: that of its last entry. *)
Fixpoint meta_find (entries : list (bytes * bytes)) (key : bytes) (found : option bytes)
  : option bytes :=
  match entries with
  | [] => found
  | (k, v) :: entries' =>
      meta_find entries' key (if bytes_eqb k key then Some v else found)
  end.

Definition meta_lookup (f : ocf_file) (key : string) : option bytes :=
  meta_find (concat (file_meta f)) (bstr key) None.

Definition supported_type (t : string) : bool :=
  String.eqb t "long" || String.eqb t "int" || String.eqb t "string".

(** A field of a record schema of the form the parser reads: an object with a
    string ["name"] and a ["type"] object whose own ["type"] is a string; the
    result is that type. *)
Definition field_type (f : json) : option string :=
  match f with
  | JObj ms =>
      match members_get ms "name", members_get ms "type" with
      | Some (JStr _), Some (JObj ts) =>
          match members_get ts "type" with
          | Some (JStr t) => Some t
          | _ => None
          end
      | _, _ => None
      end
  | _ => None
  end.

Fixpoint field_types (fs : list json) : option (list string) :=
  match fs with
  | [] => Some []
  | f :: fs' =>
      match field_type f, field_types fs' with
      | Some t, Some ts => Some (t :: ts)
      | _, _ => None
      end
  end.

(** The field types of a record schema: an object whose ["fields"] is a list
    of fields. *)
Definition schema_types (j : json) : option (list string) :=
  match j with
  | JObj ms =>
      match members_get ms "fields" with
      | Some (JArr fs) => field_types fs
      | _ => None
      end
  | _ => None
  end.

Definition int64b (v : Z) : bool := (- 2 ^ 63 <=? v) && (v <? 2 ^ 63).

(** A value of a field of type [t]. *)
Definition value_ok (t : string) (v : value) : bool :=
  match v with
  | VLong n => (String.eqb t "long" || String.eqb t "int") && int64b n
  | VBytes s => String.eqb t "string" && int64b (len s)
  end.

Fixpoint record_ok (ts : list string) (r : list value) : bool :=
  match ts, r with
  | [], [] => true
  | t :: ts', v :: r' => value_ok t v && record_ok ts' r'
  | _, _ => false
  end.

Section Validity.

Variable L : Libs.

(** The checksum of a block as the platform writes it. *)
Definition checksum_wire (data : bytes) : res bytes :=
  pack_I L (Z.land (binascii_crc32 L data) 0xffffffff).

Definition res_is {A} (eqb : A -> A -> bool) (r : res A) (a : A) : bool :=
  match r with
  | Ok a' => eqb a' a
  | Raise _ => false
  end.

(** A block of a file whose records have the types [ts]: the records conform
    to the schema, the payload decompresses to their encoding, and four bytes
    of checksum follow. The parser never reads the checksum of its input, so
    nothing is asked of these four bytes. *)
Definition block_valid (ts : list string) (bl : ocf_block) : bool :=
  forallb (record_ok ts) (block_records bl) &&
  int64b (len (block_records bl)) &&
  int64b (len (block_payload bl) + 4) &&
  res_is bytes_eqb (snappy_decompress L (block_payload bl))
         (records_wire (block_records bl)) &&
  (len (block_checksum bl) =? 4).

Definition schema_text_valid (text : bytes) : bool :=
  match json_loads L text with
  | Ok j =>
      match schema_types j with
      | Some ts => forallb supported_type ts
      | None => false
      end
  | Raise _ => false
  end.

Definition entry_valid (kv : bytes * bytes) : bool :=
  int64b (len (fst kv)) && int64b (len (snd kv)) &&
  (if bytes_eqb (fst kv) (bstr "avro.schema") then schema_text_valid (snd kv)
   else true).

Definition group_valid (g : list (bytes * bytes)) : bool :=
  (0 <? len g) && (len g <=? sys_maxint L) && int64b (len g) &&
  forallb entry_valid g.

(** The types of the fields of the file's schema. *)
Definition file_types (f : ocf_file) : option (list string) :=
  match meta_lookup f "avro.schema" with
  | Some text =>
      match json_loads L text with
      | Ok j => schema_types j
      | Raise _ => None
      end
  | None => None
  end.

(** A valid container file with the supported codec. *)
Definition ocf_valid (f : ocf_file) : bool :=
  (len (file_marker f) =? 16) &&
  forallb group_valid (file_meta f) &&
  match meta_lookup f "avro.codec", file_types f with
  | Some c, Some ts =>
      bytes_eqb c (bstr "snappy") && forallb supported_type ts &&
      forallb (block_valid ts) (file_blocks f)
  | _, _ => false
  end.

(** What a file written by this program on the same platform satisfies
    besides: every schema text is what [json.dumps] gives for its parse, every
    payload is what [snappy.compress] gives for the records, and every
    checksum is the CRC-32 of the records as [pack('I', ...)] writes it, that
    is in the byte order of the host (the container format asks for big
    endian). *)
Definition entry_canonical (kv : bytes * bytes) : bool :=
  if bytes_eqb (fst kv) (bstr "avro.schema") then
    match json_loads L (snd kv) with
    | Ok j => bytes_eqb (json_dumps L j) (snd kv)
    | Raise _ => false
    end
  else true.

Definition block_canonical (bl : ocf_block) : bool :=
  bytes_eqb (snappy_compress L (records_wire (block_records bl)))
            (block_payload bl) &&
  res_is bytes_eqb (checksum_wire (records_wire (block_records bl)))
         (block_checksum bl).

Definition ocf_canonical (f : ocf_file) : bool :=
  forallb entry_canonical (concat (file_meta f)) &&
  forallb block_canonical (file_blocks f).

End Validity.

(** ** A concrete instance of the libraries

    Concrete runs need concrete libraries. [demo] computes the CRC-32 of
    [binascii.crc32] (as a signed 32-bit value, as Python 2 returns it) and
    serialises JSON the way [json.dumps] does by default; its snappy functions
    handle the streams made of one literal per 60 bytes, which is what snappy
    produces for inputs shorter than 15 bytes, and its [json.loads] knows the
    schema texts listed in [demo_schemas]. *)

Fixpoint crc32_bits (n : nat) (crc : Z) : Z :=
  match n with
  | O => crc
  | S n' =>
      crc32_bits n'
        (if Z.odd crc then Z.lxor (Z.shiftr crc 1) 0xEDB88320 else Z.shiftr crc 1)
  end.

Definition crc32_update (crc : Z) (c : byte) : Z :=
  crc32_bits 8 (Z.lxor crc (ord c)).

Definition crc32 (data : bytes) : Z :=
  Z.lxor (fold_left crc32_update data 0xFFFFFFFF) 0xFFFFFFFF.

Definition demo_crc32 (data : bytes) : Z :=
  let c := crc32 data in
  if c <? 2 ^ 31 then c else c - 2 ^ 32.

Fixpoint literals (fuel : nat) (data : bytes) : bytes :=
  match fuel, data with
  | O, _ | _, [] => []
  | S fuel', _ =>
      let chunk := firstn 60 data in
      byte_of_Z ((len chunk - 1) * 4) :: chunk ++ literals fuel' (skipn 60 data)
  end.

Definition demo_compress (data : bytes) : bytes :=
  base128 10 (len data) ++ literals (List.length data) data.

Fixpoint read_literals (fuel : nat) (stream : bytes) : res bytes :=
  match fuel, stream with
  | _, [] => Ok []
  | O, _ => Raise (PyError LibraryError)
  | S fuel', tag :: stream' =>
      let n := ord tag / 4 + 1 in
      if (ord tag mod 4 =? 0) && (n <=? 60) && (n <=? len stream') then
        (r <- read_literals fuel' (skipn (Z.to_nat n) stream') ;;
         Ok (firstn (Z.to_nat n) stream' ++ r))%res
      else Raise (PyError LibraryError)
  end.

Fixpoint read_uvarint (stream : bytes) (shift : Z) : res (Z * bytes) :=
  match stream with
  | [] => Raise (PyError LibraryError)
  | c :: stream' =>
      if ord c <? 128 then Ok (Z.shiftl (ord c) shift, stream')
      else
        ('(n, r) <- read_uvarint stream' (shift + 7) ;;
         Ok (Z.shiftl (ord c - 128) shift + n, r))%res
  end.

Definition demo_decompress (stream : bytes) : res bytes :=
  ('(n, r) <- read_uvarint stream 0 ;;
   data <- read_literals (List.length r) r ;;
   if len data =? n then Ok data else Raise (PyError LibraryError))%res.

Definition dquote : string := String (ascii_of_nat 34) EmptyString.

(** Decimal digits of a natural number, most significant first. *)
Fixpoint digits (fuel : nat) (n : Z) (acc : string) : string :=
  match fuel with
  | O => acc
  | S fuel' =>
      let acc := String (ascii_of_nat (48 + Z.to_nat (n mod 10))) acc in
      if n <? 10 then acc else digits fuel' (n / 10) acc
  end.

Definition decimal (n : Z) : string :=
  if n <? 0 then ("-" ++ digits (Z.to_nat (Z.log2 (- n)) + 1) (- n) "")%string
  else digits (Z.to_nat (Z.log2 n) + 1) n "".

Fixpoint join (sep : string) (l : list string) : string :=
  match l with
  | [] => ""
  | [x] => x
  | x :: l' => x ++ sep ++ join sep l'
  end.

(** [json.dumps] with its default separators, for strings that need no
    escape. The members of a [JObj] are listed in the order in which the
    dictionary is iterated, and this is the order in which they are
    written. *)
Fixpoint dumps (x : json) : string :=
  match x with
  | JNull => "null"
  | JBool true => "true"
  | JBool false => "false"
  | JInt n => decimal n
  | JFloat literal => literal
  | JStr s => dquote ++ s ++ dquote
  | JArr items => "[" ++ join ", " (map dumps items) ++ "]"
  | JObj ms =>
      "{" ++ join ", "
               ((fix members (ms : list (string * json)) : list string :=
                   match ms with
                   | [] => []
                   | (k, v) :: ms' =>
                       (dquote ++ k ++ dquote ++ ": " ++ dumps v) :: members ms'
                   end) ms)
          ++ "}"
  end%string.

(** Replaces each single quote by a double quote, so that JSON texts can be
    written with single quotes. *)
Fixpoint dq (s : string) : string :=
  match s with
  | EmptyString => EmptyString
  | String c s' =>
      String (if Ascii.eqb c "'" then ascii_of_nat 34 else c) (dq s')
  end.

(** The dictionary that [json.loads] builds for a field. CPython 2.7 iterates
    a dictionary in the order of the hash slots of its keys, whatever the
    order of the members in the text: the key ["type"] falls in slot 4 and
    ["name"] in slot 5 of the eight, so ["type"] comes first. *)
Definition long_field (name : string) : json :=
  JObj [("type", JObj [("type", JStr "long")]); ("name", JStr name)].
Definition string_field (name : string) : json :=
  JObj [("type", JObj [("type", JStr "string")]); ("name", JStr name)].
Definition float_field (name : string) : json :=
  JObj [("type", JObj [("type", JStr "float")]); ("name", JStr name)].

(** The schema of the specification's scenario: a long [a] and a string [b]. *)
Definition schema_ab : json :=
  JObj [("fields", JArr [long_field "a"; string_field "b"])].

Definition schema_ab_compact : string :=
  dq "{'fields':[{'name':'a','type':{'type':'long'}},{'name':'b','type':{'type':'string'}}]}".

Definition schema_empty : json := JObj [("fields", JArr [])].

Definition demo_schemas : list (bytes * json) :=
  [ (bstr schema_ab_compact, schema_ab);
    (bstr (dumps schema_ab), schema_ab);
    (bstr (dq "{'fields':[]}"), schema_empty);
    (bstr (dumps schema_empty), schema_empty) ].

Fixpoint demo_loads_in (known : list (bytes * json)) (text : bytes) : res json :=
  match known with
  | [] => Raise (PyError ValueError)
  | (t, j) :: known' =>
      if bytes_eqb t text then Ok j else demo_loads_in known' text
  end.

Definition demo : Libs :=
  {| snappy_decompress := demo_decompress;
     snappy_compress := demo_compress;
     binascii_crc32 := demo_crc32;
     json_loads := demo_loads_in demo_schemas;
     json_dumps := fun j => bstr (dumps j);
     little_endian := true;
     sys_maxint := 2 ^ 63 - 1;
     recursion_limit := 1000 |}.

(** ** The specification's scenario

    Codec snappy, the schema [schema_ab], the marker [marker_M], and one block
    of two records, [{a: 5, b: "hi"}] and [{a: -3, b: "ok"}]. *)

Definition marker_M : bytes := bstr "0123456789abcdef".

Definition records_ab : list (list value) :=
  [ [VLong 5; VBytes (bstr "hi")]; [VLong (-3); VBytes (bstr "ok")] ].

Definition the_bytes (r : res bytes) : bytes :=
  match r with
  | Ok s => s
  | Raise _ => []
  end.

(** A block as a writer that uses the libraries [demo] produces it. *)
Definition demo_block (rs : list (list value)) : ocf_block :=
  {| block_records := rs;
     block_payload := demo_compress (records_wire rs);
     block_checksum := the_bytes (checksum_wire demo (records_wire rs)) |}.

Definition scenario_file (schema_text : string) : ocf_file :=
  {| file_meta := [ [ (bstr "avro.codec", bstr "snappy");
                      (bstr "avro.schema", bstr schema_text) ] ];
     file_marker := marker_M;
     file_blocks := [demo_block records_ab] |}.

(** The scenario with the schema text as the specification writes it, without
    spaces, and with the schema text as [json.dumps] writes it. *)
Definition scenario_compact : ocf_file := scenario_file schema_ab_compact.
Definition scenario_dumped : ocf_file := scenario_file (dumps schema_ab).

(** The parser as it stands between two data blocks of the scenario, with
    [buf] buffered. *)
Definition between_blocks (buf : bytes) : parser :=
  mkParser buf (len buf) 0 [(JStr "fields", JArr [long_field "a"; string_field "b"])]
           (Some (bstr "snappy")) AVRO_START_DATABLOCK (Some marker_M) [].

(** The parser as it stands after the file metadata, with [buf] buffered. *)
Definition after_metadata (buf : bytes) : parser :=
  mkParser buf (len buf) 0 [] None AVRO_SYNC_MARKER None [].

(** The scenario's block followed by 16 bytes that are not the marker. *)
Definition block_then_wrong_marker : bytes :=
  block_wire (demo_block records_ab) ++ bstr "0123456789abcdeX".

(** The parser between two data blocks of a file whose schema has the fields
    [fields], with the codec [codec_name], and [buf] buffered. *)
Definition block_parser (fields : list json) (codec_name : string) (buf : bytes)
  : parser :=
  mkParser buf (len buf) 0 [(JStr "fields", JArr fields)]
           (Some (bstr codec_name)) AVRO_START_DATABLOCK (Some marker_M) [].

(** A field declared the way Avro schemas usually are, with the type's name
    as the value of ["type"]. *)
Definition plain_field (name type : string) : json :=
  JObj [("type", JStr type); ("name", JStr name)].


(** The scenario's block followed by the marker. *)
Definition block_then_marker : bytes :=
  block_wire (demo_block records_ab) ++ marker_M.

(** ** Predicates used in the statements *)

(** A method keeps an attribute (or any function [proj] of the attributes)
    when no run of it changes its value. *)
Definition keeps {A B} (proj : parser -> B) (m : M A) : Prop :=
  forall p, proj (snd (m p)) = proj p.

(** A type that [_parse_single_record] does not decode. *)
Definition unsupported (t : json) : Prop :=
  json_is_str t "long" || json_is_str t "int" || json_is_str t "string" = false.

(** The two numbers at the head of a data block are read from the buffer, the
    first from [used] bytes and both from [hdr], and the buffer holds the
    [block_size] bytes of the block and 16 more. *)
Definition block_framed (p : parser) (obj_count block_size used hdr : Z) : Prop :=
  exists used2,
    _read_long (buffered p) (blen p) = Ok (obj_count, used) /\
    _read_long (py_slice_from (buffered p) used) (blen p - used)
      = Ok (block_size, used2) /\
    hdr = used + used2 /\
    hdr + block_size + 16 <= blen p.

(** What [data_block_body] leaves when it succeeds. *)
Definition after_block_body (L : Libs) (p : parser) (used hdr block_size : Z)
  (reencoded lenb crc : bytes) : parser :=
  mkParser (py_slice_from (buffered p) (hdr + block_size))
           (blen p - (hdr + block_size)) (hdr + block_size)
           (schema p) (codec p) (state p) (syncmarker p)
           ((((([] ++ py_slice_to (buffered p) used) ++ lenb)
               ++ snappy_compress L reencoded) ++ crc)).

(** A field that the stripping transform with the set [tostrip] keeps: its
    name is not in the set. *)
Definition kept (tostrip : list string) (f : json) : bool :=
  match py_getitem f "name" with
  | Ok name =>
      match in_set name tostrip with
      | Ok strip => negb strip
      | Raise _ => false
      end
  | Raise _ => false
  end.

(** Of the encodings [pieces] of the fields [fs] of a record, in order, the
    concatenation of those of the fields that are kept. *)
Definition kept_pieces (tostrip : list string) (fs : list json) (pieces : list bytes)
  : bytes :=
  concat (map snd (filter (fun fp => kept tostrip (fst fp)) (combine fs pieces))).

(** [avail] is a proper prefix of [x]: some of [x] is still missing. *)
Definition short_of {A} (avail x : list A) : Prop :=
  exists missing, missing <> [] /\ x = avail ++ missing.

(** The buffer of the parser holds [bufd], and its length is recorded. *)
Definition buffer_is (p : parser) (bufd : bytes) : Prop :=
  buffered p = bufd /\ blen p = len bufd.

(** A method leaves an attribute alone whenever it raises. *)
Definition keeps_on_raise {A B} (proj : parser -> B) (m : M A) : Prop :=
  forall p e, fst (m p) = Raise e -> proj (snd (m p)) = proj p.

(** The parser has read the metadata of a file with the fields [fs] and the
    codec snappy, and has captured [marker]: it is between data blocks. *)
Definition between_data_blocks (p : parser) (fs : list json) (marker : bytes)
  : Prop :=
  state p = AVRO_START_DATABLOCK /\
  codec p = Some (bstr "snappy") /\
  dict_getitem (schema p) "fields" = Ok (JArr fs) /\
  syncmarker p = Some marker.

(** The phases before the data blocks: the parser awaits the header magic,
    the metadata, or, having read the metadata of a file with the fields
    [fs] and the codec snappy, the first sync marker. *)
Definition awaiting_magic (p : parser) : Prop :=
  state p = AVRO_HEADER_MAGIC /\ syncmarker p = None.

Definition awaiting_metadata (p : parser) : Prop :=
  state p = AVRO_HEADER_FILE_METADATA /\ syncmarker p = None.

Definition awaiting_sync (p : parser) (fs : list json) : Prop :=
  state p = AVRO_SYNC_MARKER /\
  codec p = Some (bstr "snappy") /\
  dict_getitem (schema p) "fields" = Ok (JArr fs) /\
  syncmarker p = None.

(** ** What the transcoder writes for a container file

    The output expected for a valid file, given the fields that the transform
    keeps: the metadata with every schema text replaced by the serialisation
    of its parse restricted to the kept fields, and every block with its
    records reduced to the values of the kept fields, recompressed, and with
    the checksum of the new content. *)

(** A length-prefixed byte string as the parser writes it. *)
Definition lp_enc (s : bytes) : bytes := the_bytes (_encode_long (len s)) ++ s.

Definition out_schema (keep : json -> bool) (j : json) : json :=
  match j with
  | JObj ms =>
      match members_get ms "fields" with
      | Some (JArr fs) => JObj (members_set ms "fields" (JArr (filter keep fs)))
      | _ => j
      end
  | _ => j
  end.

(** The values of the kept fields of a record, encoded. *)
Definition kept_record (keep : json -> bool) (fs : list json) (r : list value)
  : bytes :=
  concat (map (fun fv => value_wire (snd fv))
              (filter (fun fv => keep (fst fv)) (combine fs r))).

Section Expected.

Variable L : Libs.
Variable keep : json -> bool.

Definition out_text (text : bytes) : bytes :=
  match json_loads L text with
  | Ok j => json_dumps L (out_schema keep j)
  | Raise _ => text
  end.

Definition out_entry (kv : bytes * bytes) : bytes :=
  lp (fst kv) ++
  (if bytes_eqb (fst kv) (bstr "avro.schema") then lp_enc (out_text (snd kv))
   else lp (snd kv)).

Definition out_group (g : list (bytes * bytes)) : bytes :=
  varint (len g) ++ concat (map out_entry g).

Definition out_metadata (groups : list (list (bytes * bytes))) : bytes :=
  concat (map out_group groups) ++ varint 0.

(** The fields of the file's schema. *)
Definition file_fields (f : ocf_file) : list json :=
  match meta_lookup f "avro.schema" with
  | Some text =>
      match json_loads L text with
      | Ok (JObj ms) =>
          match members_get ms "fields" with
          | Some (JArr fs) => fs
          | _ => []
          end
      | _ => []
      end
  | None => []
  end.

Definition out_block (fs : list json) (bl : ocf_block) : bytes :=
  let reencoded := concat (map (kept_record keep fs) (block_records bl)) in
  let compressed := snappy_compress L reencoded in
  varint (len (block_records bl)) ++
  the_bytes (_encode_long (len compressed + 4)) ++
  compressed ++ the_bytes (checksum_wire L reencoded).

Definition transcoded_wire (f : ocf_file) : bytes :=
  header_magic ++ out_metadata (file_meta f) ++ file_marker f ++
  concat (map (fun bl => out_block (file_fields f) bl ++ file_marker f)
              (file_blocks f)).

End Expected.

(** A transform follows [keep] when, on the fields of a valid schema, its
    schema hook returns the kept fields and its field hook returns the
    encoding of the value for a kept field and nothing for another. *)
Definition follows (T : Transform) (keep : json -> bool) : Prop :=
  (forall fs ts,
      field_types fs = Some ts ->
      _parse_schema_fields T (JArr fs) = Ok (JArr (filter keep fs))) /\
  (forall f t v name,
      field_type f = Some t -> supported_type t = true -> value_ok t v = true ->
      py_getitem f "name" = Ok name ->
      _reencode_field T v (JStr t) name
        = Ok (if keep f then value_wire v else [])).

(** ** The metadata as the parser walks it *)

(** The parser in the middle of the metadata: [bufd] is buffered, the cursor
    is at [pos], and [out] has been saved. *)
Definition meta_state (bufd : bytes) (pos : Z) (sch : pydict) (cod : option bytes)
  (out : bytes) : parser :=
  mkParser bufd (len bufd) pos sch cod AVRO_HEADER_FILE_METADATA None out.

Section Walk.

Variable L : Libs.
Variable keep : json -> bool.

(** The schema attribute after a schema text has been read. *)
Definition schema_dict (text : bytes) : pydict :=
  match json_loads L text with
  | Ok j =>
      match py_dict j with
      | Ok d => d
      | Raise _ => []
      end
  | Raise _ => []
  end.

(** The schema and codec attributes after an entry. *)
Definition after_entry (kv : bytes * bytes) (sc : pydict * option bytes)
  : pydict * option bytes :=
  if bytes_eqb (fst kv) (bstr "avro.codec") then (fst sc, Some (snd kv))
  else if bytes_eqb (fst kv) (bstr "avro.schema") then (schema_dict (snd kv), snd sc)
  else sc.

Definition after_entries (es : list (bytes * bytes)) (sc : pydict * option bytes)
  : pydict * option bytes :=
  fold_left (fun sc kv => after_entry kv sc) es sc.

(** What follows the count of the group [g] in the metadata: its entries,
    then the count of the next group and what follows it, or the closing
    zero. *)
Fixpoint loop_wire (g : list (bytes * bytes)) (gs : list (list (bytes * bytes)))
  : bytes :=
  concat (map entry_wire g) ++
  match gs with
  | [] => varint 0
  | g' :: gs' => varint (len g') ++ loop_wire g' gs'
  end.

Fixpoint loop_out (g : list (bytes * bytes)) (gs : list (list (bytes * bytes)))
  : bytes :=
  concat (map (out_entry L keep) g) ++
  match gs with
  | [] => varint 0
  | g' :: gs' => varint (len g') ++ loop_out g' gs'
  end.

End Walk.

(** ** Chunkings and further streams *)

(** The source that delivers [s] one byte at a time. *)
Definition one_byte_chunks (s : bytes) : source := map (fun b => [b]) s.


(** The scenario with a further metadata entry whose value has 1100 bytes,
    more than the interpreter allows nested calls. *)
Definition scenario_padded : ocf_file :=
  {| file_meta := [ [ (bstr "avro.codec", bstr "snappy");
                      (bstr "avro.schema", bstr (dumps schema_ab));
                      (bstr "pad", repeat x00 1100) ] ];
     file_marker := marker_M;
     file_blocks := [demo_block records_ab] |}.

(** The items an iteration yields for a valid file: the magic, the metadata,
    the marker, and each block with the marker that closes it. *)
Definition transcoded_items (L : Libs) (keep : json -> bool) (f : ocf_file)
  : list bytes :=
  header_magic :: out_metadata L keep (file_meta f) :: file_marker f ::
  map (fun bl => out_block L keep (file_fields L f) bl ++ file_marker f)
      (file_blocks f).

(** ** The transcoded file

    What the transcoder writes for a valid file, as a container file again:
    the schema texts replaced, and in every block the values of the kept
    fields, compressed anew, with their checksum. *)




Section Transcoded.

Variable L : Libs.
Variable keep : json -> bool.







End Transcoded.

(** ** The calls of [next] on a chunked stream *)

(** The parser on which [next] runs its last step after it has taken the
    chunks [taken] from the source: before each of them it runs the step,
    and appends the chunk to what the step has left in the buffer. *)
Fixpoint refilled (L : Libs) (T : Transform) (fuel : nat) (p : parser)
  (taken : list bytes) : parser :=
  match taken with
  | [] => p
  | x :: taken' =>
      let p' := snd (_parse_next_item L T fuel p) in
      let p' := set_buffered (buffered p' ++ x) p' in
      let p' := set_blen (blen p' + len x) p' in
      refilled L T fuel p' taken'
  end.

(** One call of [next] for an item of [need] bytes, when [avail] bytes are
    buffered: it takes chunks from the source until the item is whole, one
    nested call for each. The result is the number of bytes buffered after
    the item and the chunks left, or nothing when the source or the depth
    that is allowed does not suffice. *)
Fixpoint take_item (depth : nat) (need avail : Z) (src : source) {struct src}
  : option (Z * source) :=
  if need <=? avail then Some (avail - need, src)
  else
    match src with
    | [] => None
    | x :: src' =>
        match depth with
        | O => None
        | S depth' => take_item depth' need (avail + len x) src'
        end
    end.

(** No call of [next] nests deeper than [limit]: neither those for the items
    of [needs] bytes, in order, nor, when the iteration ends for want of
    data ([waits]), the last one, which takes every chunk that is left. *)
Fixpoint calls_within (limit : nat) (needs : list Z) (waits : bool)
  (avail : Z) (src : source) : bool :=
  match needs with
  | [] => if waits then (List.length src <=? limit)%nat else true
  | need :: needs' =>
      match take_item limit need avail src with
      | Some (avail', src') => calls_within limit needs' waits avail' src'
      | None => false
      end
  end.

(** The items of a container file, as bytes. *)
Definition ocf_items (f : ocf_file) : list bytes :=
  header_magic :: metadata_wire (file_meta f) :: file_marker f ::
  map (fun bl => block_wire bl ++ file_marker f) (file_blocks f).

(** ** Streams without a negative length

    Modelled from the specification's description of the stream (section 6),
    without its conditions on the content: the stream is cut into the items
    the parser reads, and each item into the numbers and strings it is made
    of, a number being any bytes that [_read_long] reads as one number. The
    length that precedes a string is the length of the string, so no length
    is negative. The outcome of each item is computed from its content with
    the functions of the parser. *)

(** [enc] holds one number, which [_read_long] reads as [v]. *)
Definition numberb (enc : bytes) (v : Z) : bool :=
  match _read_long enc (len enc) with
  | Ok (v', used) => (v' =? v) && (used =? len enc)
  | Raise _ => false
  end.

(** A token of the metadata: the count of a group, or an entry, made of a
    key and a value, each after the bytes of its length. *)
Inductive mtoken : Type :=
| MCount (enc : bytes) (n : Z)
| MEntry (klen key vlen val : bytes).

Definition mtoken_bytes (t : mtoken) : bytes :=
  match t with
  | MCount enc _ => enc
  | MEntry klen key vlen val => klen ++ key ++ vlen ++ val
  end.

Definition metadata_bytes (toks : list mtoken) : bytes :=
  concat (map mtoken_bytes toks).

(** What [_read_avro_schema] does with the schema text once it has read it:
    the new value of the [schema] attribute and what is appended to
    [saved]. *)
Definition schema_step (L : Libs) (T : Transform) (fullschema : bytes)
  : res (pydict * bytes) :=
  (jsonschema <- json_loads L fullschema ;;
   d <- py_dict jsonschema ;;
   has_fields <- py_contains jsonschema "fields" ;;
   jsonschema <-
     (if has_fields : bool then
        (fields <- py_getitem jsonschema "fields" ;;
         newfields <- _parse_schema_fields T fields ;;
         py_setitem jsonschema "fields" newfields)
      else Ok jsonschema) ;;
   let newschema := json_dumps L jsonschema in
   e <- _encode_long (len newschema) ;;
   Ok (d, e ++ newschema))%res.

(** What the parser saves for the value of an entry with the key [key]: the
    bytes of the value as they are, or, for the schema, what
    [_read_avro_schema] writes. *)
Definition entry_saved (L : Libs) (T : Transform) (key vlen val : bytes)
  : res bytes :=
  if bytes_eqb key (bstr "avro.codec") then Ok (vlen ++ val)
  else if bytes_eqb key (bstr "avro.schema") then
    match schema_step L T val with
    | Ok (_, text) => Ok text
    | Raise e => Raise e
    end
  else Ok (vlen ++ val).

(** How the reading of a metadata ends: with the closing zero, having saved
    [out], or with an exception. *)
Inductive walked : Type :=
| Closed (out : bytes)
| Stopped (e : exn).

(** The metadata read token by token: [pending] entries are still to come
    in the current group, and [out] has been saved. The result is [None]
    when the tokens are not those of a metadata: a number that is not read
    as the token says, a count where an entry is due or an entry where a
    count is due, tokens after the closing zero or after an exception, no
    closing zero, or more groups than [fuel]. *)
Fixpoint metadata_walk (L : Libs) (T : Transform) (toks : list mtoken)
  (pending fuel : nat) (out : bytes) : option walked :=
  match toks with
  | [] => None
  | MCount enc n :: toks' =>
      match pending with
      | S _ => None
      | O =>
          if negb (numberb enc n) then None
          else if n =? 0 then
            match toks' with
            | [] => Some (Closed (out ++ enc))
            | _ :: _ => None
            end
          else
            match fuel with
            | O => None
            | S fuel' =>
                match xrange L n with
                | Ok k => metadata_walk L T toks' k fuel' (out ++ enc)
                | Raise e =>
                    match toks' with
                    | [] => Some (Stopped e)
                    | _ :: _ => None
                    end
                end
            end
      end
  | MEntry klen key vlen val :: toks' =>
      match pending with
      | O => None
      | S pending' =>
          if negb (numberb klen (len key) && numberb vlen (len val)) then None
          else
            match entry_saved L T key vlen val with
            | Ok text =>
                metadata_walk L T toks' pending' fuel (out ++ (klen ++ key) ++ text)
            | Raise e =>
                match toks' with
                | [] => Some (Stopped e)
                | _ :: _ => None
                end
            end
      end
  end.

(** The [schema] and [codec] attributes after a token. *)
Definition attrs_after_token (L : Libs) (T : Transform) (t : mtoken)
  (a : pydict * option bytes) : pydict * option bytes :=
  match t with
  | MCount _ _ => a
  | MEntry _ key _ val =>
      if bytes_eqb key (bstr "avro.codec") then (fst a, Some val)
      else if bytes_eqb key (bstr "avro.schema") then
        match schema_step L T val with
        | Ok (d, _) => (d, snd a)
        | Raise _ => a
        end
      else a
  end.

Definition attrs_after (L : Libs) (T : Transform) (toks : list mtoken)
  (a : pydict * option bytes) : pydict * option bytes :=
  fold_left (fun a t => attrs_after_token L T t a) toks a.

(** A data block: the bytes of its record count, which is [obj_count], the
    bytes of its size, the [b_body] of that size (the compressed records and
    the checksum), and the 16 bytes that follow. *)
Record block : Type := {
  b_count_enc : bytes;
  b_count : Z;
  b_size_enc : bytes;
  b_body : bytes;
  b_marker : bytes
}.

Definition block_head (b : block) : bytes :=
  b_count_enc b ++ b_size_enc b ++ b_body b.

Definition block_bytes (b : block) : bytes := block_head b ++ b_marker b.

(** The numbers are read as the block says, and the slice that holds the
    compressed records does not begin before the block. *)
Definition block_ok (b : block) : bool :=
  numberb (b_count_enc b) (b_count b) &&
  numberb (b_size_enc b) (len (b_body b)) &&
  (4 <=? len (b_count_enc b) + len (b_size_enc b) + len (b_body b)) &&
  (len (b_marker b) =? 16).

Definition codec_named (cod : option bytes) (name : string) : bool :=
  match cod with
  | Some c => bytes_eqb c (bstr name)
  | None => false
  end.

(** What [_parse_data_block] returns or raises for a block, given the
    [schema], [codec] and [syncmarker] attributes. *)
Definition block_result (L : Libs) (T : Transform) (sch : pydict)
  (cod : option bytes) (marker : bytes) (b : block) : res bytes :=
  let hdr := len (b_count_enc b) + len (b_size_enc b) in
  (inflated <-
     (if codec_named cod "snappy" then
        snappy_decompress L (py_slice (block_head b) hdr (hdr + len (b_body b) - 4))
      else if codec_named cod "deflate" then
        Raise (AvroParsingFailureException (UnsupportedCodec cod))
      else Raise (AvroParsingFailureException (UnknownCodec cod))) ;;
   reencoded <- records_loop T sch (Z.to_nat (b_count b)) inflated 0 [] ;;
   let compressed := snappy_compress L reencoded in
   e <- _encode_long (len compressed + 4) ;;
   c <- pack_I L (Z.land (binascii_crc32 L reencoded) 0xffffffff) ;;
   if negb (bytes_eqb (b_marker b) marker)
   then Raise (AvroParsingFailureException SyncMarkerMismatch)
   else Ok (b_count_enc b ++ e ++ compressed ++ c ++ marker))%res.

(** The items of a stream. *)
Inductive item : Type :=
| Magic (m : bytes)
| Metadata (toks : list mtoken)
| Marker (m : bytes)
| Block (b : block).

Definition item_bytes (it : item) : bytes :=
  match it with
  | Magic m => m
  | Metadata toks => metadata_bytes toks
  | Marker m => m
  | Block b => block_bytes b
  end.

Definition stream_bytes (items : list item) (tail : bytes) : bytes :=
  concat (map item_bytes items) ++ tail.

(** What the reading of a stream depends on: the phase and the attributes
    set by the items read so far. *)
Record reader : Type := mkReader {
  r_state : Z;
  r_schema : pydict;
  r_codec : option bytes;
  r_marker : option bytes
}.

Definition reader_start : reader := mkReader AVRO_HEADER_MAGIC [] None None.

(** What the step returns or raises for an item that is whole, and the
    reader after it; [None] when the item is not the one due in the phase of
    the reader or is not made as it says. *)
Definition item_outcome (L : Libs) (T : Transform) (fuel : nat) (q : reader)
  (it : item) : option (res (bytes * reader)) :=
  match it with
  | Magic m =>
      if (r_state q =? AVRO_HEADER_MAGIC) && (len m =? 4) then
        Some (if negb (bytes_eqb m header_magic)
              then Raise (AvroParsingFailureException InvalidHeaderMagic)
              else Ok (m, mkReader AVRO_HEADER_FILE_METADATA (r_schema q) (r_codec q)
                                   (r_marker q)))
      else None
  | Metadata toks =>
      match r_marker q with
      | None =>
          if r_state q =? AVRO_HEADER_FILE_METADATA then
            match metadata_walk L T toks 0 fuel [] with
            | Some (Closed out) =>
                let a := attrs_after L T toks (r_schema q, r_codec q) in
                Some (Ok (out, mkReader AVRO_SYNC_MARKER (fst a) (snd a) None))
            | Some (Stopped e) => Some (Raise e)
            | None => None
            end
          else None
      | Some _ => None
      end
  | Marker m =>
      match r_marker q with
      | None =>
          if (r_state q =? AVRO_SYNC_MARKER) && (len m =? 16) then
            Some (Ok (m, mkReader AVRO_START_DATABLOCK (r_schema q) (r_codec q)
                                  (Some m)))
          else None
      | Some _ => None
      end
  | Block b =>
      match r_marker q with
      | Some marker =>
          if (r_state q =? AVRO_START_DATABLOCK) && block_ok b then
            Some (match block_result L T (r_schema q) (r_codec q) marker b with
                  | Ok out => Ok (out, q)
                  | Raise e => Raise e
                  end)
          else None
      | None => None
      end
  end.

(** What an iteration over a stream gives: the items yielded, the exception
    that ends it, the sizes of the items for which [next] was called and
    returned or failed, and whether the iteration ended for want of data. *)
Record reading : Type := mkReading {
  yielded : list bytes;
  ended : exn;
  needs : list Z;
  waits : bool
}.

Definition out_of_data : reading := mkReading [] StopIteration [] true.

(** The iteration over the first [delivered] bytes of the stream made of
    [items]: the items are read as long as they are whole and the step
    returns; the iteration ends with the first exception, and for want of
    data when an item is not whole or its step asks for more data. The
    result is [None] when an item is not as [item_outcome] requires, or when
    more is delivered than the items and the iteration has not ended. *)
Fixpoint read_items (L : Libs) (T : Transform) (fuel : nat) (q : reader)
  (items : list item) (delivered : Z) : option reading :=
  match items with
  | [] => if delivered =? 0 then Some out_of_data else None
  | it :: items' =>
      match item_outcome L T fuel q it with
      | None => None
      | Some r =>
          if delivered <? len (item_bytes it) then Some out_of_data
          else
            match r with
            | Ok (out, q') =>
                match read_items L T fuel q' items' (delivered - len (item_bytes it)) with
                | Some rd =>
                    Some (mkReading (out :: yielded rd) (ended rd)
                                    (len (item_bytes it) :: needs rd) (waits rd))
                | None => None
                end
            | Raise AvroInsufficientDataException => Some out_of_data
            | Raise e => Some (mkReading [] e [len (item_bytes it)] false)
            end
      end
  end.

(** The rest of the [while] loop of [_parse_file_metadata] when [pending]
    entries of the current group are still to be read: these entries, the
    next count, and the loop again. *)
Definition loop_rest (L : Libs) (T : Transform) (fuel pending : nat) : M unit :=
  (repeat_m pending (metadata_entry L T) ;;
   '(block_count, used) <- read_at _read_long ;;
   save_used used ;;
   bused_add used ;;
   metadata_loop L T fuel block_count)%meth.

(** The parser is where the reader is: in the same phase, with the same
    attributes. *)
Definition at_reader (q : reader) (p : parser) : Prop :=
  state p = r_state q /\ syncmarker p = r_marker q /\
  schema p = r_schema q /\ codec p = r_codec q.

(** The parser is where the reader is, before the item [it]. Before a
    metadata, the attempts of the step on a part of it may have set the
    attributes already; what matters is what they are once the whole
    metadata is read. *)
Definition tracks (L : Libs) (T : Transform) (fuel : nat) (q : reader) (it : item)
  (p : parser) : Prop :=
  match it with
  | Metadata toks =>
      state p = r_state q /\ syncmarker p = r_marker q /\
      (forall out,
          metadata_walk L T toks 0 fuel [] = Some (Closed out) ->
          attrs_after L T toks (schema p, codec p)
          = attrs_after L T toks (r_schema q, r_codec q))
  | _ => at_reader q p
  end.

(** ** A container file as a stream of items *)

Definition tokens_of_group (g : list (bytes * bytes)) : list mtoken :=
  MCount (varint (len g)) (len g) ::
  map (fun kv => MEntry (varint (len (fst kv))) (fst kv)
                        (varint (len (snd kv))) (snd kv)) g.

Definition tokens_of_metadata (groups : list (list (bytes * bytes))) : list mtoken :=
  concat (map tokens_of_group groups) ++ [MCount (varint 0) 0].

Definition block_of (marker : bytes) (bl : ocf_block) : block :=
  {| b_count_enc := varint (len (block_records bl));
     b_count := len (block_records bl);
     b_size_enc := varint (len (block_payload bl) + 4);
     b_body := block_payload bl ++ block_checksum bl;
     b_marker := marker |}.

Definition items_of_file (f : ocf_file) : list item :=
  Magic header_magic :: Metadata (tokens_of_metadata (file_meta f)) ::
  Marker (file_marker f) ::
  map (fun bl => Block (block_of (file_marker f) bl)) (file_blocks f).

(** ** Further scenarios *)

(** The scenario with the codec ["null"]. *)
Definition scenario_null : ocf_file :=
  {| file_meta := [ [ (bstr "avro.codec", bstr "null");
                      (bstr "avro.schema", bstr schema_ab_compact) ] ];
     file_marker := marker_M;
     file_blocks := [demo_block records_ab] |}.

(** The scenario as a writer that follows the container format produces it:
    the checksum of the block is the CRC-32 in big-endian order. *)
Definition scenario_big_endian : ocf_file :=
  {| file_meta := file_meta scenario_dumped;
     file_marker := marker_M;
     file_blocks :=
       [ {| block_records := records_ab;
            block_payload := demo_compress (records_wire records_ab);
            block_checksum :=
              rev (the_bytes (checksum_wire demo (records_wire records_ab))) |} ] |}.

(** The libraries [demo] under an interpreter that allows [next] to nest
    [limit] calls. *)
Definition demo_with_limit (limit : nat) : Libs :=
  {| snappy_decompress := snappy_decompress demo;
     snappy_compress := snappy_compress demo;
     binascii_crc32 := binascii_crc32 demo;
     json_loads := json_loads demo;
     json_dumps := json_dumps demo;
     little_endian := little_endian demo;
     sys_maxint := sys_maxint demo;
     recursion_limit := limit |}.

(** A stream with the header of the scenario, the marker [marker_Z], a data
    block without records whose size is 0, the marker again, and one more
    byte. The slice [buffered[bused : bused + block_size - 4]] of this block
    ends two bytes before the end of the buffer. *)
Definition marker_Z : bytes := [x0c; x2c] ++ bstr "abcdefghijkl" ++ bstr "yz".

Definition short_block_stream : bytes :=
  header_magic ++ metadata_wire (file_meta scenario_compact) ++ marker_Z ++
  [x00; x00] ++ marker_Z ++ [x00].

(** * Properties *)

(** ** Bytes and bits *)

Lemma ord_range (c : byte) : 0 <= ord c < 256.
Proof.
  unfold ord. pose proof (Byte.to_N_bounded c) as H. lia.
Qed.

Lemma ord_byte_of_Z (v : Z) : 0 <= v < 256 -> ord (byte_of_Z v) = v.
Proof.
  intros Hv. unfold byte_of_Z, ord.
  rewrite Z.mod_small by lia.
  destruct (Byte.of_N (Z.to_N v)) as [c|] eqn:E.
  - apply Byte.to_of_N in E. rewrite E. lia.
  - apply Byte.of_N_None_iff in E. lia.
Qed.

Lemma pack_B_ok (v : Z) : 0 <= v < 256 -> pack_B v = Ok (byte_of_Z v).
Proof.
  intros Hv. unfold pack_B, byte_of_Z.
  replace ((0 <=? v) && (v <=? 255)) with true
    by (symmetry; apply andb_true_iff; split; apply Z.leb_le; lia).
  rewrite Z.mod_small by lia.
  destruct (Byte.of_N (Z.to_N v)) as [c|] eqn:E; [reflexivity|].
  apply Byte.of_N_None_iff in E. lia.
Qed.

Lemma land_127 (z : Z) : Z.land z 0x7F = z mod 128.
Proof. change 0x7F with (Z.ones 7). rewrite Z.land_ones by lia. reflexivity. Qed.

Lemma land_high (z : Z) : Z.land z (Z.lnot 0x7F) = 128 * (z / 128).
Proof.
  rewrite <- Z.ldiff_land. change 0x7F with (Z.ones 7).
  rewrite Z.ldiff_ones_r by lia.
  rewrite Z.shiftr_div_pow2, Z.shiftl_mul_pow2 by lia.
  change (2 ^ 7) with 128. lia.
Qed.

Lemma land_high_small (z : Z) :
  0 <= z -> (Z.land z (Z.lnot 0x7F) =? 0) = (z <? 128).
Proof.
  intros Hz. rewrite land_high.
  destruct (Z.ltb_spec z 128).
  - rewrite Z.div_small by lia. reflexivity.
  - apply Z.eqb_neq.
    assert (1 <= z / 128) by (apply Z.div_le_lower_bound; lia). lia.
Qed.

Lemma land_128 (c : Z) : 0 <= c < 256 -> (Z.land c 0x80 =? 0) = (c <? 128).
Proof.
  intros Hc.
  assert (E : Z.land c 0x80 = 128 * (c / 128)).
  { replace (Z.land c 0x80) with (Z.land (Z.land c 0xFF) (Z.lnot 0x7F)).
    - change 0xFF with (Z.ones 8). rewrite Z.land_ones by lia.
      change (2 ^ 8) with 256. rewrite Z.mod_small by lia. apply land_high.
    - rewrite <- Z.land_assoc. f_equal. }
  rewrite E. destruct (Z.ltb_spec c 128).
  - rewrite Z.div_small by lia. reflexivity.
  - apply Z.eqb_neq.
    assert (1 <= c / 128) by (apply Z.div_le_lower_bound; lia). lia.
Qed.

Lemma lor_disjoint (n x shift : Z) :
  0 <= shift -> 0 <= n < 2 ^ shift -> 0 <= x ->
  Z.lor n (Z.shiftl x shift) = n + x * 2 ^ shift.
Proof.
  intros Hs Hn Hx. rewrite Z.shiftl_mul_pow2 by lia.
  assert (E : Z.land n (x * 2 ^ shift) = 0); [|
    rewrite <- (Z.lxor_lor _ _ E); symmetry; apply Z.add_nocarry_lxor, E].
  apply Z.bits_inj'. intros i Hi. rewrite Z.land_spec, Z.bits_0.
  destruct (Z.ltb_spec i shift).
  - rewrite Z.mul_pow2_bits_low by lia. apply andb_false_r.
  - destruct (Z.eq_dec n 0) as [->|Hn0]; [rewrite Z.bits_0; reflexivity|].
    rewrite (Z.bits_above_log2 n i); [reflexivity|lia|].
    assert (Z.log2 n < shift) by (apply Z.log2_lt_pow2; lia). lia.
Qed.

Lemma lor_128 (z : Z) : Z.lor (Z.land z 0x7f) 0x80 = z mod 128 + 128.
Proof.
  rewrite land_127.
  assert (H : 0 <= z mod 128 < 128) by (apply Z.mod_pos_bound; lia).
  pose proof (lor_disjoint (z mod 128) 1 7) as E.
  change (Z.shiftl 1 7) with 128 in E. change (2 ^ 7) with 128 in E.
  rewrite E; lia.
Qed.

(** ** The zig-zag map *)

Lemma zigzag_eq (v : Z) : int64 v -> zigzag v = zigzag_spec v.
Proof.
  unfold int64, zigzag, zigzag_spec. intros Hv.
  rewrite Z.shiftl_mul_pow2, Z.shiftr_div_pow2 by lia. change (2 ^ 1) with 2.
  destruct (Z.ltb_spec v 0).
  - replace (v / 2 ^ 63) with (-1).
    + rewrite Z.lxor_m1_r. unfold Z.lnot. lia.
    + apply Z.div_unique with (r := v + 2 ^ 63); lia.
  - rewrite Z.div_small by lia. rewrite Z.lxor_0_r. lia.
Qed.

Lemma zigzag_spec_range (v : Z) : int64 v -> 0 <= zigzag_spec v < 2 ^ 64.
Proof. unfold int64, zigzag_spec. intros. destruct (Z.ltb_spec v 0); lia. Qed.

Lemma zigzag_spec_cases (v : Z) :
  zigzag_spec v = (if v <? 0 then - 2 * v - 1 else 2 * v).
Proof. reflexivity. Qed.

Lemma unzigzag_zigzag (v : Z) : unzigzag (zigzag_spec v) = v.
Proof.
  unfold unzigzag. generalize (zigzag_spec_cases v). intros Hn.
  replace (Z.land (zigzag_spec v) 1) with (Z.land (zigzag_spec v) (Z.ones 1))
    by reflexivity.
  rewrite Z.land_ones, Z.shiftr_div_pow2 by lia. change (2 ^ 1) with 2.
  revert Hn. unfold zigzag_spec.
  destruct (Z.ltb_spec v 0); intros _.
  - replace (- 2 * v - 1) with (1 + (- v - 1) * 2) by lia.
    rewrite Z.div_add, Z.mod_add by lia.
    change (1 / 2) with 0. change (1 mod 2) with 1.
    rewrite Z.lxor_m1_r. unfold Z.lnot. lia.
  - replace (2 * v) with (0 + v * 2) by lia.
    rewrite Z.div_add, Z.mod_add by lia.
    change (0 / 2) with 0. change (0 mod 2) with 0.
    simpl. apply Z.lxor_0_r.
Qed.

(** ** [_encode_long] against the specification's encoding *)

Lemma pow128_S (k : nat) : 128 ^ Z.of_nat (S k) = 128 * 128 ^ Z.of_nat k.
Proof. rewrite Nat2Z.inj_succ, Z.pow_succ_r by lia. reflexivity. Qed.

Lemma encode_loop_base128 (k : nat) :
  forall (f : nat) (z : Z) (acc : bytes),
    0 <= z < 128 ^ Z.of_nat (S k) ->
    Z.log2 z <= Z.of_nat f ->
    encode_loop f z acc = Ok (acc ++ base128 (S k) z).
Proof.
  induction k as [|k IH]; intros f z acc Hz Hf.
  - change (128 ^ Z.of_nat 1) with 128 in Hz.
    destruct f; simpl; rewrite land_high_small by lia;
      replace (z <? 128) with true by (symmetry; apply Z.ltb_lt; lia);
      rewrite pack_B_ok by lia; reflexivity.
  - rewrite pow128_S in Hz.
    destruct (Z.ltb_spec z 128) as [Hlt|Hge].
    + destruct f; simpl; rewrite land_high_small by lia;
        replace (z <? 128) with true by (symmetry; apply Z.ltb_lt; lia);
        rewrite pack_B_ok by lia; reflexivity.
    + assert (Hlog : 7 <= Z.log2 z) by (apply Z.log2_le_pow2; simpl; lia).
      destruct f as [|f]; [lia|].
      cbn [encode_loop]. rewrite land_high_small by lia.
      replace (z <? 128) with false by (symmetry; apply Z.ltb_ge; lia).
      rewrite lor_128.
      assert (0 <= z mod 128 < 128) by (apply Z.mod_pos_bound; lia).
      rewrite pack_B_ok by lia. cbn [rbind].
      rewrite Z.shiftr_div_pow2 by lia. change (2 ^ 7) with 128.
      rewrite IH.
      * rewrite <- app_assoc. cbn [app base128].
        replace (z <? 128) with false by (symmetry; apply Z.ltb_ge; lia).
        reflexivity.
      * split; [apply Z.div_pos; lia|].
        apply Z.div_lt_upper_bound; lia.
      * change 128 with (2 ^ 7). rewrite <- Z.shiftr_div_pow2 by lia.
        rewrite Z.log2_shiftr by lia. lia.
Qed.

Lemma encode_long_varint (v : Z) : int64 v -> _encode_long v = Ok (varint v).
Proof.
  intros Hv. unfold _encode_long, varint. rewrite (zigzag_eq v Hv).
  pose proof (zigzag_spec_range v Hv) as Hr.
  rewrite (encode_loop_base128 9); [reflexivity| |].
  - change (128 ^ Z.of_nat 10) with (2 ^ 70).
    assert (2 ^ 64 < 2 ^ 70) by (apply Z.pow_lt_mono_r; lia). lia.
  - rewrite Z2Nat.id; [lia|apply Z.log2_nonneg].
Qed.

(** Python's integers are unbounded, and so is the loop of [_encode_long]:
    it ends for every argument, because the zig-zag value is never negative. *)
Lemma zigzag_nonneg (v : Z) : 0 <= zigzag v.
Proof.
  unfold zigzag. apply Z.bits_iff_nonneg_ex. exists (Z.max 0 (Z.log2 (Z.abs v)) + 64).
  intros m Hm. rewrite Z.lxor_spec, Z.shiftl_spec, Z.shiftr_spec by lia.
  destruct (Z.le_gt_cases 0 v) as [Hv|Hv].
  - rewrite !Z.bits_above_log2; try reflexivity; try lia.
    all: rewrite Z.abs_eq in Hm by lia; lia.
  - rewrite !Z.bits_above_log2_neg; try reflexivity; try lia.
    all: rewrite Z.abs_neq in Hm by lia.
    all: assert (Z.log2 (Z.pred (- v)) <= Z.log2 (- v))
           by (apply Z.log2_le_mono; lia); lia.
Qed.

Lemma encode_loop_total (f : nat) :
  forall (z : Z) (acc : bytes),
    0 <= z -> Z.log2 z <= Z.of_nat f -> exists bs, encode_loop f z acc = Ok bs.
Proof.
  induction f as [|f IH]; intros z acc Hz Hf.
  - assert (z < 2) by
      (destruct (Z.eq_dec z 0) as [->|]; [lia|];
       apply Z.log2_lt_pow2 with (b := 1); lia).
    simpl. rewrite land_high_small by lia.
    replace (z <? 128) with true by (symmetry; apply Z.ltb_lt; lia).
    rewrite pack_B_ok by lia. eexists; reflexivity.
  - cbn [encode_loop]. rewrite land_high_small by lia.
    destruct (Z.ltb_spec z 128).
    + rewrite pack_B_ok by lia. eexists; reflexivity.
    + rewrite lor_128.
      assert (0 <= z mod 128 < 128) by (apply Z.mod_pos_bound; lia).
      rewrite pack_B_ok by lia. cbn [rbind].
      apply IH; [apply Z.shiftr_nonneg; lia|].
      rewrite Z.log2_shiftr by lia.
      assert (7 <= Z.log2 z) by (apply Z.log2_le_pow2; simpl; lia). lia.
Qed.

Lemma encode_long_total (v : Z) : exists bs, _encode_long v = Ok bs.
Proof.
  unfold _encode_long. apply encode_loop_total; [apply zigzag_nonneg|].
  rewrite Z2Nat.id; [lia|apply Z.log2_nonneg].
Qed.

(** ** [_read_long] *)

Lemma mod_add_128 (x : Z) : 0 <= x < 128 -> (x + 128) mod 128 = x.
Proof. intros Hx. symmetry. apply Z.mod_unique with (q := 1); lia. Qed.

Lemma read_long_loop_stop (rest : bytes) (blen c ind n shift : Z) :
  (Z.land c 0x80 =? 0) = true ->
  read_long_loop rest blen c ind n shift = Ok (unzigzag n, ind).
Proof. intros E. destruct rest; simpl; rewrite E; reflexivity. Qed.

Lemma continues_ord (c : byte) : continues c = negb (ord c <? 128).
Proof. unfold continues. rewrite land_128 by apply ord_range. reflexivity. Qed.

Lemma base128_length_pos (k : nat) (z : Z) : 0 < len (base128 (S k) z).
Proof. unfold len. simpl. destruct (z <? 128); simpl; lia. Qed.

Lemma len_cons {A} (x : A) (l : list A) : len (x :: l) = 1 + len l.
Proof. unfold len. simpl List.length. lia. Qed.

Lemma len_app {A} (l1 l2 : list A) : len (l1 ++ l2) = len l1 + len l2.
Proof. unfold len. rewrite length_app. lia. Qed.

Lemma len_nonneg {A} (l : list A) : 0 <= len l.
Proof. unfold len. lia. Qed.

Lemma base128_small (k : nat) (z : Z) :
  z < 128 -> base128 (S k) z = [byte_of_Z z].
Proof.
  intros H. simpl. replace (z <? 128) with true by (symmetry; apply Z.ltb_lt; lia).
  reflexivity.
Qed.

Lemma base128_big (k : nat) (z : Z) :
  128 <= z ->
  base128 (S k) z = byte_of_Z (z mod 128 + 128) :: base128 k (z / 128).
Proof.
  intros H. simpl. replace (z <? 128) with false by (symmetry; apply Z.ltb_ge; lia).
  reflexivity.
Qed.

(** One turn of the loop of [_read_long], when the byte read last carries the
    continuation bit and another byte is available. *)
Lemma read_long_loop_step (x : byte) (rest : bytes) (blen c ind n shift : Z) :
  128 <= c < 256 -> ind < blen ->
  read_long_loop (x :: rest) blen c ind n shift =
    read_long_loop rest blen (ord x) (ind + 1)
      (Z.lor n (Z.shiftl (Z.land (ord x) 0x7F) shift)) (shift + 7).
Proof.
  intros Hc Hi. cbn [read_long_loop]. rewrite land_128 by lia.
  replace (c <? 128) with false by (symmetry; apply Z.ltb_ge; lia).
  replace (blen <=? ind) with false by (symmetry; apply Z.leb_gt; lia).
  reflexivity.
Qed.

Lemma read_long_loop_last (z : Z) (rest : bytes) (blen c ind n shift : Z) :
  0 <= z < 128 -> 128 <= c < 256 -> 0 <= shift -> 0 <= n < 2 ^ shift ->
  ind < blen ->
  read_long_loop (byte_of_Z z :: rest) blen c ind n shift =
    Ok (unzigzag (n + z * 2 ^ shift), ind + 1).
Proof.
  intros Hz Hc Hs Hn Hi. rewrite read_long_loop_step by lia.
  rewrite ord_byte_of_Z by lia.
  rewrite read_long_loop_stop by (rewrite land_128 by lia; apply Z.ltb_lt; lia).
  rewrite land_127, Z.mod_small by lia.
  rewrite lor_disjoint by lia. reflexivity.
Qed.

(** Reading the groups of [z] that follow a byte carrying the continuation
    bit adds [z], shifted, to what was accumulated. *)
Lemma read_long_loop_base128 (k : nat) :
  forall (z : Z) (rest : bytes) (blen c ind n shift : Z),
    0 <= z < 128 ^ Z.of_nat (S k) ->
    128 <= c < 256 ->
    0 <= shift -> 0 <= n < 2 ^ shift ->
    ind + len (base128 (S k) z) <= blen ->
    read_long_loop (base128 (S k) z ++ rest) blen c ind n shift =
      Ok (unzigzag (n + z * 2 ^ shift), ind + len (base128 (S k) z)).
Proof.
  induction k as [|k IH]; intros z rest blen c ind n shift Hz Hc Hs Hn Hlen.
  - change (128 ^ Z.of_nat 1) with 128 in Hz.
    rewrite base128_small in * by lia. rewrite len_cons in *.
    change (len (@nil byte)) with 0 in *.
    cbn [app]. rewrite read_long_loop_last by lia. repeat f_equal; lia.
  - rewrite pow128_S in Hz.
    destruct (Z.ltb_spec z 128) as [Hlt|Hge].
    + rewrite base128_small in * by lia. rewrite len_cons in *.
      change (len (@nil byte)) with 0 in *.
      cbn [app]. rewrite read_long_loop_last by lia. repeat f_equal; lia.
    + rewrite (base128_big (S k)) in * by lia. rewrite len_cons in *.
      pose proof (base128_length_pos k (z / 128)) as Hpos.
      assert (Hm : 0 <= z mod 128 < 128) by (apply Z.mod_pos_bound; lia).
      cbn [app]. rewrite read_long_loop_step by lia.
      rewrite ord_byte_of_Z by lia.
      rewrite land_127, mod_add_128 by lia.
      rewrite lor_disjoint by lia.
      assert (Hp : 2 ^ (shift + 7) = 2 ^ shift * 128)
        by (rewrite Z.pow_add_r by lia; reflexivity).
      rewrite IH.
      * f_equal. f_equal; [|lia]. f_equal. rewrite Hp.
        rewrite (Z.div_mod z 128) at 3 by lia. ring.
      * split; [apply Z.div_pos; lia|apply Z.div_lt_upper_bound; lia].
      * lia.
      * lia.
      * rewrite Hp. nia.
      * lia.
Qed.

Lemma read_long_base128 (k : nat) (z : Z) (rest : bytes) (blen : Z) :
  0 <= z < 128 ^ Z.of_nat (S k) ->
  len (base128 (S k) z) <= blen ->
  _read_long (base128 (S k) z ++ rest) blen =
    Ok (unzigzag z, len (base128 (S k) z)).
Proof.
  intros Hz Hlen. pose proof (base128_length_pos k z) as Hpos.
  unfold _read_long.
  replace (blen =? 0) with false by (symmetry; apply Z.eqb_neq; lia).
  destruct (Z.ltb_spec z 128) as [Hlt|Hge].
  - rewrite base128_small in * by lia. cbn [app]. rewrite ord_byte_of_Z by lia.
    rewrite read_long_loop_stop by (rewrite land_128 by lia; apply Z.ltb_lt; lia).
    rewrite land_127, Z.mod_small by lia. reflexivity.
  - destruct k as [|k].
    { change (128 ^ Z.of_nat 1) with 128 in Hz. lia. }
    rewrite pow128_S in Hz.
    rewrite (base128_big (S k)) in * by lia. rewrite len_cons in *.
    assert (Hm : 0 <= z mod 128 < 128) by (apply Z.mod_pos_bound; lia).
    cbn [app]. rewrite ord_byte_of_Z by lia. rewrite land_127.
    rewrite mod_add_128 by lia.
    rewrite read_long_loop_base128.
    + replace (z mod 128 + z / 128 * 2 ^ 7) with z; [reflexivity|].
      change (2 ^ 7) with 128. rewrite (Z.div_mod z 128) at 1 by lia. ring.
    + split; [apply Z.div_pos; lia|apply Z.div_lt_upper_bound; lia].
    + lia.
    + lia.
    + change (2 ^ 7) with 128. lia.
    + lia.
Qed.

Lemma read_long_varint (v : Z) (rest : bytes) (blen : Z) :
  int64 v -> len (varint v) <= blen ->
  _read_long (varint v ++ rest) blen = Ok (v, len (varint v)).
Proof.
  intros Hv Hlen. unfold varint in *.
  pose proof (zigzag_spec_range v Hv) as Hr.
  assert (0 <= zigzag_spec v < 128 ^ Z.of_nat 10).
  { change (128 ^ Z.of_nat 10) with (2 ^ 70).
    assert (2 ^ 64 < 2 ^ 70) by (apply Z.pow_lt_mono_r; lia). lia. }
  rewrite read_long_base128 by assumption.
  rewrite unzigzag_zigzag. reflexivity.
Qed.

Lemma read_long_loop_insufficient (rest : bytes) :
  forall (blen c ind n shift : Z),
    0 <= c < 256 -> ind <= blen <= ind + len rest ->
    (read_long_loop rest blen c ind n shift = Raise AvroInsufficientDataException
     <-> 128 <= c /\
         forallb continues (firstn (Z.to_nat (blen - ind)) rest) = true).
Proof.
  induction rest as [|x rest IH]; intros blen c ind n shift Hc Hb.
  - change (len (@nil byte)) with 0 in Hb.
    destruct (Z.ltb_spec c 128) as [Hlt|Hge].
    + rewrite read_long_loop_stop by (rewrite land_128 by lia; apply Z.ltb_lt; lia).
      split; [discriminate|lia].
    + cbn [read_long_loop]. rewrite land_128 by lia.
      replace (c <? 128) with false by (symmetry; apply Z.ltb_ge; lia).
      replace (blen <=? ind) with true by (symmetry; apply Z.leb_le; lia).
      rewrite firstn_nil. simpl. tauto.
  - rewrite len_cons in Hb.
    destruct (Z.ltb_spec c 128) as [Hlt|Hge].
    + rewrite read_long_loop_stop by (rewrite land_128 by lia; apply Z.ltb_lt; lia).
      split; [discriminate|lia].
    + destruct (Z.leb_spec blen ind) as [Hle|Hgt].
      * cbn [read_long_loop]. rewrite land_128 by lia.
        replace (c <? 128) with false by (symmetry; apply Z.ltb_ge; lia).
        replace (blen <=? ind) with true by (symmetry; apply Z.leb_le; lia).
        replace (blen - ind) with 0 by lia. simpl. tauto.
      * rewrite read_long_loop_step by lia.
        rewrite IH by (try apply ord_range; lia).
        replace (Z.to_nat (blen - ind)) with (S (Z.to_nat (blen - (ind + 1)))) by lia.
        cbn [firstn forallb]. rewrite andb_true_iff, continues_ord.
        pose proof (ord_range x).
        destruct (Z.ltb_spec (ord x) 128); simpl; intuition (try lia; try discriminate).
Qed.

Lemma read_long_insufficient (buffered : bytes) (blen : Z) :
  0 <= blen <= len buffered ->
  (_read_long buffered blen = Raise AvroInsufficientDataException
   <-> forallb continues (firstn (Z.to_nat blen) buffered) = true).
Proof.
  intros Hb. unfold _read_long.
  destruct (Z.eqb_spec blen 0) as [->|Hne].
  - simpl. tauto.
  - destruct buffered as [|x rest]; [change (len (@nil byte)) with 0 in Hb; lia|].
    rewrite len_cons in Hb.
    rewrite read_long_loop_insufficient by (try apply ord_range; lia).
    replace (Z.to_nat blen) with (S (Z.to_nat (blen - 1))) by lia.
    cbn [firstn forallb]. rewrite andb_true_iff, continues_ord.
    pose proof (ord_range x).
    destruct (Z.ltb_spec (ord x) 128); simpl; intuition (try lia; try discriminate).
Qed.

(** On a buffer that holds at least [blen] bytes, [_read_long] either returns
    a value and the number of bytes it read, between 1 and [blen], or signals
    that it needs more data; it raises nothing else. *)
Lemma read_long_loop_cases (rest : bytes) :
  forall (blen c ind n shift : Z),
    0 <= c < 256 -> ind <= blen <= ind + len rest ->
    read_long_loop rest blen c ind n shift = Raise AvroInsufficientDataException
    \/ exists v used, read_long_loop rest blen c ind n shift = Ok (v, used)
                      /\ ind <= used <= blen.
Proof.
  induction rest as [|x rest IH]; intros blen c ind n shift Hc Hb.
  - change (len (@nil byte)) with 0 in Hb.
    destruct (Z.ltb_spec c 128) as [Hlt|Hge].
    + rewrite read_long_loop_stop by (rewrite land_128 by lia; apply Z.ltb_lt; lia).
      right. eexists _, _. split; [reflexivity|lia].
    + left. apply read_long_loop_insufficient; [lia|change (len (@nil byte)) with 0; lia|].
      rewrite firstn_nil. simpl. split; [lia|reflexivity].
  - rewrite len_cons in Hb.
    destruct (Z.ltb_spec c 128) as [Hlt|Hge].
    + rewrite read_long_loop_stop by (rewrite land_128 by lia; apply Z.ltb_lt; lia).
      right. eexists _, _. split; [reflexivity|lia].
    + destruct (Z.leb_spec blen ind) as [Hle|Hgt].
      * left. cbn [read_long_loop]. rewrite land_128 by lia.
        replace (c <? 128) with false by (symmetry; apply Z.ltb_ge; lia).
        replace (blen <=? ind) with true by (symmetry; apply Z.leb_le; lia).
        reflexivity.
      * rewrite read_long_loop_step by lia.
        destruct (IH blen (ord x) (ind + 1)
                    (Z.lor n (Z.shiftl (Z.land (ord x) 0x7F) shift)) (shift + 7))
          as [E|(v & used & E & Hu)]; [apply ord_range|lia|left; exact E|].
        right. exists v, used. split; [exact E|lia].
Qed.

Lemma read_long_cases (buffered : bytes) (blen : Z) :
  0 <= blen <= len buffered ->
  _read_long buffered blen = Raise AvroInsufficientDataException
  \/ exists v used, _read_long buffered blen = Ok (v, used) /\ 1 <= used <= blen.
Proof.
  intros Hb. unfold _read_long.
  destruct (Z.eqb_spec blen 0) as [->|Hne]; [left; reflexivity|].
  destruct buffered as [|x rest]; [change (len (@nil byte)) with 0 in Hb; lia|].
  rewrite len_cons in Hb.
  apply read_long_loop_cases; [apply ord_range|lia].
Qed.

(** ** C7 *)

(** C7. For every signed 64-bit [v], [_encode_long] (encode_varint) returns the
    canonical zig-zag, base-128, little-endian encoding [varint v]; [_read_long]
    (decode_varint) applied to that encoding, whatever bytes follow it, returns
    [v] and the length of the encoding; and on a buffer of [blen] available
    bytes [_read_long] raises [AvroInsufficientDataException] exactly when
    every available byte carries the continuation bit, that is when no byte
    with the top bit clear occurs among them. *)
Theorem varint_codec :
  (forall v, int64 v -> _encode_long v = Ok (varint v)) /\
  (forall v rest blen,
      int64 v -> len (varint v) <= blen ->
      _read_long (varint v ++ rest) blen = Ok (v, len (varint v))) /\
  (forall buffered blen,
      0 <= blen <= len buffered ->
      (_read_long buffered blen = Raise AvroInsufficientDataException
       <-> forallb continues (firstn (Z.to_nat blen) buffered) = true)).
Proof.
  split; [exact encode_long_varint|].
  split; [exact read_long_varint|exact read_long_insufficient].
Qed.

Lemma varint_codec_witness :
  int64 (-3) /\ _encode_long (-3) = Ok (varint (-3)) /\
  len (varint (-3)) <= 3 /\
  _read_long (varint (-3) ++ bstr "hi") 3 = Ok (-3, len (varint (-3))) /\
  0 <= 2 <= len (bstr (String "200" (String "201" EmptyString))) /\
  _read_long (bstr (String "200" (String "201" EmptyString))) 2
    = Raise AvroInsufficientDataException.
Proof.
  assert (H : int64 (-3)) by (unfold int64; lia).
  assert (H1 : len (varint (-3)) <= 3) by (vm_compute; discriminate).
  assert (H2 : 0 <= 2 <= len (bstr (String "200" (String "201" EmptyString))))
    by (vm_compute; split; discriminate).
  destruct varint_codec as (E & D & I).
  split; [exact H|]. split; [exact (E (-3) H)|]. split; [exact H1|].
  split; [exact (D (-3) (bstr "hi") 3 H H1)|]. split; [exact H2|].
  apply (I _ 2 H2). vm_compute. reflexivity.
Defined.

(** ** [_read_bytes] and negative lengths *)

Lemma read_bytes_negative (buffered : bytes) (blen slen bused : Z) :
  0 <= blen <= len buffered ->
  _read_long buffered blen = Ok (slen, bused) ->
  slen < 0 ->
  exists payload,
    _read_bytes buffered blen = Ok (payload, slen + bused)
    /\ slen + bused < bused
    /\ payload = py_slice buffered bused (bused + slen).
Proof.
  intros Hb E Hneg. unfold _read_bytes. rewrite E. cbn [rbind].
  destruct (read_long_cases buffered blen Hb) as [E'|(v & used & E' & Hu)];
    rewrite E' in E; [discriminate|].
  injection E as -> ->.
  replace (blen <? slen + bused) with false by (symmetry; apply Z.ltb_ge; lia).
  eexists. split; [reflexivity|]. split; [lia|reflexivity].
Qed.

(** A record of one string field read from the single byte [0x01], whose
    length prefix decodes to -1: the record is read as the empty string and
    no byte is consumed, so each of the [n] records of a block reads the same
    byte again. *)
Lemma records_loop_no_progress (n : nat) :
  forall reencoded,
    records_loop GenericStreamingAvroParser
      [(JStr "fields", JArr [string_field "b"])] n [x01] 0 reencoded
    = Ok (reencoded ++ repeat x00 n).
Proof.
  induction n as [|n IH]; intros reencoded.
  - simpl. rewrite app_nil_r. reflexivity.
  - cbn [records_loop].
    change (_parse_single_record GenericStreamingAvroParser
              [(JStr "fields", JArr [string_field "b"])] (py_slice_from [x01] 0))
      with (@Ok (bytes * Z) ([x00], 0)).
    cbn [rbind]. change (0 + 0) with 0. rewrite IH.
    rewrite <- app_assoc. reflexivity.
Qed.

(** C10. There are inputs whose length prefix zig-zag-decodes to a negative
    value on which [_read_bytes] (decode_bytes) raises nothing and returns a
    consumed count smaller than the number of bytes of the prefix: the one-byte
    prefix [0x01] encodes -1 and gives the empty payload and the count 0, the
    prefix [0x05] encodes -3 and gives a payload cut from both ends of the
    buffer and the count -2, and the same happens for every buffer whose prefix
    decodes to a negative length; a block of [n] one-string records then reads
    the same byte [n] times without advancing. *)
Theorem read_bytes_negative_length :
  _read_long [x01] 1 = Ok (-1, 1) /\
  _read_bytes [x01] 1 = Ok ([], 0) /\
  _read_bytes (x05 :: bstr "abcd") 5 = Ok (bstr "ab", -2) /\
  (forall buffered blen slen bused,
      0 <= blen <= len buffered ->
      _read_long buffered blen = Ok (slen, bused) ->
      slen < 0 ->
      exists payload,
        _read_bytes buffered blen = Ok (payload, slen + bused)
        /\ slen + bused < bused
        /\ payload = py_slice buffered bused (bused + slen)) /\
  (forall n,
      records_loop GenericStreamingAvroParser
        [(JStr "fields", JArr [string_field "b"])] n [x01] 0 []
      = Ok (repeat x00 n)).
Proof.
  split; [reflexivity|]. split; [reflexivity|]. split; [reflexivity|].
  split; [exact read_bytes_negative|].
  intros n. apply (records_loop_no_progress n []).
Qed.

Lemma read_bytes_negative_length_witness :
  0 <= 1 <= len [x01] /\ _read_long [x01] 1 = Ok (-1, 1) /\ -1 < 0 /\
  exists payload,
    _read_bytes [x01] 1 = Ok (payload, -1 + 1) /\ -1 + 1 < 1
    /\ payload = py_slice [x01] 1 (1 + -1).
Proof.
  assert (H0 : 0 <= 1 <= len [x01]) by (vm_compute; split; discriminate).
  assert (H1 : _read_long [x01] 1 = Ok (-1, 1)) by reflexivity.
  assert (H2 : -1 < 0) by lia.
  split; [exact H0|]. split; [exact H1|]. split; [exact H2|].
  exact (proj1 (proj2 (proj2 (proj2 read_bytes_negative_length))) [x01] 1 (-1) 1 H0 H1 H2).
Defined.

(** ** Evaluating methods *)

Ltac msimpl :=
  cbn [mbind modify get lift ret raise saved_add bused_add read_at save_used
       rbind fst snd
       buffered blen bused schema codec state syncmarker saved
       set_buffered set_blen set_bused set_schema set_codec set_state
       set_syncmarker set_saved] in *.

Lemma keeps_bind {A B C} (proj : parser -> C) (m : M A) (k : A -> M B) :
  keeps proj m -> (forall a, keeps proj (k a)) -> keeps proj (mbind m k).
Proof.
  intros Hm Hk p. unfold mbind. specialize (Hm p).
  destruct (m p) as [[a|e] p1]; simpl in *; [rewrite Hk|]; exact Hm.
Qed.

Lemma keeps_pure {A C} (proj : parser -> C) (f : parser -> res A) :
  keeps proj (fun p => (f p, p)).
Proof. intros p. reflexivity. Qed.

Lemma keeps_modify {C} (proj : parser -> C) (f : parser -> parser) :
  (forall p, proj (f p) = proj p) -> keeps proj (modify f).
Proof. intros H p. apply H. Qed.

Lemma keeps_repeat {C} (proj : parser -> C) (n : nat) (body : M unit) :
  keeps proj body -> keeps proj (repeat_m n body).
Proof.
  intros Hb. induction n as [|n IH]; simpl.
  - intros p. reflexivity.
  - apply keeps_bind; auto.
Qed.

(** Proves that a method built from the monad's operations keeps an
    attribute that none of its assignments names. *)
Ltac keeps_tac :=
  repeat (intros;
    match goal with
    | H : keeps ?proj ?m |- keeps ?proj ?m => exact H
    | H : forall x, keeps ?proj (?m x) |- keeps ?proj (?m _) => apply H
    | H : forall x y, keeps ?proj (?m x y) |- keeps ?proj (?m _ _) => apply H
    | |- keeps _ (mbind _ _) => apply keeps_bind
    | |- keeps _ (repeat_m _ _) => apply keeps_repeat
    | |- keeps _ (match ?x with _ => _ end) => destruct x
    | |- keeps _ (modify _) => apply keeps_modify; intros; reflexivity
    | |- keeps _ (save_used _) => apply keeps_modify; intros; reflexivity
    | |- keeps _ (saved_add _) => apply keeps_modify; intros; reflexivity
    | |- keeps _ (bused_add _) => apply keeps_modify; intros; reflexivity
    | |- keeps _ (ret _) => intros ?; reflexivity
    | |- keeps _ (raise _) => intros ?; reflexivity
    | |- keeps _ (lift _) => intros ?; reflexivity
    | |- keeps _ (get _) => intros ?; reflexivity
    | |- keeps _ (read_at _) => intros ?; reflexivity
    | |- keeps _ (fun p => _) =>
        let p := fresh "p" in
        intros p; cbn beta;
        repeat match goal with
               | |- context [match ?x with _ => _ end] => destruct x
               end;
        reflexivity
    end).

Section Marker.

Variable L : Libs.
Variable T : Transform.
Variable fuel : nat.

Lemma keeps_marker_codec : keeps syncmarker _read_avro_codec.
Proof. unfold _read_avro_codec. keeps_tac. Qed.

Lemma keeps_marker_schema : keeps syncmarker (_read_avro_schema L T).
Proof. unfold _read_avro_schema. keeps_tac. Qed.

Lemma keeps_marker_entry : keeps syncmarker (metadata_entry L T).
Proof.
  pose proof keeps_marker_codec. pose proof keeps_marker_schema.
  unfold metadata_entry. keeps_tac.
Qed.

Lemma keeps_marker_loop (f : nat) :
  forall block_count, keeps syncmarker (metadata_loop L T f block_count).
Proof.
  pose proof keeps_marker_entry.
  induction f as [|f IH]; intros block_count; simpl;
    destruct (block_count =? 0); keeps_tac.
Qed.

Lemma keeps_marker_header : keeps syncmarker _parse_header_magic.
Proof. unfold _parse_header_magic. keeps_tac. Qed.

Lemma keeps_marker_metadata : keeps syncmarker (_parse_file_metadata L T fuel).
Proof.
  pose proof keeps_marker_loop.
  unfold _parse_file_metadata. keeps_tac.
Qed.

Lemma keeps_marker_block_body : keeps syncmarker (data_block_body L T).
Proof. unfold data_block_body. keeps_tac. Qed.

(** The schema is assigned by [_read_avro_schema] only. *)
Lemma keeps_schema_header : keeps schema _parse_header_magic.
Proof. unfold _parse_header_magic. keeps_tac. Qed.

Lemma keeps_schema_sync : keeps schema _parse_sync_marker.
Proof. unfold _parse_sync_marker. keeps_tac. Qed.

Lemma keeps_schema_codec : keeps schema _read_avro_codec.
Proof. unfold _read_avro_codec. keeps_tac. Qed.

Lemma keeps_schema_block_body : keeps schema (data_block_body L T).
Proof. unfold data_block_body. keeps_tac. Qed.

Lemma keeps_schema_block : keeps schema (_parse_data_block L T).
Proof.
  pose proof keeps_schema_block_body. pose proof keeps_schema_sync.
  unfold _parse_data_block. keeps_tac.
Qed.

End Marker.

(** ** The driver *)

Section Driver.

Variable L : Libs.
Variable T : Transform.
Variable fuel : nat.

Lemma next_eq (depth : nat) (p : parser) (src : source) :
  next L T fuel depth p src =
    match _parse_next_item L T fuel p with
    | (Ok item, p') => (Ok item, p', src)
    | (Raise AvroInsufficientDataException, p') =>
        match src with
        | [] => (Raise StopIteration, p', src)
        | x :: src' =>
            let p' := set_buffered (buffered p' ++ x) p' in
            let p' := set_blen (blen p' + len x) p' in
            match depth with
            | O => (Raise (PyError RuntimeError), p', src')
            | S depth' => next L T fuel depth' p' src'
            end
        end
    | (Raise e, p') => (Raise e, p', src)
    end.
Proof. destruct depth; reflexivity. Qed.

(** A parsing failure is not retried: [next] raises it at once. *)
Lemma next_failure (depth : nat) (p : parser) (src : source) (msg : failure) :
  fst (_parse_next_item L T fuel p) = Raise (AvroParsingFailureException msg) ->
  next L T fuel depth p src =
    (Raise (AvroParsingFailureException msg), snd (_parse_next_item L T fuel p), src).
Proof.
  intros H. rewrite next_eq.
  destruct (_parse_next_item L T fuel p) as [r p']. simpl in H. subst r.
  reflexivity.
Qed.

(** When a step needs more data and the source has none, [next] raises
    [StopIteration]. *)
Lemma next_exhausted (depth : nat) (p : parser) :
  fst (_parse_next_item L T fuel p) = Raise AvroInsufficientDataException ->
  next L T fuel depth p [] =
    (Raise StopIteration, snd (_parse_next_item L T fuel p), []).
Proof.
  intros H. rewrite next_eq.
  destruct (_parse_next_item L T fuel p) as [r p']. simpl in H. subst r.
  reflexivity.
Qed.

Lemma run_failure (steps : nat) (p : parser) (src : source) (msg : failure) :
  fst (_parse_next_item L T fuel p) = Raise (AvroParsingFailureException msg) ->
  run L T fuel (S steps) p src = ([], AvroParsingFailureException msg).
Proof. intros H. cbn [run]. rewrite (next_failure _ _ _ _ H). reflexivity. Qed.

Lemma run_exhausted (steps : nat) (p : parser) :
  fst (_parse_next_item L T fuel p) = Raise AvroInsufficientDataException ->
  run L T fuel (S steps) p [] = ([], StopIteration).
Proof. intros H. cbn [run]. rewrite (next_exhausted _ _ H). reflexivity. Qed.

(** ** The sync marker *)

Lemma sync_marker_capture (p : parser) :
  syncmarker p = None -> 16 <= blen p ->
  fst (_parse_sync_marker p) = Ok (py_slice_to (buffered p) 16) /\
  syncmarker (snd (_parse_sync_marker p)) = Some (py_slice_to (buffered p) 16).
Proof.
  intros Hm Hb. unfold _parse_sync_marker.
  replace (blen p <? 16) with false by (symmetry; apply Z.ltb_ge; lia).
  rewrite Hm. split; reflexivity.
Qed.

Lemma bytes_eqb_eq (x y : bytes) : bytes_eqb x y = true <-> x = y.
Proof.
  unfold bytes_eqb. destruct (list_eq_dec Byte.byte_eq_dec x y); split;
    congruence.
Qed.

Lemma bytes_eqb_refl (x : bytes) : bytes_eqb x x = true.
Proof. apply bytes_eqb_eq. reflexivity. Qed.

Lemma bytes_eqb_neq (x y : bytes) : bytes_eqb x y = false <-> x <> y.
Proof.
  unfold bytes_eqb. destruct (list_eq_dec Byte.byte_eq_dec x y); split;
    congruence.
Qed.

Lemma sync_marker_mismatch (p : parser) (m : bytes) :
  syncmarker p = Some m -> 16 <= blen p -> py_slice_to (buffered p) 16 <> m ->
  _parse_sync_marker p =
    (Raise (AvroParsingFailureException SyncMarkerMismatch), p).
Proof.
  intros Hm Hb Hne. unfold _parse_sync_marker.
  replace (blen p <? 16) with false by (symmetry; apply Z.ltb_ge; lia).
  rewrite Hm. apply bytes_eqb_neq in Hne. rewrite Hne. reflexivity.
Qed.

Lemma sync_marker_fixed (p : parser) (m : bytes) :
  syncmarker p = Some m -> syncmarker (snd (_parse_sync_marker p)) = Some m.
Proof.
  intros Hm. unfold _parse_sync_marker.
  destruct (blen p <? 16); [exact Hm|]. rewrite Hm.
  destruct (negb _); [exact Hm|]. exact Hm.
Qed.

Lemma data_block_mismatch (p p1 : parser) (m : bytes) :
  data_block_body L T p = (Ok tt, p1) ->
  syncmarker p = Some m -> 16 <= blen p1 -> py_slice_to (buffered p1) 16 <> m ->
  _parse_data_block L T p =
    (Raise (AvroParsingFailureException SyncMarkerMismatch), p1).
Proof.
  intros Hbody Hm Hb Hne.
  assert (Hm1 : syncmarker p1 = Some m).
  { pose proof (keeps_marker_block_body L T p) as K. rewrite Hbody in K.
    simpl in K. congruence. }
  unfold _parse_data_block, mbind at 1. rewrite Hbody.
  unfold mbind at 1. cbn [get]. unfold mbind at 1.
  rewrite (sync_marker_mismatch p1 m Hm1 Hb Hne). reflexivity.
Qed.

(** C4. The sync marker is unset when the parser is created and no step but
    [_parse_sync_marker] touches it, so it is captured from the first 16 bytes
    that follow the file metadata; once captured it never changes; at every
    later occurrence, alone or at the end of a data block, 16 bytes that differ
    from it make the step raise the sync-marker [AvroParsingFailureException],
    and an iteration in which a step raises that failure yields nothing more. *)
Theorem sync_marker_consistency :
  (forall initbody, syncmarker (init initbody) = None) /\
  (forall p, syncmarker (snd (_parse_header_magic p)) = syncmarker p) /\
  (forall p, syncmarker (snd (_parse_file_metadata L T fuel p)) = syncmarker p) /\
  (forall p, syncmarker (snd (data_block_body L T p)) = syncmarker p) /\
  (forall p,
      syncmarker p = None -> 16 <= blen p ->
      fst (_parse_sync_marker p) = Ok (py_slice_to (buffered p) 16) /\
      syncmarker (snd (_parse_sync_marker p)) = Some (py_slice_to (buffered p) 16)) /\
  (forall p m,
      syncmarker p = Some m -> syncmarker (snd (_parse_sync_marker p)) = Some m) /\
  (forall p m,
      syncmarker p = Some m -> 16 <= blen p -> py_slice_to (buffered p) 16 <> m ->
      _parse_sync_marker p =
        (Raise (AvroParsingFailureException SyncMarkerMismatch), p)) /\
  (forall p p1 m,
      data_block_body L T p = (Ok tt, p1) ->
      syncmarker p = Some m -> 16 <= blen p1 -> py_slice_to (buffered p1) 16 <> m ->
      _parse_data_block L T p =
        (Raise (AvroParsingFailureException SyncMarkerMismatch), p1)) /\
  (forall steps p src,
      fst (_parse_next_item L T fuel p)
        = Raise (AvroParsingFailureException SyncMarkerMismatch) ->
      run L T fuel (S steps) p src
        = ([], AvroParsingFailureException SyncMarkerMismatch)).
Proof.
  split; [reflexivity|].
  split; [exact keeps_marker_header|].
  split; [exact (keeps_marker_metadata L T fuel)|].
  split; [exact (keeps_marker_block_body L T)|].
  split; [exact sync_marker_capture|].
  split; [exact sync_marker_fixed|].
  split; [exact sync_marker_mismatch|].
  split; [exact data_block_mismatch|].
  intros steps p src H. apply run_failure, H.
Qed.

End Driver.

Lemma sync_marker_consistency_witness :
  fst (_parse_sync_marker (after_metadata marker_M)) = Ok marker_M /\
  syncmarker (snd (_parse_sync_marker (after_metadata marker_M))) = Some marker_M /\
  syncmarker (snd (_parse_sync_marker (between_blocks block_then_wrong_marker)))
    = Some marker_M /\
  _parse_sync_marker (between_blocks (bstr "0123456789abcdeX"))
    = (Raise (AvroParsingFailureException SyncMarkerMismatch),
       between_blocks (bstr "0123456789abcdeX")) /\
  fst (_parse_data_block demo GenericStreamingAvroParser
         (between_blocks block_then_wrong_marker))
    = Raise (AvroParsingFailureException SyncMarkerMismatch) /\
  run demo GenericStreamingAvroParser 1 1 (between_blocks block_then_wrong_marker) []
    = ([], AvroParsingFailureException SyncMarkerMismatch).
Proof.
  destruct (sync_marker_consistency demo GenericStreamingAvroParser 1)
    as (_ & _ & _ & _ & Hcap & Hfix & Hmis & Hblock & Hrun).
  assert (H16 : 16 <= blen (after_metadata marker_M)) by (vm_compute; discriminate).
  destruct (Hcap (after_metadata marker_M) eq_refl H16) as [C1 C2].
  split; [exact C1|]. split; [exact C2|].
  split; [exact (Hfix (between_blocks block_then_wrong_marker) marker_M eq_refl)|].
  split.
  { apply (Hmis (between_blocks (bstr "0123456789abcdeX")) marker_M eq_refl).
    - vm_compute; discriminate.
    - vm_compute; discriminate. }
  split.
  { rewrite (Hblock (between_blocks block_then_wrong_marker)
               (snd (data_block_body demo GenericStreamingAvroParser
                       (between_blocks block_then_wrong_marker)))
               marker_M).
    - reflexivity.
    - vm_compute. reflexivity.
    - reflexivity.
    - vm_compute; discriminate.
    - vm_compute; discriminate. }
  apply (Hrun 0%nat). vm_compute. reflexivity.
Defined.

(** ** The end of the source *)

Lemma empty_buffer_insufficient (L : Libs) (T : Transform) (fuel : nat) (p : parser) :
  blen p = 0 ->
  AVRO_HEADER_MAGIC <= state p <= AVRO_START_DATABLOCK ->
  fst (_parse_next_item L T fuel p) = Raise AvroInsufficientDataException.
Proof.
  unfold AVRO_HEADER_MAGIC, AVRO_START_DATABLOCK. intros Hb Hs.
  assert (C : state p = 1 \/ state p = 2 \/ state p = 3 \/ state p = 4) by lia.
  unfold _parse_next_item.
  destruct C as [E|[E|[E|E]]]; rewrite E; cbn [Z.eqb Pos.eqb AVRO_HEADER_MAGIC
    AVRO_HEADER_FILE_METADATA AVRO_SYNC_MARKER AVRO_START_DATABLOCK].
  - unfold _parse_header_magic, mbind, modify. cbn [blen bused set_bused].
    rewrite Hb. reflexivity.
  - unfold _parse_file_metadata, mbind, modify. cbn [blen buffered set_bused set_saved].
    unfold _read_long. rewrite Hb. reflexivity.
  - unfold _parse_sync_marker. rewrite Hb. reflexivity.
  - unfold _parse_data_block, data_block_body, mbind, modify.
    cbn [blen buffered set_bused set_saved].
    unfold _read_long. rewrite Hb. reflexivity.
Qed.

(** C9, as the code has it. When the source is exhausted while the step of the
    current phase still needs data, the iteration ends with [StopIteration],
    in every phase of the state machine and whatever is buffered: no
    truncation error is raised. In particular this is so in each of the four
    phases when the buffer is empty. *)
Theorem exhausted_source_stops (L : Libs) (T : Transform) (fuel steps : nat) :
  (forall p,
      fst (_parse_next_item L T fuel p) = Raise AvroInsufficientDataException ->
      run L T fuel (S steps) p [] = ([], StopIteration)) /\
  (forall p,
      blen p = 0 ->
      AVRO_HEADER_MAGIC <= state p <= AVRO_START_DATABLOCK ->
      run L T fuel (S steps) p [] = ([], StopIteration)).
Proof.
  split.
  - intros p H. apply run_exhausted, H.
  - intros p Hb Hs. apply run_exhausted, empty_buffer_insufficient; assumption.
Qed.

Lemma exhausted_source_stops_witness :
  fst (_parse_next_item demo GenericStreamingAvroParser 1 (init (bstr "Ob")))
    = Raise AvroInsufficientDataException /\
  run demo GenericStreamingAvroParser 1 1 (init (bstr "Ob")) [] = ([], StopIteration) /\
  blen (after_metadata []) = 0 /\
  AVRO_HEADER_MAGIC <= state (after_metadata []) <= AVRO_START_DATABLOCK /\
  run demo GenericStreamingAvroParser 1 1 (after_metadata []) [] = ([], StopIteration).
Proof.
  destruct (exhausted_source_stops demo GenericStreamingAvroParser 1 0) as [H1 H2].
  assert (E : fst (_parse_next_item demo GenericStreamingAvroParser 1 (init (bstr "Ob")))
              = Raise AvroInsufficientDataException) by reflexivity.
  assert (S : AVRO_HEADER_MAGIC <= state (after_metadata []) <= AVRO_START_DATABLOCK)
    by (vm_compute; split; discriminate).
  split; [exact E|]. split; [exact (H1 _ E)|]. split; [reflexivity|].
  split; [exact S|]. exact (H2 (after_metadata []) eq_refl S).
Defined.

(** The claim as stated fails: a source that ends in the middle of the header
    magic, in the middle of the metadata, or in the middle of a data block ends
    the iteration with [StopIteration], after whatever was yielded before. *)
Lemma truncation_is_silent :
  transcode demo GenericStreamingAvroParser 5 10 (bstr "Ob") []
    = ([], StopIteration) /\
  transcode demo GenericStreamingAvroParser 5 10
      (firstn 20 (ocf_wire scenario_dumped)) []
    = (header_magic, StopIteration) /\
  transcode demo GenericStreamingAvroParser 5 10
      (firstn 170 (ocf_wire scenario_dumped)) []
    = (firstn 150 (ocf_wire scenario_dumped), StopIteration).
Proof. split; [|split]; vm_compute; reflexivity. Qed.

(** ** Decoding a record *)

Ltac rcase :=
  match goal with
  | |- context [rbind ?x _] =>
      let E := fresh "E" in
      destruct x as [?|?] eqn:E; cbn [rbind]; try reflexivity
  end.

Section Records.

Variable L : Libs.
Variable T : Transform.
Variable fuel : nat.

Lemma record_fields_app (pre post : list json) (source : bytes) (rem : Z) :
  forall encoded skip,
    record_fields T (pre ++ post) source rem encoded skip =
      ('(e, k) <- record_fields T pre source rem encoded skip ;;
       record_fields T post source rem e k)%res.
Proof.
  induction pre as [|f pre IH]; intros encoded skip; [reflexivity|].
  cbn [app record_fields].
  do 3 rcase. destruct a1 as [val skip']. do 2 rcase. apply IH.
Qed.

Lemma record_fields_unsupported (f : json) (post : list json) (ty t : json)
  (source : bytes) (rem : Z) (encoded : bytes) (skip : Z) :
  py_getitem f "type" = Ok ty -> py_getitem ty "type" = Ok t -> unsupported t ->
  record_fields T (f :: post) source rem encoded skip =
    Raise (AvroParsingFailureException (UnsupportedDataType t)).
Proof.
  unfold unsupported. intros Hty Ht Hu. cbn [record_fields].
  rewrite Hty. cbn [rbind]. rewrite Ht. cbn [rbind].
  apply orb_false_iff in Hu. destruct Hu as [Hu ->]. rewrite Hu. reflexivity.
Qed.

Lemma record_unsupported (pre post : list json) (f ty t : json)
  (source : bytes) (rem : Z) (encoded : bytes) (skip : Z) (e0 : bytes) (k0 : Z) :
  py_getitem f "type" = Ok ty -> py_getitem ty "type" = Ok t -> unsupported t ->
  record_fields T pre source rem encoded skip = Ok (e0, k0) ->
  record_fields T (pre ++ f :: post) source rem encoded skip =
    Raise (AvroParsingFailureException (UnsupportedDataType t)).
Proof.
  intros Hty Ht Hu Hpre. rewrite record_fields_app, Hpre. cbn [rbind].
  eapply record_fields_unsupported; eassumption.
Qed.

End Records.

Section Blocks.

Variable L : Libs.
Variable T : Transform.
Variable fuel : nat.

Ltac frame_in H :=
  let used2 := fresh "used2" in
  let H1 := fresh "Hcount" in
  let H2 := fresh "Hsize" in
  let Hlen := fresh "Hlen" in
  destruct H as (used2 & H1 & H2 & -> & Hlen);
  unfold data_block_body; msimpl; rewrite H1; msimpl;
  rewrite !Z.add_0_l; rewrite H2; msimpl;
  match goal with
  | |- context [blen ?p <? ?x] =>
      replace (blen p <? x) with false by (symmetry; apply Z.ltb_ge; lia)
  end;
  msimpl; unfold mbind at 1; msimpl; unfold codec_is in *; msimpl.

Lemma data_block_codec (p : parser) (obj_count block_size used hdr : Z) :
  block_framed p obj_count block_size used hdr ->
  codec_is p "snappy" = false ->
  fst (data_block_body L T p) =
    Raise (AvroParsingFailureException
             (if codec_is p "deflate" then UnsupportedCodec (codec p)
              else UnknownCodec (codec p))).
Proof.
  intros Hf Hc. frame_in Hf. rewrite Hc.
  destruct (codec p) as [c|]; [destruct (bytes_eqb c (bstr "deflate"))|];
    reflexivity.
Qed.

Lemma data_block_records_fail (p : parser) (obj_count block_size used hdr : Z)
  (inflated : bytes) (e : exn) :
  block_framed p obj_count block_size used hdr ->
  codec_is p "snappy" = true ->
  snappy_decompress L (py_slice (buffered p) hdr (hdr + block_size - 4))
    = Ok inflated ->
  records_loop T (schema p) (Z.to_nat obj_count) inflated 0 [] = Raise e ->
  fst (data_block_body L T p) = Raise e.
Proof.
  intros Hf Hc Hd Hr. frame_in Hf. rewrite Hc, Hd. msimpl.
  unfold mbind at 1. msimpl. rewrite Hr. reflexivity.
Qed.

Lemma pack_I_ok (v : Z) :
  0 <= v < 2 ^ 32 -> exists c, pack_I L v = Ok c /\ len c = 4.
Proof.
  intros Hv. unfold pack_I.
  replace ((0 <=? v) && (v <? 2 ^ 32)) with true
    by (symmetry; apply andb_true_iff; split; [apply Z.leb_le|apply Z.ltb_lt]; lia).
  assert (B : forall x, 0 <= Z.land x 0xff < 256).
  { intros x. change 0xff with (Z.ones 8). rewrite Z.land_ones by lia.
    apply Z.mod_pos_bound. reflexivity. }
  rewrite !pack_B_ok by apply B. cbn [rbind].
  destruct (little_endian L); eexists; split; reflexivity.
Qed.

Lemma checksum_wire_ok (data : bytes) :
  exists c, checksum_wire L data = Ok c /\ len c = 4.
Proof.
  unfold checksum_wire. apply pack_I_ok.
  change 0xffffffff with (Z.ones 32). rewrite Z.land_ones by lia.
  apply Z.mod_pos_bound. reflexivity.
Qed.

Lemma data_block_body_ok (p : parser) (obj_count block_size used hdr : Z)
  (inflated reencoded lenb crc : bytes) :
  block_framed p obj_count block_size used hdr ->
  codec_is p "snappy" = true ->
  snappy_decompress L (py_slice (buffered p) hdr (hdr + block_size - 4))
    = Ok inflated ->
  records_loop T (schema p) (Z.to_nat obj_count) inflated 0 [] = Ok reencoded ->
  _encode_long (len (snappy_compress L reencoded) + 4) = Ok lenb ->
  checksum_wire L reencoded = Ok crc ->
  data_block_body L T p =
    (Ok tt, after_block_body L p used hdr block_size reencoded lenb crc).
Proof.
  intros Hf Hc Hd Hr He Hk. frame_in Hf. rewrite Hc, Hd. msimpl.
  unfold mbind at 1. msimpl. rewrite Hr. msimpl.
  unfold mbind at 1. msimpl. rewrite Hc. msimpl. rewrite He. msimpl.
  unfold checksum_wire in Hk. rewrite Hk. msimpl. reflexivity.
Qed.

(** Conversely, a [data_block_body] that succeeds has gone through all of
    these stages. *)
Lemma data_block_body_inv (p p1 : parser) :
  data_block_body L T p = (Ok tt, p1) ->
  exists obj_count block_size used used2 inflated reencoded lenb crc,
    _read_long (buffered p) (blen p) = Ok (obj_count, used) /\
    _read_long (py_slice_from (buffered p) used) (blen p - used)
      = Ok (block_size, used2) /\
    used + used2 + block_size + 16 <= blen p /\
    codec_is p "snappy" = true /\
    snappy_decompress L
      (py_slice (buffered p) (used + used2) (used + used2 + block_size - 4))
      = Ok inflated /\
    records_loop T (schema p) (Z.to_nat obj_count) inflated 0 [] = Ok reencoded /\
    _encode_long (len (snappy_compress L reencoded) + 4) = Ok lenb /\
    checksum_wire L reencoded = Ok crc /\
    p1 = after_block_body L p used (used + used2) block_size reencoded lenb crc.
Proof.
  unfold data_block_body. msimpl. intros H.
  destruct (_read_long (buffered p) (blen p)) as [[obj_count used]|] eqn:H1;
    msimpl; [|discriminate].
  rewrite !Z.add_0_l in H.
  destruct (_read_long (py_slice_from (buffered p) used) (blen p - used))
    as [[block_size used2]|] eqn:H2; msimpl; [|discriminate].
  destruct (Z.ltb_spec (blen p) (used + used2 + block_size + 16)) as [|Hlen];
    msimpl; [discriminate|].
  unfold mbind at 1 in H. msimpl. unfold codec_is in *. msimpl.
  destruct (match codec p with Some c => bytes_eqb c (bstr "snappy") | None => false end)
    eqn:Hc.
  2:{ destruct (match codec p with Some c => bytes_eqb c (bstr "deflate") | None => false end);
      discriminate. }
  destruct (snappy_decompress L _) as [inflated|] eqn:Hd; [|discriminate].
  msimpl. unfold mbind at 1 in H. msimpl.
  destruct (records_loop T (schema p) (Z.to_nat obj_count) inflated 0 [])
    as [reencoded|] eqn:Hr; [|discriminate].
  msimpl. unfold mbind at 1 in H. msimpl. rewrite Hc in H. msimpl.
  destruct (_encode_long (len (snappy_compress L reencoded) + 4)) as [lenb|] eqn:He;
    msimpl; [|discriminate].
  destruct (pack_I L (Z.land (binascii_crc32 L reencoded) 4294967295)) as [crc|] eqn:Hk;
    msimpl; [|discriminate].
  injection H as <-.
  exists obj_count, block_size, used, used2, inflated, reencoded, lenb, crc.
  repeat (split; [first [assumption|reflexivity]|]). reflexivity.
Qed.

End Blocks.

Section BlockFailures.

Variable L : Libs.
Variable T : Transform.
Variable fuel : nat.

Lemma parse_data_block_fail (p : parser) (e : exn) :
  fst (data_block_body L T p) = Raise e -> fst (_parse_data_block L T p) = Raise e.
Proof.
  intros H. unfold _parse_data_block, mbind at 1.
  destruct (data_block_body L T p) as [r p1]. simpl in H. subst r. reflexivity.
Qed.

Lemma parse_data_block_inv (p p2 : parser) (out : bytes) :
  _parse_data_block L T p = (Ok out, p2) ->
  exists p1 marker,
    data_block_body L T p = (Ok tt, p1) /\
    fst (_parse_sync_marker p1) = Ok marker /\
    out = saved p1 ++ marker.
Proof.
  unfold _parse_data_block, mbind at 1. intros H.
  destruct (data_block_body L T p) as [[[]|e] p1]; [|discriminate].
  unfold mbind at 1 in H. cbn [get] in H. unfold mbind at 1 in H.
  destruct (_parse_sync_marker p1) as [[marker|e] p1'] eqn:E; [|discriminate].
  msimpl. injection H as <- <-.
  exists p1, marker. rewrite E. repeat split; reflexivity.
Qed.

Lemma parse_next_item_block (p : parser) :
  state p = AVRO_START_DATABLOCK ->
  _parse_next_item L T fuel p = _parse_data_block L T p.
Proof. intros E. unfold _parse_next_item. rewrite E. reflexivity. Qed.

Lemma data_block_unsupported_type (p : parser) (obj_count block_size used hdr : Z)
  (inflated : bytes) (fields : json) (pre post : list json) (f ty t : json)
  (e0 : bytes) (k0 : Z) :
  block_framed p obj_count block_size used hdr ->
  codec_is p "snappy" = true ->
  snappy_decompress L (py_slice (buffered p) hdr (hdr + block_size - 4))
    = Ok inflated ->
  0 < obj_count ->
  dict_getitem (schema p) "fields" = Ok fields ->
  py_iter fields = Ok (pre ++ f :: post) ->
  py_getitem f "type" = Ok ty -> py_getitem ty "type" = Ok t -> unsupported t ->
  record_fields T pre (py_slice_from inflated 0) (len (py_slice_from inflated 0)) [] 0
    = Ok (e0, k0) ->
  fst (_parse_data_block L T p) =
    Raise (AvroParsingFailureException (UnsupportedDataType t)).
Proof.
  intros Hf Hc Hd Hn Hfields Hiter Hty Ht Hu Hpre.
  apply parse_data_block_fail.
  apply (data_block_records_fail L T p obj_count block_size used hdr inflated);
    try assumption.
  destruct (Z.to_nat obj_count) as [|n] eqn:En; [lia|].
  cbn [records_loop]. unfold _parse_single_record.
  rewrite Hfields. cbn [rbind]. rewrite Hiter. cbn [rbind].
  rewrite (record_unsupported T pre post f ty t _ _ _ _ e0 k0) by assumption.
  reflexivity.
Qed.

(** C8, as the code has it. A field whose type (the ["type"] of its ["type"]
    object) is not long, int or string makes the decoding of a record raise
    the unsupported-type [AvroParsingFailureException] when the field is
    reached, that is in a block that is completely buffered, decompresses,
    holds at least one record, and whose first record decodes up to that
    field; a completely buffered block of a stream whose codec is not snappy
    raises the unsupported-codec failure for ["deflate"] and the unknown-codec
    failure otherwise. In both cases [next] raises the failure without asking
    the source for more data, and nothing is yielded for the block. *)
Theorem unsupported_type_or_codec :
  (forall p obj_count block_size used hdr inflated fields pre f post ty t e0 k0,
      block_framed p obj_count block_size used hdr ->
      codec_is p "snappy" = true ->
      snappy_decompress L (py_slice (buffered p) hdr (hdr + block_size - 4))
        = Ok inflated ->
      0 < obj_count ->
      dict_getitem (schema p) "fields" = Ok fields ->
      py_iter fields = Ok (pre ++ f :: post) ->
      py_getitem f "type" = Ok ty -> py_getitem ty "type" = Ok t ->
      unsupported t ->
      record_fields T pre (py_slice_from inflated 0)
                    (len (py_slice_from inflated 0)) [] 0 = Ok (e0, k0) ->
      fst (_parse_data_block L T p) =
        Raise (AvroParsingFailureException (UnsupportedDataType t))) /\
  (forall p obj_count block_size used hdr,
      block_framed p obj_count block_size used hdr ->
      codec_is p "snappy" = false ->
      fst (_parse_data_block L T p) =
        Raise (AvroParsingFailureException
                 (if codec_is p "deflate" then UnsupportedCodec (codec p)
                  else UnknownCodec (codec p)))) /\
  (forall p msg depth src steps,
      state p = AVRO_START_DATABLOCK ->
      fst (_parse_data_block L T p) = Raise (AvroParsingFailureException msg) ->
      fst (fst (next L T fuel depth p src)) = Raise (AvroParsingFailureException msg) /\
      snd (next L T fuel depth p src) = src /\
      run L T fuel (S steps) p src = ([], AvroParsingFailureException msg)).
Proof.
  split; [intros; eapply data_block_unsupported_type; eassumption|]. split.
  - intros p obj_count block_size used hdr Hf Hc.
    apply parse_data_block_fail. eapply data_block_codec; eassumption.
  - intros p msg depth src steps Hs H.
    rewrite <- (parse_next_item_block p Hs) in H.
    rewrite (next_failure L T fuel depth p src msg H).
    repeat split. apply run_failure, H.
Qed.

End BlockFailures.

Lemma unsupported_type_or_codec_witness :
  fst (_parse_data_block demo GenericStreamingAvroParser
         (block_parser [long_field "a"; float_field "x"] "snappy"
            (block_wire (demo_block [[VLong 1]]) ++ marker_M)))
    = Raise (AvroParsingFailureException (UnsupportedDataType (JStr "float"))) /\
  fst (_parse_data_block demo GenericStreamingAvroParser
         (block_parser [long_field "a"] "deflate"
            (block_wire (demo_block [[VLong 1]]) ++ marker_M)))
    = Raise (AvroParsingFailureException
               (UnsupportedCodec (Some (bstr "deflate")))) /\
  run demo GenericStreamingAvroParser 1 1
      (block_parser [long_field "a"] "deflate"
         (block_wire (demo_block [[VLong 1]]) ++ marker_M)) [bstr "more"]
    = ([], AvroParsingFailureException (UnsupportedCodec (Some (bstr "deflate")))).
Proof.
  destruct (unsupported_type_or_codec demo GenericStreamingAvroParser 1)
    as (Htype & Hcodec & Hfatal).
  split.
  { apply (Htype _ 1 7 1 2 [x02] (JArr [long_field "a"; float_field "x"])
             [long_field "a"] (float_field "x") []
             (JObj [("type", JStr "float")]) (JStr "float") [x02] 1).
    - exists 1. repeat split; try reflexivity; vm_compute; discriminate.
    - reflexivity.
    - reflexivity.
    - lia.
    - reflexivity.
    - reflexivity.
    - reflexivity.
    - reflexivity.
    - reflexivity.
    - reflexivity. }
  assert (Hd : fst (_parse_data_block demo GenericStreamingAvroParser
         (block_parser [long_field "a"] "deflate"
            (block_wire (demo_block [[VLong 1]]) ++ marker_M)))
    = Raise (AvroParsingFailureException
               (UnsupportedCodec (Some (bstr "deflate"))))).
  { change (@Raise bytes (AvroParsingFailureException
               (UnsupportedCodec (Some (bstr "deflate")))))
      with (@Raise bytes (AvroParsingFailureException
               (let p := block_parser [long_field "a"] "deflate"
                           (block_wire (demo_block [[VLong 1]]) ++ marker_M) in
                if codec_is p "deflate" then UnsupportedCodec (codec p)
                else UnknownCodec (codec p)))).
    apply (Hcodec (block_parser [long_field "a"] "deflate"
                     (block_wire (demo_block [[VLong 1]]) ++ marker_M)) 1 7 1 2).
    - exists 1. repeat split; try reflexivity; vm_compute; discriminate.
    - reflexivity. }
  split; [exact Hd|].
  exact (proj2 (proj2 (Hfatal (block_parser [long_field "a"] "deflate"
            (block_wire (demo_block [[VLong 1]]) ++ marker_M))
          _ 0%nat [bstr "more"] 0%nat eq_refl Hd))).
Defined.

(** The claim as stated fails. With a field of type float in the schema, a
    block without records is transcoded and yielded; a block whose first
    record cannot be read up to the float field waits for more data and ends
    with the source; and a field declared with the type's name as the value
    of ["type"] raises a [TypeError], which is not a parsing failure. *)
Lemma unsupported_type_unnoticed :
  run demo GenericStreamingAvroParser 1 5
      (block_parser [float_field "x"] "snappy"
         (block_wire (demo_block []) ++ marker_M)) []
    = ([block_wire (demo_block []) ++ marker_M], StopIteration) /\
  run demo GenericStreamingAvroParser 1 5
      (block_parser [long_field "a"; float_field "x"] "snappy"
         (block_wire (demo_block [[]]) ++ marker_M)) []
    = ([], StopIteration) /\
  run demo GenericStreamingAvroParser 1 5
      (block_parser [plain_field "x" "float"] "snappy"
         (block_wire (demo_block [[VLong 1]]) ++ marker_M)) []
    = ([], PyError TypeError).
Proof. split; [|split]; vm_compute; reflexivity. Qed.

(** ** The checksum of a block *)

Section Checksum.

Variable L : Libs.
Variable T : Transform.

(** The loop over the records of a block appends, in order, what
    [_parse_single_record] returns for each record. *)
Lemma records_loop_concat (sch : pydict) (inflated : bytes) (n : nat) :
  forall infused acc r,
    records_loop T sch n inflated infused acc = Ok r ->
    exists recs,
      List.length recs = n /\ r = acc ++ concat recs /\
      Forall (fun rec => exists off skip,
                  _parse_single_record T sch (py_slice_from inflated off)
                  = Ok (rec, skip)) recs.
Proof.
  induction n as [|n IH]; intros infused acc r H.
  - injection H as <-. exists []. rewrite app_nil_r. repeat split. constructor.
  - cbn [records_loop] in H.
    destruct (_parse_single_record T sch (py_slice_from inflated infused))
      as [[rec skip]|e] eqn:E; [|discriminate].
    cbn [rbind] in H. apply IH in H. destruct H as (recs & Hl & -> & Hall).
    exists (rec :: recs). split; [simpl; congruence|]. split.
    + rewrite <- app_assoc. reflexivity.
    + constructor; [exists infused, skip; exact E|exact Hall].
Qed.

(** C2. Every data block that [_parse_data_block] returns consists of the
    bytes of the record count as read, the new length, the recompressed
    records, four checksum bytes and the sync marker, where the four bytes are
    [pack("I", crc32(reencoded) & 0xffffffff)] for [reencoded] the
    concatenation of the block's re-encoded records, that is of what
    [_parse_single_record] returned for each of them after the transform; the
    checksum of the input block is not used. *)
Theorem block_crc32 (p p2 : parser) (out : bytes) :
  _parse_data_block L T p = (Ok out, p2) ->
  exists obj_count used inflated recs lenb crc marker,
    _read_long (buffered p) (blen p) = Ok (obj_count, used) /\
    List.length recs = Z.to_nat obj_count /\
    Forall (fun rec => exists off skip,
                _parse_single_record T (schema p) (py_slice_from inflated off)
                = Ok (rec, skip)) recs /\
    pack_I L (Z.land (binascii_crc32 L (concat recs)) 0xffffffff) = Ok crc /\
    len crc = 4 /\
    out = py_slice_to (buffered p) used ++ lenb
          ++ snappy_compress L (concat recs) ++ crc ++ marker.
Proof.
  intros H. apply parse_data_block_inv in H.
  destruct H as (p1 & marker & Hbody & Hsync & ->).
  apply data_block_body_inv in Hbody.
  destruct Hbody as (obj_count & block_size & used & used2 & inflated & reencoded
                     & lenb & crc & H1 & H2 & Hlen & Hc & Hd & Hr & He & Hk & ->).
  apply records_loop_concat in Hr. destruct Hr as (recs & Hl & Hre & Hall).
  simpl in Hre. subst reencoded.
  exists obj_count, used, inflated, recs, lenb, crc, marker.
  split; [exact H1|]. split; [exact Hl|]. split; [exact Hall|].
  split; [exact Hk|]. split.
  - destruct (checksum_wire_ok L (concat recs)) as (c & Hc' & Hlen').
    rewrite Hk in Hc'. injection Hc' as <-. exact Hlen'.
  - unfold after_block_body. cbn [saved]. cbn [app].
    rewrite <- !app_assoc. reflexivity.
Qed.

End Checksum.

Lemma block_crc32_witness :
  exists obj_count used inflated recs lenb crc marker,
    _read_long (block_wire (demo_block records_ab) ++ marker_M) 32
      = Ok (obj_count, used) /\
    List.length recs = Z.to_nat obj_count /\
    Forall (fun rec => exists off skip,
                _parse_single_record (GenericStrippingAvroParser ["b"])
                  [(JStr "fields", JArr [long_field "a"; string_field "b"])]
                  (py_slice_from inflated off)
                = Ok (rec, skip)) recs /\
    pack_I demo (Z.land (binascii_crc32 demo (concat recs)) 0xffffffff) = Ok crc /\
    len crc = 4 /\
    varint 2 ++ varint 8 ++ demo_compress [x0a; x05]
      ++ the_bytes (checksum_wire demo [x0a; x05]) ++ marker_M
    = py_slice_to (block_wire (demo_block records_ab) ++ marker_M) used ++ lenb
      ++ snappy_compress demo (concat recs) ++ crc ++ marker.
Proof.
  apply (block_crc32 demo (GenericStrippingAvroParser ["b"])
           (between_blocks (block_wire (demo_block records_ab) ++ marker_M))
           (snd (_parse_data_block demo (GenericStrippingAvroParser ["b"])
                   (between_blocks (block_wire (demo_block records_ab) ++ marker_M))))).
  vm_compute. reflexivity.
Defined.

(** In the scenario with the field [b] stripped, the checksum written is that
    of the two re-encoded records, not that of the records read. *)
Example checksum_follows_output :
  checksum_wire demo [x0a; x05] <> checksum_wire demo (records_wire records_ab).
Proof. vm_compute. discriminate. Qed.

(** ** The schema *)

Section Schema.

Variable L : Libs.





End Schema.


(** ** Stripping fields *)

Section Stripping.

Variable tostrip : list string.

Lemma generic_reencode_long (n : Z) (t name : json) :
  json_is_str t "long" || json_is_str t "int" = true ->
  exists e, generic_reencode_field (VLong n) t name = Ok e.
Proof.
  intros Ht. unfold generic_reencode_field. rewrite Ht.
  destruct (encode_long_total n) as [e ->]. eexists. reflexivity.
Qed.

Lemma generic_reencode_bytes (s : bytes) (t name : json) :
  json_is_str t "long" || json_is_str t "int" = false ->
  exists e, generic_reencode_field (VBytes s) t name = Ok e.
Proof.
  intros Ht. unfold generic_reencode_field. rewrite Ht.
  destruct (encode_long_total (len s)) as [e ->]. eexists. reflexivity.
Qed.

(** A record read by the stripping parser: the base parser reads the same
    bytes and writes one piece per field, and the stripping parser writes the
    pieces of the fields it keeps. *)
Lemma stripped_record (fields : list json) (source : bytes) (rem : Z) :
  forall e e' skip r k,
    record_fields (GenericStrippingAvroParser tostrip) fields source rem e skip
      = Ok (r, k) ->
    exists pieces,
      List.length pieces = List.length fields /\
      record_fields GenericStreamingAvroParser fields source rem e' skip
        = Ok (e' ++ concat pieces, k) /\
      r = e ++ kept_pieces tostrip fields pieces.
Proof.
  induction fields as [|f fields IH]; intros e e' skip r k H.
  - injection H as <- <-. exists []. unfold kept_pieces. simpl.
    rewrite !app_nil_r. auto.
  - cbn [record_fields] in *.
    destruct (py_getitem f "type") as [ty|]; [|discriminate]. cbn [rbind] in *.
    destruct (py_getitem ty "type") as [t|]; [|discriminate]. cbn [rbind] in *.
    assert (D : exists val skip',
               (if json_is_str t "long" || json_is_str t "int"
                then ('(val, used) <- _read_long (py_slice_from source skip) (rem - skip) ;;
                      Ok (VLong val, skip + used))%res
                else if json_is_str t "string"
                     then ('(val, used) <- _read_bytes (py_slice_from source skip) (rem - skip) ;;
                           Ok (VBytes val, skip + used))%res
                     else Raise (AvroParsingFailureException (UnsupportedDataType t)))
               = Ok (val, skip') /\
               exists piece, generic_reencode_field val t (JStr "") = Ok piece /\
                             forall name, generic_reencode_field val t name = Ok piece).
    { destruct (json_is_str t "long" || json_is_str t "int") eqn:Ht.
      - destruct (_read_long _ _) as [[v used]|]; cbn [rbind] in *; [|discriminate].
        exists (VLong v), (skip + used). split; [reflexivity|].
        destruct (generic_reencode_long v t (JStr "") Ht) as [piece Hp].
        exists piece. split; [exact Hp|]. intros name. exact Hp.
      - destruct (json_is_str t "string") eqn:Hs; cbn [rbind] in *; [|discriminate].
        destruct (_read_bytes (py_slice_from source skip) (rem - skip))
          as [[v used]|]; cbn [rbind] in *; [|discriminate].
        exists (VBytes v), (skip + used). split; [reflexivity|].
        destruct (generic_reencode_bytes v t (JStr "") Ht) as [piece Hp].
        exists piece. split; [exact Hp|]. intros name. exact Hp. }
    destruct D as (val & skip' & Hdec & piece & _ & Hpiece).
    rewrite Hdec in H |- *. cbn [rbind] in *.
    destruct (py_getitem f "name") as [name|] eqn:Hname; cbn [rbind] in *;
      [|discriminate].
    cbn [_reencode_field GenericStrippingAvroParser GenericStreamingAvroParser] in *.
    unfold stripping_reencode_field in H.
    destruct (in_set name tostrip) as [strip|] eqn:Hin; cbn [rbind] in *;
      [|discriminate].
    rewrite Hpiece in *. cbn [rbind] in *.
    assert (K : kept tostrip f = negb strip)
      by (unfold kept; rewrite Hname, Hin; reflexivity).
    destruct strip; cbn [rbind] in H;
      destruct (IH _ (e' ++ piece) _ _ _ H) as (pieces & Hl & Hg & ->);
      exists (piece :: pieces); (split; [simpl; congruence|]);
      (split; [rewrite Hg; cbn [concat]; rewrite <- app_assoc; reflexivity|]);
      unfold kept_pieces; cbn [combine filter fst]; rewrite K; cbn [negb map snd concat].
    + rewrite app_nil_r. reflexivity.
    + rewrite <- app_assoc. reflexivity.
Qed.


Lemma stripped_records_loop (sch : pydict) (fj : json) (fs : list json)
  (inflated : bytes) (n : nat) :
  dict_getitem sch "fields" = Ok fj -> py_iter fj = Ok fs ->
  forall infused acc acc' r,
    records_loop (GenericStrippingAvroParser tostrip) sch n inflated infused acc
      = Ok r ->
    exists rows,
      List.length rows = n /\
      Forall (fun row => List.length row = List.length fs) rows /\
      records_loop GenericStreamingAvroParser sch n inflated infused acc'
        = Ok (acc' ++ concat (map (@concat byte) rows)) /\
      r = acc ++ concat (map (kept_pieces tostrip fs) rows).
Proof.
  intros Hfj Hfs. induction n as [|n IH]; intros infused acc acc' r H.
  - injection H as <-. exists []. simpl. rewrite !app_nil_r. auto.
  - cbn [records_loop] in *. unfold _parse_single_record in *.
    rewrite Hfj in *. cbn [rbind] in *. rewrite Hfs in *. cbn [rbind] in *.
    destruct (record_fields (GenericStrippingAvroParser tostrip) fs _ _ [] 0)
      as [[rec skip]|] eqn:E; cbn [rbind] in H; [|discriminate].
    destruct (stripped_record _ _ _ _ [] _ _ _ E) as (row & Hl & Hg & ->).
    rewrite Hg. cbn [rbind app].
    destruct (IH _ _ (acc' ++ concat row) _ H) as (rows & Hn & Hall & Hgl & ->).
    exists (row :: rows). split; [simpl; congruence|]. split; [constructor; assumption|].
    split.
    + rewrite Hgl. cbn [map concat]. rewrite <- app_assoc. reflexivity.
    + cbn [map concat app]. rewrite <- app_assoc. reflexivity.
Qed.

Lemma strip_fields_filter (fs : list json) :
  forall newfields r,
    strip_fields tostrip fs newfields = Ok r ->
    r = newfields ++ filter (kept tostrip) fs.
Proof.
  induction fs as [|f fs IH]; intros newfields r H.
  - injection H as <-. simpl. rewrite app_nil_r. reflexivity.
  - cbn [strip_fields] in H. cbn [filter]. unfold kept at 1.
    destruct (py_getitem f "name") as [name|]; cbn [rbind] in H; [|discriminate].
    destruct (in_set name tostrip) as [[|]|]; cbn [rbind] in H; [..|discriminate];
      apply IH in H; subst r; cbn [negb]; [reflexivity|].
    rewrite <- app_assoc. reflexivity.
Qed.

(** With string names, the schema hook succeeds. *)
Lemma strip_fields_total (fs : list json) :
  Forall (fun f => exists n, py_getitem f "name" = Ok (JStr n)) fs ->
  forall newfields,
    strip_fields tostrip fs newfields = Ok (newfields ++ filter (kept tostrip) fs).
Proof.
  induction 1 as [|f fs (n & Hn) _ IH]; intros newfields.
  - simpl. rewrite app_nil_r. reflexivity.
  - cbn [strip_fields filter]. unfold kept at 1. rewrite Hn. cbn [rbind].
    cbn [in_set hashable rbind].
    destruct (existsb (String.eqb n) tostrip); cbn [negb]; rewrite IH;
      [reflexivity|rewrite <- app_assoc; reflexivity].
Qed.

Lemma kept_named (f : json) (n : string) :
  py_getitem f "name" = Ok (JStr n) ->
  (kept tostrip f = true <-> ~ In n tostrip).
Proof.
  intros Hn. unfold kept. rewrite Hn. cbn [in_set hashable].
  rewrite negb_true_iff, <- not_true_iff_false, existsb_exists.
  split; intros H.
  - intros Hin. apply H. exists n. split; [exact Hin|apply String.eqb_refl].
  - intros (x & Hin & Hx). apply String.eqb_eq in Hx. subst x. exact (H Hin).
Qed.

(** C6. For the stripping parser with the set [tostrip]: the schema hook
    returns the original field list without the fields whose name is in the
    set, and it does so for every list of fields with string names; every
    record it re-encodes is the concatenation, in the original order, of the
    encodings that the base parser writes for the fields whose name is not in
    the set, the other fields contributing nothing, while the bytes consumed
    are those the base parser consumes; and the re-encoded content of a block
    of [n] records is the concatenation of these records, for every [n],
    zero included. *)
Theorem stripping_removes_fields :
  (forall f n, py_getitem f "name" = Ok (JStr n) ->
               (kept tostrip f = true <-> ~ In n tostrip)) /\
  (forall fields out,
      _parse_schema_fields (GenericStrippingAvroParser tostrip) fields = Ok out ->
      exists fs, py_iter fields = Ok fs /\ out = JArr (filter (kept tostrip) fs)) /\
  (forall fs,
      Forall (fun f => exists n, py_getitem f "name" = Ok (JStr n)) fs ->
      _parse_schema_fields (GenericStrippingAvroParser tostrip) (JArr fs)
        = Ok (JArr (filter (kept tostrip) fs))) /\
  (forall fields source rem r k,
      record_fields (GenericStrippingAvroParser tostrip) fields source rem [] 0
        = Ok (r, k) ->
      exists pieces,
        List.length pieces = List.length fields /\
        record_fields GenericStreamingAvroParser fields source rem [] 0
          = Ok (concat pieces, k) /\
        r = kept_pieces tostrip fields pieces) /\
  (forall sch fj fs inflated n r,
      dict_getitem sch "fields" = Ok fj -> py_iter fj = Ok fs ->
      records_loop (GenericStrippingAvroParser tostrip) sch n inflated 0 [] = Ok r ->
      exists rows,
        List.length rows = n /\
        Forall (fun row => List.length row = List.length fs) rows /\
        records_loop GenericStreamingAvroParser sch n inflated 0 []
          = Ok (concat (map (@concat byte) rows)) /\
        r = concat (map (kept_pieces tostrip fs) rows)).
Proof.
  split; [exact kept_named|]. split.
  { intros fields out H.
    cbn [_parse_schema_fields GenericStrippingAvroParser] in H.
    unfold stripping_parse_schema_fields in H.
    destruct (py_iter fields) as [fs|]; cbn [rbind] in H; [|discriminate].
    destruct (strip_fields tostrip fs []) as [newfields|] eqn:E; cbn [rbind] in H;
      [|discriminate].
    injection H as <-. apply strip_fields_filter in E. subst newfields.
    exists fs. split; reflexivity. }
  split.
  { intros fs Hall.
    cbn [_parse_schema_fields GenericStrippingAvroParser].
    unfold stripping_parse_schema_fields. cbn [py_iter rbind].
    rewrite (strip_fields_total fs Hall []). reflexivity. }
  split.
  { intros fields source rem r k H.
    destruct (stripped_record _ _ _ [] [] _ _ _ H) as (pieces & Hl & Hg & ->).
    exists pieces. auto. }
  intros sch fj fs inflated n r Hfj Hfs H.
  destruct (stripped_records_loop sch fj fs inflated n Hfj Hfs 0 [] [] r H)
    as (rows & Hn & Hall & Hg & ->).
  exists rows. auto.
Qed.

End Stripping.

Lemma stripping_removes_fields_witness :
  (kept ["b"] (string_field "b") = true <-> ~ In "b" ["b"]) /\
  _parse_schema_fields (GenericStrippingAvroParser ["b"])
      (JArr [long_field "a"; string_field "b"])
    = Ok (JArr (filter (kept ["b"]) [long_field "a"; string_field "b"])) /\
  (exists rows,
      List.length rows = 2%nat /\
      Forall (fun row => List.length row = 2%nat) rows /\
      records_loop GenericStreamingAvroParser
          [(JStr "fields", JArr [long_field "a"; string_field "b"])]
          2 (records_wire records_ab) 0 []
        = Ok (concat (map (@concat byte) rows)) /\
      [x0a; x05] = concat (map (kept_pieces ["b"] [long_field "a"; string_field "b"]) rows)).
Proof.
  destruct (stripping_removes_fields ["b"]) as (Hk & _ & Hs & _ & Hb).
  split; [exact (Hk (string_field "b") "b" eq_refl)|]. split.
  { apply Hs. repeat constructor; eexists; reflexivity. }
  apply (Hb [(JStr "fields", JArr [long_field "a"; string_field "b"])]
            (JArr [long_field "a"; string_field "b"])
            [long_field "a"; string_field "b"]
            (records_wire records_ab) 2%nat [x0a; x05]);
    vm_compute; reflexivity.
Defined.

(** ** Slices with indices in range *)

Lemma py_index_in_range (n i : Z) : 0 <= i <= n -> py_index n i = i.
Proof.
  intros H. unfold py_index.
  replace (i <? 0) with false by (symmetry; apply Z.ltb_ge; lia). lia.
Qed.

Lemma py_slice_from_skipn {A} (s : list A) (i : Z) :
  0 <= i <= len s -> py_slice_from s i = skipn (Z.to_nat i) s.
Proof. intros H. unfold py_slice_from. rewrite py_index_in_range by lia. reflexivity. Qed.

Lemma py_slice_to_firstn {A} (s : list A) (j : Z) :
  0 <= j <= len s -> py_slice_to s j = firstn (Z.to_nat j) s.
Proof. intros H. unfold py_slice_to. rewrite py_index_in_range by lia. reflexivity. Qed.

Lemma py_slice_in_range {A} (s : list A) (i j : Z) :
  0 <= i <= j -> j <= len s ->
  py_slice s i j = firstn (Z.to_nat (j - i)) (skipn (Z.to_nat i) s).
Proof.
  intros Hi Hj. unfold py_slice. rewrite !py_index_in_range by lia. reflexivity.
Qed.

Lemma skipn_len_app {A} (done rest : list A) :
  skipn (Z.to_nat (len done)) (done ++ rest) = rest.
Proof.
  unfold len. rewrite Nat2Z.id. rewrite skipn_app, skipn_all, Nat.sub_diag. reflexivity.
Qed.

Lemma firstn_len_app {A} (x rest : list A) :
  firstn (Z.to_nat (len x)) (x ++ rest) = x.
Proof.
  unfold len. rewrite Nat2Z.id. rewrite firstn_app, firstn_all, Nat.sub_diag.
  simpl. apply app_nil_r.
Qed.

(** The slice that covers the token [x] found after [done]. *)
Lemma py_slice_token {A} (done x rest : list A) :
  py_slice (done ++ x ++ rest) (len done) (len done + len x) = x.
Proof.
  rewrite py_slice_in_range.
  - replace (len done + len x - len done) with (len x) by lia.
    rewrite skipn_len_app. apply firstn_len_app.
  - pose proof (len_nonneg done). pose proof (len_nonneg x). lia.
  - rewrite !len_app. pose proof (len_nonneg rest). lia.
Qed.

Lemma py_slice_from_token {A} (done rest : list A) :
  py_slice_from (done ++ rest) (len done) = rest.
Proof.
  rewrite py_slice_from_skipn.
  - apply skipn_len_app.
  - rewrite len_app. pose proof (len_nonneg done). pose proof (len_nonneg rest). lia.
Qed.

Lemma py_slice_to_token {A} (x rest : list A) :
  py_slice_to (x ++ rest) (len x) = x.
Proof.
  rewrite py_slice_to_firstn.
  - apply firstn_len_app.
  - rewrite len_app. pose proof (len_nonneg x). pose proof (len_nonneg rest). lia.
Qed.

(** ** Prefixes *)

Lemma short_of_len {A} (avail x : list A) : short_of avail x -> len avail < len x.
Proof.
  intros (m & Hm & ->). rewrite len_app.
  destruct m; [congruence|]. rewrite len_cons. pose proof (len_nonneg m). lia.
Qed.

(** A buffer that agrees with a stream beginning with [x] either holds all of
    [x] or is a proper prefix of it. *)
Lemma prefix_cases {A} (avail later x tail : list A) :
  avail ++ later = x ++ tail ->
  (exists more, avail = x ++ more /\ more ++ later = tail) \/ short_of avail x.
Proof.
  revert avail. induction x as [|a x IH]; intros avail H.
  - left. exists avail. auto.
  - destruct avail as [|a' avail].
    + right. exists (a :: x). split; [discriminate|reflexivity].
    + simpl in H. injection H as -> H. destruct (IH avail H) as [(more & -> & Hm)|(m & Hm & ->)].
      * left. exists more. auto.
      * right. exists m. auto.
Qed.

Lemma short_of_app {A} (avail x y : list A) :
  short_of avail (x ++ y) ->
  short_of avail x \/ exists avail', avail = x ++ avail' /\ short_of avail' y.
Proof.
  intros (m & Hm & H). symmetry in H.
  destruct (prefix_cases avail m x y H) as [(more & -> & Hmore)|Hs].
  - right. exists more. split; [reflexivity|]. exists m. auto.
  - left. exact Hs.
Qed.

(** ** Reading the tokens of a well-formed stream *)

Lemma int64b_true (v : Z) : int64b v = true <-> int64 v.
Proof.
  unfold int64b, int64. rewrite andb_true_iff, Z.leb_le, Z.ltb_lt. tauto.
Qed.

Lemma base128_continues (k : nat) :
  forall z avail,
    0 <= z < 128 ^ Z.of_nat (S k) ->
    short_of avail (base128 (S k) z) -> forallb continues avail = true.
Proof.
  induction k as [|k IH]; intros z avail Hz (m & Hm & H).
  - change (128 ^ Z.of_nat 1) with 128 in Hz.
    rewrite base128_small in H by lia.
    destruct avail as [|a [|a' avail]]; [reflexivity| |discriminate].
    destruct m; [congruence|discriminate].
  - rewrite pow128_S in Hz.
    destruct (Z.ltb_spec z 128) as [Hlt|Hge].
    + rewrite base128_small in H by lia.
      destruct avail as [|a [|a' avail]]; [reflexivity| |discriminate].
      destruct m; [congruence|discriminate].
    + rewrite (base128_big (S k)) in H by lia.
      destruct avail as [|a avail]; [reflexivity|].
      injection H as <- H. cbn [forallb].
      assert (Hm' : 0 <= z mod 128 < 128) by (apply Z.mod_pos_bound; lia).
      rewrite continues_ord, ord_byte_of_Z by lia.
      replace (z mod 128 + 128 <? 128) with false by (symmetry; apply Z.ltb_ge; lia).
      cbn [negb andb]. apply (IH (z / 128)).
      * split; [apply Z.div_pos; lia|apply Z.div_lt_upper_bound; lia].
      * exists m. auto.
Qed.

Lemma varint_range (v : Z) : int64 v -> 0 <= zigzag_spec v < 128 ^ Z.of_nat 10.
Proof.
  intros Hv. pose proof (zigzag_spec_range v Hv).
  change (128 ^ Z.of_nat 10) with (2 ^ 70).
  assert (2 ^ 64 < 2 ^ 70) by (apply Z.pow_lt_mono_r; lia). lia.
Qed.

Lemma varint_nonempty (v : Z) : 0 < len (varint v).
Proof. apply base128_length_pos. Qed.

Lemma read_long_short (v : Z) (avail : bytes) :
  int64 v -> short_of avail (varint v) ->
  _read_long avail (len avail) = Raise AvroInsufficientDataException.
Proof.
  intros Hv Hs. apply read_long_insufficient.
  - pose proof (len_nonneg avail). lia.
  - unfold len. rewrite Nat2Z.id, firstn_all.
    eapply base128_continues; [apply varint_range; eassumption|exact Hs].
Qed.

Lemma read_long_token (v : Z) (more : bytes) :
  int64 v ->
  _read_long (varint v ++ more) (len (varint v ++ more)) = Ok (v, len (varint v)).
Proof.
  intros Hv. apply read_long_varint; [assumption|].
  rewrite len_app. pose proof (len_nonneg more). lia.
Qed.

Lemma read_bytes_token (s more : bytes) :
  int64 (len s) ->
  _read_bytes (lp s ++ more) (len (lp s ++ more)) = Ok (s, len (lp s)).
Proof.
  intros Hs. unfold _read_bytes, lp. rewrite <- app_assoc.
  rewrite read_long_token by assumption. cbn [rbind].
  rewrite !len_app.
  pose proof (len_nonneg more). pose proof (len_nonneg s).
  pose proof (varint_nonempty (len s)).
  replace (len (varint (len s)) + (len s + len more) <? len s + len (varint (len s)))
    with false by (symmetry; apply Z.ltb_ge; lia).
  rewrite (py_slice_token (varint (len s)) s more).
  replace (len s + len (varint (len s))) with (len (varint (len s)) + len s) by lia.
  reflexivity.
Qed.

Lemma read_bytes_short (s avail : bytes) :
  int64 (len s) -> short_of avail (lp s) ->
  _read_bytes avail (len avail) = Raise AvroInsufficientDataException.
Proof.
  intros Hs Hshort. unfold _read_bytes.
  destruct (short_of_app _ _ _ Hshort) as [H|(avail' & -> & H)].
  - rewrite (read_long_short _ _ Hs H). reflexivity.
  - rewrite read_long_token by assumption. cbn [rbind].
    apply short_of_len in H. rewrite len_app.
    replace (len (varint (len s)) + len avail' <? len s + len (varint (len s)))
      with true by (symmetry; apply Z.ltb_lt; lia).
    reflexivity.
Qed.

(** ** Decoding the records of a valid block *)

Lemma field_type_inv (f : json) (t : string) :
  field_type f = Some t ->
  exists n tms,
    py_getitem f "name" = Ok (JStr n) /\
    py_getitem f "type" = Ok (JObj tms) /\
    py_getitem (JObj tms) "type" = Ok (JStr t).
Proof.
  unfold field_type. destruct f as [| | | | | |ms]; try discriminate.
  destruct (members_get ms "name") as [[| | | |n| |]|] eqn:Hn; try discriminate.
  destruct (members_get ms "type") as [[| | | | | |tms]|] eqn:Ht; try discriminate.
  destruct (members_get tms "type") as [[| | | |t'| |]|] eqn:Htt; try discriminate.
  intros [= ->]. exists n, tms. cbn [py_getitem]. rewrite Hn, Ht, Htt. auto.
Qed.

Lemma kept_record_cons (keep : json -> bool) (f : json) (fs : list json)
  (v : value) (r : list value) :
  kept_record keep (f :: fs) (v :: r) =
    (if keep f then value_wire v else []) ++ kept_record keep fs r.
Proof.
  unfold kept_record. cbn [combine filter fst].
  destruct (keep f); reflexivity.
Qed.

Lemma record_wire_cons (v : value) (r : list value) :
  record_wire (v :: r) = value_wire v ++ record_wire r.
Proof. reflexivity. Qed.

Section Decoding.

Variable L : Libs.
Variable T : Transform.
Variable keep : json -> bool.
Hypothesis HT : follows T keep.

Lemma record_fields_valid (fs : list json) :
  forall ts r done rest enc,
    field_types fs = Some ts -> forallb supported_type ts = true ->
    record_ok ts r = true ->
    record_fields T fs (done ++ record_wire r ++ rest)
                  (len (done ++ record_wire r ++ rest)) enc (len done)
    = Ok (enc ++ kept_record keep fs r, len done + len (record_wire r)).
Proof.
  induction fs as [|f fs IH]; intros ts r done rest enc Hts Hsup Hok.
  - injection Hts as <-. destruct r; [|discriminate].
    cbn [record_fields]. unfold kept_record. simpl.
    rewrite app_nil_r, Z.add_0_r. reflexivity.
  - cbn [field_types] in Hts.
    destruct (field_type f) as [t|] eqn:Hf; [|discriminate].
    destruct (field_types fs) as [ts'|] eqn:Hfs; [|discriminate].
    injection Hts as <-. cbn [forallb] in Hsup.
    apply andb_true_iff in Hsup. destruct Hsup as [Hsup Hsup'].
    destruct r as [|v r]; [discriminate|]. cbn [record_ok] in Hok.
    apply andb_true_iff in Hok. destruct Hok as [Hv Hok].
    destruct (field_type_inv f t Hf) as (n & tms & Hname & Hty & Ht).
    pose proof (proj2 HT f t v (JStr n) Hf Hsup Hv Hname) as Hre.
    rewrite record_wire_cons, kept_record_cons, <- !app_assoc.
    cbn [record_fields]. rewrite Hty. cbn [rbind]. rewrite Ht. cbn [rbind].
    cbn [json_is_str]. rewrite py_slice_from_token.
    replace (len (done ++ value_wire v ++ record_wire r ++ rest) - len done)
      with (len (value_wire v ++ record_wire r ++ rest)) by (rewrite (len_app done); lia).
    specialize (IH ts' r (done ++ value_wire v) rest
                   (enc ++ (if keep f then value_wire v else []))
                   eq_refl Hsup' Hok).
    rewrite <- !app_assoc in IH.
    replace (len done + len (value_wire v ++ record_wire r))
      with (len (done ++ value_wire v) + len (record_wire r))
      by (rewrite !len_app; lia).
    destruct v as [x|s]; cbn [value_ok] in Hv; apply andb_true_iff in Hv;
      destruct Hv as [Hv1 Hv2]; apply int64b_true in Hv2.
    + rewrite Hv1. cbn [value_wire] in *.
      rewrite read_long_token by assumption. cbn [rbind].
      rewrite Hname. cbn [rbind]. rewrite Hre. cbn [rbind].
      replace (len done + len (varint x)) with (len (done ++ varint x))
        by (rewrite len_app; reflexivity).
      exact IH.
    + apply String.eqb_eq in Hv1. subst t. cbn [String.eqb Ascii.eqb Bool.eqb orb].
      cbn [value_wire] in *.
      rewrite read_bytes_token by assumption. cbn [rbind].
      rewrite Hname. cbn [rbind]. rewrite Hre. cbn [rbind].
      replace (len done + len (lp s)) with (len (done ++ lp s))
        by (rewrite len_app; reflexivity).
      exact IH.
Qed.

End Decoding.

(** ** What a method leaves alone when it raises *)

Lemma kor_bind {A B C} (proj : parser -> C) (m : M A) (k : A -> M B) :
  keeps proj m -> (forall a, keeps_on_raise proj (k a)) ->
  keeps_on_raise proj (mbind m k).
Proof.
  intros Hm Hk p e. unfold mbind. specialize (Hm p).
  destruct (m p) as [[a|e'] p1]; simpl in *.
  - intros H. rewrite (Hk a p1 e H). exact Hm.
  - intros _. exact Hm.
Qed.

Lemma kor_of_keeps {A C} (proj : parser -> C) (m : M A) :
  keeps proj m -> keeps_on_raise proj m.
Proof. intros H p e _. apply H. Qed.

Lemma kor_total {A C} (proj : parser -> C) (m : M A) :
  (forall p e, fst (m p) = Raise e -> False) -> keeps_on_raise proj m.
Proof. intros H p e He. exfalso. exact (H p e He). Qed.

(** Proves that a method whose assignments to an attribute come last, after
    everything that can raise, leaves the attribute alone when it raises. *)
Ltac kor_tac :=
  repeat (intros;
          first [ apply kor_bind; [solve [keeps_tac]|]
                | match goal with
                  | |- keeps_on_raise _ (match ?x with _ => _ end) => destruct x
                  end ]);
  intros;
  try (apply kor_total; let H := fresh in intros ? ? H; cbn in H; discriminate H).

Section Frames.

Variable L : Libs.
Variable T : Transform.
Variable fuel : nat.

Lemma block_body_raise_buffered : keeps_on_raise buffered (data_block_body L T).
Proof. unfold data_block_body. kor_tac. Qed.

Lemma block_body_raise_blen : keeps_on_raise blen (data_block_body L T).
Proof. unfold data_block_body. kor_tac. Qed.

Lemma keeps_state_block_body : keeps state (data_block_body L T).
Proof. unfold data_block_body. keeps_tac. Qed.

Lemma keeps_codec_block_body : keeps codec (data_block_body L T).
Proof. unfold data_block_body. keeps_tac. Qed.

Lemma keeps_codec_sync : keeps codec _parse_sync_marker.
Proof. unfold _parse_sync_marker. keeps_tac. Qed.

Lemma parse_data_block_raise (p : parser) (e : exn) :
  fst (data_block_body L T p) = Raise e ->
  _parse_data_block L T p = (Raise e, snd (data_block_body L T p)).
Proof.
  intros H. unfold _parse_data_block, mbind at 1.
  destruct (data_block_body L T p) as [r p1]. simpl in H. subst r. reflexivity.
Qed.

End Frames.

(** ** A data block of a valid file *)

Lemma res_is_eq (r : res bytes) (x : bytes) :
  res_is bytes_eqb r x = true -> r = Ok x.
Proof.
  destruct r as [y|]; simpl; [|discriminate].
  intros H. apply bytes_eqb_eq in H. congruence.
Qed.

Lemma the_bytes_ok (r : res bytes) (x : bytes) : r = Ok x -> the_bytes r = x.
Proof. intros ->. reflexivity. Qed.

Section ValidBlock.

Variable L : Libs.
Variable T : Transform.
Variable keep : json -> bool.
Hypothesis HT : follows T keep.

Variable fs : list json.
Variable ts : list string.
Hypothesis Hfs : field_types fs = Some ts.
Hypothesis Hsup : forallb supported_type ts = true.

Lemma parse_single_record_valid (sch : pydict) (r : list value) (rest : bytes) :
  dict_getitem sch "fields" = Ok (JArr fs) ->
  record_ok ts r = true ->
  _parse_single_record T sch (record_wire r ++ rest)
    = Ok (kept_record keep fs r, len (record_wire r)).
Proof.
  intros Hsch Hr. unfold _parse_single_record. rewrite Hsch. cbn [rbind py_iter].
  exact (record_fields_valid T keep HT fs ts r [] rest [] Hfs Hsup Hr).
Qed.

Lemma records_loop_valid (sch : pydict) (rs : list (list value)) :
  dict_getitem sch "fields" = Ok (JArr fs) ->
  forallb (record_ok ts) rs = true ->
  forall done acc,
    records_loop T sch (List.length rs) (done ++ records_wire rs) (len done) acc
    = Ok (acc ++ concat (map (kept_record keep fs) rs)).
Proof.
  intros Hsch. induction rs as [|r rs IH]; intros Hrs done acc.
  - simpl. rewrite app_nil_r. reflexivity.
  - cbn [forallb] in Hrs. apply andb_true_iff in Hrs. destruct Hrs as [Hr Hrs].
    cbn [List.length records_loop].
    rewrite py_slice_from_token.
    unfold records_wire. cbn [map concat]. fold (records_wire rs).
    rewrite (parse_single_record_valid sch r (records_wire rs) Hsch Hr).
    cbn [rbind].
    replace (len done + len (record_wire r)) with (len (done ++ record_wire r))
      by (rewrite len_app; reflexivity).
    specialize (IH Hrs (done ++ record_wire r) (acc ++ kept_record keep fs r)).
    rewrite <- app_assoc in IH. rewrite IH.
    cbn [map concat]. rewrite <- app_assoc. reflexivity.
Qed.

Lemma block_valid_inv (bl : ocf_block) :
  block_valid L ts bl = true ->
  forallb (record_ok ts) (block_records bl) = true /\
  int64 (len (block_records bl)) /\
  int64 (len (block_payload bl) + 4) /\
  snappy_decompress L (block_payload bl) = Ok (records_wire (block_records bl)) /\
  len (block_checksum bl) = 4.
Proof.
  unfold block_valid. rewrite !andb_true_iff, !int64b_true.
  intros ((((H1 & H2) & H3) & H4) & H5).
  apply res_is_eq in H4. apply Z.eqb_eq in H5.
  repeat (split; [assumption|]). exact H5.
Qed.

(** The block [bl], followed by the marker, is at the head of the buffer: the
    step returns the transcoded block and the marker, and leaves what follows
    in the buffer. *)
Lemma block_complete (p : parser) (bl : ocf_block) (marker more : bytes) :
  between_data_blocks p fs marker ->
  buffer_is p ((block_wire bl ++ marker) ++ more) ->
  len marker = 16 ->
  block_valid L ts bl = true ->
  exists p',
    _parse_data_block L T p = (Ok (out_block L keep fs bl ++ marker), p') /\
    between_data_blocks p' fs marker /\ buffer_is p' more.
Proof.
  intros (Hstate & Hcodec & Hsch & Hmark) (Hbuf & Hblen) Hlen Hvalid.
  destruct (block_valid_inv bl Hvalid) as (Hrs & Hn & Hsz & Hd & Hcl).
  set (cnt := varint (len (block_records bl))) in *.
  set (sz := varint (len (block_payload bl) + 4)) in *.
  assert (Hwire : buffered p =
            cnt ++ sz ++ block_payload bl ++ block_checksum bl ++ marker ++ more).
  { rewrite Hbuf. unfold block_wire. rewrite <- !app_assoc. reflexivity. }
  pose proof (len_nonneg (block_payload bl)) as Hp0.
  pose proof (len_nonneg more) as Hm0.
  pose proof (varint_nonempty (len (block_records bl))) as Hc0. fold cnt in Hc0.
  pose proof (varint_nonempty (len (block_payload bl) + 4)) as Hs0. fold sz in Hs0.
  assert (Hbl : blen p = len cnt + len sz + len (block_payload bl) + 4 + 16 + len more).
  { rewrite Hblen, <- Hbuf, Hwire, !len_app. lia. }
  assert (Hframed : block_framed p (len (block_records bl)) (len (block_payload bl) + 4)
                      (len cnt) (len cnt + len sz)).
  { exists (len sz). split; [|split; [|split; [reflexivity|lia]]].
    - rewrite Hblen, <- Hbuf, Hwire. apply read_long_token, Hn.
    - rewrite Hwire, py_slice_from_token.
      replace (blen p - len cnt)
        with (len (sz ++ block_payload bl ++ block_checksum bl ++ marker ++ more))
        by (rewrite !len_app; lia).
      apply read_long_token, Hsz. }
  assert (Hcis : codec_is p "snappy" = true)
    by (unfold codec_is; rewrite Hcodec; apply bytes_eqb_refl).
  assert (Hinfl : snappy_decompress L
                    (py_slice (buffered p) (len cnt + len sz)
                       (len cnt + len sz + (len (block_payload bl) + 4) - 4))
                  = Ok (records_wire (block_records bl))).
  { rewrite Hwire.
    replace (cnt ++ sz ++ block_payload bl ++ block_checksum bl ++ marker ++ more)
      with ((cnt ++ sz) ++ block_payload bl ++ (block_checksum bl ++ marker ++ more))
      by (rewrite <- !app_assoc; reflexivity).
    replace (len cnt + len sz) with (len (cnt ++ sz)) by (rewrite len_app; reflexivity).
    replace (len (cnt ++ sz) + (len (block_payload bl) + 4) - 4)
      with (len (cnt ++ sz) + len (block_payload bl)) by lia.
    rewrite py_slice_token. exact Hd. }
  assert (Hloop : records_loop T (schema p) (Z.to_nat (len (block_records bl)))
                    (records_wire (block_records bl)) 0 []
                  = Ok (concat (map (kept_record keep fs) (block_records bl)))).
  { unfold len at 1. rewrite Nat2Z.id.
    exact (records_loop_valid (schema p) (block_records bl) Hsch Hrs [] []). }
  set (R := concat (map (kept_record keep fs) (block_records bl))) in *.
  destruct (encode_long_total (len (snappy_compress L R) + 4)) as [lenb Hlenb].
  destruct (checksum_wire_ok L R) as (crc & Hcrc & Hcrcl).
  pose proof (data_block_body_ok L T p _ _ _ _ _ _ lenb crc
                Hframed Hcis Hinfl Hloop Hlenb Hcrc) as Hbody.
  set (p1 := after_block_body L p (len cnt) (len cnt + len sz)
               (len (block_payload bl) + 4) R lenb crc) in *.
  assert (Hb1 : buffered p1 = marker ++ more).
  { unfold p1, after_block_body. cbn [buffered]. rewrite Hwire.
    replace (cnt ++ sz ++ block_payload bl ++ block_checksum bl ++ marker ++ more)
      with ((cnt ++ sz ++ block_payload bl ++ block_checksum bl) ++ marker ++ more)
      by (rewrite <- !app_assoc; reflexivity).
    replace (len cnt + len sz + (len (block_payload bl) + 4))
      with (len (cnt ++ sz ++ block_payload bl ++ block_checksum bl))
      by (rewrite !len_app; lia).
    apply py_slice_from_token. }
  assert (Hl1 : blen p1 = 16 + len more).
  { unfold p1, after_block_body. cbn [blen]. lia. }
  unfold _parse_data_block, mbind at 1. rewrite Hbody.
  unfold mbind at 1. cbn [get]. unfold mbind at 1.
  unfold _parse_sync_marker.
  replace (blen p1 <? 16) with false by (symmetry; apply Z.ltb_ge; lia).
  replace (syncmarker p1) with (Some marker) by (symmetry; exact Hmark).
  assert (Hto : py_slice_to (marker ++ more) 16 = marker)
    by (rewrite <- Hlen; apply py_slice_to_token).
  assert (Hfrom : py_slice_from (marker ++ more) 16 = more)
    by (rewrite <- Hlen; apply py_slice_from_token).
  rewrite Hb1, Hto, bytes_eqb_refl.
  cbn [negb]. msimpl. unfold get. msimpl. rewrite Hl1, Hfrom.
  eexists. split; [|split].
  - f_equal. f_equal. unfold p1, after_block_body, out_block. cbn [saved app].
    fold R. rewrite Hwire, py_slice_to_token.
    rewrite (the_bytes_ok _ _ Hlenb), (the_bytes_ok _ _ Hcrc).
    rewrite <- !app_assoc. reflexivity.
  - unfold between_data_blocks. msimpl. unfold p1, after_block_body. msimpl.
    repeat split; first [assumption|reflexivity].
  - split; msimpl; [reflexivity|lia].
Qed.


(** Only a proper prefix of the block and its marker is buffered: the step
    asks for more data and leaves the buffer as it is. *)
Lemma block_partial (p : parser) (bl : ocf_block) (marker avail : bytes) :
  between_data_blocks p fs marker ->
  buffer_is p avail ->
  len marker = 16 ->
  block_valid L ts bl = true ->
  short_of avail (block_wire bl ++ marker) ->
  exists p',
    _parse_data_block L T p = (Raise AvroInsufficientDataException, p') /\
    between_data_blocks p' fs marker /\ buffer_is p' avail.
Proof.
  intros (Hstate & Hcodec & Hsch & Hmark) (Hbuf & Hblen) Hlen Hvalid Hshort.
  destruct (block_valid_inv bl Hvalid) as (Hrs & Hn & Hsz & Hd & Hcl).
  assert (Hfail : fst (data_block_body L T p) = Raise AvroInsufficientDataException).
  { unfold block_wire in Hshort. rewrite <- !app_assoc in Hshort.
    unfold data_block_body. msimpl. rewrite Hbuf, Hblen.
    destruct (short_of_app _ _ _ Hshort) as [H|(a1 & -> & H1)].
    { rewrite (read_long_short _ _ Hn H). reflexivity. }
    rewrite (read_long_token _ _ Hn). msimpl. rewrite !Z.add_0_l.
    rewrite Hbuf, Hblen, py_slice_from_token.
    replace (len (varint (len (block_records bl)) ++ a1)
             - len (varint (len (block_records bl)))) with (len a1)
      by (rewrite len_app; lia).
    destruct (short_of_app _ _ _ H1) as [H|(a2 & -> & H2)].
    { rewrite (read_long_short _ _ Hsz H). reflexivity. }
    rewrite (read_long_token _ _ Hsz). msimpl. rewrite Hblen.
    apply short_of_len in H2. rewrite !len_app in *.
    match goal with
    | |- context [?a <? ?b] =>
        replace (a <? b) with true by (symmetry; apply Z.ltb_lt; lia)
    end.
    reflexivity. }
  rewrite (parse_data_block_raise L T p _ Hfail).
  eexists. split; [reflexivity|]. split.
  - unfold between_data_blocks.
    rewrite (keeps_state_block_body L T p), (keeps_codec_block_body L T p),
      (keeps_schema_block_body L T p), (keeps_marker_block_body L T p).
    auto.
  - unfold buffer_is.
    rewrite (block_body_raise_buffered L T p _ Hfail),
      (block_body_raise_blen L T p _ Hfail). auto.
Qed.

End ValidBlock.

(** ** The header magic and the first sync marker *)

Section Phases.

Variable L : Libs.
Variable T : Transform.
Variable fuel : nat.

Lemma magic_complete (p : parser) (more : bytes) :
  awaiting_magic p -> buffer_is p (header_magic ++ more) ->
  exists p',
    _parse_next_item L T fuel p = (Ok header_magic, p') /\
    awaiting_metadata p' /\ buffer_is p' more.
Proof.
  intros (Hs & Hm) (Hb & Hl).
  unfold _parse_next_item. rewrite Hs. cbn [Z.eqb AVRO_HEADER_MAGIC Pos.eqb].
  unfold _parse_header_magic, mbind, modify. msimpl.
  rewrite Hl, Hb. rewrite len_app. pose proof (len_nonneg more).
  change (len header_magic) with 4.
  replace (4 + len more - 0 <? 4) with false by (symmetry; apply Z.ltb_ge; lia).
  assert (E1 : py_slice (header_magic ++ more) 0 (4 + 0) = header_magic)
    by exact (py_slice_token [] header_magic more).
  assert (E2 : py_slice (header_magic ++ more) 0 (0 + 4) = header_magic)
    by exact (py_slice_token [] header_magic more).
  assert (E3 : py_slice_from (header_magic ++ more) (0 + 4) = more)
    by exact (py_slice_from_token header_magic more).
  rewrite E1, bytes_eqb_refl. cbn [negb]. msimpl. rewrite E2, E3.
  eexists. split; [reflexivity|]. split.
  - split; msimpl; [reflexivity|exact Hm].
  - split; msimpl; [reflexivity|]. lia.
Qed.

Lemma magic_partial (p : parser) (avail : bytes) :
  awaiting_magic p -> buffer_is p avail -> short_of avail header_magic ->
  exists p',
    _parse_next_item L T fuel p = (Raise AvroInsufficientDataException, p') /\
    awaiting_magic p' /\ buffer_is p' avail.
Proof.
  intros (Hs & Hm) (Hb & Hl) Hshort. apply short_of_len in Hshort.
  change (len header_magic) with 4 in Hshort.
  unfold _parse_next_item. rewrite Hs. cbn [Z.eqb AVRO_HEADER_MAGIC Pos.eqb].
  unfold _parse_header_magic, mbind, modify. msimpl. rewrite Hl.
  replace (len avail - 0 <? 4) with true by (symmetry; apply Z.ltb_lt; lia).
  eexists. split; [reflexivity|]. split; split; msimpl; assumption.
Qed.

Lemma sync_complete (p : parser) (fs : list json) (marker more : bytes) :
  awaiting_sync p fs -> buffer_is p (marker ++ more) -> len marker = 16 ->
  exists p',
    _parse_next_item L T fuel p = (Ok marker, p') /\
    between_data_blocks p' fs marker /\ buffer_is p' more.
Proof.
  intros (Hs & Hc & Hsch & Hm) (Hb & Hl) Hlen.
  unfold _parse_next_item. rewrite Hs.
  cbn [Z.eqb AVRO_HEADER_MAGIC AVRO_HEADER_FILE_METADATA AVRO_SYNC_MARKER Pos.eqb].
  unfold _parse_sync_marker. rewrite Hl, Hm, Hb, len_app.
  pose proof (len_nonneg more).
  replace (len marker + len more <? 16) with false by (symmetry; apply Z.ltb_ge; lia).
  assert (Hto : py_slice_to (marker ++ more) 16 = marker)
    by (rewrite <- Hlen; apply py_slice_to_token).
  assert (Hfrom : py_slice_from (marker ++ more) 16 = more)
    by (rewrite <- Hlen; apply py_slice_from_token).
  rewrite Hto. msimpl. rewrite Hb, Hl, Hfrom.
  eexists. split; [reflexivity|]. split.
  - unfold between_data_blocks. msimpl. auto.
  - split; msimpl; [reflexivity|]. rewrite len_app. lia.
Qed.

Lemma sync_partial (p : parser) (fs : list json) (marker avail : bytes) :
  awaiting_sync p fs -> buffer_is p avail -> len marker = 16 ->
  short_of avail marker ->
  exists p',
    _parse_next_item L T fuel p = (Raise AvroInsufficientDataException, p') /\
    awaiting_sync p' fs /\ buffer_is p' avail.
Proof.
  intros (Hs & Hc & Hsch & Hm) (Hb & Hl) Hlen Hshort. apply short_of_len in Hshort.
  unfold _parse_next_item. rewrite Hs.
  cbn [Z.eqb AVRO_HEADER_MAGIC AVRO_HEADER_FILE_METADATA AVRO_SYNC_MARKER Pos.eqb].
  unfold _parse_sync_marker. rewrite Hl.
  replace (len avail <? 16) with true by (symmetry; apply Z.ltb_lt; lia).
  eexists. split; [reflexivity|]. split; [|split]; try assumption.
  unfold awaiting_sync. auto.
Qed.

End Phases.

(** ** One item of the stream through the driver *)

Section Item.

Variable L : Libs.
Variable T : Transform.
Variable fuel : nat.

(** The step of the current phase, specified by what it does when the whole
    of its [item] is buffered and when only a proper prefix is. *)
Variables (Pre Post : parser -> Prop) (item out : bytes).

Hypothesis Hcomplete :
  forall p more,
    Pre p -> buffer_is p (item ++ more) ->
    exists p',
      _parse_next_item L T fuel p = (Ok out, p') /\ Post p' /\ buffer_is p' more.

Hypothesis Hpartial :
  forall p avail,
    Pre p -> buffer_is p avail -> short_of avail item ->
    exists p',
      _parse_next_item L T fuel p = (Raise AvroInsufficientDataException, p') /\
      Pre p' /\ buffer_is p' avail.

Hypothesis Hrefill :
  forall p x,
    Pre p -> Pre (set_blen (blen p + len x) (set_buffered (buffered p ++ x) p)).

(** [next] refills the buffer from the source until the item is complete and
    returns what the step returns for it; the chunks left in the source and
    the bytes left in the buffer are what follows the item in the stream. *)
Lemma next_item (src : source) :
  forall depth p avail tail,
    Pre p -> buffer_is p avail ->
    avail ++ concat src = item ++ tail ->
    (List.length src <= depth)%nat ->
    exists p' more src',
      next L T fuel depth p src = (Ok out, p', src') /\
      Post p' /\ buffer_is p' more /\
      more ++ concat src' = tail /\
      (List.length src' <= List.length src)%nat.
Proof.
  induction src as [|x src IH]; intros depth p avail tail Hpre Hbuf Heq Hdepth.
  - cbn [concat] in Heq.
    destruct (prefix_cases avail [] item tail Heq) as [(more & -> & Hmore)|Hshort].
    + destruct (Hcomplete p more Hpre Hbuf) as (p' & Hstep & Hpost & Hbuf').
      rewrite next_eq, Hstep. exists p', more, []. auto.
    + exfalso. destruct Hshort as (m & Hm & ->).
      apply (f_equal (@List.length byte)) in Heq. rewrite !length_app in Heq.
      destruct m; [congruence|]. simpl in Heq. lia.
  - destruct (prefix_cases avail (concat (x :: src)) item tail Heq)
      as [(more & -> & Hmore)|Hshort].
    + destruct (Hcomplete p more Hpre Hbuf) as (p' & Hstep & Hpost & Hbuf').
      rewrite next_eq, Hstep. exists p', more, (x :: src). auto.
    + destruct (Hpartial p avail Hpre Hbuf Hshort) as (p1 & Hstep & Hpre1 & Hb1 & Hl1).
      rewrite next_eq, Hstep.
      destruct depth as [|depth]; [simpl in Hdepth; lia|].
      cbn zeta.
      destruct (IH depth
                  (set_blen (blen p1 + len x) (set_buffered (buffered p1 ++ x) p1))
                  (avail ++ x) tail)
        as (p' & more & src' & Hnext & Hpost & Hbuf' & Hmore & Hlen).
      * apply Hrefill, Hpre1.
      * split; msimpl; [rewrite Hb1; reflexivity|rewrite Hl1, len_app; reflexivity].
      * rewrite <- app_assoc. exact Heq.
      * simpl in Hdepth. lia.
      * msimpl. rewrite Hnext. exists p', more, src'.
        split; [reflexivity|]. split; [exact Hpost|]. split; [exact Hbuf'|].
        split; [exact Hmore|]. simpl. lia.
Qed.

End Item.

(** ** The metadata of a valid file *)

Lemma dict_get_members (ms : list (string * json)) (k : string) :
  dict_get (map (fun kv => (JStr (fst kv), snd kv)) ms) (JStr k) = members_get ms k.
Proof.
  induction ms as [|[k' v] ms IH]; [reflexivity|].
  cbn [map dict_get members_get fst snd key_eqb]. rewrite IH. reflexivity.
Qed.

Lemma members_set_same (ms : list (string * json)) (k : string) (v : json) :
  members_get ms k = Some v -> members_set ms k v = ms.
Proof.
  induction ms as [|[k' v'] ms IH]; [discriminate|].
  cbn [members_get members_set]. destruct (String.eqb k' k).
  - intros [= ->]. reflexivity.
  - intros H. rewrite (IH H). reflexivity.
Qed.

Lemma schema_types_inv (j : json) (ts : list string) :
  schema_types j = Some ts ->
  exists ms fs, j = JObj ms /\ members_get ms "fields" = Some (JArr fs) /\
                field_types fs = Some ts.
Proof.
  destruct j as [| | | | | |ms]; try discriminate. cbn [schema_types].
  destruct (members_get ms "fields") as [[| | | | |fs|]|] eqn:E; try discriminate.
  intros H. exists ms, fs. auto.
Qed.

Section ValidMetadata.

Variable L : Libs.
Variable T : Transform.
Variable keep : json -> bool.
Hypothesis HT : follows T keep.

Lemma read_at_meta {A} (f : bytes -> Z -> res A) (bufd done rest : bytes) (pos : Z)
  (sch : pydict) (cod : option bytes) (out : bytes) :
  bufd = done ++ rest -> pos = len done ->
  read_at f (meta_state bufd pos sch cod out)
  = (f rest (len rest), meta_state bufd pos sch cod out).
Proof.
  intros -> ->. unfold read_at, meta_state. cbn [buffered blen bused].
  rewrite py_slice_from_token.
  replace (len (done ++ rest) - len done) with (len rest) by (rewrite len_app; lia).
  reflexivity.
Qed.

(** Reading a length-prefixed string at the cursor, saving its bytes and
    moving the cursor past it, as the parser does for keys and values. *)
Lemma copy_bytes_complete {A} (K : bytes -> M A) (bufd done s more : bytes) (pos : Z)
  sch cod out :
  bufd = done ++ lp s ++ more -> pos = len done -> int64 (len s) ->
  ('(s', used) <- read_at _read_bytes ;; save_used used ;; bused_add used ;; K s')%meth
    (meta_state bufd pos sch cod out)
  = K s (meta_state bufd (pos + len (lp s)) sch cod (out ++ lp s)).
Proof.
  intros Hb Hp Hs. unfold mbind at 1. rewrite (read_at_meta _ _ _ _ _ _ _ _ Hb Hp).
  rewrite read_bytes_token by assumption.
  unfold meta_state. msimpl. subst bufd pos. rewrite py_slice_token. reflexivity.
Qed.

Lemma copy_bytes_partial {A} (K : bytes -> M A) (bufd done s avail : bytes) (pos : Z)
  sch cod out :
  bufd = done ++ avail -> pos = len done -> int64 (len s) -> short_of avail (lp s) ->
  fst (('(s', used) <- read_at _read_bytes ;; save_used used ;; bused_add used ;; K s')%meth
         (meta_state bufd pos sch cod out))
  = Raise AvroInsufficientDataException.
Proof.
  intros Hb Hp Hs Hshort. unfold mbind at 1.
  rewrite (read_at_meta _ _ _ _ _ _ _ _ Hb Hp).
  rewrite (read_bytes_short _ _ Hs Hshort). reflexivity.
Qed.

Lemma copy_long_complete {A} (K : Z -> M A) (bufd done more : bytes) (v pos : Z)
  sch cod out :
  bufd = done ++ varint v ++ more -> pos = len done -> int64 v ->
  ('(v', used) <- read_at _read_long ;; save_used used ;; bused_add used ;; K v')%meth
    (meta_state bufd pos sch cod out)
  = K v (meta_state bufd (pos + len (varint v)) sch cod (out ++ varint v)).
Proof.
  intros Hb Hp Hs. unfold mbind at 1. rewrite (read_at_meta _ _ _ _ _ _ _ _ Hb Hp).
  rewrite read_long_token by assumption.
  unfold meta_state. msimpl. subst bufd pos. rewrite py_slice_token. reflexivity.
Qed.

Lemma copy_long_partial {A} (K : Z -> M A) (bufd done avail : bytes) (v pos : Z)
  sch cod out :
  bufd = done ++ avail -> pos = len done -> int64 v -> short_of avail (varint v) ->
  fst (('(v', used) <- read_at _read_long ;; save_used used ;; bused_add used ;; K v')%meth
         (meta_state bufd pos sch cod out))
  = Raise AvroInsufficientDataException.
Proof.
  intros Hb Hp Hs Hshort. unfold mbind at 1.
  rewrite (read_at_meta _ _ _ _ _ _ _ _ Hb Hp).
  rewrite (read_long_short _ _ Hs Hshort). reflexivity.
Qed.


Lemma entry_valid_inv (kv : bytes * bytes) :
  entry_valid L kv = true ->
  int64 (len (fst kv)) /\ int64 (len (snd kv)) /\
  (bytes_eqb (fst kv) (bstr "avro.schema") = true ->
   exists ms fs ts,
     json_loads L (snd kv) = Ok (JObj ms) /\
     members_get ms "fields" = Some (JArr fs) /\
     field_types fs = Some ts /\ forallb supported_type ts = true).
Proof.
  unfold entry_valid. rewrite !andb_true_iff, !int64b_true.
  intros ((H1 & H2) & H3). split; [exact H1|]. split; [exact H2|].
  intros Hk. rewrite Hk in H3. unfold schema_text_valid in H3.
  destruct (json_loads L (snd kv)) as [j|]; [|discriminate].
  destruct (schema_types j) as [ts|] eqn:Hts; [|discriminate].
  destruct (schema_types_inv j ts Hts) as (ms & fs & -> & Hf & Hfs).
  exists ms, fs, ts. auto.
Qed.

Lemma py_slice_at (bufd done x more : bytes) (pos : Z) :
  bufd = done ++ x ++ more -> pos = len done ->
  py_slice bufd pos (pos + len x) = x.
Proof. intros -> ->. apply py_slice_token. Qed.

(** Brings the state a method has produced to the form of a record. *)
Ltac mnorm :=
  unfold meta_state, bused_add, saved_add, save_used, modify, get, ret, raise, lift;
  msimpl;
  cbv beta delta [set_buffered set_blen set_bused set_schema set_codec set_state
                  set_syncmarker set_saved];
  cbn [buffered blen bused schema codec state syncmarker saved].

(** Two results with the same value and states that agree field by field. *)
Ltac same_state :=
  f_equal; f_equal;
  first [ reflexivity
        | rewrite ?len_app; lia
        | rewrite <- ?app_assoc; reflexivity ].

(** A whole entry is at the cursor. *)
Lemma entry_complete (kv : bytes * bytes) (bufd done more : bytes) (pos : Z)
  sch cod out :
  entry_valid L kv = true ->
  bufd = done ++ entry_wire kv ++ more -> pos = len done ->
  metadata_entry L T (meta_state bufd pos sch cod out)
  = (Ok tt,
     meta_state bufd (pos + len (entry_wire kv))
       (fst (after_entry L kv (sch, cod))) (snd (after_entry L kv (sch, cod)))
       (out ++ out_entry L keep kv)).
Proof.
  intros Hv Hb Hp. destruct (entry_valid_inv kv Hv) as (Hk & Hval & Hschema).
  destruct kv as [k v]. cbn [fst snd] in *.
  unfold entry_wire in *. cbn [fst snd] in *. rewrite <- app_assoc in Hb.
  unfold metadata_entry.
  rewrite (copy_bytes_complete _ bufd done k (lp v ++ more) pos sch cod out Hb Hp Hk).
  assert (Hb2 : bufd = (done ++ lp k) ++ lp v ++ more)
    by (rewrite Hb, <- app_assoc; reflexivity).
  assert (Hp2 : pos + len (lp k) = len (done ++ lp k))
    by (rewrite len_app; lia).
  unfold after_entry, out_entry. cbn [fst snd].
  destruct (bytes_eqb k (bstr "avro.codec")) eqn:Hcodec.
  { apply bytes_eqb_eq in Hcodec. subst k.
    replace (bytes_eqb (bstr "avro.codec") (bstr "avro.schema")) with false
      by (vm_compute; reflexivity).
    unfold _read_avro_codec, mbind at 1.
    rewrite (read_at_meta _ _ _ _ _ _ _ _ Hb2 Hp2).
    rewrite read_bytes_token by assumption.
    mnorm. rewrite (py_slice_at _ _ _ _ _ Hb2 Hp2). same_state. }
  destruct (bytes_eqb k (bstr "avro.schema")) eqn:Hsch.
  { destruct (Hschema eq_refl) as (ms & fs & ts & Hloads & Hfields & Hfs & Hsup).
    unfold _read_avro_schema, mbind at 1.
    rewrite (read_at_meta _ _ _ _ _ _ _ _ Hb2 Hp2).
    rewrite read_bytes_token by assumption.
    unfold schema_dict, out_text, lp_enc. rewrite Hloads. cbn [py_dict out_schema].
    rewrite Hfields.
    destruct (encode_long_total
                (len (json_dumps L (JObj (members_set ms "fields" (JArr (filter keep fs)))))))
      as [e He].
    rewrite He. cbn [the_bytes].
    mnorm. rewrite ?Hloads. mnorm.
    cbn [py_contains py_getitem py_dict py_setitem]. rewrite ?Hfields. mnorm.
    rewrite ?(proj1 HT fs ts Hfs). mnorm.
    cbn [py_contains py_getitem py_dict py_setitem]. rewrite ?He. mnorm.
    same_state. }
  unfold mbind at 1.
  rewrite (read_at_meta _ _ _ _ _ _ _ _ Hb2 Hp2).
  rewrite read_bytes_token by assumption.
  mnorm. rewrite (py_slice_at _ _ _ _ _ Hb2 Hp2). same_state.
Qed.


(** Only a proper prefix of an entry is at the cursor. *)
Lemma entry_partial (kv : bytes * bytes) (bufd done avail : bytes) (pos : Z)
  sch cod out :
  entry_valid L kv = true ->
  bufd = done ++ avail -> pos = len done -> short_of avail (entry_wire kv) ->
  fst (metadata_entry L T (meta_state bufd pos sch cod out))
  = Raise AvroInsufficientDataException.
Proof.
  intros Hv Hb Hp Hshort. destruct (entry_valid_inv kv Hv) as (Hk & Hval & _).
  destruct kv as [k v]. cbn [fst snd] in *.
  unfold entry_wire in Hshort. cbn [fst snd] in Hshort.
  unfold metadata_entry.
  destruct (short_of_app _ _ _ Hshort) as [H|(avail' & -> & H)].
  { apply (copy_bytes_partial _ bufd done k avail pos sch cod out Hb Hp Hk H). }
  rewrite (copy_bytes_complete _ bufd done k avail' pos sch cod out Hb Hp Hk).
  assert (Hb2 : bufd = (done ++ lp k) ++ avail')
    by (rewrite Hb, <- app_assoc; reflexivity).
  assert (Hp2 : pos + len (lp k) = len (done ++ lp k))
    by (rewrite len_app; lia).
  destruct (bytes_eqb k (bstr "avro.codec")); [|destruct (bytes_eqb k (bstr "avro.schema"))].
  - unfold _read_avro_codec, mbind at 1.
    rewrite (read_at_meta _ _ _ _ _ _ _ _ Hb2 Hp2).
    rewrite (read_bytes_short _ _ Hval H). reflexivity.
  - unfold _read_avro_schema, mbind at 1.
    rewrite (read_at_meta _ _ _ _ _ _ _ _ Hb2 Hp2).
    rewrite (read_bytes_short _ _ Hval H). reflexivity.
  - unfold mbind at 1.
    rewrite (read_at_meta _ _ _ _ _ _ _ _ Hb2 Hp2).
    rewrite (read_bytes_short _ _ Hval H). reflexivity.
Qed.

Lemma after_entries_cons (kv : bytes * bytes) (es : list (bytes * bytes)) sc :
  after_entries L (kv :: es) sc = after_entries L es (after_entry L kv sc).
Proof. reflexivity. Qed.

(** The entries of a group. *)
Lemma entries_complete (es : list (bytes * bytes)) :
  forall bufd done more pos sch cod out,
    forallb (entry_valid L) es = true ->
    bufd = done ++ concat (map entry_wire es) ++ more -> pos = len done ->
    repeat_m (List.length es) (metadata_entry L T) (meta_state bufd pos sch cod out)
    = (Ok tt,
       meta_state bufd (pos + len (concat (map entry_wire es)))
         (fst (after_entries L es (sch, cod))) (snd (after_entries L es (sch, cod)))
         (out ++ concat (map (out_entry L keep) es))).
Proof.
  induction es as [|kv es IH]; intros bufd done more pos sch cod out Hv Hb Hp.
  - cbn [List.length repeat_m map concat after_entries fold_left fst snd].
    unfold ret. change (len (@nil byte)) with 0.
    rewrite Z.add_0_r, app_nil_r. reflexivity.
  - cbn [forallb] in Hv. apply andb_true_iff in Hv. destruct Hv as [Hkv Hes].
    cbn [map concat] in *. rewrite <- app_assoc in Hb.
    cbn [List.length repeat_m]. unfold mbind at 1.
    rewrite (entry_complete kv bufd done _ pos sch cod out Hkv Hb Hp).
    rewrite (IH bufd (done ++ entry_wire kv) more).
    + rewrite after_entries_cons.
      destruct (after_entry L kv (sch, cod)) as [sch' cod']. cbn [fst snd].
      unfold meta_state. same_state.
    + exact Hes.
    + rewrite Hb, <- app_assoc. reflexivity.
    + rewrite len_app. lia.
Qed.

Lemma entries_partial (es : list (bytes * bytes)) :
  forall bufd done avail pos sch cod out,
    forallb (entry_valid L) es = true ->
    bufd = done ++ avail -> pos = len done ->
    short_of avail (concat (map entry_wire es)) ->
    fst (repeat_m (List.length es) (metadata_entry L T)
           (meta_state bufd pos sch cod out))
    = Raise AvroInsufficientDataException.
Proof.
  induction es as [|kv es IH]; intros bufd done avail pos sch cod out Hv Hb Hp Hshort.
  - exfalso. apply short_of_len in Hshort. cbn [map concat] in Hshort.
    change (len (@nil byte)) with 0 in Hshort. pose proof (len_nonneg avail). lia.
  - cbn [forallb] in Hv. apply andb_true_iff in Hv. destruct Hv as [Hkv Hes].
    cbn [map concat] in Hshort.
    cbn [List.length repeat_m]. unfold mbind at 1.
    destruct (short_of_app _ _ _ Hshort) as [H|(avail' & -> & H)].
    + pose proof (entry_partial kv bufd done avail pos sch cod out Hkv Hb Hp H) as E.
      destruct (metadata_entry L T _) as [r p']. cbn [fst] in E. subst r. reflexivity.
    + rewrite (entry_complete kv bufd done avail' pos sch cod out Hkv Hb Hp).
      apply (IH bufd (done ++ entry_wire kv) avail'); try assumption.
      * rewrite Hb, <- app_assoc. reflexivity.
      * rewrite len_app. lia.
Qed.


Lemma group_valid_inv (g : list (bytes * bytes)) :
  group_valid L g = true ->
  0 < len g /\ len g <= sys_maxint L /\ int64 (len g) /\
  forallb (entry_valid L) g = true.
Proof.
  unfold group_valid. rewrite !andb_true_iff, int64b_true, Z.ltb_lt, Z.leb_le.
  tauto.
Qed.

Lemma xrange_group (g : list (bytes * bytes)) :
  group_valid L g = true -> xrange L (len g) = Ok (List.length g).
Proof.
  intros Hg. destruct (group_valid_inv g Hg) as (H0 & Hmax & _ & _).
  unfold xrange.
  replace (len g <? - sys_maxint L - 1) with false by (symmetry; apply Z.ltb_ge; lia).
  replace (sys_maxint L <? len g) with false by (symmetry; apply Z.ltb_ge; lia).
  cbn [orb]. unfold len. rewrite Nat2Z.id. reflexivity.
Qed.

Lemma metadata_loop_zero (f : nat) : metadata_loop L T f 0 = ret tt.
Proof. destruct f; reflexivity. Qed.

Lemma metadata_loop_group (f : nat) (g : list (bytes * bytes)) (p : parser) :
  group_valid L g = true ->
  metadata_loop L T (S f) (len g) p =
    (repeat_m (List.length g) (metadata_entry L T) ;;
     '(block_count, used) <- read_at _read_long ;;
     save_used used ;;
     bused_add used ;;
     metadata_loop L T f block_count)%meth p.
Proof.
  intros Hg. destruct (group_valid_inv g Hg) as (H0 & _).
  cbn [metadata_loop].
  replace (len g =? 0) with false by (symmetry; apply Z.eqb_neq; lia).
  unfold mbind at 1, lift. rewrite (xrange_group g Hg). reflexivity.
Qed.

Lemma int64_0 : int64 0.
Proof. unfold int64. lia. Qed.

Lemma after_entries_app (es1 es2 : list (bytes * bytes)) sc :
  after_entries L (es1 ++ es2) sc = after_entries L es2 (after_entries L es1 sc).
Proof. unfold after_entries. apply fold_left_app. Qed.

(** The loop over the groups, entered with the count of [g]. *)
Lemma loop_complete (gs : list (list (bytes * bytes))) :
  forall g f bufd done more pos sch cod out,
    group_valid L g = true -> forallb (group_valid L) gs = true ->
    (List.length gs < f)%nat ->
    bufd = done ++ loop_wire g gs ++ more -> pos = len done ->
    metadata_loop L T f (len g) (meta_state bufd pos sch cod out)
    = (Ok tt,
       meta_state bufd (pos + len (loop_wire g gs))
         (fst (after_entries L (concat (g :: gs)) (sch, cod)))
         (snd (after_entries L (concat (g :: gs)) (sch, cod)))
         (out ++ loop_out L keep g gs)).
Proof.
  induction gs as [|g' gs IH]; intros g f bufd done more pos sch cod out Hg Hgs Hf Hb Hp;
    (destruct f as [|f]; [simpl in Hf; lia|]);
    destruct (group_valid_inv g Hg) as (_ & _ & _ & Hes);
    rewrite (metadata_loop_group f g _ Hg); unfold mbind at 1;
    cbn [loop_wire loop_out] in *; rewrite <- app_assoc in Hb;
    rewrite (entries_complete g bufd done _ pos sch cod out Hes Hb Hp).
  - assert (Hb2 : bufd = (done ++ concat (map entry_wire g)) ++ varint 0 ++ more)
      by (rewrite Hb, <- app_assoc; reflexivity).
    assert (Hp2 : pos + len (concat (map entry_wire g))
                  = len (done ++ concat (map entry_wire g)))
      by (rewrite len_app; lia).
    rewrite (copy_long_complete _ _ _ _ 0 _ _ _ _ Hb2 Hp2 int64_0).
    rewrite metadata_loop_zero. unfold ret.
    cbn [concat]. rewrite app_nil_r.
    unfold meta_state. same_state.
  - cbn [forallb] in Hgs. apply andb_true_iff in Hgs. destruct Hgs as [Hg' Hgs].
    destruct (group_valid_inv g' Hg') as (_ & _ & Hi & _).
    rewrite <- app_assoc in Hb.
    assert (Hb2 : bufd = (done ++ concat (map entry_wire g))
                         ++ varint (len g') ++ loop_wire g' gs ++ more)
      by (rewrite Hb, <- app_assoc; reflexivity).
    assert (Hp2 : pos + len (concat (map entry_wire g))
                  = len (done ++ concat (map entry_wire g)))
      by (rewrite len_app; lia).
    rewrite (copy_long_complete _ _ _ _ (len g') _ _ _ _ Hb2 Hp2 Hi).
    rewrite (IH g' f bufd ((done ++ concat (map entry_wire g)) ++ varint (len g')) more).
    + change (concat (g :: g' :: gs)) with (g ++ concat (g' :: gs)).
      rewrite after_entries_app.
      destruct (after_entries L g (sch, cod)) as [sch' cod']. cbn [fst snd].
      unfold meta_state. same_state.
    + exact Hg'.
    + exact Hgs.
    + simpl in Hf. lia.
    + rewrite Hb2, <- !app_assoc. reflexivity.
    + rewrite !len_app. lia.
Qed.

Lemma loop_partial (gs : list (list (bytes * bytes))) :
  forall g f bufd done avail pos sch cod out,
    group_valid L g = true -> forallb (group_valid L) gs = true ->
    (List.length gs < f)%nat ->
    bufd = done ++ avail -> pos = len done ->
    short_of avail (loop_wire g gs) ->
    fst (metadata_loop L T f (len g) (meta_state bufd pos sch cod out))
    = Raise AvroInsufficientDataException.
Proof.
  induction gs as [|g' gs IH];
    intros g f bufd done avail pos sch cod out Hg Hgs Hf Hb Hp Hshort;
    (destruct f as [|f]; [simpl in Hf; lia|]);
    destruct (group_valid_inv g Hg) as (_ & _ & _ & Hes);
    rewrite (metadata_loop_group f g _ Hg); unfold mbind at 1;
    cbn [loop_wire] in Hshort;
    (destruct (short_of_app _ _ _ Hshort) as [H|(avail' & -> & H)];
     [ pose proof (entries_partial g bufd done avail pos sch cod out Hes Hb Hp H) as E;
       destruct (repeat_m _ _ _) as [r p']; cbn [fst] in E; subst r; reflexivity
     | rewrite (entries_complete g bufd done avail' pos sch cod out Hes Hb Hp) ]);
    assert (Hb2 : bufd = (done ++ concat (map entry_wire g)) ++ avail')
      by (rewrite Hb, <- app_assoc; reflexivity);
    assert (Hp2 : pos + len (concat (map entry_wire g))
                  = len (done ++ concat (map entry_wire g)))
      by (rewrite len_app; lia).
  - apply (copy_long_partial _ _ _ _ 0 _ _ _ _ Hb2 Hp2 int64_0 H).
  - cbn [forallb] in Hgs. apply andb_true_iff in Hgs. destruct Hgs as [Hg' Hgs].
    destruct (group_valid_inv g' Hg') as (_ & _ & Hi & _).
    destruct (short_of_app _ _ _ H) as [H'|(avail'' & -> & H')].
    + apply (copy_long_partial _ _ _ _ (len g') _ _ _ _ Hb2 Hp2 Hi H').
    + rewrite (copy_long_complete _ _ _ _ (len g') _ _ _ _ Hb2 Hp2 Hi).
      apply (IH g' f bufd ((done ++ concat (map entry_wire g)) ++ varint (len g')) avail'');
        try assumption.
      * simpl in Hf. lia.
      * rewrite Hb2, <- !app_assoc. reflexivity.
      * rewrite !len_app. lia.
Qed.


(** *** What the metadata step leaves alone when it raises *)

Lemma keeps_buffered_entry : keeps buffered (metadata_entry L T).
Proof.
  assert (keeps buffered _read_avro_codec) by (unfold _read_avro_codec; keeps_tac).
  assert (keeps buffered (_read_avro_schema L T)) by (unfold _read_avro_schema; keeps_tac).
  unfold metadata_entry. keeps_tac.
Qed.

Lemma keeps_buffered_loop (f : nat) :
  forall block_count, keeps buffered (metadata_loop L T f block_count).
Proof.
  pose proof keeps_buffered_entry.
  induction f as [|f IH]; intros block_count; simpl;
    destruct (block_count =? 0); keeps_tac.
Qed.

Lemma metadata_raise_buffered (fuel : nat) :
  keeps_on_raise buffered (_parse_file_metadata L T fuel).
Proof.
  pose proof keeps_buffered_loop. unfold _parse_file_metadata. kor_tac.
Qed.

Lemma keeps_blen_entry : keeps blen (metadata_entry L T).
Proof.
  assert (keeps blen _read_avro_codec) by (unfold _read_avro_codec; keeps_tac).
  assert (keeps blen (_read_avro_schema L T)) by (unfold _read_avro_schema; keeps_tac).
  unfold metadata_entry. keeps_tac.
Qed.

Lemma keeps_blen_loop (f : nat) :
  forall block_count, keeps blen (metadata_loop L T f block_count).
Proof.
  pose proof keeps_blen_entry.
  induction f as [|f IH]; intros block_count; simpl;
    destruct (block_count =? 0); keeps_tac.
Qed.

Lemma metadata_raise_blen (fuel : nat) :
  keeps_on_raise blen (_parse_file_metadata L T fuel).
Proof.
  pose proof keeps_blen_loop. unfold _parse_file_metadata. kor_tac.
Qed.

Lemma keeps_state_entry : keeps state (metadata_entry L T).
Proof.
  assert (keeps state _read_avro_codec) by (unfold _read_avro_codec; keeps_tac).
  assert (keeps state (_read_avro_schema L T)) by (unfold _read_avro_schema; keeps_tac).
  unfold metadata_entry. keeps_tac.
Qed.

Lemma keeps_state_loop (f : nat) :
  forall block_count, keeps state (metadata_loop L T f block_count).
Proof.
  pose proof keeps_state_entry.
  induction f as [|f IH]; intros block_count; simpl;
    destruct (block_count =? 0); keeps_tac.
Qed.

Lemma metadata_raise_state (fuel : nat) :
  keeps_on_raise state (_parse_file_metadata L T fuel).
Proof.
  pose proof keeps_state_loop. unfold _parse_file_metadata. kor_tac.
Qed.

Lemma meta_state_start (p : parser) (bufd : bytes) :
  awaiting_metadata p -> buffer_is p bufd ->
  set_bused 0 (set_saved [] p) = meta_state bufd 0 (schema p) (codec p) [].
Proof.
  intros (Hs & Hm) (Hb & Hl). destruct p. cbn in *. subst. reflexivity.
Qed.

Lemma metadata_wire_cons (g : list (bytes * bytes)) (gs : list (list (bytes * bytes))) :
  metadata_wire (g :: gs) = varint (len g) ++ loop_wire g gs.
Proof.
  unfold metadata_wire. revert g. induction gs as [|g' gs IH]; intros g.
  - cbn [map concat loop_wire]. unfold group_wire. rewrite app_nil_r, <- app_assoc.
    reflexivity.
  - specialize (IH g'). cbn [map concat loop_wire] in *.
    unfold group_wire at 1. rewrite <- !app_assoc. do 2 f_equal.
    rewrite <- IH. rewrite <- app_assoc. reflexivity.
Qed.

Lemma out_metadata_cons (g : list (bytes * bytes)) (gs : list (list (bytes * bytes))) :
  out_metadata L keep (g :: gs) = varint (len g) ++ loop_out L keep g gs.
Proof.
  unfold out_metadata. revert g. induction gs as [|g' gs IH]; intros g.
  - cbn [map concat loop_out]. unfold out_group. rewrite app_nil_r, <- app_assoc.
    reflexivity.
  - specialize (IH g'). cbn [map concat loop_out] in *.
    unfold out_group at 1. rewrite <- !app_assoc. do 2 f_equal.
    rewrite <- IH. rewrite <- app_assoc. reflexivity.
Qed.

(** The whole metadata is at the head of the buffer. *)
Lemma metadata_complete (fuel : nat) (p : parser)
  (groups : list (list (bytes * bytes))) (more : bytes) :
  awaiting_metadata p -> buffer_is p (metadata_wire groups ++ more) ->
  forallb (group_valid L) groups = true ->
  (List.length groups <= fuel)%nat ->
  exists p',
    _parse_next_item L T fuel p = (Ok (out_metadata L keep groups), p') /\
    buffer_is p' more /\
    state p' = AVRO_SYNC_MARKER /\ syncmarker p' = None /\
    schema p' = fst (after_entries L (concat groups) (schema p, codec p)) /\
    codec p' = snd (after_entries L (concat groups) (schema p, codec p)).
Proof.
  intros Hpre Hbuf Hv Hf. pose proof Hpre as (Hs & Hm).
  unfold _parse_next_item. rewrite Hs.
  cbn [Z.eqb AVRO_HEADER_MAGIC AVRO_HEADER_FILE_METADATA Pos.eqb].
  unfold _parse_file_metadata. unfold mbind at 1, modify at 1.
  unfold mbind at 1, modify at 1.
  rewrite (meta_state_start p _ Hpre Hbuf).
  set (bufd := metadata_wire groups ++ more) in *.
  unfold mbind at 1. cbn [meta_state buffered blen].
  destruct groups as [|g gs].
  - assert (Hb : bufd = varint 0 ++ more) by reflexivity.
    assert (Hread : _read_long bufd (len bufd) = Ok (0, len (varint 0)))
      by (rewrite Hb; apply read_long_token, int64_0).
    assert (Hto : py_slice_to bufd (len (varint 0)) = varint 0)
      by (rewrite Hb; apply py_slice_to_token).
    assert (Hfrom : py_slice_from bufd (0 + len (varint 0)) = more)
      by (rewrite Hb; apply py_slice_from_token).
    rewrite Hread. mnorm. rewrite metadata_loop_zero. mnorm.
    rewrite Hto, Hfrom.
    eexists. split; [reflexivity|].
    split; [split; [reflexivity|]|auto].
    cbn [blen]. rewrite Hb, len_app. lia.
  - cbn [forallb] in Hv. apply andb_true_iff in Hv. destruct Hv as [Hg Hgs].
    destruct (group_valid_inv g Hg) as (_ & _ & Hi & _).
    assert (Hb : bufd = varint (len g) ++ loop_wire g gs ++ more)
      by (unfold bufd; rewrite metadata_wire_cons, <- app_assoc; reflexivity).
    assert (Hread : _read_long bufd (len bufd) = Ok (len g, len (varint (len g))))
      by (rewrite Hb; apply read_long_token, Hi).
    rewrite Hread.
    unfold mbind at 1. unfold modify at 1. unfold mbind at 1. unfold bused_add at 1, modify at 1.
    unfold mbind at 1.
    match goal with
    | |- context [metadata_loop L T fuel (len g) ?st] =>
        replace st with (meta_state bufd (len (varint (len g))) (schema p) (codec p)
                           (varint (len g)))
    end.
    2:{ assert (Hto : py_slice_to bufd (len (varint (len g))) = varint (len g))
          by (rewrite Hb; apply py_slice_to_token).
        unfold meta_state. mnorm. rewrite Hto. reflexivity. }
    rewrite (loop_complete gs g fuel bufd (varint (len g)) more _ _ _ _ Hg Hgs);
      [|simpl in Hf; lia|exact Hb|reflexivity].
    mnorm.
    assert (Hfrom : py_slice_from bufd (len (varint (len g)) + len (loop_wire g gs)) = more).
    { rewrite Hb, app_assoc, <- len_app. apply py_slice_from_token. }
    rewrite Hfrom. rewrite out_metadata_cons.
    eexists. split; [reflexivity|].
    split; [split; [reflexivity|]|auto].
    cbn [blen]. rewrite Hb, !len_app. lia.
Qed.

(** Only a proper prefix of the metadata is buffered. *)
Lemma metadata_partial (fuel : nat) (p : parser)
  (groups : list (list (bytes * bytes))) (avail : bytes) :
  awaiting_metadata p -> buffer_is p avail ->
  forallb (group_valid L) groups = true ->
  (List.length groups <= fuel)%nat ->
  short_of avail (metadata_wire groups) ->
  exists p',
    _parse_next_item L T fuel p = (Raise AvroInsufficientDataException, p') /\
    awaiting_metadata p' /\ buffer_is p' avail.
Proof.
  intros Hpre Hbuf Hv Hf Hshort. pose proof Hpre as (Hs & Hm).
  pose proof Hbuf as (Hb0 & Hl0).
  assert (Hfail : fst (_parse_file_metadata L T fuel p)
                  = Raise AvroInsufficientDataException).
  { unfold _parse_file_metadata. unfold mbind at 1, modify at 1.
    unfold mbind at 1, modify at 1.
    rewrite (meta_state_start p _ Hpre Hbuf).
    unfold mbind at 1. cbn [meta_state buffered blen].
    destruct groups as [|g gs].
    - rewrite (read_long_short 0 avail int64_0 Hshort). reflexivity.
    - cbn [forallb] in Hv. apply andb_true_iff in Hv. destruct Hv as [Hg Hgs].
      destruct (group_valid_inv g Hg) as (_ & _ & Hi & _).
      rewrite metadata_wire_cons in Hshort.
      destruct (short_of_app _ _ _ Hshort) as [H|(avail' & Ha & H)].
      + rewrite (read_long_short (len g) avail Hi H). reflexivity.
      + assert (Hread : _read_long avail (len avail) = Ok (len g, len (varint (len g))))
          by (rewrite Ha; apply read_long_token, Hi).
        rewrite Hread.
        unfold mbind at 1. unfold modify at 1. unfold mbind at 1.
        unfold bused_add at 1, modify at 1. unfold mbind at 1.
        match goal with
        | |- context [metadata_loop L T fuel (len g) ?st] =>
            replace st with (meta_state avail (len (varint (len g))) (schema p) (codec p)
                               (varint (len g)))
        end.
        2:{ assert (Hto : py_slice_to avail (len (varint (len g))) = varint (len g))
              by (rewrite Ha; apply py_slice_to_token).
            unfold meta_state. mnorm. rewrite Hto. reflexivity. }
        pose proof (loop_partial gs g fuel avail (varint (len g)) avail'
                      (len (varint (len g)))
                      (schema p) (codec p) (varint (len g)) Hg Hgs) as E.
        specialize (E ltac:(simpl in Hf; lia) Ha eq_refl H).
        unfold mbind at 1. destruct (metadata_loop L T fuel (len g) _) as [r p'].
        cbn [fst] in E. subst r. reflexivity. }
  unfold _parse_next_item. rewrite Hs.
  cbn [Z.eqb AVRO_HEADER_MAGIC AVRO_HEADER_FILE_METADATA Pos.eqb].
  exists (snd (_parse_file_metadata L T fuel p)). split; [|split].
  - rewrite <- Hfail. destruct (_parse_file_metadata L T fuel p). reflexivity.
  - split.
    + rewrite (metadata_raise_state fuel p _ Hfail). exact Hs.
    + rewrite (keeps_marker_metadata L T fuel p). exact Hm.
  - split.
    + rewrite (metadata_raise_buffered fuel p _ Hfail). exact Hb0.
    + rewrite (metadata_raise_blen fuel p _ Hfail). exact Hl0.
Qed.

End ValidMetadata.

(** ** The attributes after the metadata *)

Section AfterMetadata.

Variable L : Libs.

Lemma after_entries_codec (es : list (bytes * bytes)) :
  forall sch cod,
    snd (after_entries L es (sch, cod)) = meta_find es (bstr "avro.codec") cod.
Proof.
  induction es as [|[k v] es IH]; intros sch cod; [reflexivity|].
  rewrite after_entries_cons. cbn [meta_find]. unfold after_entry. cbn [fst snd].
  destruct (bytes_eqb k (bstr "avro.codec")); [apply IH|].
  destruct (bytes_eqb k (bstr "avro.schema")); apply IH.
Qed.

Lemma meta_find_found (es : list (bytes * bytes)) (key : bytes) :
  forall x,
    meta_find es key (Some x) =
      match meta_find es key None with
      | Some y => Some y
      | None => Some x
      end.
Proof.
  induction es as [|[k v] es IH]; intros x; [reflexivity|].
  cbn [meta_find]. destruct (bytes_eqb k key).
  - rewrite (IH v). destruct (meta_find es key None); reflexivity.
  - apply IH.
Qed.

Lemma after_entries_schema (es : list (bytes * bytes)) :
  forall sch cod,
    fst (after_entries L es (sch, cod)) =
      match meta_find es (bstr "avro.schema") None with
      | Some text => schema_dict L text
      | None => sch
      end.
Proof.
  induction es as [|[k v] es IH]; intros sch cod; [reflexivity|].
  rewrite after_entries_cons. cbn [meta_find]. unfold after_entry. cbn [fst snd].
  destruct (bytes_eqb k (bstr "avro.codec")) eqn:Hc.
  - apply bytes_eqb_eq in Hc. subst k.
    replace (bytes_eqb (bstr "avro.codec") (bstr "avro.schema")) with false
      by (vm_compute; reflexivity).
    apply IH.
  - destruct (bytes_eqb k (bstr "avro.schema")).
    + rewrite IH, meta_find_found.
      destruct (meta_find es (bstr "avro.schema") None); reflexivity.
    + apply IH.
Qed.

(** What validity says about a file. *)
Lemma ocf_valid_inv (f : ocf_file) :
  ocf_valid L f = true ->
  exists text ms ts,
    len (file_marker f) = 16 /\
    forallb (group_valid L) (file_meta f) = true /\
    meta_lookup f "avro.codec" = Some (bstr "snappy") /\
    meta_lookup f "avro.schema" = Some text /\
    json_loads L text = Ok (JObj ms) /\
    members_get ms "fields" = Some (JArr (file_fields L f)) /\
    field_types (file_fields L f) = Some ts /\
    forallb supported_type ts = true /\
    forallb (block_valid L ts) (file_blocks f) = true.
Proof.
  unfold ocf_valid. rewrite !andb_true_iff. intros ((Hm & Hg) & H).
  apply Z.eqb_eq in Hm.
  destruct (meta_lookup f "avro.codec") as [c|] eqn:Hc; [|discriminate].
  destruct (file_types L f) as [ts|] eqn:Hts; [|discriminate].
  rewrite !andb_true_iff in H. destruct H as ((Hsn & Hsup) & Hbl).
  apply bytes_eqb_eq in Hsn. subst c.
  unfold file_types in Hts. unfold file_fields.
  destruct (meta_lookup f "avro.schema") as [text|] eqn:Htext; [|discriminate].
  destruct (json_loads L text) as [j|] eqn:Hj; [|discriminate].
  destruct (schema_types_inv j ts Hts) as (ms & fs & -> & Hf & Hfs).
  exists text, ms, ts. rewrite Hf. auto 10.
Qed.

End AfterMetadata.

(** ** The whole stream through the driver *)

Section Run.

Variable L : Libs.
Variable T : Transform.
Variable keep : json -> bool.
Hypothesis HT : follows T keep.
Variable fuel : nat.

Variable fs : list json.
Variable ts : list string.
Hypothesis Hfs : field_types fs = Some ts.
Hypothesis Hsup : forallb supported_type ts = true.
Variable marker : bytes.
Hypothesis Hmarker : len marker = 16.

(** Between data blocks with nothing buffered, the step asks for more data
    and the parser stays as it is. *)
Lemma block_step_empty (p : parser) :
  between_data_blocks p fs marker -> buffer_is p [] ->
  exists p',
    _parse_next_item L T fuel p = (Raise AvroInsufficientDataException, p') /\
    between_data_blocks p' fs marker /\ buffer_is p' [].
Proof.
  intros Hpre Hbuf. pose proof Hpre as (Hs & Hc & Hsch & Hm).
  pose proof Hbuf as (Hb & Hl). change (len (@nil byte)) with 0 in Hl.
  assert (Hfail : fst (data_block_body L T p) = Raise AvroInsufficientDataException).
  { unfold data_block_body. msimpl. unfold _read_long. rewrite Hl. reflexivity. }
  rewrite (parse_next_item_block L T fuel p Hs).
  rewrite (parse_data_block_raise L T p _ Hfail).
  eexists. split; [reflexivity|]. split.
  - unfold between_data_blocks.
    rewrite (keeps_state_block_body L T p), (keeps_codec_block_body L T p),
      (keeps_schema_block_body L T p), (keeps_marker_block_body L T p).
    auto.
  - unfold buffer_is.
    rewrite (block_body_raise_buffered L T p _ Hfail),
      (block_body_raise_blen L T p _ Hfail). auto.
Qed.

(** At the end of the stream the remaining chunks are empty; [next] takes
    them one by one and then raises [StopIteration]. *)
Lemma next_end (src : source) :
  forall depth p,
    between_data_blocks p fs marker -> buffer_is p [] ->
    concat src = [] -> (List.length src <= depth)%nat ->
    fst (fst (next L T fuel depth p src)) = Raise StopIteration.
Proof.
  induction src as [|x src IH]; intros depth p Hpre Hbuf Hsrc Hdepth;
    destruct (block_step_empty p Hpre Hbuf) as (p1 & Hstep & Hpre1 & Hb1 & Hl1);
    rewrite next_eq, Hstep; [reflexivity|].
  cbn [concat] in Hsrc. apply app_eq_nil in Hsrc. destruct Hsrc as [-> Hsrc].
  destruct depth as [|depth]; [simpl in Hdepth; lia|]. cbn zeta.
  apply IH.
  - destruct Hpre1 as (H1 & H2 & H3 & H4). unfold between_data_blocks. msimpl. auto.
  - split; msimpl; [rewrite Hb1; reflexivity|rewrite Hl1; reflexivity].
  - exact Hsrc.
  - simpl in Hdepth. lia.
Qed.

Lemma between_blocks_refill (p : parser) (x : bytes) :
  between_data_blocks p fs marker ->
  between_data_blocks
    (set_blen (blen p + len x) (set_buffered (buffered p ++ x) p)) fs marker.
Proof. intros (H1 & H2 & H3 & H4). unfold between_data_blocks. msimpl. auto. Qed.

(** The data blocks of a valid file, and the end of the iteration. *)
Lemma run_blocks (blocks : list ocf_block) :
  forall steps src p avail,
    between_data_blocks p fs marker -> buffer_is p avail ->
    avail ++ concat src = concat (map (fun bl => block_wire bl ++ marker) blocks) ->
    (List.length src <= recursion_limit L)%nat ->
    forallb (block_valid L ts) blocks = true ->
    (List.length blocks < steps)%nat ->
    run L T fuel steps p src
    = (map (fun bl => out_block L keep fs bl ++ marker) blocks, StopIteration).
Proof.
  induction blocks as [|bl blocks IH];
    intros steps src p avail Hpre Hbuf Heq Hsrc Hv Hsteps;
    (destruct steps as [|steps]; [simpl in Hsteps; lia|]); cbn [run map].
  - cbn [map concat] in Heq. apply app_eq_nil in Heq. destruct Heq as [-> Heq].
    pose proof (next_end src (recursion_limit L) p Hpre Hbuf Heq Hsrc) as E.
    destruct (next L T fuel (recursion_limit L) p src) as [[r p'] src'].
    cbn [fst] in E. subst r. reflexivity.
  - cbn [forallb] in Hv. apply andb_true_iff in Hv. destruct Hv as [Hbl Hbls].
    cbn [map concat] in Heq.
    assert (Hcomplete : forall q more,
               between_data_blocks q fs marker ->
               buffer_is q ((block_wire bl ++ marker) ++ more) ->
               exists p',
                 _parse_next_item L T fuel q
                   = (Ok (out_block L keep fs bl ++ marker), p') /\
                 between_data_blocks p' fs marker /\ buffer_is p' more).
    { intros q more Hq Hb. rewrite (parse_next_item_block L T fuel q (proj1 Hq)).
      exact (block_complete L T keep HT fs ts Hfs Hsup q bl marker more Hq Hb Hmarker Hbl). }
    assert (Hpartial : forall q av,
               between_data_blocks q fs marker -> buffer_is q av ->
               short_of av (block_wire bl ++ marker) ->
               exists p',
                 _parse_next_item L T fuel q = (Raise AvroInsufficientDataException, p') /\
                 between_data_blocks p' fs marker /\ buffer_is p' av).
    { intros q av Hq Hb Hs. rewrite (parse_next_item_block L T fuel q (proj1 Hq)).
      exact (block_partial L T fs ts q bl marker av Hq Hb Hmarker Hbl Hs). }
    destruct (next_item L T fuel _ _ _ _ Hcomplete Hpartial between_blocks_refill
                src (recursion_limit L) p avail _ Hpre Hbuf Heq Hsrc)
      as (p' & more & src' & Hnext & Hpost & Hbuf' & Hmore & Hlen).
    rewrite Hnext.
    assert (Hsrc' : (List.length src' <= recursion_limit L)%nat)
      by exact (Nat.le_trans _ _ _ Hlen Hsrc).
    assert (Hsteps' : (List.length blocks < steps)%nat) by (simpl in Hsteps; lia).
    rewrite (IH steps src' p' more Hpost Hbuf' Hmore Hsrc' Hbls Hsteps').
    reflexivity.
Qed.

End Run.

(** ** A valid file through the transcoder *)

Section Stream.

Variable L : Libs.
Variable T : Transform.
Variable keep : json -> bool.
Hypothesis HT : follows T keep.
Variable fuel : nat.

Lemma awaiting_magic_refill (p : parser) (x : bytes) :
  awaiting_magic p ->
  awaiting_magic (set_blen (blen p + len x) (set_buffered (buffered p ++ x) p)).
Proof. intros (H1 & H2). unfold awaiting_magic. msimpl. auto. Qed.

Lemma awaiting_metadata_refill (p : parser) (x : bytes) :
  awaiting_metadata p ->
  awaiting_metadata (set_blen (blen p + len x) (set_buffered (buffered p ++ x) p)).
Proof. intros (H1 & H2). unfold awaiting_metadata. msimpl. auto. Qed.

Lemma awaiting_sync_refill (fs : list json) (p : parser) (x : bytes) :
  awaiting_sync p fs ->
  awaiting_sync (set_blen (blen p + len x) (set_buffered (buffered p ++ x) p)) fs.
Proof. intros (H1 & H2 & H3 & H4). unfold awaiting_sync. msimpl. auto. Qed.

Lemma meta_find_any (es : list (bytes * bytes)) (key v : bytes) (found : option bytes) :
  meta_find es key None = Some v -> meta_find es key found = Some v.
Proof.
  intros H. destruct found as [x|]; [|exact H].
  rewrite meta_find_found, H. reflexivity.
Qed.

(** After the metadata of a valid file the parser awaits the sync marker,
    whatever an earlier, interrupted walk over the metadata had left in the
    attributes. *)
Lemma metadata_valid_complete (f : ocf_file) (p : parser) (more : bytes) :
  ocf_valid L f = true ->
  (List.length (file_meta f) <= fuel)%nat ->
  awaiting_metadata p -> buffer_is p (metadata_wire (file_meta f) ++ more) ->
  exists p',
    _parse_next_item L T fuel p = (Ok (out_metadata L keep (file_meta f)), p') /\
    awaiting_sync p' (file_fields L f) /\ buffer_is p' more.
Proof.
  intros Hv Hfuel Hpre Hbuf.
  destruct (ocf_valid_inv L f Hv)
    as (text & ms & ts & Hm & Hg & Hc & Htext & Hj & Hf & Hts & Hsup & Hbl).
  destruct (metadata_complete L T keep HT fuel p (file_meta f) more Hpre Hbuf Hg Hfuel)
    as (p' & Hstep & Hbuf' & Hs & Hsm & Hsch & Hcod).
  exists p'. split; [exact Hstep|]. split; [|exact Hbuf'].
  unfold awaiting_sync. split; [exact Hs|]. split; [|split; [|exact Hsm]].
  - rewrite Hcod, after_entries_codec. apply meta_find_any. exact Hc.
  - rewrite Hsch, after_entries_schema. unfold meta_lookup in Htext.
    rewrite Htext. unfold schema_dict. rewrite Hj. cbn [py_dict].
    unfold dict_getitem. rewrite dict_get_members, Hf. reflexivity.
Qed.

(** The transcoder on a valid file: whatever the chunks, as long as there
    are no more of them than [next] may recurse, it yields the expected
    output and the iteration ends with the source. *)
Lemma transcode_valid (f : ocf_file) (steps : nat) (initbody : bytes)
  (src : source) :
  ocf_valid L f = true ->
  initbody ++ concat src = ocf_wire f ->
  (List.length src <= recursion_limit L)%nat ->
  (List.length (file_meta f) <= fuel)%nat ->
  (List.length (file_blocks f) + 4 <= steps)%nat ->
  transcode L T fuel steps initbody src = (transcoded_wire L keep f, StopIteration).
Proof.
  intros Hv Heq Hsrc Hfuel Hsteps.
  destruct (ocf_valid_inv L f Hv)
    as (text & ms & ts & Hm & Hg & Hc & Htext & Hj & Hf & Hts & Hsup & Hbl).
  destruct steps as [|[|[|steps]]]; try (simpl in Hsteps; lia).
  unfold transcode, ocf_wire in *. cbn [run].
  (* the header magic *)
  destruct (next_item L T fuel awaiting_magic awaiting_metadata
              header_magic header_magic
              (magic_complete L T fuel) (magic_partial L T fuel)
              awaiting_magic_refill
              src (recursion_limit L) (init initbody) initbody _
              (conj eq_refl eq_refl) (conj eq_refl eq_refl) Heq Hsrc)
    as (p1 & more1 & src1 & Hn1 & Hp1 & Hb1 & Hq1 & Hl1).
  rewrite Hn1.
  assert (Hsrc1 : (List.length src1 <= recursion_limit L)%nat)
    by exact (Nat.le_trans _ _ _ Hl1 Hsrc).
  (* the metadata *)
  destruct (next_item L T fuel awaiting_metadata
              (fun q => awaiting_sync q (file_fields L f))
              (metadata_wire (file_meta f)) (out_metadata L keep (file_meta f))
              (fun q more => metadata_valid_complete f q more Hv Hfuel)
              (fun q av Hq Hb Hs =>
                 metadata_partial L T keep HT fuel q (file_meta f) av Hq Hb Hg Hfuel Hs)
              awaiting_metadata_refill
              src1 (recursion_limit L) p1 more1 _ Hp1 Hb1 Hq1 Hsrc1)
    as (p2 & more2 & src2 & Hn2 & Hp2 & Hb2 & Hq2 & Hl2).
  rewrite Hn2.
  assert (Hsrc2 : (List.length src2 <= recursion_limit L)%nat)
    by exact (Nat.le_trans _ _ _ Hl2 Hsrc1).
  (* the sync marker of the header *)
  destruct (next_item L T fuel (fun q => awaiting_sync q (file_fields L f))
              (fun q => between_data_blocks q (file_fields L f) (file_marker f))
              (file_marker f) (file_marker f)
              (fun q more Hq Hb =>
                 sync_complete L T fuel q (file_fields L f) (file_marker f) more Hq Hb Hm)
              (fun q av Hq Hb Hs =>
                 sync_partial L T fuel q (file_fields L f) (file_marker f) av Hq Hb Hm Hs)
              (awaiting_sync_refill (file_fields L f))
              src2 (recursion_limit L) p2 more2 _ Hp2 Hb2 Hq2 Hsrc2)
    as (p3 & more3 & src3 & Hn3 & Hp3 & Hb3 & Hq3 & Hl3).
  rewrite Hn3.
  assert (Hsrc3 : (List.length src3 <= recursion_limit L)%nat)
    by exact (Nat.le_trans _ _ _ Hl3 Hsrc2).
  (* the data blocks *)
  assert (Hsteps' : (List.length (file_blocks f) < steps)%nat) by lia.
  rewrite (run_blocks L T keep HT fuel (file_fields L f) ts Hts Hsup (file_marker f) Hm
             (file_blocks f) steps src3 p3 more3 Hp3 Hb3 Hq3 Hsrc3 Hbl Hsteps').
  unfold transcoded_wire. cbn [concat]. reflexivity.
Qed.

End Stream.

(** ** The two classes as transforms *)

Lemma field_types_named (fs : list json) (ts : list string) :
  field_types fs = Some ts ->
  Forall (fun f => exists n, py_getitem f "name" = Ok (JStr n)) fs.
Proof.
  revert ts. induction fs as [|f fs IH]; intros ts H; [constructor|].
  cbn [field_types] in H.
  destruct (field_type f) as [t|] eqn:Hf; [|discriminate].
  destruct (field_types fs) as [ts'|]; [|discriminate].
  constructor; [|exact (IH ts' eq_refl)].
  destruct (field_type_inv f t Hf) as (n & tms & Hn & _). exists n. exact Hn.
Qed.

Lemma generic_reencode_value (t : string) (v : value) (name : json) :
  value_ok t v = true ->
  generic_reencode_field v (JStr t) name = Ok (value_wire v).
Proof.
  unfold value_ok, generic_reencode_field. cbn [json_is_str].
  destruct v as [n|s]; rewrite andb_true_iff, int64b_true; intros (Ht & Hv).
  - rewrite Ht, (encode_long_varint n Hv). reflexivity.
  - apply String.eqb_eq in Ht. subst t. cbn [String.eqb Ascii.eqb Bool.eqb orb].
    rewrite (encode_long_varint (len s) Hv). reflexivity.
Qed.

(** The base class keeps every field. *)
Lemma follows_generic : follows GenericStreamingAvroParser (fun _ => true).
Proof.
  split.
  - intros fs ts _. cbn [_parse_schema_fields GenericStreamingAvroParser].
    unfold generic_parse_schema_fields. f_equal. f_equal.
    induction fs as [|f fs IH]; [reflexivity|]. cbn [filter]. f_equal. exact IH.
  - intros f t v name _ _ Hv _. exact (generic_reencode_value t v name Hv).
Qed.

(** The stripping class keeps the fields whose name is not in its set. *)
Lemma follows_stripping (tostrip : list string) :
  follows (GenericStrippingAvroParser tostrip) (kept tostrip).
Proof.
  split.
  - intros fs ts Hts. cbn [_parse_schema_fields GenericStrippingAvroParser].
    unfold stripping_parse_schema_fields. cbn [py_iter rbind].
    rewrite (strip_fields_total tostrip fs (field_types_named fs ts Hts)).
    reflexivity.
  - intros f t v name Hf _ Hv Hname.
    cbn [_reencode_field GenericStrippingAvroParser].
    unfold stripping_reencode_field, kept. rewrite Hname.
    destruct (field_type_inv f t Hf) as (n & tms & Hn & _).
    rewrite Hn in Hname. injection Hname as <-.
    cbn [in_set hashable rbind].
    destruct (existsb (String.eqb n) tostrip); cbn [negb]; [reflexivity|].
    exact (generic_reencode_value t v (JStr n) Hv).
Qed.

Lemma filter_all {A} (l : list A) : filter (fun _ => true) l = l.
Proof. induction l as [|x l IH]; [reflexivity|]. cbn [filter]. f_equal. exact IH. Qed.


(** ** Files that the transcoder reproduces *)

Section Canonical.

Variable L : Libs.

Lemma kept_record_all (fs : list json) :
  forall ts r,
    field_types fs = Some ts -> record_ok ts r = true ->
    kept_record (fun _ => true) fs r = record_wire r.
Proof.
  induction fs as [|f fs IH]; intros ts r Hts Hr; cbn [field_types] in Hts.
  - injection Hts as <-. destruct r; [reflexivity|discriminate].
  - destruct (field_type f) as [t|]; [|discriminate].
    destruct (field_types fs) as [ts'|]; [|discriminate].
    injection Hts as <-. destruct r as [|v r]; [discriminate|].
    cbn [record_ok] in Hr. apply andb_true_iff in Hr. destruct Hr as [_ Hr].
    rewrite kept_record_cons, record_wire_cons, (IH ts' r eq_refl Hr). reflexivity.
Qed.

Lemma kept_records_all (fs : list json) (ts : list string) (rs : list (list value)) :
  field_types fs = Some ts -> forallb (record_ok ts) rs = true ->
  concat (map (kept_record (fun _ => true) fs) rs) = records_wire rs.
Proof.
  intros Hts. unfold records_wire.
  induction rs as [|r rs IH]; intros Hrs; [reflexivity|].
  cbn [forallb] in Hrs. apply andb_true_iff in Hrs. destruct Hrs as [Hr Hrs].
  cbn [map concat]. rewrite (kept_record_all fs ts r Hts Hr), (IH Hrs). reflexivity.
Qed.

Lemma out_block_canonical (fs : list json) (ts : list string) (bl : ocf_block) :
  field_types fs = Some ts ->
  block_valid L ts bl = true -> block_canonical L bl = true ->
  out_block L (fun _ => true) fs bl = block_wire bl.
Proof.
  intros Hts Hv Hc.
  destruct (block_valid_inv L ts bl Hv) as (Hrs & Hn & Hp & _ & _).
  unfold block_canonical in Hc. apply andb_true_iff in Hc. destruct Hc as [Hc Hcs].
  apply bytes_eqb_eq in Hc. apply res_is_eq in Hcs.
  unfold out_block, block_wire. cbv zeta.
  rewrite (kept_records_all fs ts _ Hts Hrs), Hc, Hcs.
  rewrite (encode_long_varint _ Hp). reflexivity.
Qed.

Lemma out_entry_canonical (kv : bytes * bytes) :
  entry_valid L kv = true -> entry_canonical L kv = true ->
  out_entry L (fun _ => true) kv = entry_wire kv.
Proof.
  intros Hv Hc. destruct (entry_valid_inv L kv Hv) as (_ & Hlen & Hs).
  unfold out_entry, entry_wire, entry_canonical in *.
  destruct (bytes_eqb (fst kv) (bstr "avro.schema")); [|reflexivity].
  destruct (Hs eq_refl) as (ms & fs & ts & Hj & Hf & _).
  f_equal. unfold out_text. rewrite Hj in Hc |- *. apply bytes_eqb_eq in Hc.
  unfold out_schema. rewrite Hf, filter_all, (members_set_same ms _ _ Hf), Hc.
  unfold lp_enc, lp. rewrite (encode_long_varint _ Hlen). reflexivity.
Qed.

Lemma out_group_canonical (g : list (bytes * bytes)) :
  forallb (entry_valid L) g = true -> forallb (entry_canonical L) g = true ->
  map (out_entry L (fun _ => true)) g = map entry_wire g.
Proof.
  induction g as [|kv g IH]; [reflexivity|]. cbn [forallb map].
  rewrite !andb_true_iff. intros (Hv & Hvs) (Hc & Hcs).
  rewrite (out_entry_canonical kv Hv Hc), (IH Hvs Hcs). reflexivity.
Qed.

Lemma out_metadata_canonical (groups : list (list (bytes * bytes))) :
  forallb (group_valid L) groups = true ->
  forallb (entry_canonical L) (concat groups) = true ->
  out_metadata L (fun _ => true) groups = metadata_wire groups.
Proof.
  unfold out_metadata, metadata_wire. intros Hv Hc. f_equal. f_equal.
  induction groups as [|g groups IH]; [reflexivity|].
  cbn [forallb concat map] in *. rewrite forallb_app in Hc.
  apply andb_true_iff in Hv, Hc. destruct Hv as [Hg Hgs], Hc as [Hc Hcs].
  unfold group_valid in Hg. rewrite !andb_true_iff in Hg.
  destruct Hg as (_ & Hes).
  unfold out_group at 1, group_wire at 1.
  rewrite (out_group_canonical g Hes Hc), (IH Hgs Hcs). reflexivity.
Qed.

(** A valid file whose schema texts are what [json.dumps] writes and whose
    payloads are what [snappy.compress] writes is what the transcoder writes
    for it when every field is kept. *)
Lemma transcoded_canonical (f : ocf_file) :
  ocf_valid L f = true -> ocf_canonical L f = true ->
  transcoded_wire L (fun _ => true) f = ocf_wire f.
Proof.
  intros Hv Hc.
  destruct (ocf_valid_inv L f Hv)
    as (text & ms & ts & Hm & Hg & _ & _ & _ & _ & Hts & _ & Hbl).
  unfold ocf_canonical in Hc. apply andb_true_iff in Hc. destruct Hc as [Hce Hcb].
  unfold transcoded_wire, ocf_wire.
  rewrite (out_metadata_canonical _ Hg Hce). do 4 f_equal.
  induction (file_blocks f) as [|bl bls IH]; [reflexivity|].
  cbn [forallb map] in *. apply andb_true_iff in Hbl, Hcb.
  destruct Hbl as [Hb Hbl], Hcb as [Hc Hcb].
  rewrite (out_block_canonical _ ts bl Hts Hb Hc), (IH Hcb Hbl). reflexivity.
Qed.

End Canonical.


(** * Further properties of the code *)

(** ** The shape of an encoded number *)

Lemma continues_byte_of_Z (z : Z) :
  0 <= z < 256 -> continues (byte_of_Z z) = negb (z <? 128).
Proof. intros Hz. rewrite continues_ord, ord_byte_of_Z by lia. reflexivity. Qed.

Lemma encode_loop_shape (f : nat) :
  forall (z : Z) (acc : bytes),
    0 <= z -> Z.log2 z <= Z.of_nat f ->
    exists bs last,
      encode_loop f z acc = Ok (acc ++ bs ++ [last]) /\
      forallb continues bs = true /\ continues last = false.
Proof.
  induction f as [|f IH]; intros z acc Hz Hf.
  - assert (z < 2) by
      (destruct (Z.eq_dec z 0) as [->|]; [lia|];
       apply Z.log2_lt_pow2 with (b := 1); lia).
    simpl. rewrite land_high_small by lia.
    replace (z <? 128) with true by (symmetry; apply Z.ltb_lt; lia).
    rewrite pack_B_ok by lia. exists [], (byte_of_Z z).
    split; [reflexivity|]. split; [reflexivity|].
    rewrite continues_byte_of_Z by lia.
    replace (z <? 128) with true by (symmetry; apply Z.ltb_lt; lia). reflexivity.
  - cbn [encode_loop]. rewrite land_high_small by lia.
    destruct (Z.ltb_spec z 128) as [Hlt|Hge].
    + rewrite pack_B_ok by lia. exists [], (byte_of_Z z).
      split; [reflexivity|]. split; [reflexivity|].
      rewrite continues_byte_of_Z by lia.
      replace (z <? 128) with true by (symmetry; apply Z.ltb_lt; lia). reflexivity.
    + rewrite lor_128.
      assert (Hm : 0 <= z mod 128 < 128) by (apply Z.mod_pos_bound; lia).
      rewrite pack_B_ok by lia. cbn [rbind].
      destruct (IH (Z.shiftr z 7) (acc ++ [byte_of_Z (z mod 128 + 128)]))
        as (bs & last & E & Hbs & Hlast).
      * apply Z.shiftr_nonneg; lia.
      * rewrite Z.log2_shiftr by lia.
        assert (7 <= Z.log2 z) by (apply Z.log2_le_pow2; simpl; lia). lia.
      * exists (byte_of_Z (z mod 128 + 128) :: bs), last.
        rewrite E, <- app_assoc. split; [reflexivity|]. split; [|exact Hlast].
        cbn [forallb]. rewrite Hbs, continues_byte_of_Z by lia.
        replace (z mod 128 + 128 <? 128) with false
          by (symmetry; apply Z.ltb_ge; lia).
        reflexivity.
Qed.

Lemma base128_length (k : nat) : forall z, len (base128 k z) <= Z.of_nat k.
Proof.
  induction k as [|k IH]; intros z; [cbn; lia|].
  cbn [base128]. destruct (z <? 128).
  - cbn. lia.
  - rewrite len_cons. specialize (IH (z / 128)). lia.
Qed.

(** X1. [_encode_long] returns for every integer, never an empty string; the
    high bit is set in every byte but the last, so the encoding delimits
    itself; and a 64-bit value takes at most ten bytes. *)
Theorem encode_long_self_delimiting (v : Z) :
  exists bs last,
    _encode_long v = Ok (bs ++ [last]) /\
    forallb continues bs = true /\ continues last = false /\
    (int64 v -> len (bs ++ [last]) <= 10).
Proof.
  destruct (encode_loop_shape (Z.to_nat (Z.log2 (zigzag v))) (zigzag v) [])
    as (bs & last & E & Hbs & Hlast).
  - apply zigzag_nonneg.
  - rewrite Z2Nat.id; [lia|apply Z.log2_nonneg].
  - exists bs, last. unfold _encode_long. rewrite E.
    split; [reflexivity|]. split; [exact Hbs|]. split; [exact Hlast|].
    intros Hv. pose proof (encode_long_varint v Hv) as Ev.
    unfold _encode_long in Ev. rewrite E in Ev. injection Ev as Ev.
    cbn [app] in Ev. rewrite Ev. unfold varint.
    exact (base128_length 10 (zigzag_spec v)).
Qed.

Lemma encode_long_self_delimiting_witness :
  exists bs last,
    _encode_long (-300) = Ok (bs ++ [last]) /\
    forallb continues bs = true /\ continues last = false /\
    len (bs ++ [last]) <= 10.
Proof.
  destruct (encode_long_self_delimiting (-300)) as (bs & last & E & Hbs & Hlast & Hlen).
  exists bs, last. split; [exact E|]. split; [exact Hbs|]. split; [exact Hlast|].
  apply Hlen. unfold int64. lia.
Defined.

(** ** What a read depends on *)

Lemma read_long_loop_prefix (rest : bytes) :
  forall blen c ind n shift v used,
    0 <= c < 256 -> ind <= blen <= ind + len rest ->
    read_long_loop rest blen c ind n shift = Ok (v, used) ->
    ind <= used <= blen /\
    forall rest' blen',
      used <= blen' ->
      read_long_loop (firstn (Z.to_nat (used - ind)) rest ++ rest') blen' c ind n shift
      = Ok (v, used).
Proof.
  induction rest as [|x rest IH]; intros blen c ind n shift v used Hc Hb H.
  - change (len (@nil byte)) with 0 in Hb.
    cbn [read_long_loop] in H. destruct (Z.land c 128 =? 0) eqn:Estop.
    + injection H as <- <-. split; [lia|]. intros rest' blen' _.
      apply read_long_loop_stop. exact Estop.
    + replace (blen <=? ind) with true in H by (symmetry; apply Z.leb_le; lia).
      discriminate.
  - rewrite len_cons in Hb. cbn [read_long_loop] in H.
    destruct (Z.land c 128 =? 0) eqn:Estop.
    + injection H as <- <-. split; [lia|]. intros rest' blen' _.
      apply read_long_loop_stop. exact Estop.
    + destruct (Z.leb_spec blen ind) as [Hle|Hgt]; [discriminate|].
      apply IH in H; [|apply ord_range|lia]. destruct H as [Hu Hp].
      split; [lia|]. intros rest' blen' Hb'.
      replace (Z.to_nat (used - ind)) with (S (Z.to_nat (used - (ind + 1)))) by lia.
      cbn [firstn app read_long_loop]. rewrite Estop.
      replace (blen' <=? ind) with false by (symmetry; apply Z.leb_gt; lia).
      apply Hp. exact Hb'.
Qed.

Lemma read_long_reads_one_number_bounds (buffered : bytes) (blen v used : Z) :
  0 <= blen <= len buffered ->
  _read_long buffered blen = Ok (v, used) -> 1 <= used <= blen.
Proof.
  intros Hb H. destruct (read_long_cases buffered blen Hb) as [E|(v' & u' & E & Hu)];
    rewrite E in H; [discriminate|]. injection H as <- <-. exact Hu.
Qed.

(** X2. When [_read_long] returns, it has consumed at least one byte and no more
    than [blen], and its result is determined by the bytes it consumed:
    whatever follows them, and however many more are available, the same
    value and count are returned. *)
Theorem read_long_reads_one_number (buffered : bytes) (blen v used : Z) :
  0 <= blen <= len buffered ->
  _read_long buffered blen = Ok (v, used) ->
  1 <= used <= blen /\
  forall rest blen',
    used <= blen' ->
    _read_long (firstn (Z.to_nat used) buffered ++ rest) blen' = Ok (v, used).
Proof.
  intros Hb H. unfold _read_long in H.
  destruct (Z.eqb_spec blen 0) as [->|Hnz]; [discriminate|].
  destruct buffered as [|x rest]; [discriminate|]. rewrite len_cons in Hb.
  apply read_long_loop_prefix in H; [|apply ord_range|lia].
  destruct H as [Hu Hp]. split; [exact Hu|]. intros rest' blen' Hb'.
  replace (Z.to_nat used) with (S (Z.to_nat (used - 1))) by lia.
  cbn [firstn app]. unfold _read_long.
  replace (blen' =? 0) with false by (symmetry; apply Z.eqb_neq; lia).
  apply Hp. exact Hb'.
Qed.

Lemma read_long_reads_one_number_witness :
  1 <= 2 <= 4 /\
  _read_long (firstn (Z.to_nat 2) (varint 300 ++ bstr "hi") ++ bstr "other") 7
    = Ok (300, 2).
Proof.
  assert (Hb : 0 <= 4 <= len (varint 300 ++ bstr "hi")) by (vm_compute; split; discriminate).
  assert (H : _read_long (varint 300 ++ bstr "hi") 4 = Ok (300, 2)) by reflexivity.
  destruct (read_long_reads_one_number _ 4 300 2 Hb H) as [Hu Hp].
  split; [exact Hu|]. apply Hp. lia.
Defined.

(** ** Length-prefixed strings *)

(** X3. What [_reencode_field] of the base class writes for a string value,
    [_read_bytes] reads back: it returns the string and the number of bytes
    written, whatever follows them in the buffer, and it asks for more data
    when only a proper prefix of them is there. *)
Theorem read_bytes_round_trip (s : bytes) (name : json) :
  int64 (len s) ->
  exists wire,
    generic_reencode_field (VBytes s) (JStr "string") name = Ok wire /\
    (forall more,
        _read_bytes (wire ++ more) (len (wire ++ more)) = Ok (s, len wire)) /\
    (forall avail,
        short_of avail wire ->
        _read_bytes avail (len avail) = Raise AvroInsufficientDataException).
Proof.
  intros Hs. exists (lp s). split.
  - apply (generic_reencode_value "string" (VBytes s) name).
    cbn [value_ok]. apply andb_true_iff. split; [reflexivity|].
    apply int64b_true. exact Hs.
  - split.
    + intros more. exact (read_bytes_token s more Hs).
    + intros avail Hshort. exact (read_bytes_short s avail Hs Hshort).
Qed.

Lemma read_bytes_round_trip_witness :
  exists wire,
    generic_reencode_field (VBytes (bstr "hi")) (JStr "string") (JStr "b") = Ok wire /\
    _read_bytes (wire ++ bstr "next") (len (wire ++ bstr "next"))
      = Ok (bstr "hi", len wire).
Proof.
  assert (H : int64 (len (bstr "hi")))
    by (vm_compute; split; [discriminate|reflexivity]).
  destruct (read_bytes_round_trip (bstr "hi") (JStr "b") H) as (wire & E & R & _).
  exists wire. split; [exact E|]. exact (R (bstr "next")).
Defined.

(** X4. With a length prefix that is not negative, [_read_bytes] returns a
    string of that length that lies within the [blen] bytes available, right
    after the prefix, and the count of the prefix and the string together. *)
Theorem read_bytes_within_bounds (buffered : bytes) (blen slen bused : Z)
  (s : bytes) (used : Z) :
  0 <= blen <= len buffered ->
  _read_long buffered blen = Ok (slen, bused) ->
  0 <= slen ->
  _read_bytes buffered blen = Ok (s, used) ->
  used = bused + slen /\ used <= blen /\ len s = slen /\
  s = firstn (Z.to_nat slen) (skipn (Z.to_nat bused) buffered).
Proof.
  intros Hb Hl Hs H.
  destruct (read_long_reads_one_number_bounds buffered blen slen bused Hb Hl) as [H1 H2].
  unfold _read_bytes in H. rewrite Hl in H. cbn [rbind] in H.
  destruct (Z.ltb_spec blen (slen + bused)) as [|Hfit]; [discriminate|].
  injection H as <- <-.
  rewrite py_slice_in_range by lia.
  replace (bused + slen - bused) with slen by lia.
  split; [lia|]. split; [lia|]. split; [|reflexivity].
  unfold len. rewrite length_firstn, length_skipn.
  unfold len in Hb. lia.
Qed.

Lemma read_bytes_within_bounds_witness :
  3 = 1 + 2 /\ 3 <= 5 /\ len (bstr "hi") = 2 /\
  bstr "hi" = firstn (Z.to_nat 2) (skipn (Z.to_nat 1) (lp (bstr "hi") ++ bstr "xy")).
Proof.
  assert (Hb : 0 <= 5 <= len (lp (bstr "hi") ++ bstr "xy"))
    by (vm_compute; split; discriminate).
  assert (H0 : 0 <= 2) by lia.
  exact (read_bytes_within_bounds (lp (bstr "hi") ++ bstr "xy") 5 2 1 (bstr "hi") 3
           Hb eq_refl H0 eq_refl).
Defined.

(** ** Records *)

(** X5. A record that conforms to the schema is read back by
    [_parse_single_record] from its encoding, whatever follows it: the base
    class re-encodes it to the same bytes, the stripping class to the
    encodings of the values of the fields it keeps, and both consume exactly
    the encoding of the record. *)
Theorem record_round_trip (fs : list json) (ts : list string) (sch : pydict)
  (r : list value) (rest : bytes) (tostrip : list string) :
  field_types fs = Some ts -> forallb supported_type ts = true ->
  dict_getitem sch "fields" = Ok (JArr fs) ->
  record_ok ts r = true ->
  _parse_single_record GenericStreamingAvroParser sch (record_wire r ++ rest)
    = Ok (record_wire r, len (record_wire r)) /\
  _parse_single_record (GenericStrippingAvroParser tostrip) sch
                       (record_wire r ++ rest)
    = Ok (kept_record (kept tostrip) fs r, len (record_wire r)).
Proof.
  intros Hfs Hsup Hsch Hr. split.
  - rewrite (parse_single_record_valid GenericStreamingAvroParser (fun _ => true)
               follows_generic fs ts Hfs Hsup sch r rest Hsch Hr).
    rewrite (kept_record_all fs ts r Hfs Hr). reflexivity.
  - exact (parse_single_record_valid (GenericStrippingAvroParser tostrip)
             (kept tostrip) (follows_stripping tostrip) fs ts Hfs Hsup sch r rest
             Hsch Hr).
Qed.

Lemma record_round_trip_witness :
  _parse_single_record GenericStreamingAvroParser
      [(JStr "fields", JArr [long_field "a"; string_field "b"])]
      (record_wire [VLong 5; VBytes (bstr "hi")] ++ bstr "rest")
    = Ok (record_wire [VLong 5; VBytes (bstr "hi")],
          len (record_wire [VLong 5; VBytes (bstr "hi")])) /\
  _parse_single_record (GenericStrippingAvroParser ["a"])
      [(JStr "fields", JArr [long_field "a"; string_field "b"])]
      (record_wire [VLong 5; VBytes (bstr "hi")] ++ bstr "rest")
    = Ok (kept_record (kept ["a"]) [long_field "a"; string_field "b"]
            [VLong 5; VBytes (bstr "hi")],
          len (record_wire [VLong 5; VBytes (bstr "hi")])).
Proof.
  exact (record_round_trip [long_field "a"; string_field "b"] ["long"; "string"]
           [(JStr "fields", JArr [long_field "a"; string_field "b"])]
           [VLong 5; VBytes (bstr "hi")] (bstr "rest") ["a"]
           eq_refl eq_refl eq_refl eq_refl).
Defined.

(** ** The header magic and the sync marker *)

(** X6. [_parse_header_magic] looks at the buffer only once four bytes are
    there: with fewer it asks for more data, even if what is there already
    differs from the magic; with the magic in front it returns it, removes it
    from the buffer and moves to the metadata; with four other bytes it
    raises the invalid-magic failure and leaves the buffer as it is. *)
Theorem header_magic_checked (p : parser) (bufd : bytes) :
  buffer_is p bufd ->
  (len bufd < 4 ->
   _parse_header_magic p = (Raise AvroInsufficientDataException, set_bused 0 p)) /\
  (forall more,
      bufd = header_magic ++ more ->
      exists p',
        _parse_header_magic p = (Ok header_magic, p') /\
        buffer_is p' more /\ state p' = AVRO_HEADER_FILE_METADATA) /\
  (4 <= len bufd -> firstn 4 bufd <> header_magic ->
   _parse_header_magic p
     = (Raise (AvroParsingFailureException InvalidHeaderMagic), set_bused 0 p)).
Proof.
  intros (Hb & Hl). split; [|split].
  - intros Hshort. unfold _parse_header_magic, mbind, modify. msimpl.
    rewrite Hl. replace (len bufd - 0 <? 4) with true
      by (symmetry; apply Z.ltb_lt; lia).
    reflexivity.
  - intros more ->. unfold _parse_header_magic, mbind, modify. msimpl.
    rewrite Hl, Hb, len_app. pose proof (len_nonneg more).
    change (len header_magic) with 4.
    replace (4 + len more - 0 <? 4) with false by (symmetry; apply Z.ltb_ge; lia).
    assert (E1 : py_slice (header_magic ++ more) 0 (4 + 0) = header_magic)
      by exact (py_slice_token [] header_magic more).
    assert (E2 : py_slice_from (header_magic ++ more) (0 + 4) = more)
      by exact (py_slice_from_token header_magic more).
    assert (E3 : py_slice (header_magic ++ more) 0 (0 + 4) = header_magic)
      by exact (py_slice_token [] header_magic more).
    rewrite E1, E2, E3.
    rewrite bytes_eqb_refl. cbn [negb].
    eexists. split; [reflexivity|]. split; [|reflexivity].
    split; msimpl; [reflexivity|lia].
  - intros Hlong Hne. unfold _parse_header_magic, mbind, modify. msimpl.
    rewrite Hl, Hb.
    replace (len bufd - 0 <? 4) with false by (symmetry; apply Z.ltb_ge; lia).
    rewrite py_slice_in_range by lia.
    change (Z.to_nat (4 + 0 - 0)) with 4%nat. change (Z.to_nat 0) with 0%nat.
    cbn [skipn].
    apply bytes_eqb_neq in Hne. rewrite Hne. reflexivity.
Qed.

Lemma header_magic_checked_witness :
  _parse_header_magic (init (bstr "Xb"))
    = (Raise AvroInsufficientDataException, set_bused 0 (init (bstr "Xb"))) /\
  _parse_header_magic (init (bstr "Xbj1"))
    = (Raise (AvroParsingFailureException InvalidHeaderMagic),
       set_bused 0 (init (bstr "Xbj1"))).
Proof.
  destruct (header_magic_checked (init (bstr "Xb")) (bstr "Xb") (conj eq_refl eq_refl))
    as (H1 & _ & _).
  destruct (header_magic_checked (init (bstr "Xbj1")) (bstr "Xbj1")
              (conj eq_refl eq_refl)) as (_ & _ & H3).
  split.
  - apply H1. vm_compute. reflexivity.
  - apply H3; [vm_compute; discriminate|vm_compute; discriminate].
Defined.

(** X7. [_parse_sync_marker] asks for more data while fewer than sixteen bytes
    are buffered and changes nothing then; with sixteen bytes that are the
    first marker, or the marker captured before, it returns them, removes
    exactly these from the buffer, and moves to the data blocks. *)
Theorem sync_marker_consumes (p : parser) (bufd : bytes) :
  buffer_is p bufd ->
  (len bufd < 16 ->
   _parse_sync_marker p = (Raise AvroInsufficientDataException, p)) /\
  (forall m more,
      bufd = m ++ more -> len m = 16 ->
      syncmarker p = None \/ syncmarker p = Some m ->
      exists p',
        _parse_sync_marker p = (Ok m, p') /\ buffer_is p' more /\
        state p' = AVRO_START_DATABLOCK /\ syncmarker p' = Some m).
Proof.
  intros (Hb & Hl). split.
  - intros Hshort. unfold _parse_sync_marker. rewrite Hl.
    replace (len bufd <? 16) with true by (symmetry; apply Z.ltb_lt; lia).
    reflexivity.
  - intros m more -> Hm Hsm. unfold _parse_sync_marker.
    rewrite Hl, Hb, len_app. pose proof (len_nonneg more).
    replace (len m + len more <? 16) with false by (symmetry; apply Z.ltb_ge; lia).
    assert (Hto : py_slice_to (m ++ more) 16 = m)
      by (rewrite <- Hm; apply py_slice_to_token).
    assert (Hfrom : py_slice_from (m ++ more) 16 = more)
      by (rewrite <- Hm; apply py_slice_from_token).
    destruct Hsm as [Hsm|Hsm]; rewrite Hsm.
    + msimpl. rewrite Hb, Hl, Hto, Hfrom. eexists. split; [reflexivity|].
      msimpl. split; [|split; reflexivity].
      split; msimpl; [reflexivity|rewrite len_app; lia].
    + rewrite Hto, bytes_eqb_refl. cbn [negb]. rewrite Hfrom.
      eexists. split; [reflexivity|]. msimpl. split; [|split; [reflexivity|exact Hsm]].
      split; msimpl; [reflexivity|rewrite ?Hl, ?len_app; lia].
Qed.

Lemma sync_marker_consumes_witness :
  _parse_sync_marker (after_metadata (bstr "0123"))
    = (Raise AvroInsufficientDataException, after_metadata (bstr "0123")) /\
  exists p',
    _parse_sync_marker (between_blocks (marker_M ++ bstr "tail")) = (Ok marker_M, p') /\
    buffer_is p' (bstr "tail") /\
    state p' = AVRO_START_DATABLOCK /\ syncmarker p' = Some marker_M.
Proof.
  split.
  - apply (proj1 (sync_marker_consumes (after_metadata (bstr "0123")) (bstr "0123")
                    (conj eq_refl eq_refl))).
    vm_compute. reflexivity.
  - apply (proj2 (sync_marker_consumes (between_blocks (marker_M ++ bstr "tail"))
                    (marker_M ++ bstr "tail") (conj eq_refl eq_refl))
             marker_M (bstr "tail") eq_refl eq_refl (or_intror eq_refl)).
Defined.

(** ** Steps that ask for more data *)

Section Steps.

Variable L : Libs.
Variable T : Transform.
Variable fuel : nat.

(** The part of the parser that a refill and a retry rely on. *)
Lemma header_magic_raise (p : parser) (e : exn) :
  fst (_parse_header_magic p) = Raise e ->
  snd (_parse_header_magic p) = set_bused 0 p.
Proof.
  unfold _parse_header_magic, mbind, modify. msimpl.
  destruct (blen p - 0 <? 4); [reflexivity|].
  destruct (negb _); [reflexivity|]. cbn [fst]. discriminate.
Qed.

Lemma sync_marker_raise (p : parser) (e : exn) :
  fst (_parse_sync_marker p) = Raise e -> snd (_parse_sync_marker p) = p.
Proof.
  unfold _parse_sync_marker.
  destruct (blen p <? 16); [reflexivity|].
  destruct (syncmarker p) as [m|]; [|cbn [fst]; discriminate].
  destruct (negb _); [reflexivity|]. cbn [fst]. discriminate.
Qed.

Lemma sync_marker_enough (p : parser) :
  16 <= blen p -> fst (_parse_sync_marker p) <> Raise AvroInsufficientDataException.
Proof.
  intros H. unfold _parse_sync_marker.
  replace (blen p <? 16) with false by (symmetry; apply Z.ltb_ge; lia).
  destruct (syncmarker p) as [m|]; [|cbn [fst]; discriminate].
  destruct (negb _); cbn [fst]; discriminate.
Qed.

Lemma block_body_leaves_marker (p p1 : parser) :
  data_block_body L T p = (Ok tt, p1) -> 16 <= blen p1.
Proof.
  intros H. destruct (data_block_body_inv L T p p1 H)
    as (oc & bs & u & u2 & inf & re & lenb & crc & _ & _ & Hfit & _ & _ & _ & _ & _ & ->).
  cbn [after_block_body blen]. lia.
Qed.

Lemma parse_data_block_ok_body (p p1 : parser) :
  data_block_body L T p = (Ok tt, p1) ->
  _parse_data_block L T p =
    match _parse_sync_marker p1 with
    | (Ok m, p2) => (Ok (saved p1 ++ m), set_saved (saved p1 ++ m) p2)
    | (Raise e, p2) => (Raise e, p2)
    end.
Proof.
  intros H. unfold _parse_data_block, mbind at 1. rewrite H.
  unfold mbind at 1, get at 1. unfold mbind at 1.
  destruct (_parse_sync_marker p1) as [[m|e] p2]; reflexivity.
Qed.

Lemma step_insufficient_frame (p : parser) :
  fst (_parse_next_item L T fuel p) = Raise AvroInsufficientDataException ->
  buffered (snd (_parse_next_item L T fuel p)) = buffered p /\
  blen (snd (_parse_next_item L T fuel p)) = blen p /\
  state (snd (_parse_next_item L T fuel p)) = state p /\
  syncmarker (snd (_parse_next_item L T fuel p)) = syncmarker p.
Proof.
  unfold _parse_next_item.
  destruct (state p =? AVRO_HEADER_MAGIC).
  { intros H. rewrite (header_magic_raise p _ H). auto. }
  destruct (state p =? AVRO_HEADER_FILE_METADATA).
  { intros H. rewrite (metadata_raise_buffered L T fuel p _ H),
      (metadata_raise_blen L T fuel p _ H), (metadata_raise_state L T fuel p _ H),
      (keeps_marker_metadata L T fuel p). auto. }
  destruct (state p =? AVRO_SYNC_MARKER).
  { intros H. rewrite (sync_marker_raise p _ H). auto. }
  destruct (state p =? AVRO_START_DATABLOCK); [|cbn [fst]; discriminate].
  intros H. destruct (data_block_body L T p) as [[[]|e] p1] eqn:Hbody.
  - exfalso. rewrite (parse_data_block_ok_body p p1 Hbody) in H.
    pose proof (sync_marker_enough p1 (block_body_leaves_marker p p1 Hbody)) as Hne.
    destruct (_parse_sync_marker p1) as [[m|e] p2]; cbn [fst] in *;
      [discriminate|congruence].
  - assert (Hfail : fst (data_block_body L T p) = Raise e) by (rewrite Hbody; reflexivity).
    rewrite (parse_data_block_raise L T p e Hfail).
    cbn [snd].
    rewrite (block_body_raise_buffered L T p e Hfail),
      (block_body_raise_blen L T p e Hfail),
      (keeps_state_block_body L T p), (keeps_marker_block_body L T p). auto.
Qed.

(** X8. Whenever a step asks for more data, whatever the state of the parser and
    whatever is buffered, it has not touched the buffer, its recorded
    length, the phase or the sync marker: the retry after the refill starts
    from everything received so far. *)
Theorem insufficient_data_keeps_input (p : parser) :
  fst (_parse_next_item L T fuel p) = Raise AvroInsufficientDataException ->
  buffered (snd (_parse_next_item L T fuel p)) = buffered p /\
  blen (snd (_parse_next_item L T fuel p)) = blen p /\
  state (snd (_parse_next_item L T fuel p)) = state p /\
  syncmarker (snd (_parse_next_item L T fuel p)) = syncmarker p.
Proof. exact (step_insufficient_frame p). Qed.

Lemma bind_ok {A B} (m : M A) (k : A -> M B) (p p' : parser) (b : B) :
  mbind m k p = (Ok b, p') ->
  exists a p1, m p = (Ok a, p1) /\ k a p1 = (Ok b, p').
Proof.
  unfold mbind. destruct (m p) as [[a|e] p1]; [|discriminate].
  intros H. exists a, p1. auto.
Qed.

Lemma metadata_ok_state (p p' : parser) (out : bytes) :
  _parse_file_metadata L T fuel p = (Ok out, p') -> state p' = AVRO_SYNC_MARKER.
Proof.
  unfold _parse_file_metadata. intros H.
  do 2 (apply bind_ok in H; destruct H as (? & ? & _ & H)).
  apply bind_ok in H. destruct H as ([bc used] & ? & _ & H).
  do 5 (apply bind_ok in H; destruct H as (? & ? & _ & H)).
  apply bind_ok in H. destruct H as (? & p8 & Hset & H).
  unfold modify in Hset. injection Hset as _ <-.
  unfold get in H. injection H as _ <-. reflexivity.
Qed.

Lemma sync_marker_ok_state (p p' : parser) (m : bytes) :
  _parse_sync_marker p = (Ok m, p') -> state p' = AVRO_START_DATABLOCK.
Proof.
  unfold _parse_sync_marker. destruct (blen p <? 16); [discriminate|].
  destruct (syncmarker p) as [m0|].
  - destruct (negb _); [discriminate|]. intros H. injection H as _ <-. reflexivity.
  - intros H. injection H as _ <-. reflexivity.
Qed.

(** X10. The phases follow one another and never go back: a step that returns
    was taken in one of the four phases and leaves the parser in the next
    one, the data-block phase being its own successor; a step that raises,
    whatever it raises, leaves the phase as it was. *)
Theorem state_machine_advances (p : parser) :
  match fst (_parse_next_item L T fuel p) with
  | Ok _ =>
      AVRO_HEADER_MAGIC <= state p <= AVRO_START_DATABLOCK /\
      state (snd (_parse_next_item L T fuel p))
        = Z.min (state p + 1) AVRO_START_DATABLOCK
  | Raise _ => state (snd (_parse_next_item L T fuel p)) = state p
  end.
Proof.
  unfold _parse_next_item.
  destruct (Z.eqb_spec (state p) AVRO_HEADER_MAGIC) as [E|_].
  { destruct (_parse_header_magic p) as [[m|e] p1] eqn:H; cbn [fst snd].
    - rewrite E. split; [vm_compute; split; discriminate|].
      unfold _parse_header_magic, mbind, modify in H. msimpl.
      destruct (blen p - 0 <? 4); [discriminate|].
      destruct (negb _); [discriminate|]. injection H as _ <-. reflexivity.
    - pose proof (header_magic_raise p e) as Hr. rewrite H in Hr.
      cbn [fst snd] in Hr. rewrite (Hr eq_refl). reflexivity. }
  destruct (Z.eqb_spec (state p) AVRO_HEADER_FILE_METADATA) as [E|_].
  { destruct (_parse_file_metadata L T fuel p) as [[m|e] p1] eqn:H; cbn [fst snd].
    - rewrite E, (metadata_ok_state p p1 m H).
      split; [vm_compute; split; discriminate|reflexivity].
    - pose proof (metadata_raise_state L T fuel p e) as Hr. rewrite H in Hr.
      exact (Hr eq_refl). }
  destruct (Z.eqb_spec (state p) AVRO_SYNC_MARKER) as [E|_].
  { destruct (_parse_sync_marker p) as [[m|e] p1] eqn:H; cbn [fst snd].
    - rewrite E, (sync_marker_ok_state p p1 m H).
      split; [vm_compute; split; discriminate|reflexivity].
    - pose proof (sync_marker_raise p e) as Hr. rewrite H in Hr.
      cbn [fst snd] in Hr. rewrite (Hr eq_refl). reflexivity. }
  destruct (Z.eqb_spec (state p) AVRO_START_DATABLOCK) as [E|_];
    [|cbn [fst snd]; reflexivity].
  destruct (data_block_body L T p) as [[[]|e] p1] eqn:Hbody.
  - rewrite (parse_data_block_ok_body p p1 Hbody).
    pose proof (keeps_state_block_body L T p) as Hk. rewrite Hbody in Hk.
    cbn [snd] in Hk.
    destruct (_parse_sync_marker p1) as [[m|e] p2] eqn:H; cbn [fst snd].
    + rewrite E. msimpl. rewrite (sync_marker_ok_state p1 p2 m H).
      split; [vm_compute; split; discriminate|reflexivity].
    + pose proof (sync_marker_raise p1 e) as Hr. rewrite H in Hr.
      cbn [fst snd] in Hr. rewrite (Hr eq_refl). exact Hk.
  - assert (Hfail : fst (data_block_body L T p) = Raise e) by (rewrite Hbody; reflexivity).
    rewrite (parse_data_block_raise L T p e Hfail). cbn [fst snd].
    apply (keeps_state_block_body L T p).
Qed.

End Steps.

Lemma insufficient_data_keeps_input_witness :
  buffered (snd (_parse_next_item demo GenericStreamingAvroParser 1
                   (between_blocks (firstn 20 block_then_marker))))
    = firstn 20 block_then_marker /\
  blen (snd (_parse_next_item demo GenericStreamingAvroParser 1
               (between_blocks (firstn 20 block_then_marker)))) = 20.
Proof.
  destruct (insufficient_data_keeps_input demo GenericStreamingAvroParser 1
              (between_blocks (firstn 20 block_then_marker)) eq_refl)
    as (H1 & H2 & _).
  split; [exact H1|exact H2].
Defined.

(** ** The metadata, entry by entry *)

Lemma out_entries_copied (keep : json -> bool) (L : Libs) (g : list (bytes * bytes)) :
  forallb (fun kv => negb (bytes_eqb (fst kv) (bstr "avro.schema"))) g = true ->
  map (out_entry L keep) g = map entry_wire g.
Proof.
  induction g as [|kv g IH]; [reflexivity|]. cbn [forallb map].
  rewrite andb_true_iff, negb_true_iff. intros (Hk & Hg).
  rewrite (IH Hg). f_equal. unfold out_entry, entry_wire. rewrite Hk. reflexivity.
Qed.

Lemma out_metadata_copied (keep : json -> bool) (L : Libs)
  (groups : list (list (bytes * bytes))) :
  forallb (fun kv => negb (bytes_eqb (fst kv) (bstr "avro.schema")))
          (concat groups) = true ->
  out_metadata L keep groups = metadata_wire groups.
Proof.
  unfold out_metadata, metadata_wire. intros H. f_equal. f_equal.
  induction groups as [|g groups IH]; [reflexivity|].
  cbn [concat map] in *. rewrite forallb_app in H.
  apply andb_true_iff in H. destruct H as [Hg Hgs].
  unfold out_group at 1, group_wire at 1.
  rewrite (out_entries_copied keep L g Hg), (IH Hgs). reflexivity.
Qed.

Lemma after_entries_no_schema (L : Libs) (es : list (bytes * bytes)) :
  forallb (fun kv => negb (bytes_eqb (fst kv) (bstr "avro.schema"))) es = true ->
  forall sch cod, fst (after_entries L es (sch, cod)) = sch.
Proof.
  intros H sch cod. rewrite after_entries_schema.
  assert (E : meta_find es (bstr "avro.schema") None = None).
  { induction es as [|[k v] es IH]; [reflexivity|].
    cbn [forallb fst] in H. apply andb_true_iff in H. destruct H as [Hk Hes].
    apply negb_true_iff in Hk. cbn [meta_find]. rewrite Hk. exact (IH Hes). }
  rewrite E. reflexivity.
Qed.

(** X11. From a metadata of well-formed groups, of either class, the metadata step
    returns the entries in their order, with the value of every
    ["avro.schema"] entry replaced by the serialisation of its parse after
    the schema hook, and every other entry byte for byte; it leaves in
    [codec] the value of the last ["avro.codec"] entry, and removes exactly
    the metadata from the buffer. Without an ["avro.schema"] entry the output
    is the input and the schema attribute stays as it was. *)
Theorem metadata_entry_by_entry (L : Libs) (T : Transform) (keep : json -> bool)
  (fuel : nat) (p : parser) (groups : list (list (bytes * bytes))) (more : bytes) :
  (T = GenericStreamingAvroParser /\ keep = (fun _ => true)) \/
  (exists tostrip, T = GenericStrippingAvroParser tostrip /\ keep = kept tostrip) ->
  awaiting_metadata p -> buffer_is p (metadata_wire groups ++ more) ->
  forallb (group_valid L) groups = true ->
  (List.length groups <= fuel)%nat ->
  exists p',
    _parse_file_metadata L T fuel p = (Ok (out_metadata L keep groups), p') /\
    buffer_is p' more /\
    codec p' = meta_find (concat groups) (bstr "avro.codec") (codec p) /\
    (forallb (fun kv => negb (bytes_eqb (fst kv) (bstr "avro.schema")))
             (concat groups) = true ->
     out_metadata L keep groups = metadata_wire groups /\ schema p' = schema p).
Proof.
  intros HT Hpre Hbuf Hv Hfuel.
  assert (Hfollows : follows T keep).
  { destruct HT as [[-> ->]|(tostrip & -> & ->)];
      [exact follows_generic|exact (follows_stripping tostrip)]. }
  destruct (metadata_complete L T keep Hfollows fuel p groups more Hpre Hbuf Hv Hfuel)
    as (p' & Hstep & Hbuf' & _ & _ & Hsch & Hcod).
  assert (Hitem : _parse_next_item L T fuel p = _parse_file_metadata L T fuel p).
  { unfold _parse_next_item. destruct Hpre as [-> _]. reflexivity. }
  rewrite Hitem in Hstep. exists p'. split; [exact Hstep|]. split; [exact Hbuf'|].
  split; [rewrite Hcod; apply after_entries_codec|].
  intros Hno. split; [exact (out_metadata_copied keep L groups Hno)|].
  rewrite Hsch. apply after_entries_no_schema. exact Hno.
Qed.

Lemma metadata_entry_by_entry_witness :
  exists p',
    _parse_file_metadata demo (GenericStrippingAvroParser ["b"]) 1
        (mkParser (metadata_wire (file_meta scenario_compact) ++ marker_M)
           (len (metadata_wire (file_meta scenario_compact) ++ marker_M)) 0 [] None
           AVRO_HEADER_FILE_METADATA None [])
      = (Ok (out_metadata demo (kept ["b"]) (file_meta scenario_compact)), p') /\
    buffer_is p' marker_M /\
    codec p' = Some (bstr "snappy").
Proof.
  destruct (metadata_entry_by_entry demo (GenericStrippingAvroParser ["b"]) (kept ["b"]) 1
              (mkParser (metadata_wire (file_meta scenario_compact) ++ marker_M)
                 (len (metadata_wire (file_meta scenario_compact) ++ marker_M)) 0 [] None
                 AVRO_HEADER_FILE_METADATA None [])
              (file_meta scenario_compact) marker_M
              (or_intror (ex_intro _ ["b"] (conj eq_refl eq_refl)))
              (conj eq_refl eq_refl) (conj eq_refl eq_refl) eq_refl)
    as (p' & H1 & H2 & H3 & _).
  - simpl. lia.
  - exists p'. split; [exact H1|]. split; [exact H2|]. exact H3.
Defined.

(** ** The set of names to strip *)

Lemma in_set_same (A B : list string) (x : json) :
  (forall n, In n A <-> In n B) -> in_set x A = in_set x B.
Proof.
  intros H. unfold in_set. destruct (hashable x); [|reflexivity].
  destruct x; try reflexivity. f_equal.
  apply eq_true_iff_eq. rewrite !existsb_exists.
  split; intros (y & Hy & E); exists y; (split; [apply H; exact Hy|exact E]).
Qed.

Lemma strip_fields_same (A B : list string) (fs : list json) :
  (forall n, In n A <-> In n B) ->
  forall acc, strip_fields A fs acc = strip_fields B fs acc.
Proof.
  intros H. induction fs as [|f fs IH]; intros acc; [reflexivity|].
  cbn [strip_fields]. destruct (py_getitem f "name") as [name|]; [|reflexivity].
  cbn [rbind]. rewrite (in_set_same A B name H).
  destruct (in_set name B) as [[|]|]; cbn [rbind]; [apply IH|apply IH|reflexivity].
Qed.

(** X12. [tostrip] is used as a set: two lists with the same names, in any order
    and with any repetitions, give the same schema hook and the same field
    hook. *)
Theorem strip_list_is_a_set (A B : list string) :
  (forall n, In n A <-> In n B) ->
  (forall fields,
      _parse_schema_fields (GenericStrippingAvroParser A) fields
      = _parse_schema_fields (GenericStrippingAvroParser B) fields) /\
  (forall v t name,
      _reencode_field (GenericStrippingAvroParser A) v t name
      = _reencode_field (GenericStrippingAvroParser B) v t name).
Proof.
  intros H. split.
  - intros fields. cbn [_parse_schema_fields GenericStrippingAvroParser].
    unfold stripping_parse_schema_fields.
    destruct (py_iter fields) as [fs|]; [|reflexivity]. cbn [rbind].
    rewrite (strip_fields_same A B fs H []). reflexivity.
  - intros v t name. cbn [_reencode_field GenericStrippingAvroParser].
    unfold stripping_reencode_field. rewrite (in_set_same A B name H). reflexivity.
Qed.

Lemma strip_list_is_a_set_witness :
  _parse_schema_fields (GenericStrippingAvroParser ["a"; "b"; "a"])
      (JArr [long_field "a"; string_field "b"; long_field "c"])
  = _parse_schema_fields (GenericStrippingAvroParser ["b"; "a"])
      (JArr [long_field "a"; string_field "b"; long_field "c"]).
Proof.
  apply (proj1 (strip_list_is_a_set ["a"; "b"; "a"] ["b"; "a"]
                  ltac:(intros n; simpl; tauto))).
Defined.

Lemma kept_app (A B : list string) (f : json) :
  kept (A ++ B) f = kept A f && kept B f.
Proof.
  unfold kept. destruct (py_getitem f "name") as [name|]; [|reflexivity].
  unfold in_set. destruct (hashable name); [|reflexivity].
  destruct name; try reflexivity.
  rewrite existsb_app, negb_orb. reflexivity.
Qed.

Lemma strip_fields_any (A : list string) (fs : list json) :
  forall acc r,
    strip_fields A fs acc = Ok r ->
    forall B acc', strip_fields B fs acc' = Ok (acc' ++ filter (kept B) fs).
Proof.
  induction fs as [|f fs IH]; intros acc r H B acc'.
  - cbn. rewrite app_nil_r. reflexivity.
  - cbn [strip_fields filter] in *. unfold kept at 1.
    destruct (py_getitem f "name") as [name|]; [|discriminate]. cbn [rbind] in *.
    unfold in_set in *. destruct (hashable name); [|discriminate]. cbn [rbind] in *.
    assert (IH' : forall acc', strip_fields B fs acc' = Ok (acc' ++ filter (kept B) fs)).
    { match type of H with
      | (if ?c then _ else _) = _ => destruct c
      end; intros a; exact (IH _ _ H B a). }
    match goal with
    | |- (if ?c then _ else _) = _ => destruct c
    end; cbn [negb]; rewrite IH'; [reflexivity|].
    rewrite <- app_assoc. reflexivity.
Qed.

Lemma strip_fields_kept_all (A : list string) (fs : list json) :
  forall acc r,
    strip_fields A fs acc = Ok r ->
    forall B, strip_fields B (filter (kept A) fs) [] = Ok (filter (kept B) (filter (kept A) fs)).
Proof.
  induction fs as [|f fs IH]; intros acc r H B; [reflexivity|].
  cbn [strip_fields] in H. cbn [filter].
  destruct (py_getitem f "name") as [name|] eqn:Hn; [|discriminate].
  cbn [rbind] in H. destruct (in_set name A) as [[|]|] eqn:HA; [| |discriminate];
    cbn [rbind negb] in H.
  - assert (Hk : kept A f = false) by (unfold kept; rewrite Hn, HA; reflexivity).
    rewrite Hk. exact (IH _ _ H B).
  - assert (Hk : kept A f = true) by (unfold kept; rewrite Hn, HA; reflexivity).
    rewrite Hk. pose proof (IH _ _ H B) as E.
    apply strip_fields_any with (B := B) (acc' := [f]) in E.
    cbn [strip_fields filter]. rewrite Hn. cbn [rbind].
    destruct (in_set name B) as [[|]|] eqn:HB; cbn [rbind].
    + assert (HkB : kept B f = false) by (unfold kept; rewrite Hn, HB; reflexivity).
      rewrite HkB. exact (IH _ _ H B).
    + assert (HkB : kept B f = true) by (unfold kept; rewrite Hn, HB; reflexivity).
      rewrite HkB. exact E.
    + unfold in_set in HA, HB. destruct (hashable name); discriminate.
Qed.

(** X13. Stripping composes: when the hook with the set [A] returns, running the
    hook with the set [B] on its result gives what the hook with both sets
    gives on the original fields, and a field is kept by both sets together
    exactly when it is kept by each. *)
Theorem stripping_composes (A B : list string) (fields out : json) :
  _parse_schema_fields (GenericStrippingAvroParser A) fields = Ok out ->
  _parse_schema_fields (GenericStrippingAvroParser B) out
    = _parse_schema_fields (GenericStrippingAvroParser (A ++ B)) fields /\
  (forall f, kept (A ++ B) f = kept A f && kept B f).
Proof.
  intros H. split; [|intros f; apply kept_app].
  cbn [_parse_schema_fields GenericStrippingAvroParser] in *.
  unfold stripping_parse_schema_fields in *.
  destruct (py_iter fields) as [fs|]; [|discriminate]. cbn [rbind] in *.
  destruct (strip_fields A fs []) as [r|] eqn:HA; [|discriminate].
  cbn [rbind] in H. injection H as <-.
  rewrite (strip_fields_filter A fs [] r HA). cbn [app py_iter rbind].
  rewrite (strip_fields_kept_all A fs [] r HA B).
  rewrite (strip_fields_any A fs [] r HA (A ++ B) []). cbn [app rbind].
  do 2 f_equal. clear HA.
  induction fs as [|f fs IH]; [reflexivity|].
  cbn [filter]. rewrite kept_app.
  destruct (kept A f); cbn [andb filter]; [|exact IH].
  destruct (kept B f); [f_equal|]; exact IH.
Qed.

Lemma stripping_composes_witness :
  _parse_schema_fields (GenericStrippingAvroParser ["c"])
      (JArr [string_field "b"; long_field "c"])
  = _parse_schema_fields (GenericStrippingAvroParser (["a"] ++ ["c"]))
      (JArr [long_field "a"; string_field "b"; long_field "c"]).
Proof.
  exact (proj1 (stripping_composes ["a"] ["c"]
                  (JArr [long_field "a"; string_field "b"; long_field "c"])
                  (JArr [string_field "b"; long_field "c"]) eq_refl)).
Defined.

(** X14. The schema hook of the stripping class looks up the name of every field:
    at the first field that has no ["name"], it raises [KeyError]; at the
    first whose name is a list or an object, [TypeError]. The hook of the base
    class returns whatever it is given. *)
Theorem strip_schema_needs_names (tostrip : list string) (pre post : list json) :
  Forall (fun g => exists n, py_getitem g "name" = Ok (JStr n)) pre ->
  (forall ms,
      members_get ms "name" = None ->
      _parse_schema_fields (GenericStrippingAvroParser tostrip)
        (JArr (pre ++ JObj ms :: post)) = Raise (PyError KeyError)) /\
  (forall ms name,
      members_get ms "name" = Some name -> hashable name = false ->
      _parse_schema_fields (GenericStrippingAvroParser tostrip)
        (JArr (pre ++ JObj ms :: post)) = Raise (PyError TypeError)) /\
  (forall fields,
      _parse_schema_fields GenericStreamingAvroParser fields = Ok fields).
Proof.
  intros Hpre.
  assert (Hgo : forall f e acc,
             (name <- py_getitem f "name" ;; in_set name tostrip)%res = Raise e ->
             strip_fields tostrip (pre ++ f :: post) acc = Raise e).
  { intros f e. induction Hpre as [|g pre (n & Hg) _ IH]; intros acc He.
    - cbn [app strip_fields].
      destruct (py_getitem f "name") as [name|]; cbn [rbind] in *;
        [|injection He as ->; reflexivity]. rewrite He. reflexivity.
    - cbn [app strip_fields]. rewrite Hg. cbn [rbind in_set hashable].
      destruct (existsb (String.eqb n) tostrip); apply IH; exact He. }
  split; [|split].
  - intros ms Hms. cbn [_parse_schema_fields GenericStrippingAvroParser].
    unfold stripping_parse_schema_fields. cbn [py_iter rbind].
    rewrite (Hgo (JObj ms) (PyError KeyError) []); [reflexivity|].
    cbn [py_getitem]. rewrite Hms. reflexivity.
  - intros ms name Hms Hh. cbn [_parse_schema_fields GenericStrippingAvroParser].
    unfold stripping_parse_schema_fields. cbn [py_iter rbind].
    rewrite (Hgo (JObj ms) (PyError TypeError) []); [reflexivity|].
    cbn [py_getitem]. rewrite Hms. cbn [rbind]. unfold in_set. rewrite Hh. reflexivity.
  - reflexivity.
Qed.

Lemma strip_schema_needs_names_witness :
  _parse_schema_fields (GenericStrippingAvroParser ["b"])
      (JArr ([long_field "a"] ++ JObj [("type", JStr "long")] :: [string_field "b"]))
    = Raise (PyError KeyError).
Proof.
  assert (Hpre : Forall (fun g => exists n, py_getitem g "name" = Ok (JStr n))
                         [long_field "a"]).
  { constructor; [exists "a"; reflexivity|constructor]. }
  apply (proj1 (strip_schema_needs_names ["b"] [long_field "a"] [string_field "b"] Hpre)).
  reflexivity.
Defined.

(** ** Blocks whose parts disagree *)

Section Blocks.

Variable L : Libs.
Variable T : Transform.

(** The frame of a block at the head of the buffer: the count [n], the size
    of [payload] and four bytes, [payload], four bytes [c], and [tail]. *)
Lemma block_frame_read (p : parser) (n : Z) (payload c tail : bytes) :
  buffer_is p (varint n ++ varint (len payload + 4) ++ payload ++ c ++ tail) ->
  int64 n -> int64 (len payload + 4) -> len c = 4 -> 16 <= len tail ->
  block_framed p n (len payload + 4) (len (varint n))
               (len (varint n) + len (varint (len payload + 4))) /\
  py_slice (buffered p) (len (varint n) + len (varint (len payload + 4)))
           (len (varint n) + len (varint (len payload + 4)) + (len payload + 4) - 4)
    = payload /\
  py_slice_from (buffered p)
                (len (varint n) + len (varint (len payload + 4)) + (len payload + 4))
    = tail /\
  blen p - (len (varint n) + len (varint (len payload + 4)) + (len payload + 4))
    = len tail /\
  py_slice_to (buffered p) (len (varint n)) = varint n.
Proof.
  intros (Hbuf & Hblen) Hn Hsz Hc Htail.
  set (cnt := varint n) in *. set (sz := varint (len payload + 4)) in *.
  pose proof (len_nonneg payload) as Hp0.
  assert (Hbl : blen p = len cnt + len sz + len payload + 4 + len tail).
  { rewrite Hblen, !len_app. lia. }
  split; [|split; [|split; [|split]]].
  - exists (len sz). split; [|split; [|split; [reflexivity|lia]]].
    + rewrite Hblen, Hbuf. apply read_long_token, Hn.
    + rewrite Hbuf, py_slice_from_token.
      replace (blen p - len cnt) with (len (sz ++ payload ++ c ++ tail))
        by (rewrite !len_app; lia).
      apply read_long_token, Hsz.
  - rewrite Hbuf.
    replace (cnt ++ sz ++ payload ++ c ++ tail)
      with ((cnt ++ sz) ++ payload ++ (c ++ tail))
      by (rewrite <- !app_assoc; reflexivity).
    replace (len cnt + len sz) with (len (cnt ++ sz)) by (rewrite len_app; reflexivity).
    replace (len (cnt ++ sz) + (len payload + 4) - 4)
      with (len (cnt ++ sz) + len payload) by lia.
    apply py_slice_token.
  - rewrite Hbuf.
    replace (cnt ++ sz ++ payload ++ c ++ tail)
      with ((cnt ++ sz ++ payload ++ c) ++ tail)
      by (rewrite <- !app_assoc; reflexivity).
    replace (len cnt + len sz + (len payload + 4))
      with (len (cnt ++ sz ++ payload ++ c)) by (rewrite !len_app; lia).
    apply py_slice_from_token.
  - lia.
  - rewrite Hbuf. apply py_slice_to_token.
Qed.

Lemma codec_is_snappy (p : parser) :
  codec p = Some (bstr "snappy") -> codec_is p "snappy" = true.
Proof. intros H. unfold codec_is. rewrite H. apply bytes_eqb_refl. Qed.

(** The marker that closes a block, when it is the one captured. *)
Lemma sync_marker_again (p : parser) (marker more : bytes) :
  buffer_is p (marker ++ more) -> len marker = 16 -> syncmarker p = Some marker ->
  exists p',
    _parse_sync_marker p = (Ok marker, p') /\ buffer_is p' more /\
    state p' = AVRO_START_DATABLOCK /\ syncmarker p' = Some marker /\
    schema p' = schema p /\ codec p' = codec p.
Proof.
  intros (Hb & Hl) Hm Hsm. unfold _parse_sync_marker.
  rewrite Hl, Hb, len_app, Hsm. pose proof (len_nonneg more).
  replace (len marker + len more <? 16) with false by (symmetry; apply Z.ltb_ge; lia).
  assert (Hto : py_slice_to (marker ++ more) 16 = marker)
    by (rewrite <- Hm; apply py_slice_to_token).
  assert (Hfrom : py_slice_from (marker ++ more) 16 = more)
    by (rewrite <- Hm; apply py_slice_from_token).
  rewrite Hto, bytes_eqb_refl. cbn [negb]. rewrite Hfrom.
  eexists. split; [reflexivity|]. msimpl.
  split; [split; msimpl; [reflexivity|rewrite ?Hl, ?len_app; lia]|].
  auto.
Qed.

(** A complete block of conforming records, with any four bytes where the
    checksum belongs. *)
Lemma block_read_any_checksum (keep : json -> bool) (fs : list json)
  (ts : list string) (p : parser) (bl : ocf_block) (c marker more : bytes) :
  follows T keep ->
  field_types fs = Some ts -> forallb supported_type ts = true ->
  between_data_blocks p fs marker -> len marker = 16 ->
  block_valid L ts bl = true -> len c = 4 ->
  buffer_is p (varint (len (block_records bl)) ++
               varint (len (block_payload bl) + 4) ++
               block_payload bl ++ c ++ marker ++ more) ->
  exists p',
    _parse_data_block L T p = (Ok (out_block L keep fs bl ++ marker), p') /\
    between_data_blocks p' fs marker /\ buffer_is p' more.
Proof.
  intros HT Hfs Hsup (Hstate & Hcodec & Hsch & Hmark) Hlen Hvalid Hc Hbuf.
  destruct (block_valid_inv L ts bl Hvalid) as (Hrs & Hn & Hsz & Hd & _).
  assert (Htail : 16 <= len (marker ++ more))
    by (rewrite len_app; pose proof (len_nonneg more); lia).
  destruct (block_frame_read p _ _ c (marker ++ more) Hbuf Hn Hsz Hc Htail)
    as (Hframed & Hpay & Hrest & Hleft & Hcnt).
  assert (Hinfl := Hd). rewrite <- Hpay in Hinfl.
  assert (Hloop : records_loop T (schema p) (Z.to_nat (len (block_records bl)))
                    (records_wire (block_records bl)) 0 []
                  = Ok (concat (map (kept_record keep fs) (block_records bl)))).
  { unfold len at 1. rewrite Nat2Z.id.
    exact (records_loop_valid T keep HT fs ts Hfs Hsup (schema p) (block_records bl)
             Hsch Hrs [] []). }
  set (R := concat (map (kept_record keep fs) (block_records bl))) in *.
  destruct (encode_long_total (len (snappy_compress L R) + 4)) as [lenb Hlenb].
  destruct (checksum_wire_ok L R) as (crc & Hcrc & _).
  pose proof (data_block_body_ok L T p _ _ _ _ _ _ lenb crc
                Hframed (codec_is_snappy p Hcodec) Hinfl Hloop Hlenb Hcrc) as Hbody.
  rewrite (parse_data_block_ok_body L T p _ Hbody).
  match type of Hbody with _ = (_, ?q) => set (p1 := q) in * end.
  assert (Hb1 : buffer_is p1 (marker ++ more)).
  { split; unfold p1, after_block_body; cbn [buffered blen]; [exact Hrest|exact Hleft]. }
  destruct (sync_marker_again p1 marker more Hb1 Hlen Hmark)
    as (p2 & Hsync & Hb2 & Hs2 & Hm2 & Hsch2 & Hc2).
  rewrite Hsync. eexists. split; [|split].
  - f_equal. f_equal. unfold p1, after_block_body, out_block. cbn [saved app].
    fold R. rewrite Hcnt, (the_bytes_ok _ _ Hlenb), (the_bytes_ok _ _ Hcrc).
    rewrite <- !app_assoc. reflexivity.
  - unfold between_data_blocks. msimpl. rewrite Hs2, Hm2, Hsch2, Hc2.
    unfold p1, after_block_body. msimpl. auto.
  - destruct Hb2 as [H1 H2]. split; msimpl; assumption.
Qed.

(** X15. The checksum of an input block is never compared with anything: a block
    of conforming records is transcoded the same, to the same output with the
    checksum of the re-encoded records, whichever four bytes stand where its
    checksum belongs. *)
Theorem input_checksum_ignored (keep : json -> bool) (fs : list json)
  (ts : list string) (p : parser) (bl : ocf_block) (c marker more : bytes) :
  (T = GenericStreamingAvroParser /\ keep = (fun _ => true)) \/
  (exists tostrip, T = GenericStrippingAvroParser tostrip /\ keep = kept tostrip) ->
  field_types fs = Some ts -> forallb supported_type ts = true ->
  between_data_blocks p fs marker -> len marker = 16 ->
  block_valid L ts bl = true -> len c = 4 ->
  buffer_is p (varint (len (block_records bl)) ++
               varint (len (block_payload bl) + 4) ++
               block_payload bl ++ c ++ marker ++ more) ->
  exists p',
    _parse_data_block L T p = (Ok (out_block L keep fs bl ++ marker), p') /\
    between_data_blocks p' fs marker /\ buffer_is p' more.
Proof.
  intros HT. apply block_read_any_checksum.
  destruct HT as [[-> ->]|(tostrip & -> & ->)];
    [exact follows_generic|exact (follows_stripping tostrip)].
Qed.

(** With nothing left to read, the first field of a record asks for data. *)
Lemma parse_single_record_empty (sch : pydict) (f : json) (fs : list json)
  (ts : list string) :
  dict_getitem sch "fields" = Ok (JArr (f :: fs)) ->
  field_types (f :: fs) = Some ts -> forallb supported_type ts = true ->
  _parse_single_record T sch [] = Raise AvroInsufficientDataException.
Proof.
  intros Hsch Hts Hsup. unfold _parse_single_record.
  rewrite Hsch. cbn [rbind py_iter record_fields].
  cbn [field_types] in Hts.
  destruct (field_type f) as [t|] eqn:Hf; [|discriminate].
  destruct (field_types fs) as [ts'|]; [|discriminate].
  injection Hts as <-. cbn [forallb] in Hsup.
  apply andb_true_iff in Hsup. destruct Hsup as [Hsup _].
  destruct (field_type_inv f t Hf) as (n & tms & _ & Hty & Ht).
  rewrite Hty. cbn [rbind]. rewrite Ht. cbn [rbind json_is_str].
  unfold supported_type in Hsup.
  destruct (String.eqb t "long" || String.eqb t "int"); [reflexivity|].
  cbn [orb] in Hsup. rewrite Hsup. reflexivity.
Qed.

Lemma records_loop_short (keep : json -> bool) (f : json) (fs : list json)
  (ts : list string) (sch : pydict) (rs : list (list value)) (k : nat) :
  follows T keep ->
  field_types (f :: fs) = Some ts -> forallb supported_type ts = true ->
  dict_getitem sch "fields" = Ok (JArr (f :: fs)) ->
  forallb (record_ok ts) rs = true ->
  forall done acc,
    records_loop T sch (List.length rs + S k) (done ++ records_wire rs) (len done) acc
    = Raise AvroInsufficientDataException.
Proof.
  intros HT Hts Hsup Hsch. induction rs as [|r rs IH]; intros Hrs done acc.
  - cbn [List.length Nat.add records_loop records_wire map concat].
    rewrite app_nil_r.
    replace (py_slice_from done (len done)) with (@nil byte)
      by (symmetry; rewrite <- (app_nil_r done) at 1; apply py_slice_from_token).
    rewrite (parse_single_record_empty sch f fs ts Hsch Hts Hsup). reflexivity.
  - cbn [forallb] in Hrs. apply andb_true_iff in Hrs. destruct Hrs as [Hr Hrs].
    cbn [List.length Nat.add records_loop].
    rewrite py_slice_from_token.
    unfold records_wire. cbn [map concat]. fold (records_wire rs).
    rewrite (parse_single_record_valid T keep HT (f :: fs) ts Hts Hsup sch r
               (records_wire rs) Hsch Hr).
    cbn [rbind].
    replace (len done + len (record_wire r)) with (len (done ++ record_wire r))
      by (rewrite len_app; reflexivity).
    specialize (IH Hrs (done ++ record_wire r) (acc ++ kept_record keep (f :: fs) r)).
    rewrite <- app_assoc in IH. exact IH.
Qed.

Lemma block_overstated (keep : json -> bool) (fuel : nat) (f : json) (fs : list json)
  (ts : list string) (p : parser) (rs : list (list value)) (k : Z)
  (payload c marker more : bytes) :
  follows T keep ->
  field_types (f :: fs) = Some ts -> forallb supported_type ts = true ->
  between_data_blocks p (f :: fs) marker -> len marker = 16 ->
  forallb (record_ok ts) rs = true ->
  0 < k -> int64 (len rs + k) -> int64 (len payload + 4) -> len c = 4 ->
  snappy_decompress L payload = Ok (records_wire rs) ->
  buffer_is p (varint (len rs + k) ++ varint (len payload + 4) ++
               payload ++ c ++ marker ++ more) ->
  fst (_parse_data_block L T p) = Raise AvroInsufficientDataException /\
  buffer_is (snd (_parse_data_block L T p))
            (varint (len rs + k) ++ varint (len payload + 4) ++
             payload ++ c ++ marker ++ more) /\
  forall steps, run L T fuel (S steps) p [] = ([], StopIteration).
Proof.
  intros HT Hts Hsup (Hstate & Hcodec & Hsch & Hmark) Hlen Hrs Hk Hn Hsz Hc Hd Hbuf.
  assert (Htail : 16 <= len (marker ++ more))
    by (rewrite len_app; pose proof (len_nonneg more); lia).
  destruct (block_frame_read p _ _ c (marker ++ more) Hbuf Hn Hsz Hc Htail)
    as (Hframed & Hpay & _).
  assert (Hinfl := Hd). rewrite <- Hpay in Hinfl.
  assert (Hloop : records_loop T (schema p) (Z.to_nat (len rs + k))
                    (records_wire rs) 0 [] = Raise AvroInsufficientDataException).
  { replace (Z.to_nat (len rs + k)) with (List.length rs + S (Z.to_nat (k - 1)))%nat
      by (unfold len; lia).
    exact (records_loop_short keep f fs ts (schema p) rs _ HT Hts Hsup Hsch Hrs [] []). }
  pose proof (data_block_records_fail L T p _ _ _ _ _ _
                Hframed (codec_is_snappy p Hcodec) Hinfl Hloop) as Hfail.
  pose proof (parse_data_block_raise L T p _ Hfail) as Hraise.
  split; [rewrite Hraise; reflexivity|]. split.
  - rewrite Hraise. cbn [snd]. destruct Hbuf as [Hb Hl]. split.
    + rewrite (block_body_raise_buffered L T p _ Hfail). exact Hb.
    + rewrite (block_body_raise_blen L T p _ Hfail). exact Hl.
  - intros steps. apply run_exhausted.
    rewrite (parse_next_item_block L T fuel p Hstate), Hraise. reflexivity.
Qed.

(** X16. A block that declares more records than its payload holds is never
    reported: although the whole block is buffered, with a schema of at least
    one field the step asks for more data and leaves the buffer as it is, so
    the parser waits, and when the source ends the iteration ends normally
    without the block. *)
Theorem overstated_count_waits (fuel : nat) (f : json)
  (fs : list json) (ts : list string) (p : parser) (rs : list (list value)) (k : Z)
  (payload c marker more : bytes) :
  T = GenericStreamingAvroParser \/
  (exists tostrip, T = GenericStrippingAvroParser tostrip) ->
  field_types (f :: fs) = Some ts -> forallb supported_type ts = true ->
  between_data_blocks p (f :: fs) marker -> len marker = 16 ->
  forallb (record_ok ts) rs = true ->
  0 < k -> int64 (len rs + k) -> int64 (len payload + 4) -> len c = 4 ->
  snappy_decompress L payload = Ok (records_wire rs) ->
  buffer_is p (varint (len rs + k) ++ varint (len payload + 4) ++
               payload ++ c ++ marker ++ more) ->
  fst (_parse_data_block L T p) = Raise AvroInsufficientDataException /\
  buffer_is (snd (_parse_data_block L T p))
            (varint (len rs + k) ++ varint (len payload + 4) ++
             payload ++ c ++ marker ++ more) /\
  forall steps, run L T fuel (S steps) p [] = ([], StopIteration).
Proof.
  intros HT.
  assert (Hfollows : exists keep, follows T keep).
  { destruct HT as [->|(tostrip & ->)].
    - exists (fun _ => true). exact follows_generic.
    - exists (kept tostrip). exact (follows_stripping tostrip). }
  destruct Hfollows as [keep Hfollows].
  apply (block_overstated keep). exact Hfollows.
Qed.

(** X17. Without a ["fields"] entry in the schema attribute, as when the metadata
    had no ["avro.schema"] entry, a complete block that declares at least one
    record raises the [KeyError] of the lookup. *)
Theorem missing_schema_key_error (p : parser) (n : Z)
  (payload inflated c tail : bytes) :
  codec p = Some (bstr "snappy") ->
  dict_getitem (schema p) "fields" = Raise (PyError KeyError) ->
  0 < n -> int64 n -> int64 (len payload + 4) -> len c = 4 -> 16 <= len tail ->
  snappy_decompress L payload = Ok inflated ->
  buffer_is p (varint n ++ varint (len payload + 4) ++ payload ++ c ++ tail) ->
  fst (_parse_data_block L T p) = Raise (PyError KeyError).
Proof.
  intros Hcodec Hsch Hpos Hn Hsz Hc Htail Hd Hbuf.
  destruct (block_frame_read p _ _ c tail Hbuf Hn Hsz Hc Htail)
    as (Hframed & Hpay & _).
  assert (Hinfl := Hd). rewrite <- Hpay in Hinfl.
  assert (Hloop : records_loop T (schema p) (Z.to_nat n) inflated 0 []
                  = Raise (PyError KeyError)).
  { replace (Z.to_nat n) with (S (Z.to_nat (n - 1))) by lia.
    cbn [records_loop]. unfold _parse_single_record. rewrite Hsch. reflexivity. }
  pose proof (data_block_records_fail L T p _ _ _ _ _ _
                Hframed (codec_is_snappy p Hcodec) Hinfl Hloop) as Hfail.
  rewrite (parse_data_block_raise L T p _ Hfail). reflexivity.
Qed.

End Blocks.

Lemma input_checksum_ignored_witness :
  exists p',
    _parse_data_block demo GenericStreamingAvroParser
      (between_blocks
         (varint (len (block_records (demo_block records_ab))) ++
          varint (len (block_payload (demo_block records_ab)) + 4) ++
          block_payload (demo_block records_ab) ++ bstr "XXXX" ++
          marker_M ++ bstr "more"))
    = (Ok (out_block demo (fun _ => true) [long_field "a"; string_field "b"]
             (demo_block records_ab) ++ marker_M), p') /\
    buffer_is p' (bstr "more").
Proof.
  destruct (input_checksum_ignored demo GenericStreamingAvroParser (fun _ => true)
              [long_field "a"; string_field "b"] ["long"; "string"]
              (between_blocks
                 (varint (len (block_records (demo_block records_ab))) ++
                  varint (len (block_payload (demo_block records_ab)) + 4) ++
                  block_payload (demo_block records_ab) ++ bstr "XXXX" ++
                  marker_M ++ bstr "more"))
              (demo_block records_ab) (bstr "XXXX") marker_M (bstr "more")
              (or_introl (conj eq_refl eq_refl)) eq_refl eq_refl
              (conj eq_refl (conj eq_refl (conj eq_refl eq_refl))) eq_refl
              eq_refl eq_refl (conj eq_refl eq_refl))
    as (p' & H & _ & Hb).
  exists p'. split; [exact H|exact Hb].
Defined.

Lemma overstated_count_waits_witness :
  fst (_parse_data_block demo GenericStreamingAvroParser
         (between_blocks
            (varint (len records_ab + 1) ++
             varint (len (demo_compress (records_wire records_ab)) + 4) ++
             demo_compress (records_wire records_ab) ++ bstr "XXXX" ++
             marker_M ++ [])))
    = Raise AvroInsufficientDataException /\
  run demo GenericStreamingAvroParser 1 1
      (between_blocks
         (varint (len records_ab + 1) ++
          varint (len (demo_compress (records_wire records_ab)) + 4) ++
          demo_compress (records_wire records_ab) ++ bstr "XXXX" ++
          marker_M ++ [])) []
    = ([], StopIteration).
Proof.
  assert (H1 : int64 (len records_ab + 1))
    by (vm_compute; split; [discriminate|reflexivity]).
  assert (H2 : int64 (len (demo_compress (records_wire records_ab)) + 4))
    by (vm_compute; split; [discriminate|reflexivity]).
  assert (H3 : 0 < 1) by lia.
  destruct (overstated_count_waits demo GenericStreamingAvroParser 1
              (long_field "a") [string_field "b"] ["long"; "string"]
              (between_blocks
                 (varint (len records_ab + 1) ++
                  varint (len (demo_compress (records_wire records_ab)) + 4) ++
                  demo_compress (records_wire records_ab) ++ bstr "XXXX" ++
                  marker_M ++ []))
              records_ab 1 (demo_compress (records_wire records_ab)) (bstr "XXXX")
              marker_M [] (or_introl eq_refl) eq_refl eq_refl
              (conj eq_refl (conj eq_refl (conj eq_refl eq_refl))) eq_refl eq_refl
              H3 H1 H2 eq_refl eq_refl (conj eq_refl eq_refl))
    as (Hr & _ & Hrun).
  split; [exact Hr|exact (Hrun 0%nat)].
Defined.

Lemma missing_schema_key_error_witness :
  fst (_parse_data_block demo GenericStreamingAvroParser
         (mkParser (varint 2 ++
                    varint (len (demo_compress (records_wire records_ab)) + 4) ++
                    demo_compress (records_wire records_ab) ++ bstr "XXXX" ++ marker_M)
                   (len (varint 2 ++
                         varint (len (demo_compress (records_wire records_ab)) + 4) ++
                         demo_compress (records_wire records_ab) ++ bstr "XXXX" ++
                         marker_M))
                   0 [] (Some (bstr "snappy")) AVRO_START_DATABLOCK (Some marker_M) []))
    = Raise (PyError KeyError).
Proof.
  assert (H0 : 0 < 2) by lia.
  assert (H1 : int64 2) by (vm_compute; split; [discriminate|reflexivity]).
  assert (H2 : int64 (len (demo_compress (records_wire records_ab)) + 4))
    by (vm_compute; split; [discriminate|reflexivity]).
  assert (H3 : 16 <= len marker_M) by (vm_compute; discriminate).
  exact (missing_schema_key_error demo GenericStreamingAvroParser
           (mkParser (varint 2 ++
                      varint (len (demo_compress (records_wire records_ab)) + 4) ++
                      demo_compress (records_wire records_ab) ++ bstr "XXXX" ++ marker_M)
                     (len (varint 2 ++
                           varint (len (demo_compress (records_wire records_ab)) + 4) ++
                           demo_compress (records_wire records_ab) ++ bstr "XXXX" ++
                           marker_M))
                     0 [] (Some (bstr "snappy")) AVRO_START_DATABLOCK (Some marker_M) [])
           2 (demo_compress (records_wire records_ab)) (records_wire records_ab)
           (bstr "XXXX") marker_M eq_refl eq_refl H0 H1 H2 eq_refl H3 eq_refl
           (conj eq_refl eq_refl)).
Defined.

(** ** What an iteration over the parser yields *)

Section Items.

Variable L : Libs.
Variable T : Transform.
Variable keep : json -> bool.
Hypothesis HT : follows T keep.
Variable fuel : nat.

(** The items yielded for a valid file, one by one. *)
Lemma run_valid (f : ocf_file) (steps : nat) (initbody : bytes) (src : source) :
  ocf_valid L f = true ->
  initbody ++ concat src = ocf_wire f ->
  (List.length src <= recursion_limit L)%nat ->
  (List.length (file_meta f) <= fuel)%nat ->
  (List.length (file_blocks f) + 4 <= steps)%nat ->
  run L T fuel steps (init initbody) src
  = (transcoded_items L keep f, StopIteration).
Proof.
  intros Hv Heq Hsrc Hfuel Hsteps.
  destruct (ocf_valid_inv L f Hv)
    as (text & ms & ts & Hm & Hg & Hc & Htext & Hj & Hf & Hts & Hsup & Hbl).
  destruct steps as [|[|[|steps]]]; try (simpl in Hsteps; lia).
  unfold ocf_wire in *. cbn [run].
  (* the header magic *)
  destruct (next_item L T fuel awaiting_magic awaiting_metadata
              header_magic header_magic
              (magic_complete L T fuel) (magic_partial L T fuel)
              awaiting_magic_refill
              src (recursion_limit L) (init initbody) initbody _
              (conj eq_refl eq_refl) (conj eq_refl eq_refl) Heq Hsrc)
    as (p1 & more1 & src1 & Hn1 & Hp1 & Hb1 & Hq1 & Hl1).
  rewrite Hn1.
  assert (Hsrc1 : (List.length src1 <= recursion_limit L)%nat)
    by exact (Nat.le_trans _ _ _ Hl1 Hsrc).
  (* the metadata *)
  destruct (next_item L T fuel awaiting_metadata
              (fun q => awaiting_sync q (file_fields L f))
              (metadata_wire (file_meta f)) (out_metadata L keep (file_meta f))
              (fun q more => metadata_valid_complete L T keep HT fuel f q more Hv Hfuel)
              (fun q av Hq Hb Hs =>
                 metadata_partial L T keep HT fuel q (file_meta f) av Hq Hb Hg Hfuel Hs)
              awaiting_metadata_refill
              src1 (recursion_limit L) p1 more1 _ Hp1 Hb1 Hq1 Hsrc1)
    as (p2 & more2 & src2 & Hn2 & Hp2 & Hb2 & Hq2 & Hl2).
  rewrite Hn2.
  assert (Hsrc2 : (List.length src2 <= recursion_limit L)%nat)
    by exact (Nat.le_trans _ _ _ Hl2 Hsrc1).
  (* the sync marker of the header *)
  destruct (next_item L T fuel (fun q => awaiting_sync q (file_fields L f))
              (fun q => between_data_blocks q (file_fields L f) (file_marker f))
              (file_marker f) (file_marker f)
              (fun q more Hq Hb =>
                 sync_complete L T fuel q (file_fields L f) (file_marker f) more Hq Hb Hm)
              (fun q av Hq Hb Hs =>
                 sync_partial L T fuel q (file_fields L f) (file_marker f) av Hq Hb Hm Hs)
              (awaiting_sync_refill (file_fields L f))
              src2 (recursion_limit L) p2 more2 _ Hp2 Hb2 Hq2 Hsrc2)
    as (p3 & more3 & src3 & Hn3 & Hp3 & Hb3 & Hq3 & Hl3).
  rewrite Hn3.
  assert (Hsrc3 : (List.length src3 <= recursion_limit L)%nat)
    by exact (Nat.le_trans _ _ _ Hl3 Hsrc2).
  (* the data blocks *)
  assert (Hsteps' : (List.length (file_blocks f) < steps)%nat) by lia.
  rewrite (run_blocks L T keep HT fuel (file_fields L f) ts Hts Hsup (file_marker f) Hm
             (file_blocks f) steps src3 p3 more3 Hp3 Hb3 Hq3 Hsrc3 Hbl Hsteps').
  reflexivity.
Qed.

End Items.

(** X18. An iteration over the parser yields a valid file unit by unit, whatever
    the chunks it receives (no more of them than [next] may nest calls): the
    magic, the metadata, the sync marker, and then one item per data block,
    each closed by the marker; with the stripping class the schema and the
    records hold the fields that are kept. The iteration ends with
    [StopIteration] after three items and one per block. *)
Theorem iteration_yields_units (L : Libs) (tostrip : list string)
  (fuel steps : nat) (f : ocf_file) (initbody : bytes) (src : source) :
  ocf_valid L f = true ->
  initbody ++ concat src = ocf_wire f ->
  (List.length src <= recursion_limit L)%nat ->
  (List.length (file_meta f) <= fuel)%nat ->
  (List.length (file_blocks f) + 4 <= steps)%nat ->
  run L GenericStreamingAvroParser fuel steps (init initbody) src
    = (transcoded_items L (fun _ => true) f, StopIteration) /\
  run L (GenericStrippingAvroParser tostrip) fuel steps (init initbody) src
    = (transcoded_items L (kept tostrip) f, StopIteration) /\
  List.length (transcoded_items L (kept tostrip) f)
    = (3 + List.length (file_blocks f))%nat /\
  concat (transcoded_items L (kept tostrip) f) = transcoded_wire L (kept tostrip) f.
Proof.
  intros Hv Heq Hsrc Hfuel Hsteps. split; [|split; [|split]].
  - exact (run_valid L GenericStreamingAvroParser (fun _ => true) follows_generic
             fuel f steps initbody src Hv Heq Hsrc Hfuel Hsteps).
  - exact (run_valid L (GenericStrippingAvroParser tostrip) (kept tostrip)
             (follows_stripping tostrip) fuel f steps initbody src
             Hv Heq Hsrc Hfuel Hsteps).
  - unfold transcoded_items. cbn [List.length]. rewrite length_map. reflexivity.
  - reflexivity.
Qed.

Lemma iteration_yields_units_witness :
  run demo (GenericStrippingAvroParser ["b"]) 1 5 (init [])
      (one_byte_chunks (ocf_wire scenario_compact))
    = (transcoded_items demo (kept ["b"]) scenario_compact, StopIteration) /\
  List.length (transcoded_items demo (kept ["b"]) scenario_compact) = 4%nat.
Proof.
  assert (Hlen : (List.length (one_byte_chunks (ocf_wire scenario_compact))
                  <= recursion_limit demo)%nat)
    by (apply Nat.leb_le; vm_compute; reflexivity).
  assert (Heq : [] ++ concat (one_byte_chunks (ocf_wire scenario_compact))
                = ocf_wire scenario_compact) by (vm_compute; reflexivity).
  assert (Hfuel : (List.length (file_meta scenario_compact) <= 1)%nat) by (simpl; lia).
  assert (Hsteps : (List.length (file_blocks scenario_compact) + 4 <= 5)%nat)
    by (simpl; lia).
  destruct (iteration_yields_units demo ["b"] 1 5 scenario_compact []
              (one_byte_chunks (ocf_wire scenario_compact))
              eq_refl Heq Hlen Hfuel Hsteps) as (_ & H2 & H3 & _).
  split; [exact H2|exact H3].
Defined.

(** ** Blocks that are not complete *)

(** X19. Before the codec and the schema are looked at, the whole block and the
    marker after it must be buffered: with any proper prefix of them, whatever
    the codec and the schema attributes hold, [_parse_data_block] asks for
    more data and leaves the buffer as it is; so when the source ends there,
    the iteration ends normally and an unsupported codec goes unreported. *)
Theorem incomplete_block_waits (L : Libs) (T : Transform) (fuel : nat) (p : parser)
  (n : Z) (payload c marker avail : bytes) :
  state p = AVRO_START_DATABLOCK ->
  int64 n -> int64 (len payload + 4) -> len c = 4 -> len marker = 16 ->
  short_of avail (varint n ++ varint (len payload + 4) ++ payload ++ c ++ marker) ->
  buffer_is p avail ->
  fst (_parse_data_block L T p) = Raise AvroInsufficientDataException /\
  buffer_is (snd (_parse_data_block L T p)) avail /\
  forall steps, run L T fuel (S steps) p [] = ([], StopIteration).
Proof.
  intros Hstate Hn Hsz Hc Hm Hshort (Hbuf & Hblen).
  assert (Hfail : fst (data_block_body L T p) = Raise AvroInsufficientDataException).
  { unfold data_block_body. msimpl. rewrite Hbuf, Hblen.
    destruct (short_of_app _ _ _ Hshort) as [H|(a1 & -> & H1)].
    { rewrite (read_long_short _ _ Hn H). reflexivity. }
    rewrite (read_long_token _ _ Hn). msimpl. rewrite !Z.add_0_l.
    rewrite Hbuf, Hblen, py_slice_from_token.
    replace (len (varint n ++ a1) - len (varint n)) with (len a1)
      by (rewrite len_app; lia).
    destruct (short_of_app _ _ _ H1) as [H|(a2 & -> & H2)].
    { rewrite (read_long_short _ _ Hsz H). reflexivity. }
    rewrite (read_long_token _ _ Hsz). msimpl. rewrite Hblen.
    apply short_of_len in H2. rewrite !len_app in *.
    match goal with
    | |- context [?a <? ?b] =>
        replace (a <? b) with true by (symmetry; apply Z.ltb_lt; lia)
    end.
    reflexivity. }
  pose proof (parse_data_block_raise L T p _ Hfail) as Hraise.
  split; [rewrite Hraise; reflexivity|]. split.
  - rewrite Hraise. cbn [snd]. split.
    + rewrite (block_body_raise_buffered L T p _ Hfail). exact Hbuf.
    + rewrite (block_body_raise_blen L T p _ Hfail). exact Hblen.
  - intros steps. apply run_exhausted.
    rewrite (parse_next_item_block L T fuel p Hstate), Hraise. reflexivity.
Qed.

Lemma incomplete_block_waits_witness :
  fst (_parse_data_block demo GenericStreamingAvroParser
         (block_parser [float_field "x"] "deflate"
            (firstn 20 (varint 2 ++ varint (len (bstr "payload") + 4) ++
                        bstr "payload" ++ bstr "XXXX" ++ marker_M))))
    = Raise AvroInsufficientDataException /\
  run demo GenericStreamingAvroParser 1 1
      (block_parser [float_field "x"] "deflate"
         (firstn 20 (varint 2 ++ varint (len (bstr "payload") + 4) ++
                     bstr "payload" ++ bstr "XXXX" ++ marker_M))) []
    = ([], StopIteration).
Proof.
  assert (H1 : int64 2) by (vm_compute; split; [discriminate|reflexivity]).
  assert (H2 : int64 (len (bstr "payload") + 4))
    by (vm_compute; split; [discriminate|reflexivity]).
  assert (Hs : short_of
                 (firstn 20 (varint 2 ++ varint (len (bstr "payload") + 4) ++
                             bstr "payload" ++ bstr "XXXX" ++ marker_M))
                 (varint 2 ++ varint (len (bstr "payload") + 4) ++
                  bstr "payload" ++ bstr "XXXX" ++ marker_M)).
  { exists (skipn 20 (varint 2 ++ varint (len (bstr "payload") + 4) ++
                      bstr "payload" ++ bstr "XXXX" ++ marker_M)).
    split; [vm_compute; discriminate|vm_compute; reflexivity]. }
  destruct (incomplete_block_waits demo GenericStreamingAvroParser 1
              (block_parser [float_field "x"] "deflate"
                 (firstn 20 (varint 2 ++ varint (len (bstr "payload") + 4) ++
                             bstr "payload" ++ bstr "XXXX" ++ marker_M)))
              2 (bstr "payload") (bstr "XXXX") marker_M _
              eq_refl H1 H2 eq_refl eq_refl Hs (conj eq_refl eq_refl))
    as (Hr & _ & Hrun).
  split; [exact Hr|exact (Hrun 0%nat)].
Defined.

(** ** The output as a container file *)



Section Kept.

Variable keep : json -> bool.






End Kept.

Section Output.

Variable L : Libs.
Variable keep : json -> bool.










End Output.


(** ** What follows the declared records *)

Section Surplus.

Variable L : Libs.
Variable T : Transform.

Lemma records_loop_surplus (keep : json -> bool) (fs : list json) (ts : list string)
  (sch : pydict) (surplus : bytes) (rs : list (list value)) :
  follows T keep ->
  field_types fs = Some ts -> forallb supported_type ts = true ->
  dict_getitem sch "fields" = Ok (JArr fs) ->
  forallb (record_ok ts) rs = true ->
  forall done acc,
    records_loop T sch (List.length rs) (done ++ records_wire rs ++ surplus)
                 (len done) acc
    = Ok (acc ++ concat (map (kept_record keep fs) rs)).
Proof.
  intros HT Hts Hsup Hsch. induction rs as [|r rs IH]; intros Hrs done acc.
  - simpl. rewrite app_nil_r. reflexivity.
  - cbn [forallb] in Hrs. apply andb_true_iff in Hrs. destruct Hrs as [Hr Hrs].
    cbn [List.length records_loop].
    rewrite py_slice_from_token.
    unfold records_wire. cbn [map concat]. fold (records_wire rs).
    rewrite <- app_assoc.
    rewrite (parse_single_record_valid T keep HT fs ts Hts Hsup sch r
               (records_wire rs ++ surplus) Hsch Hr).
    cbn [rbind].
    replace (len done + len (record_wire r)) with (len (done ++ record_wire r))
      by (rewrite len_app; reflexivity).
    specialize (IH Hrs (done ++ record_wire r) (acc ++ kept_record keep fs r)).
    rewrite <- app_assoc in IH. rewrite IH.
    cbn [map concat]. rewrite <- app_assoc. reflexivity.
Qed.

Lemma block_surplus (keep : json -> bool) (fs : list json) (ts : list string)
  (p : parser) (rs : list (list value)) (payload surplus c marker more : bytes) :
  follows T keep ->
  field_types fs = Some ts -> forallb supported_type ts = true ->
  between_data_blocks p fs marker -> len marker = 16 ->
  forallb (record_ok ts) rs = true ->
  int64 (len rs) -> int64 (len payload + 4) -> len c = 4 ->
  snappy_decompress L payload = Ok (records_wire rs ++ surplus) ->
  buffer_is p (varint (len rs) ++ varint (len payload + 4) ++
               payload ++ c ++ marker ++ more) ->
  exists p',
    _parse_data_block L T p
      = (Ok (out_block L keep fs
               {| block_records := rs; block_payload := payload;
                  block_checksum := c |} ++ marker), p') /\
    buffer_is p' more.
Proof.
  intros HT Hfs Hsup (Hstate & Hcodec & Hsch & Hmark) Hlen Hrs Hn Hsz Hc Hd Hbuf.
  assert (Htail : 16 <= len (marker ++ more))
    by (rewrite len_app; pose proof (len_nonneg more); lia).
  destruct (block_frame_read p _ _ c (marker ++ more) Hbuf Hn Hsz Hc Htail)
    as (Hframed & Hpay & Hrest & Hleft & Hcnt).
  assert (Hinfl := Hd). rewrite <- Hpay in Hinfl.
  assert (Hloop : records_loop T (schema p) (Z.to_nat (len rs))
                    (records_wire rs ++ surplus) 0 []
                  = Ok (concat (map (kept_record keep fs) rs))).
  { unfold len at 1. rewrite Nat2Z.id.
    exact (records_loop_surplus keep fs ts (schema p) surplus rs HT Hfs Hsup
             Hsch Hrs [] []). }
  set (R := concat (map (kept_record keep fs) rs)) in *.
  destruct (encode_long_total (len (snappy_compress L R) + 4)) as [lenb Hlenb].
  destruct (checksum_wire_ok L R) as (crc & Hcrc & _).
  pose proof (data_block_body_ok L T p _ _ _ _ _ _ lenb crc
                Hframed (codec_is_snappy p Hcodec) Hinfl Hloop Hlenb Hcrc) as Hbody.
  rewrite (parse_data_block_ok_body L T p _ Hbody).
  match type of Hbody with _ = (_, ?q) => set (p1 := q) in * end.
  assert (Hb1 : buffer_is p1 (marker ++ more)).
  { split; unfold p1, after_block_body; cbn [buffered blen]; [exact Hrest|exact Hleft]. }
  destruct (sync_marker_again p1 marker more Hb1 Hlen Hmark)
    as (p2 & Hsync & Hb2 & _).
  rewrite Hsync. eexists. split.
  - f_equal. f_equal. unfold p1, after_block_body, out_block.
    cbn [saved app block_records]. fold R.
    rewrite Hcnt, (the_bytes_ok _ _ Hlenb), (the_bytes_ok _ _ Hcrc).
    rewrite <- !app_assoc. reflexivity.
  - destruct Hb2 as [H1 H2]. split; msimpl; assumption.
Qed.

(** X20. The payload is not required to end with the declared records: whatever
    the decompressed payload holds after them is dropped, and the block that
    is written holds the declared records alone. *)
Theorem surplus_payload_dropped (fs : list json) (ts : list string)
  (p : parser) (rs : list (list value)) (payload surplus c marker more : bytes) :
  T = GenericStreamingAvroParser ->
  field_types fs = Some ts -> forallb supported_type ts = true ->
  between_data_blocks p fs marker -> len marker = 16 ->
  forallb (record_ok ts) rs = true ->
  int64 (len rs) -> int64 (len payload + 4) -> len c = 4 ->
  snappy_decompress L payload = Ok (records_wire rs ++ surplus) ->
  buffer_is p (varint (len rs) ++ varint (len payload + 4) ++
               payload ++ c ++ marker ++ more) ->
  exists p' lenb crc,
    _parse_data_block L T p
      = (Ok (varint (len rs) ++ lenb ++ snappy_compress L (records_wire rs)
             ++ crc ++ marker), p') /\
    _encode_long (len (snappy_compress L (records_wire rs)) + 4) = Ok lenb /\
    checksum_wire L (records_wire rs) = Ok crc /\
    buffer_is p' more.
Proof.
  intros HT Hfs Hsup Hpre Hlen Hrs Hn Hsz Hc Hd Hbuf.
  assert (Hfollows : follows T (fun _ => true)) by (rewrite HT; exact follows_generic).
  destruct (block_surplus (fun _ => true) fs ts p rs payload surplus c marker more
              Hfollows Hfs Hsup Hpre Hlen Hrs Hn Hsz Hc Hd Hbuf) as (p' & Hstep & Hb).
  destruct (encode_long_total (len (snappy_compress L (records_wire rs)) + 4))
    as [lenb Hlenb].
  destruct (checksum_wire_ok L (records_wire rs)) as (crc & Hcrc & _).
  exists p', lenb, crc. split; [|auto].
  rewrite Hstep. unfold out_block. cbn [block_records].
  rewrite (kept_records_all fs ts rs Hfs Hrs).
  rewrite (the_bytes_ok _ _ Hlenb), (the_bytes_ok _ _ Hcrc).
  rewrite <- !app_assoc. reflexivity.
Qed.

End Surplus.

Lemma surplus_payload_dropped_witness :
  exists p' lenb crc,
    _parse_data_block demo GenericStreamingAvroParser
      (between_blocks
         (varint (len records_ab) ++
          varint (len (demo_compress (records_wire records_ab ++ bstr "junk")) + 4) ++
          demo_compress (records_wire records_ab ++ bstr "junk") ++ bstr "XXXX" ++
          marker_M ++ []))
    = (Ok (varint (len records_ab) ++ lenb ++
           snappy_compress demo (records_wire records_ab) ++ crc ++ marker_M), p') /\
    buffer_is p' [].
Proof.
  assert (H1 : int64 (len records_ab))
    by (vm_compute; split; [discriminate|reflexivity]).
  assert (H2 : int64 (len (demo_compress (records_wire records_ab ++ bstr "junk")) + 4))
    by (vm_compute; split; [discriminate|reflexivity]).
  destruct (surplus_payload_dropped demo GenericStreamingAvroParser
              [long_field "a"; string_field "b"] ["long"; "string"]
              (between_blocks
                 (varint (len records_ab) ++
                  varint (len (demo_compress (records_wire records_ab ++ bstr "junk")) + 4) ++
                  demo_compress (records_wire records_ab ++ bstr "junk") ++ bstr "XXXX" ++
                  marker_M ++ []))
              records_ab (demo_compress (records_wire records_ab ++ bstr "junk"))
              (bstr "junk") (bstr "XXXX") marker_M []
              eq_refl eq_refl eq_refl
              (conj eq_refl (conj eq_refl (conj eq_refl eq_refl))) eq_refl eq_refl
              H1 H2 eq_refl eq_refl (conj eq_refl eq_refl))
    as (p' & lenb & crc & H & _ & _ & Hb).
  exists p', lenb, crc. split; [exact H|exact Hb].
Defined.

(** ** The calls of [next], one refill at a time *)

Lemma short_of_complete {A} (avail later x tail : list A) :
  avail ++ later = x ++ tail -> len x <= len avail ->
  exists more, avail = x ++ more /\ more ++ later = tail.
Proof.
  intros H Hl. destruct (prefix_cases avail later x tail H) as [Hc|Hs]; [exact Hc|].
  apply short_of_len in Hs. lia.
Qed.

Lemma short_of_short {A} (avail later x tail : list A) :
  avail ++ later = x ++ tail -> len avail < len x -> short_of avail x.
Proof.
  intros H Hl. destruct (prefix_cases avail later x tail H) as [(more & -> & _)|Hs];
    [|exact Hs].
  rewrite len_app in Hl. pose proof (len_nonneg more). lia.
Qed.

Section Refills.

Variable L : Libs.
Variable T : Transform.
Variable fuel : nat.

Lemma refilled_app (taken1 taken2 : list bytes) :
  forall p,
    refilled L T fuel p (taken1 ++ taken2)
    = refilled L T fuel (refilled L T fuel p taken1) taken2.
Proof.
  induction taken1 as [|x taken1 IH]; intros p; [reflexivity|].
  cbn [app refilled]. apply IH.
Qed.

(** A step that asks for more data is followed by a refill and a nested
    call. *)
Lemma next_refill (depth : nat) (p : parser) (x : bytes) (src : source) :
  fst (_parse_next_item L T fuel p) = Raise AvroInsufficientDataException ->
  next L T fuel (S depth) p (x :: src)
  = next L T fuel depth (refilled L T fuel p [x]) src.
Proof.
  intros H. rewrite next_eq. cbn [refilled].
  destruct (_parse_next_item L T fuel p) as [r p1]. cbn [fst snd] in *. subst r.
  reflexivity.
Qed.

Lemma next_stops (depth : nat) (p : parser) :
  fst (_parse_next_item L T fuel p) = Raise AvroInsufficientDataException ->
  fst (fst (next L T fuel depth p [])) = Raise StopIteration.
Proof. intros H. rewrite (next_exhausted L T fuel depth p H). reflexivity. Qed.

Lemma next_raises (depth : nat) (p : parser) (src : source) (e : exn) :
  fst (_parse_next_item L T fuel p) = Raise e ->
  e <> AvroInsufficientDataException ->
  fst (fst (next L T fuel depth p src)) = Raise e.
Proof.
  intros H He. rewrite next_eq.
  destruct (_parse_next_item L T fuel p) as [r p1]. cbn [fst] in H. subst r.
  destruct e; try reflexivity. congruence.
Qed.

Lemma next_returns (depth : nat) (p p' : parser) (src : source) (out : bytes) :
  _parse_next_item L T fuel p = (Ok out, p') ->
  next L T fuel depth p src = (Ok out, p', src).
Proof. intros H. rewrite next_eq, H. reflexivity. Qed.

(** What a refill leaves of the parser. *)
Lemma refilled_buffer (p : parser) (x avail : bytes) :
  fst (_parse_next_item L T fuel p) = Raise AvroInsufficientDataException ->
  buffer_is p avail ->
  buffer_is (refilled L T fuel p [x]) (avail ++ x).
Proof.
  intros H (Hb & Hl).
  destruct (step_insufficient_frame L T fuel p H) as (Fb & Fl & _).
  cbn [refilled]. unfold buffer_is. msimpl.
  rewrite Fb, Fl, Hb, Hl, len_app. auto.
Qed.

Lemma refilled_attrs (p : parser) (x : bytes) :
  fst (_parse_next_item L T fuel p) = Raise AvroInsufficientDataException ->
  state (refilled L T fuel p [x]) = state p /\
  syncmarker (refilled L T fuel p [x]) = syncmarker p /\
  schema (refilled L T fuel p [x]) = schema (snd (_parse_next_item L T fuel p)) /\
  codec (refilled L T fuel p [x]) = codec (snd (_parse_next_item L T fuel p)).
Proof.
  intros H.
  destruct (step_insufficient_frame L T fuel p H) as (_ & _ & Fs & Fm).
  cbn [refilled]. msimpl. rewrite Fs, Fm. auto.
Qed.

Section UntilWhole.

(** The step of the current phase asks for more data as long as the [item]
    is not whole, and this leaves [Pre] as it is. *)
Variables (Pre : parser -> Prop) (item : bytes).

Hypothesis Hshort :
  forall p avail,
    Pre p -> buffer_is p avail -> short_of avail item ->
    fst (_parse_next_item L T fuel p) = Raise AvroInsufficientDataException /\
    forall x, Pre (refilled L T fuel p [x]).

(** [next] refills the buffer until the item is whole, and then runs the
    step on it. *)
Lemma refill_until (src : source) :
  forall depth p avail later tail a' src',
    Pre p -> buffer_is p avail ->
    (avail ++ concat src) ++ later = item ++ tail ->
    take_item depth (len item) (len avail) src = Some (a', src') ->
    exists depth' p1 more,
      next L T fuel depth p src = next L T fuel depth' p1 src' /\
      Pre p1 /\ buffer_is p1 (item ++ more) /\
      (more ++ concat src') ++ later = tail /\ a' = len more.
Proof.
  induction src as [|x src IH]; intros depth p avail later tail a' src' Hpre Hbuf Heq Htake.
  - cbn [take_item] in Htake. cbn [concat] in Heq. rewrite app_nil_r in Heq.
    destruct (len item <=? len avail) eqn:Hle; [|discriminate].
    apply Z.leb_le in Hle. injection Htake as <- <-.
    destruct (short_of_complete avail later item tail Heq Hle) as (more & -> & Hmore).
    exists depth, p, more. cbn [concat]. rewrite app_nil_r.
    split; [reflexivity|]. split; [exact Hpre|]. split; [exact Hbuf|].
    split; [exact Hmore|]. rewrite len_app. lia.
  - cbn [take_item] in Htake.
    destruct (len item <=? len avail) eqn:Hle;
      [apply Z.leb_le in Hle|apply Z.leb_gt in Hle; rename Hle into Hlt].
    + injection Htake as <- <-. rewrite <- app_assoc in Heq.
      destruct (short_of_complete avail _ item tail Heq Hle) as (more & -> & Hmore).
      exists depth, p, more. rewrite <- app_assoc.
      split; [reflexivity|]. split; [exact Hpre|]. split; [exact Hbuf|].
      split; [exact Hmore|]. rewrite len_app. lia.
    + destruct depth as [|depth]; [discriminate|].
      rewrite <- app_assoc in Heq.
      pose proof (short_of_short avail _ item tail Heq Hlt) as Hs.
      destruct (Hshort p avail Hpre Hbuf Hs) as (Hstep & Hpre').
      pose proof (refilled_buffer p x avail Hstep Hbuf) as Hbuf'.
      rewrite (next_refill depth p x src Hstep).
      apply (IH depth (refilled L T fuel p [x]) (avail ++ x) later tail a' src').
      * apply Hpre'.
      * exact Hbuf'.
      * cbn [concat] in Heq. rewrite <- !app_assoc. rewrite <- app_assoc in Heq.
        exact Heq.
      * rewrite len_app. exact Htake.
Qed.

End UntilWhole.

Section Waiting.

(** The step asks for more data on every buffer that satisfies [W]. *)
Variables (Pre : parser -> Prop) (W : bytes -> Prop).

Hypothesis Hwait :
  forall p avail,
    Pre p -> buffer_is p avail -> W avail ->
    fst (_parse_next_item L T fuel p) = Raise AvroInsufficientDataException /\
    forall x, Pre (refilled L T fuel p [x]).

(** When every buffer that the chunks of the source lead to satisfies [W],
    [next] takes all of them and raises [StopIteration]. *)
Lemma next_waits (src : source) :
  forall depth p avail,
    Pre p -> buffer_is p avail ->
    (forall k, W (avail ++ concat (firstn k src))) ->
    (List.length src <= depth)%nat ->
    fst (fst (next L T fuel depth p src)) = Raise StopIteration.
Proof.
  induction src as [|x src IH]; intros depth p avail Hpre Hbuf HW Hd.
  - specialize (HW O). cbn [firstn concat] in HW. rewrite app_nil_r in HW.
    apply next_stops. exact (proj1 (Hwait p avail Hpre Hbuf HW)).
  - pose proof (HW O) as HW0. cbn [firstn concat] in HW0. rewrite app_nil_r in HW0.
    destruct (Hwait p avail Hpre Hbuf HW0) as (Hstep & Hpre').
    destruct depth as [|depth]; [cbn [List.length] in Hd; lia|].
    rewrite (next_refill depth p x src Hstep).
    pose proof (refilled_buffer p x avail Hstep Hbuf) as Hbuf'.
    apply (IH depth _ (avail ++ x)); [apply Hpre'|exact Hbuf'| |cbn [List.length] in Hd; lia].
    intros k. specialize (HW (S k)). cbn [firstn concat] in HW.
    rewrite <- app_assoc. exact HW.
Qed.

End Waiting.

End Refills.

(** ** Numbers in a stream *)

Lemma read_long_extends (buffered : bytes) (blen v used : Z) :
  0 <= blen <= len buffered ->
  _read_long buffered blen = Ok (v, used) ->
  1 <= used <= blen /\
  forall rest blen',
    used <= blen' ->
    _read_long (firstn (Z.to_nat used) buffered ++ rest) blen' = Ok (v, used).
Proof.
  intros Hb H. unfold _read_long in H.
  destruct (Z.eqb_spec blen 0) as [->|Hnz]; [discriminate|].
  destruct buffered as [|x rest]; [discriminate|]. rewrite len_cons in Hb.
  apply read_long_loop_prefix in H; [|apply ord_range|lia].
  destruct H as [Hu Hp]. split; [lia|]. intros rest' blen' Hb'.
  replace (Z.to_nat used) with (S (Z.to_nat (used - 1))) by lia.
  cbn [firstn app]. unfold _read_long.
  replace (blen' =? 0) with false by (symmetry; apply Z.eqb_neq; lia).
  apply Hp. exact Hb'.
Qed.

Lemma numberb_true (enc : bytes) (v : Z) :
  numberb enc v = true <-> _read_long enc (len enc) = Ok (v, len enc).
Proof.
  unfold numberb. destruct (_read_long enc (len enc)) as [[v' used]|e].
  - rewrite andb_true_iff, !Z.eqb_eq. split; [intros (-> & ->); reflexivity|].
    intros [= -> ->]. auto.
  - split; discriminate.
Qed.

Lemma number_nonempty (enc : bytes) (v : Z) : numberb enc v = true -> 0 < len enc.
Proof.
  intros H. apply numberb_true in H.
  pose proof (len_nonneg enc) as H0.
  destruct (read_long_extends enc (len enc) v (len enc) ltac:(lia) H) as [Hu _]. lia.
Qed.

(** A number of the stream is read whatever follows it. *)
Lemma number_complete (enc more : bytes) (v : Z) :
  numberb enc v = true ->
  _read_long (enc ++ more) (len (enc ++ more)) = Ok (v, len enc).
Proof.
  intros H. apply numberb_true in H. pose proof (len_nonneg enc) as H0.
  destruct (read_long_extends enc (len enc) v (len enc) ltac:(lia) H) as [_ Hp].
  specialize (Hp more (len (enc ++ more))).
  assert (Hf : firstn (Z.to_nat (len enc)) enc = enc)
    by (unfold len; rewrite Nat2Z.id; apply firstn_all).
  rewrite Hf in Hp. apply Hp.
  rewrite len_app. pose proof (len_nonneg more). lia.
Qed.

(** A number of which a part is missing is not read. *)
Lemma number_short (enc avail : bytes) (v : Z) :
  numberb enc v = true -> short_of avail enc ->
  _read_long avail (len avail) = Raise AvroInsufficientDataException.
Proof.
  intros H Hs. apply numberb_true in H. pose proof (len_nonneg avail) as H0.
  destruct (read_long_cases avail (len avail) ltac:(lia)) as [E|(v' & u' & E & Hu)];
    [exact E|exfalso].
  destruct (read_long_extends avail (len avail) v' u' ltac:(lia) E) as [_ Hp].
  pose proof (short_of_len _ _ Hs) as Hl. destruct Hs as (m & Hm & ->).
  specialize (Hp (skipn (Z.to_nat u') avail ++ m) (len (avail ++ m))).
  rewrite app_assoc, firstn_skipn in Hp. rewrite Hp in H by lia.
  injection H as _ Hu'. lia.
Qed.

(** ** The tokens of the metadata under the cursor *)

Ltac mstate :=
  unfold meta_state, bused_add, saved_add, save_used, modify, get, ret, raise, lift;
  msimpl;
  cbv beta delta [set_buffered set_blen set_bused set_schema set_codec set_state
                  set_syncmarker set_saved];
  cbn [buffered blen bused schema codec state syncmarker saved].

Ltac same_parser :=
  f_equal; f_equal;
  first [ reflexivity
        | rewrite ?len_app; lia
        | rewrite <- ?app_assoc; reflexivity ].

Section Tokens.

Variable L : Libs.
Variable T : Transform.

Lemma read_at_state {A} (f : bytes -> Z -> res A) (bufd done rest : bytes) (pos : Z)
  (sch : pydict) (cod : option bytes) (out : bytes) :
  bufd = done ++ rest -> pos = len done ->
  read_at f (meta_state bufd pos sch cod out)
  = (f rest (len rest), meta_state bufd pos sch cod out).
Proof.
  intros -> ->. unfold read_at, meta_state. cbn [buffered blen bused].
  rewrite py_slice_from_token.
  replace (len (done ++ rest) - len done) with (len rest) by (rewrite len_app; lia).
  reflexivity.
Qed.

Lemma read_bytes_number (nl s more : bytes) :
  numberb nl (len s) = true ->
  _read_bytes ((nl ++ s) ++ more) (len ((nl ++ s) ++ more)) = Ok (s, len (nl ++ s)).
Proof.
  intros H. unfold _read_bytes. rewrite <- app_assoc.
  rewrite (number_complete nl (s ++ more) (len s) H). cbn [rbind].
  rewrite !len_app. pose proof (len_nonneg more). pose proof (len_nonneg s).
  replace (len nl + (len s + len more) <? len s + len nl)
    with false by (symmetry; apply Z.ltb_ge; lia).
  rewrite (py_slice_token nl s more).
  replace (len s + len nl) with (len nl + len s) by lia. reflexivity.
Qed.

Lemma read_bytes_number_short (nl s avail : bytes) :
  numberb nl (len s) = true -> short_of avail (nl ++ s) ->
  _read_bytes avail (len avail) = Raise AvroInsufficientDataException.
Proof.
  intros H Hshort. unfold _read_bytes.
  destruct (short_of_app _ _ _ Hshort) as [Hs|(avail' & -> & Hs)].
  - rewrite (number_short nl avail (len s) H Hs). reflexivity.
  - rewrite (number_complete nl avail' (len s) H). cbn [rbind].
    apply short_of_len in Hs. rewrite len_app.
    replace (len nl + len avail' <? len s + len nl)
      with true by (symmetry; apply Z.ltb_lt; lia).
    reflexivity.
Qed.

Lemma slice_at (bufd done x more : bytes) (pos : Z) :
  bufd = done ++ x ++ more -> pos = len done ->
  py_slice bufd pos (pos + len x) = x.
Proof. intros -> ->. apply py_slice_token. Qed.

(** A whole string with its length is under the cursor: it is read, its
    bytes are saved and the cursor moves past it. *)
Lemma copy_string {A} (K : bytes -> M A) (bufd done nl s more : bytes) (pos : Z)
  sch cod out :
  bufd = done ++ (nl ++ s) ++ more -> pos = len done -> numberb nl (len s) = true ->
  ('(s', used) <- read_at _read_bytes ;; save_used used ;; bused_add used ;; K s')%meth
    (meta_state bufd pos sch cod out)
  = K s (meta_state bufd (pos + len (nl ++ s)) sch cod (out ++ nl ++ s)).
Proof.
  intros Hb Hp Hs. unfold mbind at 1. rewrite (read_at_state _ _ _ _ _ _ _ _ Hb Hp).
  rewrite read_bytes_number by assumption.
  unfold meta_state. msimpl. rewrite (slice_at _ _ _ _ _ Hb Hp). reflexivity.
Qed.

Lemma copy_string_short {A} (K : bytes -> M A) (bufd done nl s avail : bytes) (pos : Z)
  sch cod out :
  bufd = done ++ avail -> pos = len done -> numberb nl (len s) = true ->
  short_of avail (nl ++ s) ->
  ('(s', used) <- read_at _read_bytes ;; save_used used ;; bused_add used ;; K s')%meth
    (meta_state bufd pos sch cod out)
  = (Raise AvroInsufficientDataException, meta_state bufd pos sch cod out).
Proof.
  intros Hb Hp Hs Hshort. unfold mbind at 1.
  rewrite (read_at_state _ _ _ _ _ _ _ _ Hb Hp).
  rewrite (read_bytes_number_short _ _ _ Hs Hshort). reflexivity.
Qed.

Lemma copy_number {A} (K : Z -> M A) (bufd done enc more : bytes) (v pos : Z)
  sch cod out :
  bufd = done ++ enc ++ more -> pos = len done -> numberb enc v = true ->
  ('(v', used) <- read_at _read_long ;; save_used used ;; bused_add used ;; K v')%meth
    (meta_state bufd pos sch cod out)
  = K v (meta_state bufd (pos + len enc) sch cod (out ++ enc)).
Proof.
  intros Hb Hp Hs. unfold mbind at 1. rewrite (read_at_state _ _ _ _ _ _ _ _ Hb Hp).
  rewrite (number_complete enc more v Hs).
  unfold meta_state. msimpl. rewrite (slice_at _ _ _ _ _ Hb Hp). reflexivity.
Qed.

Lemma copy_number_short {A} (K : Z -> M A) (bufd done enc avail : bytes) (v pos : Z)
  sch cod out :
  bufd = done ++ avail -> pos = len done -> numberb enc v = true ->
  short_of avail enc ->
  ('(v', used) <- read_at _read_long ;; save_used used ;; bused_add used ;; K v')%meth
    (meta_state bufd pos sch cod out)
  = (Raise AvroInsufficientDataException, meta_state bufd pos sch cod out).
Proof.
  intros Hb Hp Hs Hshort. unfold mbind at 1.
  rewrite (read_at_state _ _ _ _ _ _ _ _ Hb Hp).
  rewrite (number_short _ _ _ Hs Hshort). reflexivity.
Qed.

End Tokens.

(** ** The metadata, token by token *)

Section Walking.

Variable L : Libs.
Variable T : Transform.

Lemma loop_rest_entry (f n : nat) (p : parser) :
  loop_rest L T f (S n) p =
    match metadata_entry L T p with
    | (Ok _, p') => loop_rest L T f n p'
    | (Raise e, p') => (Raise e, p')
    end.
Proof.
  unfold loop_rest. cbn [repeat_m]. unfold mbind at 1 2.
  destruct (metadata_entry L T p) as [[[]|e] p']; reflexivity.
Qed.

Lemma loop_rest_count (f : nat) (p : parser) :
  loop_rest L T f 0 p =
    ('(block_count, used) <- read_at _read_long ;;
     save_used used ;;
     bused_add used ;;
     metadata_loop L T f block_count)%meth p.
Proof. reflexivity. Qed.

Lemma metadata_loop_closed (f : nat) (p : parser) : metadata_loop L T f 0 p = (Ok tt, p).
Proof. destruct f; reflexivity. Qed.

Lemma metadata_loop_nonzero (f : nat) (n : Z) (p : parser) :
  n <> 0 ->
  metadata_loop L T (S f) n p =
    match xrange L n with
    | Ok k => loop_rest L T f k p
    | Raise e => (Raise e, p)
    end.
Proof.
  intros Hn. cbn [metadata_loop].
  replace (n =? 0) with false by (symmetry; apply Z.eqb_neq; exact Hn).
  unfold mbind at 1, lift. destruct (xrange L n); reflexivity.
Qed.

(** A whole entry is under the cursor. *)
Lemma entry_whole (klen key vlen val bufd done more : bytes) (pos : Z) sch cod out :
  numberb klen (len key) = true -> numberb vlen (len val) = true ->
  bufd = done ++ (klen ++ key ++ vlen ++ val) ++ more -> pos = len done ->
  match entry_saved L T key vlen val with
  | Ok text =>
      metadata_entry L T (meta_state bufd pos sch cod out)
      = (Ok tt,
         meta_state bufd (pos + len (klen ++ key ++ vlen ++ val))
           (fst (attrs_after_token L T (MEntry klen key vlen val) (sch, cod)))
           (snd (attrs_after_token L T (MEntry klen key vlen val) (sch, cod)))
           (out ++ (klen ++ key) ++ text))
  | Raise e =>
      fst (metadata_entry L T (meta_state bufd pos sch cod out)) = Raise e
  end.
Proof.
  intros Hk Hv Hb Hp.
  assert (Hb1 : bufd = done ++ (klen ++ key) ++ (vlen ++ val) ++ more)
    by (rewrite Hb, <- !app_assoc; reflexivity).
  assert (Hb2 : bufd = (done ++ klen ++ key) ++ (vlen ++ val) ++ more)
    by (rewrite Hb, <- !app_assoc; reflexivity).
  assert (Hp2 : pos + len (klen ++ key) = len (done ++ klen ++ key))
    by (rewrite !len_app; lia).
  assert (Hlen : pos + len (klen ++ key) + len (vlen ++ val)
                 = pos + len (klen ++ key ++ vlen ++ val))
    by (rewrite !len_app; lia).
  unfold metadata_entry.
  rewrite (copy_string _ bufd done klen key _ pos sch cod out Hb1 Hp Hk).
  unfold entry_saved, attrs_after_token. cbn [fst snd].
  destruct (bytes_eqb key (bstr "avro.codec")).
  { cbv iota. unfold _read_avro_codec, mbind at 1.
    rewrite (read_at_state _ _ _ _ _ _ _ _ Hb2 Hp2).
    rewrite read_bytes_number by assumption.
    mstate. rewrite (slice_at _ _ _ _ _ Hb2 Hp2). rewrite <- Hlen.
    same_parser. }
  destruct (bytes_eqb key (bstr "avro.schema")).
  { match goal with
    | |- context [_read_avro_schema L T ?s] =>
        remember (_read_avro_schema L T s) as run eqn:Hrun
    end.
    unfold _read_avro_schema, mbind at 1 in Hrun.
    rewrite (read_at_state _ _ _ _ _ _ _ _ Hb2 Hp2) in Hrun.
    rewrite read_bytes_number in Hrun by assumption.
    subst run. unfold schema_step.
    destruct (json_loads L val) as [j|e]; mstate; [|reflexivity].
    destruct (py_dict j) as [d|e]; mstate; [|reflexivity].
    destruct (py_contains j "fields") as [[|]|e]; mstate; [| |reflexivity].
    - destruct (py_getitem j "fields") as [fields|e]; mstate; [|reflexivity].
      destruct (_parse_schema_fields T fields) as [newfields|e]; mstate; [|reflexivity].
      destruct (py_setitem j "fields" newfields) as [j'|e]; mstate; [|reflexivity].
      destruct (_encode_long (len (json_dumps L j'))) as [enc|e]; mstate; [|reflexivity].
      rewrite <- Hlen. same_parser.
    - destruct (_encode_long (len (json_dumps L j))) as [enc|e]; mstate; [|reflexivity].
      rewrite <- Hlen. same_parser. }
  cbv iota. unfold mbind at 1.
  rewrite (read_at_state _ _ _ _ _ _ _ _ Hb2 Hp2).
  rewrite read_bytes_number by assumption.
  mstate. rewrite (slice_at _ _ _ _ _ Hb2 Hp2). rewrite <- Hlen. same_parser.
Qed.

(** Only a part of an entry is under the cursor. *)
Lemma entry_short (klen key vlen val bufd done avail : bytes) (pos : Z) sch cod out :
  numberb klen (len key) = true -> numberb vlen (len val) = true ->
  bufd = done ++ avail -> pos = len done ->
  short_of avail (klen ++ key ++ vlen ++ val) ->
  exists p',
    metadata_entry L T (meta_state bufd pos sch cod out)
    = (Raise AvroInsufficientDataException, p') /\
    schema p' = sch /\ codec p' = cod.
Proof.
  intros Hk Hv Hb Hp Hshort.
  replace (klen ++ key ++ vlen ++ val) with ((klen ++ key) ++ (vlen ++ val)) in Hshort
    by (rewrite <- !app_assoc; reflexivity).
  unfold metadata_entry.
  destruct (short_of_app _ _ _ Hshort) as [H|(avail' & -> & H)].
  { rewrite (copy_string_short _ bufd done klen key avail pos sch cod out Hb Hp Hk H).
    eexists. split; [reflexivity|]. split; reflexivity. }
  assert (Hb1 : bufd = done ++ (klen ++ key) ++ avail') by exact Hb.
  rewrite (copy_string _ bufd done klen key avail' pos sch cod out Hb1 Hp Hk).
  assert (Hb2 : bufd = (done ++ klen ++ key) ++ avail')
    by (rewrite Hb, <- !app_assoc; reflexivity).
  assert (Hp2 : pos + len (klen ++ key) = len (done ++ klen ++ key))
    by (rewrite !len_app; lia).
  destruct (bytes_eqb key (bstr "avro.codec")); [|destruct (bytes_eqb key (bstr "avro.schema"))].
  - unfold _read_avro_codec, mbind at 1.
    rewrite (read_at_state _ _ _ _ _ _ _ _ Hb2 Hp2).
    rewrite (read_bytes_number_short _ _ _ Hv H).
    eexists. split; [reflexivity|]. split; reflexivity.
  - unfold _read_avro_schema, mbind at 1.
    rewrite (read_at_state _ _ _ _ _ _ _ _ Hb2 Hp2).
    rewrite (read_bytes_number_short _ _ _ Hv H).
    eexists. split; [reflexivity|]. split; reflexivity.
  - unfold mbind at 1.
    rewrite (read_at_state _ _ _ _ _ _ _ _ Hb2 Hp2).
    rewrite (read_bytes_number_short _ _ _ Hv H).
    eexists. split; [reflexivity|]. split; reflexivity.
Qed.

Lemma attrs_after_cons (t : mtoken) (toks : list mtoken) a :
  attrs_after L T (t :: toks) a = attrs_after L T toks (attrs_after_token L T t a).
Proof. reflexivity. Qed.

Lemma attrs_after_app (t1 t2 : list mtoken) a :
  attrs_after L T (t1 ++ t2) a = attrs_after L T t2 (attrs_after L T t1 a).
Proof. unfold attrs_after. apply fold_left_app. Qed.

Lemma metadata_bytes_cons (t : mtoken) (toks : list mtoken) :
  metadata_bytes (t :: toks) = mtoken_bytes t ++ metadata_bytes toks.
Proof. reflexivity. Qed.

Lemma not_short_of_nil {A} (avail : list A) : ~ short_of avail [].
Proof.
  intros H. apply short_of_len in H. change (len (@nil A)) with 0 in H.
  pose proof (len_nonneg avail). lia.
Qed.

(** All the tokens are in the buffer, from the cursor on. *)
Lemma walk_whole (toks : list mtoken) :
  forall pending f out bufd done more pos sch cod w,
    metadata_walk L T toks pending f out = Some w ->
    bufd = done ++ metadata_bytes toks ++ more -> pos = len done ->
    match w with
    | Closed out' =>
        loop_rest L T f pending (meta_state bufd pos sch cod out)
        = (Ok tt,
           meta_state bufd (pos + len (metadata_bytes toks))
             (fst (attrs_after L T toks (sch, cod)))
             (snd (attrs_after L T toks (sch, cod))) out')
    | Stopped e =>
        fst (loop_rest L T f pending (meta_state bufd pos sch cod out)) = Raise e
    end.
Proof.
  induction toks as [|t toks IH]; intros pending f out bufd done more pos sch cod w Hw Hb Hp;
    [discriminate|].
  rewrite metadata_bytes_cons, <- app_assoc in Hb.
  destruct t as [enc n|klen key vlen val]; cbn [metadata_walk mtoken_bytes] in *.
  - destruct pending as [|pending]; [|discriminate].
    destruct (numberb enc n) eqn:Hn; cbn [negb] in Hw; [|discriminate].
    rewrite loop_rest_count.
    rewrite (copy_number _ bufd done enc _ n pos sch cod out Hb Hp Hn).
    destruct (Z.eqb_spec n 0) as [->|Hnz].
    + destruct toks; [|discriminate]. injection Hw as <-.
      rewrite metadata_loop_closed. rewrite metadata_bytes_cons.
      cbn [metadata_bytes map concat mtoken_bytes attrs_after fold_left
           attrs_after_token fst snd].
      rewrite app_nil_r. reflexivity.
    + destruct f as [|f]; [discriminate|].
      rewrite (metadata_loop_nonzero f n _ Hnz).
      destruct (xrange L n) as [k|e].
      * assert (Hb2 : bufd = (done ++ enc) ++ metadata_bytes toks ++ more)
          by (rewrite Hb, <- app_assoc; reflexivity).
        assert (Hp2 : pos + len enc = len (done ++ enc)) by (rewrite len_app; lia).
        pose proof (IH k f (out ++ enc) bufd (done ++ enc) more (pos + len enc)
                       sch cod w Hw Hb2 Hp2) as H.
        destruct w as [out'|e]; [|exact H].
        rewrite H, metadata_bytes_cons, attrs_after_cons.
        cbn [attrs_after_token mtoken_bytes]. same_parser.
      * destruct toks; [|discriminate]. injection Hw as <-. reflexivity.
  - destruct pending as [|pending]; [discriminate|].
    destruct (numberb klen (len key)) eqn:Hk; cbn [andb negb] in Hw; [|discriminate].
    destruct (numberb vlen (len val)) eqn:Hv; cbn [andb negb] in Hw; [|discriminate].
    rewrite loop_rest_entry.
    pose proof (entry_whole klen key vlen val bufd done (metadata_bytes toks ++ more)
                  pos sch cod out Hk Hv Hb Hp) as He.
    destruct (entry_saved L T key vlen val) as [text|e].
    + rewrite He.
      assert (Hb2 : bufd = (done ++ klen ++ key ++ vlen ++ val)
                           ++ metadata_bytes toks ++ more)
        by (rewrite Hb, <- !app_assoc; reflexivity).
      assert (Hp2 : pos + len (klen ++ key ++ vlen ++ val)
                    = len (done ++ klen ++ key ++ vlen ++ val))
        by (rewrite (len_app done); lia).
      pose proof (IH pending f (out ++ (klen ++ key) ++ text) bufd _ more _
                     (fst (attrs_after_token L T (MEntry klen key vlen val) (sch, cod)))
                     (snd (attrs_after_token L T (MEntry klen key vlen val) (sch, cod)))
                     w Hw Hb2 Hp2) as H.
      destruct w as [out'|e]; [|exact H].
      rewrite H, metadata_bytes_cons, attrs_after_cons.
      rewrite <- surjective_pairing. cbn [mtoken_bytes]. same_parser.
    + destruct toks; [|discriminate]. injection Hw as <-.
      destruct (metadata_entry L T _) as [r p']. cbn [fst] in He. subst r. reflexivity.
Qed.

(** Only a part of the tokens is in the buffer. *)
Lemma walk_short (toks : list mtoken) :
  forall pending f out bufd done avail pos sch cod w,
    metadata_walk L T toks pending f out = Some w ->
    bufd = done ++ avail -> pos = len done ->
    short_of avail (metadata_bytes toks) ->
    exists p' t1 t2,
      loop_rest L T f pending (meta_state bufd pos sch cod out)
      = (Raise AvroInsufficientDataException, p') /\
      toks = t1 ++ t2 /\
      schema p' = fst (attrs_after L T t1 (sch, cod)) /\
      codec p' = snd (attrs_after L T t1 (sch, cod)).
Proof.
  induction toks as [|t toks IH];
    intros pending f out bufd done avail pos sch cod w Hw Hb Hp Hshort;
    [discriminate|].
  rewrite metadata_bytes_cons in Hshort.
  destruct t as [enc n|klen key vlen val]; cbn [metadata_walk mtoken_bytes] in *.
  - destruct pending as [|pending]; [|discriminate].
    destruct (numberb enc n) eqn:Hn; cbn [negb] in Hw; [|discriminate].
    rewrite loop_rest_count.
    destruct (short_of_app _ _ _ Hshort) as [H|(avail' & -> & H)].
    { rewrite (copy_number_short _ bufd done enc avail n pos sch cod out Hb Hp Hn H).
      eexists _, [], _. split; [reflexivity|]. split; [reflexivity|].
      split; reflexivity. }
    rewrite (copy_number _ bufd done enc avail' n pos sch cod out Hb Hp Hn).
    destruct (Z.eqb_spec n 0) as [->|Hnz].
    { destruct toks; [|discriminate]. exfalso. exact (not_short_of_nil _ H). }
    destruct f as [|f]; [discriminate|].
    rewrite (metadata_loop_nonzero f n _ Hnz).
    destruct (xrange L n) as [k|e].
    + assert (Hb2 : bufd = (done ++ enc) ++ avail')
        by (rewrite Hb, <- app_assoc; reflexivity).
      assert (Hp2 : pos + len enc = len (done ++ enc)) by (rewrite len_app; lia).
      destruct (IH k f (out ++ enc) bufd (done ++ enc) avail' (pos + len enc)
                   sch cod w Hw Hb2 Hp2 H) as (p' & t1 & t2 & Hrun & -> & Hs & Hc).
      exists p', (MCount enc n :: t1), t2. split; [exact Hrun|].
      split; [reflexivity|]. rewrite attrs_after_cons. cbn [attrs_after_token].
      split; assumption.
    + destruct toks; [|discriminate]. exfalso. exact (not_short_of_nil _ H).
  - destruct pending as [|pending]; [discriminate|].
    destruct (numberb klen (len key)) eqn:Hk; cbn [andb negb] in Hw; [|discriminate].
    destruct (numberb vlen (len val)) eqn:Hv; cbn [andb negb] in Hw; [|discriminate].
    rewrite loop_rest_entry.
    destruct (short_of_app _ _ _ Hshort) as [H|(avail' & -> & H)].
    { destruct (entry_short klen key vlen val bufd done avail pos sch cod out
                  Hk Hv Hb Hp H) as (p' & -> & Hs & Hc).
      exists p', [], (MEntry klen key vlen val :: toks).
      split; [reflexivity|]. split; [reflexivity|]. split; assumption. }
    pose proof (entry_whole klen key vlen val bufd done avail'
                  pos sch cod out Hk Hv Hb Hp) as He.
    destruct (entry_saved L T key vlen val) as [text|e].
    + rewrite He.
      assert (Hb2 : bufd = (done ++ klen ++ key ++ vlen ++ val) ++ avail')
        by (rewrite Hb, <- !app_assoc; reflexivity).
      assert (Hp2 : pos + len (klen ++ key ++ vlen ++ val)
                    = len (done ++ klen ++ key ++ vlen ++ val))
        by (rewrite (len_app done); lia).
      destruct (IH pending f (out ++ (klen ++ key) ++ text) bufd _ avail' _
                   (fst (attrs_after_token L T (MEntry klen key vlen val) (sch, cod)))
                   (snd (attrs_after_token L T (MEntry klen key vlen val) (sch, cod)))
                   w Hw Hb2 Hp2 H) as (p' & t1 & t2 & Hrun & -> & Hs & Hc).
      exists p', (MEntry klen key vlen val :: t1), t2. split; [exact Hrun|].
      split; [reflexivity|]. rewrite <- surjective_pairing in Hs, Hc.
      rewrite attrs_after_cons. split; assumption.
    + destruct toks; [|discriminate]. exfalso. exact (not_short_of_nil _ H).
Qed.

End Walking.

(** ** The step on each item of a stream *)

Lemma py_slice_prefix {A} (s more : list A) (i j : Z) :
  0 <= i <= len s -> 0 <= j <= len s ->
  py_slice (s ++ more) i j = py_slice s i j.
Proof.
  intros Hi Hj. pose proof (len_nonneg more) as Hm.
  unfold py_slice. rewrite len_app, !py_index_in_range by lia.
  rewrite skipn_app, firstn_app.
  replace (Z.to_nat (j - i) - List.length (skipn (Z.to_nat i) s))%nat with O.
  - cbn [firstn]. apply app_nil_r.
  - rewrite length_skipn. unfold len in *. lia.
Qed.

Section ItemSteps.

Variable L : Libs.
Variable T : Transform.
Variable fuel : nat.

(** *** The attributes that a step leaves alone *)

Lemma keeps_codec_header : keeps codec _parse_header_magic.
Proof. unfold _parse_header_magic. keeps_tac. Qed.

Lemma keeps_codec_block : keeps codec (_parse_data_block L T).
Proof.
  pose proof (keeps_codec_block_body L T). pose proof keeps_codec_sync.
  unfold _parse_data_block. keeps_tac.
Qed.

Lemma step_keeps_attrs (p : parser) :
  state p <> AVRO_HEADER_FILE_METADATA ->
  schema (snd (_parse_next_item L T fuel p)) = schema p /\
  codec (snd (_parse_next_item L T fuel p)) = codec p.
Proof.
  intros Hs. unfold _parse_next_item.
  destruct (state p =? AVRO_HEADER_MAGIC).
  { split; [apply keeps_schema_header|apply keeps_codec_header]. }
  destruct (Z.eqb_spec (state p) AVRO_HEADER_FILE_METADATA) as [E|_]; [contradiction|].
  destruct (state p =? AVRO_SYNC_MARKER).
  { split; [apply keeps_schema_sync|apply keeps_codec_sync]. }
  destruct (state p =? AVRO_START_DATABLOCK).
  { split; [apply keeps_schema_block|apply keeps_codec_block]. }
  split; reflexivity.
Qed.

Lemma at_reader_refilled (q : reader) (p : parser) (x : bytes) :
  r_state q <> AVRO_HEADER_FILE_METADATA ->
  at_reader q p ->
  fst (_parse_next_item L T fuel p) = Raise AvroInsufficientDataException ->
  at_reader q (refilled L T fuel p [x]).
Proof.
  intros Hq (Hs & Hm & Hsch & Hcod) Hstep.
  destruct (refilled_attrs L T fuel p x Hstep) as (Rs & Rm & Rsch & Rcod).
  destruct (step_keeps_attrs p) as (Ks & Kc); [rewrite Hs; exact Hq|].
  unfold at_reader. rewrite Rs, Rm, Rsch, Rcod, Ks, Kc. auto.
Qed.

(** *** The header magic *)

Lemma magic_whole (p : parser) (m more : bytes) :
  state p = AVRO_HEADER_MAGIC -> buffer_is p (m ++ more) -> len m = 4 ->
  if negb (bytes_eqb m header_magic)
  then fst (_parse_next_item L T fuel p)
       = Raise (AvroParsingFailureException InvalidHeaderMagic)
  else exists p',
      _parse_next_item L T fuel p = (Ok m, p') /\
      state p' = AVRO_HEADER_FILE_METADATA /\ syncmarker p' = syncmarker p /\
      schema p' = schema p /\ codec p' = codec p /\ buffer_is p' more.
Proof.
  intros Hs (Hb & Hl) Hlen.
  unfold _parse_next_item. rewrite Hs. cbn [Z.eqb AVRO_HEADER_MAGIC Pos.eqb].
  unfold _parse_header_magic, mbind, modify. msimpl.
  rewrite Hl, Hb, len_app, Hlen. pose proof (len_nonneg more).
  replace (4 + len more - 0 <? 4) with false by (symmetry; apply Z.ltb_ge; lia).
  pose proof (py_slice_token [] m more) as E. cbn [app] in E.
  change (len (@nil byte)) with 0 in E. rewrite Hlen in E.
  assert (E1 : py_slice (m ++ more) 0 (4 + 0) = m) by exact E.
  assert (E3 : py_slice_from (m ++ more) (0 + 4) = more)
    by (rewrite <- Hlen; apply (py_slice_from_token m more)).
  rewrite E1. destruct (negb (bytes_eqb m header_magic)); [reflexivity|].
  msimpl. rewrite E, E3.
  eexists. split; [reflexivity|].
  unfold buffer_is. msimpl. repeat split; try reflexivity. rewrite ?len_app. lia.
Qed.

Lemma magic_short (p : parser) (m avail : bytes) :
  state p = AVRO_HEADER_MAGIC -> buffer_is p avail -> len m = 4 ->
  short_of avail m ->
  fst (_parse_next_item L T fuel p) = Raise AvroInsufficientDataException.
Proof.
  intros Hs (Hb & Hl) Hlen Hshort. apply short_of_len in Hshort.
  unfold _parse_next_item. rewrite Hs. cbn [Z.eqb AVRO_HEADER_MAGIC Pos.eqb].
  unfold _parse_header_magic, mbind, modify. msimpl. rewrite Hl.
  replace (len avail - 0 <? 4) with true by (symmetry; apply Z.ltb_lt; lia).
  reflexivity.
Qed.

(** *** The first sync marker *)

Lemma marker_whole (p : parser) (m more : bytes) :
  state p = AVRO_SYNC_MARKER -> syncmarker p = None ->
  buffer_is p (m ++ more) -> len m = 16 ->
  exists p',
    _parse_next_item L T fuel p = (Ok m, p') /\
    state p' = AVRO_START_DATABLOCK /\ syncmarker p' = Some m /\
    schema p' = schema p /\ codec p' = codec p /\ buffer_is p' more.
Proof.
  intros Hs Hm (Hb & Hl) Hlen.
  unfold _parse_next_item. rewrite Hs.
  cbn [Z.eqb AVRO_HEADER_MAGIC AVRO_HEADER_FILE_METADATA AVRO_SYNC_MARKER Pos.eqb].
  unfold _parse_sync_marker. rewrite Hl, Hm, Hb, len_app.
  pose proof (len_nonneg more).
  replace (len m + len more <? 16) with false by (symmetry; apply Z.ltb_ge; lia).
  assert (Hto : py_slice_to (m ++ more) 16 = m)
    by (rewrite <- Hlen; apply py_slice_to_token).
  assert (Hfrom : py_slice_from (m ++ more) 16 = more)
    by (rewrite <- Hlen; apply py_slice_from_token).
  rewrite Hto. msimpl. rewrite Hb, Hl, Hfrom.
  eexists. split; [reflexivity|].
  unfold buffer_is. msimpl. repeat split; try reflexivity. rewrite ?len_app. lia.
Qed.

Lemma marker_short (p : parser) (m avail : bytes) :
  state p = AVRO_SYNC_MARKER -> buffer_is p avail -> len m = 16 ->
  short_of avail m ->
  fst (_parse_next_item L T fuel p) = Raise AvroInsufficientDataException.
Proof.
  intros Hs (Hb & Hl) Hlen Hshort. apply short_of_len in Hshort.
  unfold _parse_next_item. rewrite Hs.
  cbn [Z.eqb AVRO_HEADER_MAGIC AVRO_HEADER_FILE_METADATA AVRO_SYNC_MARKER Pos.eqb].
  unfold _parse_sync_marker. rewrite Hl.
  replace (len avail <? 16) with true by (symmetry; apply Z.ltb_lt; lia).
  reflexivity.
Qed.

(** *** The metadata *)

Lemma metadata_first (p : parser) (enc rest : bytes) (n : Z) :
  awaiting_metadata p -> buffer_is p (enc ++ rest) -> numberb enc n = true ->
  _parse_file_metadata L T fuel p =
    match metadata_loop L T fuel n
            (meta_state (enc ++ rest) (len enc) (schema p) (codec p) enc) with
    | (Ok _, p1) =>
        (Ok (saved p1),
         set_state AVRO_SYNC_MARKER
           (set_blen (blen p1 - bused p1)
              (set_buffered (py_slice_from (buffered p1) (bused p1)) p1)))
    | (Raise e, p1) => (Raise e, p1)
    end.
Proof.
  intros Hpre Hbuf Hn.
  unfold _parse_file_metadata. unfold mbind at 1, modify at 1.
  unfold mbind at 1, modify at 1.
  rewrite (meta_state_start p _ Hpre Hbuf).
  unfold mbind at 1. cbn [meta_state buffered blen].
  rewrite (number_complete enc rest n Hn).
  unfold mbind at 1. unfold modify at 1. unfold mbind at 1.
  unfold bused_add at 1, modify at 1. unfold mbind at 1.
  match goal with
  | |- context [metadata_loop L T fuel n ?st] =>
      replace st with (meta_state (enc ++ rest) (len enc) (schema p) (codec p) enc)
  end.
  2:{ unfold meta_state. mstate. rewrite py_slice_to_token. reflexivity. }
  destruct (metadata_loop L T fuel n _) as [[[]|e] p1]; reflexivity.
Qed.

Lemma parse_next_item_metadata (p : parser) :
  state p = AVRO_HEADER_FILE_METADATA ->
  _parse_next_item L T fuel p = _parse_file_metadata L T fuel p.
Proof. intros E. unfold _parse_next_item. rewrite E. reflexivity. Qed.

(** The whole metadata is at the head of the buffer. *)
Lemma metadata_whole (p : parser) (toks : list mtoken) (more : bytes) (w : walked) :
  awaiting_metadata p -> buffer_is p (metadata_bytes toks ++ more) ->
  metadata_walk L T toks 0 fuel [] = Some w ->
  match w with
  | Closed out =>
      exists p',
        _parse_next_item L T fuel p = (Ok out, p') /\
        state p' = AVRO_SYNC_MARKER /\ syncmarker p' = None /\
        schema p' = fst (attrs_after L T toks (schema p, codec p)) /\
        codec p' = snd (attrs_after L T toks (schema p, codec p)) /\
        buffer_is p' more
  | Stopped e => fst (_parse_next_item L T fuel p) = Raise e
  end.
Proof.
  intros Hpre Hbuf Hw. rewrite (parse_next_item_metadata p (proj1 Hpre)).
  destruct toks as [|[enc n|klen key vlen val] toks]; cbn [metadata_walk] in Hw;
    try discriminate.
  destruct (numberb enc n) eqn:Hn; cbn [negb] in Hw; [|discriminate].
  rewrite metadata_bytes_cons in Hbuf. cbn [mtoken_bytes] in Hbuf.
  rewrite <- app_assoc in Hbuf.
  rewrite (metadata_first p enc _ n Hpre Hbuf Hn).
  destruct (Z.eqb_spec n 0) as [->|Hnz].
  - destruct toks; [|discriminate]. injection Hw as <-.
    rewrite metadata_loop_closed. cbn [app].
    eexists. split; [reflexivity|]. unfold buffer_is, meta_state. msimpl.
    cbn [metadata_bytes map concat app].
    rewrite py_slice_from_token. repeat split; try reflexivity.
    rewrite !len_app. change (len (@nil byte)) with 0. lia.
  - destruct fuel as [|f]; [discriminate|].
    rewrite (metadata_loop_nonzero L T f n _ Hnz).
    destruct (xrange L n) as [k|e].
    + pose proof (walk_whole L T toks k f ([] ++ enc) (enc ++ metadata_bytes toks ++ more)
                    enc more (len enc) (schema p) (codec p) w Hw eq_refl eq_refl) as H.
      cbn [app] in H. destruct w as [out|e].
      * rewrite H. eexists. split; [reflexivity|]. unfold buffer_is, meta_state. msimpl.
        rewrite attrs_after_cons. cbn [attrs_after_token].
        repeat split; try reflexivity.
        -- rewrite app_assoc, <- len_app. apply py_slice_from_token.
        -- rewrite !len_app. lia.
      * destruct (loop_rest L T f k _) as [r p1]. cbn [fst] in H. subst r. reflexivity.
    + destruct toks; [|discriminate]. injection Hw as <-. reflexivity.
Qed.

(** Only a part of the metadata is buffered. *)
Lemma metadata_short (p : parser) (toks : list mtoken) (avail : bytes) (w : walked) :
  awaiting_metadata p -> buffer_is p avail ->
  metadata_walk L T toks 0 fuel [] = Some w ->
  short_of avail (metadata_bytes toks) ->
  fst (_parse_next_item L T fuel p) = Raise AvroInsufficientDataException /\
  exists t1 t2,
    toks = t1 ++ t2 /\
    schema (snd (_parse_next_item L T fuel p))
    = fst (attrs_after L T t1 (schema p, codec p)) /\
    codec (snd (_parse_next_item L T fuel p))
    = snd (attrs_after L T t1 (schema p, codec p)).
Proof.
  intros Hpre Hbuf Hw Hshort. rewrite (parse_next_item_metadata p (proj1 Hpre)).
  destruct toks as [|[enc n|klen key vlen val] toks]; cbn [metadata_walk] in Hw;
    try discriminate.
  destruct (numberb enc n) eqn:Hn; cbn [negb] in Hw; [|discriminate].
  rewrite metadata_bytes_cons in Hshort. cbn [mtoken_bytes] in Hshort.
  destruct (short_of_app _ _ _ Hshort) as [H|(avail' & -> & H)].
  { assert (E : _parse_file_metadata L T fuel p
                = (Raise AvroInsufficientDataException,
                   meta_state avail 0 (schema p) (codec p) [])).
    { unfold _parse_file_metadata. unfold mbind at 1, modify at 1.
      unfold mbind at 1, modify at 1.
      rewrite (meta_state_start p _ Hpre Hbuf).
      unfold mbind at 1. cbn [meta_state buffered blen].
      rewrite (number_short enc avail n Hn H). reflexivity. }
    rewrite E. cbn [fst snd meta_state schema codec].
    split; [reflexivity|]. exists [], (MCount enc n :: toks).
    repeat split; reflexivity. }
  rewrite (metadata_first p enc _ n Hpre Hbuf Hn).
  destruct (Z.eqb_spec n 0) as [->|Hnz].
  { destruct toks; [|discriminate]. exfalso. exact (not_short_of_nil _ H). }
  destruct fuel as [|f]; [discriminate|].
  rewrite (metadata_loop_nonzero L T f n _ Hnz).
  destruct (xrange L n) as [k|e].
  - destruct (walk_short L T toks k f ([] ++ enc) (enc ++ avail') enc avail' (len enc)
                (schema p) (codec p) w Hw eq_refl eq_refl H)
      as (p' & t1 & t2 & Hrun & -> & Hs & Hc).
    cbn [app] in Hrun. rewrite Hrun. cbn [fst snd]. split; [reflexivity|].
    exists (MCount enc n :: t1), t2. split; [reflexivity|].
    rewrite attrs_after_cons. cbn [attrs_after_token]. split; assumption.
  - destruct toks; [|discriminate]. exfalso. exact (not_short_of_nil _ H).
Qed.

(** What the tokens do to the attributes does not depend on what a part of
    them has done before. *)
Lemma attrs_after_shape (toks : list mtoken) :
  exists (fs : option pydict) (fc : option (option bytes)),
    forall a,
      attrs_after L T toks a
      = (match fs with Some d => d | None => fst a end,
         match fc with Some c => c | None => snd a end).
Proof.
  induction toks as [|t toks (fs & fc & IH)].
  - exists None, None. intros [s c]. reflexivity.
  - assert (Ht : exists fs0 fc0, forall a,
                 attrs_after_token L T t a
                 = (match fs0 with Some d => d | None => fst a end,
                    match fc0 with Some c => c | None => snd a end)).
    { destruct t as [enc n|klen key vlen val]; cbn [attrs_after_token].
      - exists None, None. intros [s c]. reflexivity.
      - destruct (bytes_eqb key (bstr "avro.codec")).
        { exists None, (Some (Some val)). intros [s c]. reflexivity. }
        destruct (bytes_eqb key (bstr "avro.schema")).
        + destruct (schema_step L T val) as [[d text]|e].
          * exists (Some d), None. intros [s c]. reflexivity.
          * exists None, None. intros [s c]. reflexivity.
        + exists None, None. intros [s c]. reflexivity. }
    destruct Ht as (fs0 & fc0 & Ht).
    exists (match fs with Some d => Some d | None => fs0 end),
           (match fc with Some c => Some c | None => fc0 end).
    intros a. rewrite attrs_after_cons, IH, Ht. cbn [fst snd].
    destruct fs, fc; reflexivity.
Qed.

Lemma attrs_after_absorb (t1 t2 : list mtoken) a :
  attrs_after L T (t1 ++ t2) (attrs_after L T t1 a) = attrs_after L T (t1 ++ t2) a.
Proof.
  rewrite !attrs_after_app. f_equal.
  destruct (attrs_after_shape t1) as (fs & fc & H). rewrite !H. cbn [fst snd].
  destruct fs, fc; reflexivity.
Qed.

(** *** A data block *)

Lemma block_ok_inv (b : block) :
  block_ok b = true ->
  numberb (b_count_enc b) (b_count b) = true /\
  numberb (b_size_enc b) (len (b_body b)) = true /\
  4 <= len (b_count_enc b) + len (b_size_enc b) + len (b_body b) /\
  len (b_marker b) = 16.
Proof.
  unfold block_ok. rewrite !andb_true_iff, Z.leb_le, Z.eqb_eq. tauto.
Qed.

Lemma block_is_framed (p : parser) (b : block) (more : bytes) :
  buffer_is p (block_bytes b ++ more) -> block_ok b = true ->
  let hdr := len (b_count_enc b) + len (b_size_enc b) in
  block_framed p (b_count b) (len (b_body b)) (len (b_count_enc b)) hdr /\
  py_slice (buffered p) hdr (hdr + len (b_body b) - 4)
  = py_slice (block_head b) hdr (hdr + len (b_body b) - 4) /\
  py_slice_to (buffered p) (len (b_count_enc b)) = b_count_enc b /\
  py_slice_from (buffered p) (hdr + len (b_body b)) = b_marker b ++ more /\
  blen p = hdr + len (b_body b) + 16 + len more.
Proof.
  intros (Hb & Hl) Hok hdr. destruct (block_ok_inv b Hok) as (Hn & Hsz & H4 & Hmk).
  set (cnt := b_count_enc b) in *. set (sz := b_size_enc b) in *.
  set (body := b_body b) in *. set (mk := b_marker b) in *.
  assert (Hwire : buffered p = cnt ++ sz ++ body ++ mk ++ more).
  { rewrite Hb. unfold block_bytes, block_head. rewrite <- !app_assoc. reflexivity. }
  pose proof (len_nonneg body) as Hp0. pose proof (len_nonneg more) as Hm0.
  pose proof (len_nonneg cnt) as Hc0. pose proof (len_nonneg sz) as Hs0.
  assert (Hbl : blen p = len cnt + len sz + len body + 16 + len more).
  { rewrite Hl, <- Hb, Hwire, !len_app. lia. }
  split; [|split; [|split; [|split]]].
  - exists (len sz). split; [|split; [|split; [reflexivity|unfold hdr; lia]]].
    + rewrite Hl, <- Hb, Hwire. apply number_complete, Hn.
    + rewrite Hwire, py_slice_from_token.
      replace (blen p - len cnt) with (len (sz ++ body ++ mk ++ more))
        by (rewrite !len_app; lia).
      apply number_complete, Hsz.
  - rewrite Hb. unfold block_bytes. rewrite <- app_assoc.
    apply py_slice_prefix; unfold block_head; fold cnt sz body; rewrite !len_app;
      unfold hdr; lia.
  - rewrite Hwire. apply py_slice_to_token.
  - rewrite Hwire.
    replace (cnt ++ sz ++ body ++ mk ++ more) with ((cnt ++ sz ++ body) ++ mk ++ more)
      by (rewrite <- !app_assoc; reflexivity).
    replace (hdr + len body) with (len (cnt ++ sz ++ body))
      by (rewrite !len_app; unfold hdr; lia).
    apply py_slice_from_token.
  - unfold hdr. lia.
Qed.

Lemma data_block_inflate_fail (p : parser) (obj_count block_size used hdr : Z)
  (e : exn) :
  block_framed p obj_count block_size used hdr ->
  codec_is p "snappy" = true ->
  snappy_decompress L (py_slice (buffered p) hdr (hdr + block_size - 4)) = Raise e ->
  fst (data_block_body L T p) = Raise e.
Proof.
  intros (used2 & Hcount & Hsize & -> & Hlen) Hc Hd.
  unfold data_block_body. msimpl. rewrite Hcount. msimpl.
  rewrite !Z.add_0_l. rewrite Hsize. msimpl.
  match goal with
  | |- context [blen ?p <? ?x] =>
      replace (blen p <? x) with false by (symmetry; apply Z.ltb_ge; lia)
  end.
  msimpl. unfold mbind at 1. msimpl. unfold codec_is in *. msimpl.
  rewrite Hc, Hd. reflexivity.
Qed.

(** The whole block, with the 16 bytes after it, is at the head of the
    buffer. *)
Lemma block_whole (p : parser) (b : block) (marker more : bytes) :
  state p = AVRO_START_DATABLOCK -> syncmarker p = Some marker ->
  buffer_is p (block_bytes b ++ more) -> block_ok b = true ->
  match block_result L T (schema p) (codec p) marker b with
  | Ok out =>
      exists p',
        _parse_next_item L T fuel p = (Ok out, p') /\
        state p' = AVRO_START_DATABLOCK /\ syncmarker p' = Some marker /\
        schema p' = schema p /\ codec p' = codec p /\ buffer_is p' more
  | Raise e => fst (_parse_next_item L T fuel p) = Raise e
  end.
Proof.
  intros Hs Hm Hbuf Hok. rewrite (parse_next_item_block L T fuel p Hs).
  destruct (block_is_framed p b more Hbuf Hok) as (Hframed & Hslice & Hto & Hfrom & Hbl).
  destruct (block_ok_inv b Hok) as (_ & _ & _ & Hmk).
  set (hdr := len (b_count_enc b) + len (b_size_enc b)) in *.
  unfold block_result. fold hdr.
  change (codec_named (codec p) "snappy") with (codec_is p "snappy").
  change (codec_named (codec p) "deflate") with (codec_is p "deflate").
  destruct (codec_is p "snappy") eqn:Hc.
  2:{ pose proof (data_block_codec L T p _ _ _ _ Hframed Hc) as Hfail.
      destruct (codec_is p "deflate"); cbn [rbind];
        apply parse_data_block_fail; exact Hfail. }
  rewrite <- Hslice.
  destruct (snappy_decompress L _) as [inflated|e] eqn:Hd; cbn [rbind].
  2:{ apply parse_data_block_fail.
      exact (data_block_inflate_fail p _ _ _ _ e Hframed Hc Hd). }
  destruct (records_loop T (schema p) (Z.to_nat (b_count b)) inflated 0 [])
    as [reencoded|e] eqn:Hr; cbn [rbind].
  2:{ apply parse_data_block_fail.
      exact (data_block_records_fail L T p _ _ _ _ inflated e Hframed Hc Hd Hr). }
  destruct (encode_long_total (len (snappy_compress L reencoded) + 4)) as [lenb Hlenb].
  destruct (checksum_wire_ok L reencoded) as (crc & Hcrc & _).
  rewrite Hlenb. cbn [rbind].
  pose proof Hcrc as Hcrc'. unfold checksum_wire in Hcrc'. rewrite Hcrc'. cbn [rbind].
  pose proof (data_block_body_ok L T p _ _ _ _ inflated reencoded lenb crc
                Hframed Hc Hd Hr Hlenb Hcrc) as Hbody.
  assert (Hsync :
    _parse_sync_marker
      (after_block_body L p (len (b_count_enc b)) hdr (len (b_body b)) reencoded lenb crc)
    = if negb (bytes_eqb (b_marker b) marker)
      then (Raise (AvroParsingFailureException SyncMarkerMismatch),
            after_block_body L p (len (b_count_enc b)) hdr (len (b_body b))
                             reencoded lenb crc)
      else (Ok marker,
            set_state AVRO_START_DATABLOCK
              (set_blen (len more)
                 (set_buffered more
                    (after_block_body L p (len (b_count_enc b)) hdr (len (b_body b))
                                      reencoded lenb crc))))).
  { unfold _parse_sync_marker, after_block_body. cbn [blen syncmarker buffered].
    rewrite Hm, Hfrom, Hbl. pose proof (len_nonneg more).
    replace (hdr + len (b_body b) + 16 + len more - (hdr + len (b_body b)) <? 16)
      with false by (symmetry; apply Z.ltb_ge; lia).
    assert (Hto16 : py_slice_to (b_marker b ++ more) 16 = b_marker b)
      by (rewrite <- Hmk; apply py_slice_to_token).
    assert (Hfrom16 : py_slice_from (b_marker b ++ more) 16 = more)
      by (rewrite <- Hmk; apply py_slice_from_token).
    rewrite Hto16. destruct (negb (bytes_eqb (b_marker b) marker)); [reflexivity|].
    unfold set_state, set_blen, set_buffered.
    cbn [blen syncmarker buffered bused schema codec state saved].
    rewrite Hfrom16. do 3 f_equal. lia. }
  rewrite (parse_data_block_ok_body L T p _ Hbody), Hsync.
  destruct (negb (bytes_eqb (b_marker b) marker)); [reflexivity|].
  eexists. split.
  - f_equal. f_equal. unfold after_block_body. cbn [saved app]. rewrite Hto.
    rewrite <- !app_assoc. reflexivity.
  - unfold buffer_is, after_block_body. msimpl.
    repeat split; try reflexivity; assumption.
Qed.

(** Only a part of the block and of the 16 bytes after it is buffered. *)
Lemma block_short (p : parser) (b : block) (avail : bytes) :
  state p = AVRO_START_DATABLOCK -> buffer_is p avail -> block_ok b = true ->
  short_of avail (block_bytes b) ->
  fst (_parse_next_item L T fuel p) = Raise AvroInsufficientDataException.
Proof.
  intros Hs (Hbuf & Hblen) Hok Hshort. rewrite (parse_next_item_block L T fuel p Hs).
  destruct (block_ok_inv b Hok) as (Hn & Hsz & _ & Hmk).
  apply parse_data_block_fail.
  unfold block_bytes, block_head in Hshort. rewrite <- !app_assoc in Hshort.
  unfold data_block_body. msimpl. rewrite Hbuf, Hblen.
  destruct (short_of_app _ _ _ Hshort) as [H|(a1 & -> & H1)].
  { rewrite (number_short _ _ _ Hn H). reflexivity. }
  rewrite (number_complete _ a1 _ Hn). msimpl. rewrite !Z.add_0_l.
  rewrite Hbuf, Hblen, py_slice_from_token.
  replace (len (b_count_enc b ++ a1) - len (b_count_enc b)) with (len a1)
    by (rewrite len_app; lia).
  destruct (short_of_app _ _ _ H1) as [H|(a2 & -> & H2)].
  { rewrite (number_short _ _ _ Hsz H). reflexivity. }
  rewrite (number_complete _ a2 _ Hsz). msimpl. rewrite Hblen.
  apply short_of_len in H2. rewrite !len_app in *.
  match goal with
  | |- context [?a <? ?b] =>
      replace (a <? b) with true by (symmetry; apply Z.ltb_lt; lia)
  end.
  reflexivity.
Qed.

End ItemSteps.

(** ** The iteration over a stream without a negative length *)

Section Reading.

Variable L : Libs.
Variable T : Transform.
Variable fuel : nat.

Lemma at_reader_tracks (q : reader) (it : item) (p : parser) :
  at_reader q p -> tracks L T fuel q it p.
Proof.
  intros (Hs & Hm & Hsch & Hcod). destruct it; cbn [tracks]; try (repeat split; assumption).
  split; [exact Hs|]. split; [exact Hm|]. intros out _. rewrite Hsch, Hcod. reflexivity.
Qed.

Lemma phase_neq_12 : AVRO_HEADER_MAGIC <> AVRO_HEADER_FILE_METADATA.
Proof. discriminate. Qed.
Lemma phase_neq_32 : AVRO_SYNC_MARKER <> AVRO_HEADER_FILE_METADATA.
Proof. discriminate. Qed.
Lemma phase_neq_42 : AVRO_START_DATABLOCK <> AVRO_HEADER_FILE_METADATA.
Proof. discriminate. Qed.

(** Only a part of the item is buffered: the step asks for more data. *)
Lemma item_short (q : reader) (it : item) (r : res (bytes * reader)) (p : parser)
  (avail : bytes) :
  item_outcome L T fuel q it = Some r ->
  tracks L T fuel q it p -> buffer_is p avail ->
  short_of avail (item_bytes it) ->
  fst (_parse_next_item L T fuel p) = Raise AvroInsufficientDataException /\
  forall x, tracks L T fuel q it (refilled L T fuel p [x]).
Proof.
  intros Hout Htr Hbuf Hshort.
  destruct it as [m|toks|m|b]; cbn [item_outcome tracks item_bytes] in *.
  - destruct (Z.eqb_spec (r_state q) AVRO_HEADER_MAGIC) as [Hq|]; [|discriminate].
    destruct (Z.eqb_spec (len m) 4) as [Hlen|]; [|discriminate].
    pose proof Htr as (Hs & _). rewrite Hq in Hs.
    pose proof (magic_short L T fuel p m avail Hs Hbuf Hlen Hshort) as Hstep.
    split; [exact Hstep|]. intros x.
    apply at_reader_refilled; [rewrite Hq; exact phase_neq_12|exact Htr|exact Hstep].
  - destruct (r_marker q) as [|] eqn:Hqm; [discriminate|].
    destruct (Z.eqb_spec (r_state q) AVRO_HEADER_FILE_METADATA) as [Hq|]; [|discriminate].
    destruct (metadata_walk L T toks 0 fuel []) as [w|] eqn:Hw; [|discriminate].
    destruct Htr as (Hs & Hm & Hattrs). rewrite Hq in Hs.
    assert (Hpre : awaiting_metadata p) by (split; assumption).
    destruct (metadata_short L T fuel p toks avail w Hpre Hbuf Hw Hshort)
      as (Hstep & t1 & t2 & -> & Hsch & Hcod).
    split; [exact Hstep|]. intros x.
    destruct (refilled_attrs L T fuel p x Hstep) as (Rs & Rm & Rsch & Rcod).
    split; [rewrite Rs, Hs, Hq; reflexivity|]. split; [rewrite Rm; exact Hm|].
    intros out Hc. rewrite Rsch, Rcod, Hsch, Hcod, <- surjective_pairing.
    rewrite attrs_after_absorb. exact (Hattrs out Hc).
  - destruct (r_marker q) as [|] eqn:Hqm; [discriminate|].
    destruct (Z.eqb_spec (r_state q) AVRO_SYNC_MARKER) as [Hq|]; [|discriminate].
    destruct (Z.eqb_spec (len m) 16) as [Hlen|]; [|discriminate].
    pose proof Htr as (Hs & _). rewrite Hq in Hs.
    pose proof (marker_short L T fuel p m avail Hs Hbuf Hlen Hshort) as Hstep.
    split; [exact Hstep|]. intros x.
    apply at_reader_refilled; [rewrite Hq; exact phase_neq_32|exact Htr|exact Hstep].
  - destruct (r_marker q) as [marker|] eqn:Hqm; [|discriminate].
    destruct (Z.eqb_spec (r_state q) AVRO_START_DATABLOCK) as [Hq|]; [|discriminate].
    destruct (block_ok b) eqn:Hok; [|discriminate].
    pose proof Htr as (Hs & _). rewrite Hq in Hs.
    pose proof (block_short L T fuel p b avail Hs Hbuf Hok Hshort) as Hstep.
    split; [exact Hstep|]. intros x.
    apply at_reader_refilled; [rewrite Hq; exact phase_neq_42|exact Htr|exact Hstep].
Qed.

(** The whole item is at the head of the buffer: the step does what
    [item_outcome] says. *)
Lemma item_whole (q : reader) (it : item) (r : res (bytes * reader)) (p : parser)
  (more : bytes) :
  item_outcome L T fuel q it = Some r ->
  tracks L T fuel q it p -> buffer_is p (item_bytes it ++ more) ->
  match r with
  | Ok (out, q') =>
      exists p',
        _parse_next_item L T fuel p = (Ok out, p') /\
        at_reader q' p' /\ buffer_is p' more
  | Raise e => fst (_parse_next_item L T fuel p) = Raise e
  end.
Proof.
  intros Hout Htr Hbuf.
  destruct it as [m|toks|m|b]; cbn [item_outcome tracks item_bytes] in *.
  - destruct (Z.eqb_spec (r_state q) AVRO_HEADER_MAGIC) as [Hq|]; [|discriminate].
    destruct (Z.eqb_spec (len m) 4) as [Hlen|]; [|discriminate].
    cbn [andb] in Hout. injection Hout as <-.
    destruct Htr as (Hs & Hm & Hsch & Hcod). rewrite Hq in Hs.
    pose proof (magic_whole L T fuel p m more Hs Hbuf Hlen) as H.
    destruct (negb (bytes_eqb m header_magic)); [exact H|].
    destruct H as (p' & Hstep & Hs' & Hm' & Hsch' & Hcod' & Hbuf').
    exists p'. split; [exact Hstep|]. split; [|exact Hbuf'].
    unfold at_reader. cbn [r_state r_marker r_schema r_codec].
    rewrite Hs', Hm', Hsch', Hcod'. auto.
  - destruct (r_marker q) as [|] eqn:Hqm; [discriminate|].
    destruct (Z.eqb_spec (r_state q) AVRO_HEADER_FILE_METADATA) as [Hq|]; [|discriminate].
    destruct (metadata_walk L T toks 0 fuel []) as [w|] eqn:Hw; [|discriminate].
    destruct Htr as (Hs & Hm & Hattrs). rewrite Hq in Hs.
    assert (Hpre : awaiting_metadata p) by (split; assumption).
    pose proof (metadata_whole L T fuel p toks more w Hpre Hbuf Hw) as H.
    destruct w as [out|e]; injection Hout as <-; [|exact H].
    destruct H as (p' & Hstep & Hs' & Hm' & Hsch' & Hcod' & Hbuf').
    exists p'. split; [exact Hstep|]. split; [|exact Hbuf'].
    unfold at_reader. cbn [r_state r_marker r_schema r_codec].
    rewrite Hs', Hm', Hsch', Hcod', (Hattrs out eq_refl). auto.
  - destruct (r_marker q) as [|] eqn:Hqm; [discriminate|].
    destruct (Z.eqb_spec (r_state q) AVRO_SYNC_MARKER) as [Hq|]; [|discriminate].
    destruct (Z.eqb_spec (len m) 16) as [Hlen|]; [|discriminate].
    cbn [andb] in Hout. injection Hout as <-.
    destruct Htr as (Hs & Hm & Hsch & Hcod). rewrite Hq in Hs. rewrite Hqm in Hm.
    destruct (marker_whole L T fuel p m more Hs Hm Hbuf Hlen)
      as (p' & Hstep & Hs' & Hm' & Hsch' & Hcod' & Hbuf').
    exists p'. split; [exact Hstep|]. split; [|exact Hbuf'].
    unfold at_reader. cbn [r_state r_marker r_schema r_codec].
    rewrite Hs', Hm', Hsch', Hcod'. auto.
  - destruct (r_marker q) as [marker|] eqn:Hqm; [|discriminate].
    destruct (Z.eqb_spec (r_state q) AVRO_START_DATABLOCK) as [Hq|]; [|discriminate].
    destruct (block_ok b) eqn:Hok; [|discriminate].
    cbn [andb] in Hout. injection Hout as <-.
    destruct Htr as (Hs & Hm & Hsch & Hcod). rewrite Hq in Hs. rewrite Hqm in Hm.
    pose proof (block_whole L T fuel p b marker more Hs Hm Hbuf Hok) as H.
    rewrite Hsch, Hcod in H.
    destruct (block_result L T (r_schema q) (r_codec q) marker b) as [out|e]; [|exact H].
    destruct H as (p' & Hstep & Hs' & Hm' & Hsch' & Hcod' & Hbuf').
    exists p'. split; [exact Hstep|]. split; [|exact Hbuf'].
    unfold at_reader. rewrite Hs', Hm', Hsch', Hcod', Hq, Hqm. auto.
Qed.

(** The step asks for more data although the item is whole: it does so
    again after every refill. *)
Lemma item_waits (q : reader) (it : item) (p : parser) (more : bytes) :
  item_outcome L T fuel q it = Some (Raise AvroInsufficientDataException) ->
  tracks L T fuel q it p -> buffer_is p (item_bytes it ++ more) ->
  fst (_parse_next_item L T fuel p) = Raise AvroInsufficientDataException /\
  forall x, tracks L T fuel q it (refilled L T fuel p [x]).
Proof.
  intros Hout Htr Hbuf.
  pose proof (item_whole q it _ p more Hout Htr Hbuf) as Hstep. cbv beta iota in Hstep.
  split; [exact Hstep|]. intros x.
  destruct it as [m|toks|m|b]; cbn [item_outcome tracks] in *.
  - destruct (Z.eqb_spec (r_state q) AVRO_HEADER_MAGIC) as [Hq|]; [|discriminate].
    apply at_reader_refilled; [rewrite Hq; exact phase_neq_12|exact Htr|exact Hstep].
  - destruct (r_marker q) as [|] eqn:Hqm; [discriminate|].
    destruct (Z.eqb_spec (r_state q) AVRO_HEADER_FILE_METADATA) as [Hq|]; [|discriminate].
    destruct (metadata_walk L T toks 0 fuel []) as [[out|e]|] eqn:Hw; try discriminate.
    destruct Htr as (Hs & Hm & _).
    destruct (refilled_attrs L T fuel p x Hstep) as (Rs & Rm & _).
    split; [rewrite Rs; exact Hs|]. split; [rewrite Rm; exact Hm|].
    intros out Hc. discriminate Hc.
  - destruct (r_marker q) as [|] eqn:Hqm; [discriminate|].
    destruct (Z.eqb_spec (r_state q) AVRO_SYNC_MARKER) as [Hq|]; [|discriminate].
    apply at_reader_refilled; [rewrite Hq; exact phase_neq_32|exact Htr|exact Hstep].
  - destruct (r_marker q) as [marker|] eqn:Hqm; [|discriminate].
    destruct (Z.eqb_spec (r_state q) AVRO_START_DATABLOCK) as [Hq|]; [|discriminate].
    apply at_reader_refilled; [rewrite Hq; exact phase_neq_42|exact Htr|exact Hstep].
Qed.

Lemma run_raise (steps : nat) (p : parser) (src : source) (e : exn) :
  fst (fst (next L T fuel (recursion_limit L) p src)) = Raise e ->
  run L T fuel (S steps) p src = ([], e).
Proof.
  intros H. cbn [run].
  destruct (next L T fuel (recursion_limit L) p src) as [[r p'] src'].
  cbn [fst] in H. subst r. reflexivity.
Qed.

Lemma item_outcome_phase (q q' : reader) (it : item) (out : bytes) :
  item_outcome L T fuel q it = Some (Ok (out, q')) ->
  AVRO_HEADER_MAGIC <= r_state q' <= AVRO_START_DATABLOCK.
Proof.
  destruct it as [m|toks|m|b]; cbn [item_outcome].
  - destruct (_ && _); [|discriminate].
    destruct (negb _); [discriminate|]. intros [= _ <-]. cbn [r_state].
    unfold AVRO_HEADER_MAGIC, AVRO_HEADER_FILE_METADATA, AVRO_START_DATABLOCK. lia.
  - destruct (r_marker q); [discriminate|].
    destruct (_ =? _); [|discriminate].
    destruct (metadata_walk L T toks 0 fuel []) as [[o|e]|]; try discriminate.
    intros [= _ <-]. cbn [r_state].
    unfold AVRO_HEADER_MAGIC, AVRO_SYNC_MARKER, AVRO_START_DATABLOCK. lia.
  - destruct (r_marker q); [discriminate|].
    destruct (_ && _); [|discriminate]. intros [= _ <-]. cbn [r_state].
    unfold AVRO_HEADER_MAGIC, AVRO_START_DATABLOCK. lia.
  - destruct (r_marker q); [|discriminate].
    destruct (Z.eqb_spec (r_state q) AVRO_START_DATABLOCK) as [Hq|]; [|discriminate].
    destruct (block_ok b); [|discriminate]. cbn [andb].
    destruct (block_result L T (r_schema q) (r_codec q) b0 b); [|discriminate].
    intros [= _ <-]. rewrite Hq.
    unfold AVRO_HEADER_MAGIC, AVRO_START_DATABLOCK. lia.
Qed.

Lemma len_zero_nil {A} (l : list A) : len l = 0 -> l = [].
Proof.
  destruct l as [|x l]; [reflexivity|]. rewrite len_cons.
  pose proof (len_nonneg l). lia.
Qed.

Lemma concat_firstn_skipn (k : nat) (src : source) :
  concat (firstn k src) ++ concat (skipn k src) = concat src.
Proof. rewrite <- concat_app, firstn_skipn. reflexivity. Qed.

(** Every buffer that the source leads to is a part of the stream. *)
Lemma prefix_of_stream (avail later stream : bytes) (src : source) (k : nat) :
  (avail ++ concat src) ++ later = stream ->
  (avail ++ concat (firstn k src)) ++ (concat (skipn k src) ++ later) = stream /\
  len (avail ++ concat (firstn k src)) <= len (avail ++ concat src).
Proof.
  intros <-. split.
  - rewrite <- !app_assoc. rewrite (app_assoc (concat (firstn k src))).
    rewrite concat_firstn_skipn. reflexivity.
  - rewrite !len_app. rewrite <- (concat_firstn_skipn k src), len_app.
    pose proof (len_nonneg (concat (skipn k src))). lia.
Qed.

(** The iteration ends for want of data when nothing is left to read. *)
Lemma run_nothing_left (p : parser) (src : source) (steps : nat) :
  AVRO_HEADER_MAGIC <= state p <= AVRO_START_DATABLOCK ->
  buffer_is p [] -> concat src = [] ->
  (List.length src <= recursion_limit L)%nat ->
  run L T fuel (S steps) p src = ([], StopIteration).
Proof.
  intros Hs Hbuf Hsrc Hlen. apply run_raise.
  apply (next_waits L T fuel
           (fun p => AVRO_HEADER_MAGIC <= state p <= AVRO_START_DATABLOCK)
           (fun a => a = [])) with (avail := []); try assumption.
  - intros p0 avail0 Hs0 (Hb0 & Hl0) ->.
    assert (Hstep : fst (_parse_next_item L T fuel p0)
                    = Raise AvroInsufficientDataException)
      by (apply empty_buffer_insufficient; assumption).
    split; [exact Hstep|]. intros x.
    destruct (refilled_attrs L T fuel p0 x Hstep) as (Rs & _). rewrite Rs. exact Hs0.
  - intros k. cbn [app].
    pose proof (concat_firstn_skipn k src) as H. rewrite Hsrc in H.
    apply app_eq_nil in H. exact (proj1 H).
Qed.

(** The iteration ends for want of data when the next item is not whole. *)
Lemma run_item_cut (q : reader) (it : item) (r : res (bytes * reader)) (p : parser)
  (avail later stream_tail : bytes) (src : source) (steps : nat) :
  item_outcome L T fuel q it = Some r ->
  tracks L T fuel q it p -> buffer_is p avail ->
  (avail ++ concat src) ++ later = item_bytes it ++ stream_tail ->
  len (avail ++ concat src) < len (item_bytes it) ->
  (List.length src <= recursion_limit L)%nat ->
  run L T fuel (S steps) p src = ([], StopIteration).
Proof.
  intros Hout Htr Hbuf Heq Hcut Hlen. apply run_raise.
  apply (next_waits L T fuel (tracks L T fuel q it)
           (fun a => short_of a (item_bytes it))) with (avail := avail);
    try assumption.
  - intros p0 avail0 Htr0 Hbuf0 Hs0. exact (item_short q it r p0 avail0 Hout Htr0 Hbuf0 Hs0).
  - intros k. destruct (prefix_of_stream avail later _ src k Heq) as (Hk & Hl).
    apply (short_of_short _ _ _ _ Hk). lia.
Qed.

(** The iteration ends for want of data when the step asks for more data on
    the whole item. *)
Lemma run_item_waits (q : reader) (it : item) (p : parser)
  (avail later stream_tail : bytes) (src : source) (steps : nat) :
  item_outcome L T fuel q it = Some (Raise AvroInsufficientDataException) ->
  tracks L T fuel q it p -> buffer_is p avail ->
  (avail ++ concat src) ++ later = item_bytes it ++ stream_tail ->
  (List.length src <= recursion_limit L)%nat ->
  run L T fuel (S steps) p src = ([], StopIteration).
Proof.
  intros Hout Htr Hbuf Heq Hlen. apply run_raise.
  apply (next_waits L T fuel (tracks L T fuel q it)
           (fun a => exists later', a ++ later' = item_bytes it ++ stream_tail))
    with (avail := avail); try assumption.
  - intros p0 avail0 Htr0 Hbuf0 (later' & H0).
    destruct (prefix_cases avail0 later' (item_bytes it) stream_tail H0)
      as [(more & -> & _)|Hs0].
    + exact (item_waits q it p0 more Hout Htr0 Hbuf0).
    + exact (item_short q it _ p0 avail0 Hout Htr0 Hbuf0 Hs0).
  - intros k. destruct (prefix_of_stream avail later _ src k Heq) as (Hk & _).
    eexists. exact Hk.
Qed.

(** The call of [next] for an item that is delivered whole. *)
Lemma next_item_whole (q : reader) (it : item) (r : res (bytes * reader)) (p : parser)
  (avail later stream_tail : bytes) (src src' : source) (a' : Z) :
  item_outcome L T fuel q it = Some r ->
  tracks L T fuel q it p -> buffer_is p avail ->
  (avail ++ concat src) ++ later = item_bytes it ++ stream_tail ->
  take_item (recursion_limit L) (len (item_bytes it)) (len avail) src = Some (a', src') ->
  match r with
  | Ok (out, q') =>
      exists p' more,
        next L T fuel (recursion_limit L) p src = (Ok out, p', src') /\
        at_reader q' p' /\ buffer_is p' more /\
        (more ++ concat src') ++ later = stream_tail /\ a' = len more
  | Raise e =>
      e <> AvroInsufficientDataException ->
      fst (fst (next L T fuel (recursion_limit L) p src)) = Raise e
  end.
Proof.
  intros Hout Htr Hbuf Heq Htake.
  destruct (refill_until L T fuel (tracks L T fuel q it) (item_bytes it)
              (fun p0 avail0 Htr0 Hbuf0 Hs0 => item_short q it r p0 avail0 Hout Htr0 Hbuf0 Hs0)
              src (recursion_limit L) p avail later stream_tail a' src'
              Htr Hbuf Heq Htake)
    as (depth' & p1 & more & Hnext & Htr1 & Hbuf1 & Hmore & Ha).
  pose proof (item_whole q it r p1 more Hout Htr1 Hbuf1) as Hstep.
  destruct r as [[out q']|e].
  - destruct Hstep as (p' & Hstep & Hat & Hbuf').
    exists p', more. rewrite Hnext, (next_returns L T fuel depth' p1 p' src' out Hstep).
    auto.
  - intros He. rewrite Hnext. exact (next_raises L T fuel depth' p1 src' e Hstep He).
Qed.

(** The iteration over a stream yields what [read_items] says, and ends as
    it says. *)
Lemma run_items (items : list item) :
  forall q p avail src later tail rd steps,
    AVRO_HEADER_MAGIC <= r_state q <= AVRO_START_DATABLOCK ->
    at_reader q p -> buffer_is p avail ->
    read_items L T fuel q items (len (avail ++ concat src)) = Some rd ->
    (avail ++ concat src) ++ later = concat (map item_bytes items) ++ tail ->
    calls_within (recursion_limit L) (needs rd) (waits rd) (len avail) src = true ->
    (List.length (yielded rd) < steps)%nat ->
    run L T fuel steps p src = (yielded rd, ended rd).
Proof.
  induction items as [|it items IH];
    intros q p avail src later tail rd steps Hq Hat Hbuf Hread Heq Hcalls Hsteps;
    (destruct steps as [|steps]; [cbn in Hsteps; lia|]); cbn [read_items] in Hread.
  - destruct (Z.eqb_spec (len (avail ++ concat src)) 0) as [H0|]; [|discriminate].
    injection Hread as <-. cbn [out_of_data yielded ended needs waits calls_within] in *.
    rewrite len_app in H0.
    pose proof (len_nonneg avail). pose proof (len_nonneg (concat src)).
    assert (Ha : avail = []) by (apply len_zero_nil; lia).
    assert (Hs : concat src = []) by (apply len_zero_nil; lia).
    subst avail. apply run_nothing_left; try assumption.
    + destruct Hat as (E & _). rewrite E. exact Hq.
    + apply Nat.leb_le. exact Hcalls.
  - cbn [map concat] in Heq. rewrite <- (app_assoc (item_bytes it)) in Heq.
    destruct (item_outcome L T fuel q it) as [r|] eqn:Hout; [|discriminate].
    pose proof (at_reader_tracks q it p Hat) as Htr.
    destruct (Z.ltb_spec (len (avail ++ concat src)) (len (item_bytes it))) as [Hcut|Hwhole].
    { injection Hread as <-. cbn [out_of_data yielded ended needs waits calls_within] in *.
      apply (run_item_cut q it r p avail later _ src steps Hout Htr Hbuf Heq Hcut).
      apply Nat.leb_le. exact Hcalls. }
    destruct r as [[out q']|e].
    + destruct (read_items L T fuel q' items _) as [rd'|] eqn:Hread'; [|discriminate].
      injection Hread as <-. cbn [yielded ended needs waits calls_within] in *.
      destruct (take_item _ _ _ _) as [[a' src']|] eqn:Htake; [|discriminate].
      destruct (next_item_whole q it _ p avail later _ src src' a' Hout Htr Hbuf Heq Htake)
        as (p' & more & Hnext & Hat' & Hbuf' & Hmore & ->).
      cbn [run]. rewrite Hnext.
      rewrite (IH q' p' more src' later tail rd' steps); [reflexivity|..].
      * exact (item_outcome_phase q q' it out Hout).
      * exact Hat'.
      * exact Hbuf'.
      * rewrite <- Hread'. f_equal.
        rewrite <- Hmore in Heq. apply (f_equal len) in Heq.
        rewrite !len_app in *. lia.
      * exact Hmore.
      * exact Hcalls.
      * cbn [List.length] in Hsteps. lia.
    + assert (Hcase :
        e = AvroInsufficientDataException /\ rd = out_of_data \/
        e <> AvroInsufficientDataException /\
        rd = mkReading [] e [len (item_bytes it)] false).
      { destruct e; injection Hread as <-;
          first [left; split; reflexivity|right; split; [discriminate|reflexivity]]. }
      destruct Hcase as [(-> & ->)|(He & ->)];
        cbn [out_of_data yielded ended needs waits calls_within] in *.
      * apply (run_item_waits q it p avail later _ src steps Hout Htr Hbuf Heq).
        apply Nat.leb_le. exact Hcalls.
      * destruct (take_item _ _ _ _) as [[a' src']|] eqn:Htake; [|discriminate].
        apply run_raise.
        exact (next_item_whole q it _ p avail later _ src src' a' Hout Htr Hbuf Heq Htake He).
Qed.

End Reading.

(** ** A stream through the transcoder *)

Lemma transcode_stream (L : Libs) (T : Transform) (fuel steps : nat)
  (items : list item) (tail missing : bytes) (rd : reading)
  (initbody : bytes) (src : source) :
  read_items L T fuel reader_start items (len (initbody ++ concat src)) = Some rd ->
  (initbody ++ concat src) ++ missing = stream_bytes items tail ->
  calls_within (recursion_limit L) (needs rd) (waits rd) (len initbody) src = true ->
  (List.length (yielded rd) < steps)%nat ->
  transcode L T fuel steps initbody src = (concat (yielded rd), ended rd).
Proof.
  intros Hread Heq Hcalls Hsteps. unfold transcode.
  rewrite (run_items L T fuel items reader_start (init initbody) initbody src
             missing tail rd steps); [reflexivity|..]; try assumption.
  - cbn [reader_start r_state].
    unfold AVRO_HEADER_MAGIC, AVRO_START_DATABLOCK. lia.
  - repeat split; reflexivity.
  - split; reflexivity.
Qed.

(** ** A valid file, with the nesting of [next] bounded call by call *)

Section Within.

Variable L : Libs.
Variable T : Transform.
Variable keep : json -> bool.
Hypothesis HT : follows T keep.
Variable fuel : nat.

Section OneItem.

Variables (Pre Post : parser -> Prop) (item out : bytes).

Hypothesis Hcomplete :
  forall p more,
    Pre p -> buffer_is p (item ++ more) ->
    exists p',
      _parse_next_item L T fuel p = (Ok out, p') /\ Post p' /\ buffer_is p' more.

Hypothesis Hpartial :
  forall p avail,
    Pre p -> buffer_is p avail -> short_of avail item ->
    exists p',
      _parse_next_item L T fuel p = (Raise AvroInsufficientDataException, p') /\
      Pre p' /\ buffer_is p' avail.

Hypothesis Hrefill :
  forall p x,
    Pre p -> Pre (set_blen (blen p + len x) (set_buffered (buffered p ++ x) p)).

Lemma short_from_partial (p : parser) (avail : bytes) :
  Pre p -> buffer_is p avail -> short_of avail item ->
  fst (_parse_next_item L T fuel p) = Raise AvroInsufficientDataException /\
  forall x, Pre (refilled L T fuel p [x]).
Proof.
  intros Hpre Hbuf Hs.
  destruct (Hpartial p avail Hpre Hbuf Hs) as (p' & Hstep & Hpre' & _).
  split; [rewrite Hstep; reflexivity|]. intros x.
  cbn [refilled]. rewrite Hstep. cbn [snd]. exact (Hrefill p' x Hpre').
Qed.

(** One call of [next] for an item: it returns what the step returns for
    the whole item, when the chunks that the item needs are no more than
    [next] may nest calls. *)
Lemma next_item_within (p : parser) (avail later tail : bytes) (src src' : source)
  (a' : Z) :
  Pre p -> buffer_is p avail ->
  (avail ++ concat src) ++ later = item ++ tail ->
  take_item (recursion_limit L) (len item) (len avail) src = Some (a', src') ->
  exists p' more,
    next L T fuel (recursion_limit L) p src = (Ok out, p', src') /\
    Post p' /\ buffer_is p' more /\
    (more ++ concat src') ++ later = tail /\ a' = len more.
Proof.
  intros Hpre Hbuf Heq Htake.
  destruct (refill_until L T fuel Pre item short_from_partial
              src (recursion_limit L) p avail later tail a' src'
              Hpre Hbuf Heq Htake)
    as (depth' & p1 & more & Hnext & Hpre1 & Hbuf1 & Hmore & Ha).
  destruct (Hcomplete p1 more Hpre1 Hbuf1) as (p' & Hstep & Hpost & Hbuf').
  exists p', more. rewrite Hnext, (next_returns L T fuel depth' p1 p' src' out Hstep).
  auto.
Qed.

End OneItem.

Variable fs : list json.
Variable ts : list string.
Hypothesis Hfs : field_types fs = Some ts.
Hypothesis Hsup : forallb supported_type ts = true.
Variable marker : bytes.
Hypothesis Hmarker : len marker = 16.

(** The data blocks of a valid file, and the end of the iteration. *)
Lemma run_blocks_within (blocks : list ocf_block) :
  forall steps src p avail,
    between_data_blocks p fs marker -> buffer_is p avail ->
    avail ++ concat src = concat (map (fun bl => block_wire bl ++ marker) blocks) ->
    calls_within (recursion_limit L)
                 (map len (map (fun bl => block_wire bl ++ marker) blocks)) true
                 (len avail) src = true ->
    forallb (block_valid L ts) blocks = true ->
    (List.length blocks < steps)%nat ->
    run L T fuel steps p src
    = (map (fun bl => out_block L keep fs bl ++ marker) blocks, StopIteration).
Proof.
  induction blocks as [|bl blocks IH];
    intros steps src p avail Hpre Hbuf Heq Hcalls Hv Hsteps;
    (destruct steps as [|steps]; [simpl in Hsteps; lia|]); cbn [run map].
  - cbn [map concat] in Heq. apply app_eq_nil in Heq. destruct Heq as [-> Heq].
    cbn [map calls_within] in Hcalls. apply Nat.leb_le in Hcalls.
    pose proof (next_end L T fuel fs marker src (recursion_limit L) p Hpre Hbuf
                  Heq Hcalls) as E.
    destruct (next L T fuel (recursion_limit L) p src) as [[r p'] src'].
    cbn [fst] in E. subst r. reflexivity.
  - cbn [forallb] in Hv. apply andb_true_iff in Hv. destruct Hv as [Hbl Hbls].
    cbn [map concat] in Heq. cbn [map calls_within] in Hcalls.
    destruct (take_item _ _ _ _) as [[a' src']|] eqn:Htake; [|discriminate].
    assert (Hcomplete : forall q more,
               between_data_blocks q fs marker ->
               buffer_is q ((block_wire bl ++ marker) ++ more) ->
               exists p',
                 _parse_next_item L T fuel q
                   = (Ok (out_block L keep fs bl ++ marker), p') /\
                 between_data_blocks p' fs marker /\ buffer_is p' more).
    { intros q more Hq Hb. rewrite (parse_next_item_block L T fuel q (proj1 Hq)).
      exact (block_complete L T keep HT fs ts Hfs Hsup q bl marker more Hq Hb Hmarker Hbl). }
    assert (Hpartial : forall q av,
               between_data_blocks q fs marker -> buffer_is q av ->
               short_of av (block_wire bl ++ marker) ->
               exists p',
                 _parse_next_item L T fuel q = (Raise AvroInsufficientDataException, p') /\
                 between_data_blocks p' fs marker /\ buffer_is p' av).
    { intros q av Hq Hb Hs. rewrite (parse_next_item_block L T fuel q (proj1 Hq)).
      exact (block_partial L T fs ts q bl marker av Hq Hb Hmarker Hbl Hs). }
    assert (Heq' : (avail ++ concat src) ++ []
                   = (block_wire bl ++ marker)
                     ++ concat (map (fun bl => block_wire bl ++ marker) blocks))
      by (rewrite app_nil_r; exact Heq).
    destruct (next_item_within _ _ _ _ Hcomplete Hpartial
                (between_blocks_refill fs marker)
                p avail [] _ src src' a' Hpre Hbuf Heq' Htake)
      as (p' & more & Hnext & Hpost & Hbuf' & Hmore & ->).
    rewrite Hnext. rewrite app_nil_r in Hmore.
    assert (Hsteps' : (List.length blocks < steps)%nat) by (simpl in Hsteps; lia).
    rewrite (IH steps src' p' more Hpost Hbuf' Hmore Hcalls Hbls Hsteps').
    reflexivity.
Qed.

End Within.

Section ValidWithin.

Variable L : Libs.
Variable T : Transform.
Variable keep : json -> bool.
Hypothesis HT : follows T keep.
Variable fuel : nat.

(** The items yielded for a valid file, when no call of [next] nests deeper
    than the interpreter allows. *)
Lemma run_valid_within (f : ocf_file) (steps : nat) (initbody : bytes) (src : source) :
  ocf_valid L f = true ->
  initbody ++ concat src = ocf_wire f ->
  calls_within (recursion_limit L) (map len (ocf_items f)) true
               (len initbody) src = true ->
  (List.length (file_meta f) <= fuel)%nat ->
  (List.length (file_blocks f) + 4 <= steps)%nat ->
  run L T fuel steps (init initbody) src
  = (transcoded_items L keep f, StopIteration).
Proof.
  intros Hv Heq Hcalls Hfuel Hsteps.
  destruct (ocf_valid_inv L f Hv)
    as (text & ms & ts & Hm & Hg & Hc & Htext & Hj & Hf & Hts & Hsup & Hbl).
  destruct steps as [|[|[|steps]]]; try (simpl in Hsteps; lia).
  unfold ocf_wire in Heq. unfold ocf_items in Hcalls.
  cbn [map calls_within] in Hcalls. cbn [run].
  assert (Heq0 : (initbody ++ concat src) ++ []
                 = header_magic ++ metadata_wire (file_meta f) ++ file_marker f ++
                   concat (map (fun bl => block_wire bl ++ file_marker f) (file_blocks f)))
    by (rewrite app_nil_r; exact Heq).
  (* the header magic *)
  destruct (take_item _ _ _ src) as [[a1 src1]|] eqn:Ht1; [|discriminate].
  destruct (next_item_within L T fuel awaiting_magic awaiting_metadata
              header_magic header_magic
              (magic_complete L T fuel) (magic_partial L T fuel)
              (awaiting_magic_refill)
              (init initbody) initbody [] _ src src1 a1
              (conj eq_refl eq_refl) (conj eq_refl eq_refl) Heq0 Ht1)
    as (p1 & more1 & Hn1 & Hp1 & Hb1 & Hq1 & ->).
  rewrite Hn1.
  (* the metadata *)
  destruct (take_item _ _ _ src1) as [[a2 src2]|] eqn:Ht2; [|discriminate].
  destruct (next_item_within L T fuel awaiting_metadata
              (fun q => awaiting_sync q (file_fields L f))
              (metadata_wire (file_meta f)) (out_metadata L keep (file_meta f))
              (fun q more => metadata_valid_complete L T keep HT fuel f q more Hv Hfuel)
              (fun q av Hq Hb Hs =>
                 metadata_partial L T keep HT fuel q (file_meta f) av Hq Hb Hg Hfuel Hs)
              (awaiting_metadata_refill)
              p1 more1 [] _ src1 src2 a2 Hp1 Hb1 Hq1 Ht2)
    as (p2 & more2 & Hn2 & Hp2 & Hb2 & Hq2 & ->).
  rewrite Hn2.
  (* the sync marker of the header *)
  destruct (take_item _ _ _ src2) as [[a3 src3]|] eqn:Ht3; [|discriminate].
  destruct (next_item_within L T fuel (fun q => awaiting_sync q (file_fields L f))
              (fun q => between_data_blocks q (file_fields L f) (file_marker f))
              (file_marker f) (file_marker f)
              (fun q more Hq Hb =>
                 sync_complete L T fuel q (file_fields L f) (file_marker f) more Hq Hb Hm)
              (fun q av Hq Hb Hs =>
                 sync_partial L T fuel q (file_fields L f) (file_marker f) av Hq Hb Hm Hs)
              (awaiting_sync_refill (file_fields L f))
              p2 more2 [] _ src2 src3 a3 Hp2 Hb2 Hq2 Ht3)
    as (p3 & more3 & Hn3 & Hp3 & Hb3 & Hq3 & ->).
  rewrite Hn3. rewrite app_nil_r in Hq3.
  (* the data blocks *)
  assert (Hsteps' : (List.length (file_blocks f) < steps)%nat) by lia.
  rewrite (run_blocks_within L T keep HT fuel (file_fields L f) ts Hts Hsup
             (file_marker f) Hm
             (file_blocks f) steps src3 p3 more3 Hp3 Hb3 Hq3 Hcalls Hbl Hsteps').
  reflexivity.
Qed.

Lemma transcode_valid_within (f : ocf_file) (steps : nat) (initbody : bytes)
  (src : source) :
  ocf_valid L f = true ->
  initbody ++ concat src = ocf_wire f ->
  calls_within (recursion_limit L) (map len (ocf_items f)) true
               (len initbody) src = true ->
  (List.length (file_meta f) <= fuel)%nat ->
  (List.length (file_blocks f) + 4 <= steps)%nat ->
  transcode L T fuel steps initbody src = (transcoded_wire L keep f, StopIteration).
Proof.
  intros Hv Heq Hcalls Hfuel Hsteps. unfold transcode.
  rewrite (run_valid_within f steps initbody src Hv Heq Hcalls Hfuel Hsteps).
  reflexivity.
Qed.

End ValidWithin.

(** ** What one call of [next] does *)

(** X9. What [next] does is one step on everything received, and it takes a
    chunk from the source only after the step has asked for more data: the
    chunks it takes are a prefix of the source; before each of them the step,
    run on what was received until then, raised
    [AvroInsufficientDataException]; the chunks are appended to the buffer
    in order; and what [next] returns or raises is what the step returns or
    raises on that buffer. It raises [StopIteration] when the step still
    asks for data and the source is empty, and a [RuntimeError] when it has
    nested as deep as the interpreter allows. No chunk is dropped and none
    is taken after the step has succeeded or failed. *)
Theorem next_steps_on_all_received (L : Libs) (T : Transform) (fuel : nat)
  (src : source) (depth : nat) (p : parser)
  (r : res bytes) (p' : parser) (src' : source) :
  next L T fuel depth p src = (r, p', src') ->
  exists consumed,
    src = consumed ++ src' /\
    (forall k, (k < List.length consumed)%nat ->
       fst (_parse_next_item L T fuel (refilled L T fuel p (firstn k consumed)))
         = Raise AvroInsufficientDataException) /\
    buffered (refilled L T fuel p consumed) = buffered p ++ concat consumed /\
    blen (refilled L T fuel p consumed) = blen p + len (concat consumed) /\
    state (refilled L T fuel p consumed) = state p /\
    syncmarker (refilled L T fuel p consumed) = syncmarker p /\
    ((r <> Raise AvroInsufficientDataException /\
      _parse_next_item L T fuel (refilled L T fuel p consumed) = (r, p')) \/
     (r = Raise StopIteration /\ src' = [] /\
      _parse_next_item L T fuel (refilled L T fuel p consumed)
        = (Raise AvroInsufficientDataException, p')) \/
     (r = Raise (PyError RuntimeError) /\
      List.length consumed = S depth /\ p' = refilled L T fuel p consumed)).
Proof.
  revert depth p r p' src'.
  induction src as [|x src IH]; intros depth p r p' src' H;
    rewrite next_eq in H;
    pose proof (step_insufficient_frame L T fuel p) as Hframe;
    destruct (_parse_next_item L T fuel p) as [[item|e] p1] eqn:Hstep.
  1, 3: injection H as <- <- <-; exists []; cbn [concat app refilled List.length];
        rewrite app_nil_r; change (len (@nil byte)) with 0;
        repeat split; try lia; left; split; [discriminate|exact Hstep].
  - exists []. cbn [concat app refilled List.length]. rewrite app_nil_r.
    change (len (@nil byte)) with 0.
    destruct e; injection H as <- <- <-; repeat split; try lia;
      try (left; split; [discriminate|exact Hstep]).
    right; left. auto.
  - destruct e;
      try (injection H as <- <- <-; exists []; cbn [concat app refilled List.length];
           rewrite app_nil_r; change (len (@nil byte)) with 0;
           repeat split; try lia; left; split; [discriminate|exact Hstep]).
    cbn [fst snd] in Hframe. destruct (Hframe eq_refl) as (Hb & Hl & Hs & Hm).
    cbn zeta in H. destruct depth as [|depth].
    + injection H as <- <- <-.
      exists [x]. cbn [refilled]. rewrite Hstep. cbn [snd].
      msimpl. cbn [concat app List.length]. rewrite app_nil_r.
      split; [reflexivity|]. split.
      { intros [|k] Hk; [|lia]. cbn [firstn refilled]. rewrite Hstep. reflexivity. }
      split; [rewrite Hb; reflexivity|]. split; [rewrite Hl; reflexivity|].
      split; [exact Hs|]. split; [exact Hm|]. right; right. auto.
    + apply IH in H.
      destruct H as (consumed & -> & Hpre & Hqb & Hql & Hqs & Hqm & Hcases).
      exists (x :: consumed). cbn [refilled]. rewrite Hstep. cbn [snd].
      cbn [concat app List.length]. msimpl.
      split; [reflexivity|]. split.
      { intros [|k] Hk; cbn [firstn refilled]; [rewrite Hstep; reflexivity|].
        rewrite Hstep. cbn [snd]. apply Hpre. lia. }
      split; [rewrite Hqb, Hb, <- app_assoc; reflexivity|].
      split; [rewrite Hql, Hl, len_app; lia|].
      split; [rewrite Hqs; exact Hs|]. split; [rewrite Hqm; exact Hm|].
      destruct Hcases as [Hc|[Hc|(Hr & Hn & Hq)]]; [left; exact Hc|right; left; exact Hc|].
      right; right. auto.
Qed.

Lemma next_steps_on_all_received_witness :
  exists consumed,
    [bstr "O"; bstr "bj"; [x01; x00]; bstr "later"] = consumed ++ [bstr "later"] /\
    (forall k, (k < List.length consumed)%nat ->
       fst (_parse_next_item demo GenericStreamingAvroParser 1
              (refilled demo GenericStreamingAvroParser 1 (init []) (firstn k consumed)))
         = Raise AvroInsufficientDataException) /\
    _parse_next_item demo GenericStreamingAvroParser 1
      (refilled demo GenericStreamingAvroParser 1 (init []) consumed)
      = (Ok header_magic,
         snd (fst (next demo GenericStreamingAvroParser 1 5 (init [])
                     [bstr "O"; bstr "bj"; [x01; x00]; bstr "later"]))).
Proof.
  destruct (next_steps_on_all_received demo GenericStreamingAvroParser 1
              [bstr "O"; bstr "bj"; [x01; x00]; bstr "later"] 5 (init [])
              (Ok header_magic)
              (snd (fst (next demo GenericStreamingAvroParser 1 5 (init [])
                           [bstr "O"; bstr "bj"; [x01; x00]; bstr "later"])))
              [bstr "later"] eq_refl)
    as (consumed & Hsrc & Hpre & _ & _ & _ & _ & Hcases).
  exists consumed. split; [exact Hsrc|]. split; [exact Hpre|].
  destruct Hcases as [[_ H]|[[H _]|[H _]]]; [exact H|discriminate H|discriminate H].
Defined.

(** ** Round trip and chunking *)




(** Nor is a valid file reproduced because its schema text and its payloads
    are canonical: the checksum that the container format asks for is the
    CRC-32 in big-endian order, and on a little-endian host the transcoder
    writes it in little-endian order. *)
Example big_endian_checksum_is_rewritten :
  ocf_valid demo scenario_big_endian = true /\
  file_meta scenario_big_endian = file_meta scenario_dumped /\
  map block_payload (file_blocks scenario_big_endian)
    = map block_payload (file_blocks scenario_dumped) /\
  map block_checksum (file_blocks scenario_big_endian) = [[x78; xfa; xe8; xef]] /\
  map block_checksum (file_blocks scenario_dumped) = [[xef; xe8; xfa; x78]] /\
  transcode demo GenericStreamingAvroParser 1 5 (ocf_wire scenario_big_endian) []
    = (ocf_wire scenario_dumped, StopIteration).
Proof. repeat split; vm_compute; reflexivity. Qed.

(** The bound on the chunks is one for each call of [next], not for the
    whole source: under an interpreter that allows three nested calls, the
    scenario delivered in four chunks, one for each item, is reproduced. *)
Example four_chunks_under_limit_three :
  List.length (ocf_items scenario_dumped) = 4%nat /\
  concat (ocf_items scenario_dumped) = ocf_wire scenario_dumped /\
  transcode (demo_with_limit 3) GenericStreamingAvroParser 1 5 []
            (ocf_items scenario_dumped)
    = (ocf_wire scenario_dumped, StopIteration).
Proof.
  split; [reflexivity|]. split; [vm_compute; reflexivity|].
  assert (Hv : ocf_valid (demo_with_limit 3) scenario_dumped = true)
    by (vm_compute; reflexivity).
  assert (Hc : ocf_canonical (demo_with_limit 3) scenario_dumped = true)
    by (vm_compute; reflexivity).
  rewrite (transcode_valid_within (demo_with_limit 3) GenericStreamingAvroParser
             (fun _ => true) follows_generic 1 scenario_dumped 5 []
             (ocf_items scenario_dumped) Hv);
    [rewrite (transcoded_canonical _ _ Hv Hc); reflexivity
    |vm_compute; reflexivity|vm_compute; reflexivity|simpl; lia|simpl; lia].
Qed.




(** Nor does the claim hold for every chunking of a valid file: [next] calls
    itself once per chunk that an item needs, so a metadata of more bytes
    than the interpreter allows nested calls, delivered one byte at a time,
    ends in a [RuntimeError], while delivered whole it is transcoded. *)
Example long_item_by_single_bytes :
  ocf_valid demo scenario_padded = true /\
  ocf_canonical demo scenario_padded = true /\
  transcode demo GenericStreamingAvroParser 1 5 [] [ocf_wire scenario_padded]
    = (ocf_wire scenario_padded, StopIteration) /\
  transcode demo GenericStreamingAvroParser 1 5 []
            (one_byte_chunks (ocf_wire scenario_padded))
    = (header_magic, PyError RuntimeError).
Proof. repeat split; vm_compute; reflexivity. Qed.

(** Nor does it hold when the size of a data block is less than the four
    bytes of its checksum: the slice that holds the compressed records then
    ends before it begins, that is, it is counted from the end of the
    buffer. The block of [short_block_stream] is transcoded when the stream
    arrives without its last byte first, and makes [snappy.decompress] fail
    when the stream arrives whole. *)
Example short_block_slices_from_the_end :
  concat [short_block_stream]
    = concat [firstn 158 short_block_stream; skipn 158 short_block_stream] /\
  transcode demo GenericStreamingAvroParser 1 6 []
            [firstn 158 short_block_stream; skipn 158 short_block_stream]
    = (header_magic ++ metadata_wire (file_meta scenario_dumped) ++ marker_Z ++
       [x00; x0a; x00; x00; x00; x00; x00] ++ marker_Z, StopIteration) /\
  transcode demo GenericStreamingAvroParser 1 6 [] [short_block_stream]
    = (header_magic ++ metadata_wire (file_meta scenario_dumped) ++ marker_Z,
       PyError LibraryError).
Proof. repeat split; vm_compute; reflexivity. Qed.

(** The file of the scenario with the codec ["null"] is a stream that the
    parser refuses at its first data block, however it is cut. *)
Example null_codec_in_any_chunks :
  transcode demo GenericStreamingAvroParser 1 5 []
            (one_byte_chunks (ocf_wire scenario_null))
    = (header_magic ++
       metadata_wire [[(bstr "avro.codec", bstr "null");
                       (bstr "avro.schema", bstr (dumps schema_ab))]] ++ marker_M,
       AvroParsingFailureException (UnknownCodec (Some (bstr "null")))) /\
  transcode demo GenericStreamingAvroParser 1 5 (ocf_wire scenario_null) []
    = transcode demo GenericStreamingAvroParser 1 5 []
                (one_byte_chunks (ocf_wire scenario_null)).
Proof.
  pose (rd := match read_items demo GenericStreamingAvroParser 1 reader_start
                      (items_of_file scenario_null) (len (ocf_wire scenario_null)) with
              | Some rd => rd
              | None => out_of_data
              end).
  assert (Hread : forall n, n = len (ocf_wire scenario_null) ->
            read_items demo GenericStreamingAvroParser 1 reader_start
              (items_of_file scenario_null) n = Some rd)
    by (intros n ->; vm_compute; reflexivity).
  rewrite (transcode_stream demo GenericStreamingAvroParser 1 5
             (items_of_file scenario_null) [] [] rd []
             (one_byte_chunks (ocf_wire scenario_null)));
    [|apply Hread; vm_compute; reflexivity|vm_compute; reflexivity
     |vm_compute; reflexivity|apply Nat.ltb_lt; vm_compute; reflexivity].
  rewrite (transcode_stream demo GenericStreamingAvroParser 1 5
             (items_of_file scenario_null) [] [] rd (ocf_wire scenario_null) []);
    [|apply Hread; vm_compute; reflexivity|vm_compute; reflexivity
     |vm_compute; reflexivity|apply Nat.ltb_lt; vm_compute; reflexivity].
  split; [vm_compute; reflexivity|reflexivity].
Qed.

(** ** The output as an input *)


